(* ===== verification/_CoqProject ===== *)
-Q . S2P
Prelude.v
GoIO.v
Framing.v
Strconv.v
Base64.v
Json.v
Conf.v
Log.v
Loggers.v
Message.v
CodecS1.v
Aes.v
FramerF1.v
FramerF1g.v
FramerWs.v
Packet.v
RwBuffer.v
Utils.v
Proxy.v
Lru.v
Sha1.v
Http.v
H1.v
H1Relay.v
Pool.v
PoolMux.v
PoolNet.v
Stack.v
NetAddr.v
Callers.v
Socks5.v
Tunnel.v
Backend.v
Resolver.v
Lifecycle.v
Pipeline.v
Drain.v
Teardown.v
Session.v
Apps.v
