(* ===== verification/Prelude.v ===== *)
(** * A verification development of df

    df is a SOCKS5 and HTTP proxy in two halves.  The local half accepts
    proxied connections (src/h2s, src/socks/socks5), and carries them through a
    backend (src/socks/backend) over an encrypted transport (src/transport) to
    the server half, which resolves the names and dials the targets
    (src/socks/tunnel).  Both halves speak messages (src/message) in the codec
    s1 (src/message/codec/s1).  This library is a shallow embedding of those
    packages, from the bytes on a wire up to the goroutines of a relay, with the
    theorems that make them correct and the ones that show where they are not.

    ** The model

    A function that does input or output is a computation [M S A], from a state
    to an outcome and a state; the outcome is a value, a Go error, a panic, or
    [Hang] for a loop that does not end ([Prelude]).  [io.Reader] and
    [io.Writer] are the classes [Reader] and [Writer] with their laws
    ([GoIO]): [delivers r bs] says that the reader has exactly [bs] left,
    however it cuts them into reads, and [emitted w w' bs] that a writer has
    been given exactly [bs].  The theorems about codecs, framers and handshakes
    are proved for all readers and writers, so that a framer, which is again an
    instance of both classes, can carry the next layer; the instances [Buf],
    [Conn] (a connection that delivers arbitrary chunks) and [Duplex] evaluate
    in the witnesses.  [TwoWay] adds that a connection's two directions do not
    interfere, and [in_turn] that the peer sends one part only after the other.
    A [bufio.Reader] is a connection with what was read ahead; code that drops
    it drops that, and [buffered] says where the bytes then are, for a
    connection of any kind ([buffered_lost]), for a peer that waits for its turn
    ([buffered_in_turn]), and for bytes that come in one segment
    ([buffered_at_once]).
    What a computation does to its state whatever its outcome is [moves Rel m],
    which [solve_moves] proves along its structure.  A method of a struct is a
    computation on the Record of its fields.  Integers are [Z] with their conversions written out ([uint32],
    [int64]); bytes are [Byte.byte].  Randomness ([rng]), clocks and the order
    in which a [sync.Map] is visited are arguments, and the theorems hold for
    all of them.

    What runs concurrently is a step relation: a function [exec] performs one
    action of one goroutine if it is enabled, [acts exec] is the relation, and
    the theorems speak of every state that [rtc] reaches, by
    [acts_invariant] or [rtc_invariant] ([Prelude]).

    ** The parts

    - What the program takes from Go's library, by its documentation or
      standard: [GoIO] (io, bytes, bufio), [Strconv] (strconv, fmt's %d,
      EqualFold), [Base64], [Json] (Marshal and Unmarshal of flat structs),
      [Aes] (FIPS 197 and CFB), [Sha1] (FIPS 180-4), [NetAddr] (ParseIP,
      IP.String, SplitHostPort).
    - [Conf] (src/conf): the parameters.  [Log] (src/log): levels, templates,
      the built-in logger, the handlers, syslog entries and the syslog worker.
      [Loggers] (src/log): the Handler and Logger interfaces, loggers with
      handlers of any kind.  [Callers] (src/log/func.go): the frame a message
      names.
    - [Message], [CodecS1] (src/message): the messages and their wire format;
      [S1.Read] and [S1.Write] are Reader.Read and Writer.Write.
    - [Framing], [FramerF1], [FramerF1g], [FramerWs] (src/transport/framer):
      the framers F1, F0, F1g and Ws.  The class [Framed] is what F1 and Ws
      share, a frame reader with a left-over; the reader laws follow from it.
    - [Packet], [Pool], [PoolMux], [PoolNet] (src/transport/h1pool): packets;
      shared and divided clients, the pool, the server's instances; the
      composition of the three over one transport; and the interleavings of
      everything over several, with the reads of both ends, and a history of
      what was written, sent and read.
    - [RwBuffer], [Utils], [Proxy] (src/utils): the in-memory pipe as an object
      and as interleaved calls; ids and the address filter; the relay's four
      goroutines.
    - [Lifecycle] (src/transport/h1pool, and the Server functions of src/transport/h1,
      src/transport/d1, src/socks/socks5 and src/h2s): the goroutines of a
      pooled session, the cleaner of the sessions' map, the pool's one worker,
      the accept loops.
    - Compositions: [Stack], codec, packets and framer on top of each other;
      [Session], an h1 exchange, the framers it yields and a tunnel's session
      over them; [Pipeline], the client's relay, its virtual connection, the
      transport and the server's relay as one transition system, which refines
      two byte pipes; [Drain], its liveness; [Teardown], the client's half of
      it with the handler that waits for the relay and closes everything.
    - [Lru] (src/lru, src/transport/transport.go): the caches and the registry
      of transports.
    - [Http] (src/http): header and response reading.  [H1], [H1Relay]
      (src/transport/h1): the authenticated exchange of client and server, and
      the client's goroutines after it.
    - [Socks5] (src/socks/socks5), [Backend], [Resolver] (src/socks/backend):
      the SOCKS5 server and connector; request ids, the uplink's worker and
      virtual connections; the concurrent calls of LookupIP.
    - [Tunnel] (src/socks/tunnel): the server's sessions, from resolution and
      the address filter to the relay with the target.
    - [Apps] (src/transport/*/init.go, src/h2s, src/examples): the suits, the
      HTTP proxy, and what the two programs make of their settings.

    ** What is proved

    - The layers compose: whatever the connections of a client process send on
      one encrypted, shared transport, the server's sessions read as the same
      messages ([stack_delivers]); an h1 client and server that share a key go
      from the first byte of the exchange to served requests without losing one
      ([h1_session]); and a proxied connection, in every interleaving of its
      goroutines in both halves, is a byte pipe in each direction
      ([pipeline_refines]), which runs empty: while no goroutine fails, a step is
      possible as long as anything is under way, and every step without new
      input decreases a measure ([pipeline_drains]).  When such a connection
      ends, the application's side is closed last ([teardown]); what of this
      fails, and for good, are a failed send and an end on the other side
      ([teardown], [end_not_passed_on]).
    - Codecs: s1, packets, HTTP requests and syslog entries are read back as
      they were written, from any cut of the wire ([s1_roundtrip],
      [packet_roundtrip], [http_request_roundtrip], [syslog_roundtrip]); on
      hostile input the readers return within their limits ([s1_read_total],
      [s1_read_truncated], [packet_read_bounded], [http_read_bounded]).
    - Channels: the framers are transparent byte streams ([f1_transparent],
      [ws_transparent], [f1g_session], [encrypt_decrypt]), which is the
      refinement of an encrypted, padded frame stream to the stream of the
      caller's bytes.
    - Sessions: the h1 exchange gives both ends the same key and opposite roles,
      and the server's handler sees authenticated clients only
      ([h1_key_agreement], [h1_authenticated]); a SOCKS5 client and server, and
      an HTTP request on top of them, dial exactly the named target, and relay
      what the client sends in its turn ([socks5_connect], [socks5_refused],
      [h2s_serves]); the server's half
      answers requests in order and dials nothing its filter forbids
      ([tunnel_session], [tunnel_dials_legit], [legit_ipv4]).
    - Multiplexing: any interleaving of clients on one shared transport leaves
      each with its own bytes ([pool_mux]); over a single transport what either
      end has read, what its buffer holds and what is on the way are exactly
      what the other end wrote ([pool_stream_order]); the pool stays small and
      retires its oldest ([pool_bounded], [pool_newest_trunk]); replies find the
      request that waits for them ([dns_reply_routed], [lookup_sound]), as long
      as the 32769 ids have not come round.
    - Goroutines: no interleaving reorders or invents bytes ([rwb_fifo],
      [proxy_faithful], whose bounds [proxy_bound_reached] attains, [h1_relay_faithful], [relay_faithful],
      [virtual_conn_ordered]); the caches and the logger do what their callers
      rely on ([cache_lookup], [cache_bounded], [log_filter], [format_template],
      [log_names_caller]); [io.Copy] in the relay's place would lose nothing
      ([iocopy_complete]); one worker, and one handler per connection
      ([worker_unique], [listeners_serve]); a message reaches a logger's
      handlers in order ([handlers_in_order]); the cleaner removes nothing that
      lives ([cleaner_harmless]).
    - What does not hold, each as a theorem that exhibits it: streams corrupted
      by a change of transport ([pool_switch_corrupts]), lost ends of streams
      ([pool_eos_lost], [proxy_drops_tail]), bytes lost with a buffered reader
      ([socks5_early_data_lost], [h2s_early_data_lost]), one name's addresses
      given to another ([lookup_confused]), a goroutine leaked with every pooled
      session ([instance_leaks]), an end of session that waits for ever
      ([eos_strands]), calls blocked for ever ([h1_relay_strands], [lookup_wedges], [syslog_jams],
      [virtual_conn_never_ends], [rwb_close_strands_reader],
      [rwb_empty_write_deadlocks]), panics on input ([h1_short_auth_panics],
      [f1_read_panics], [ws_negative_length_panics]), and others next to the
      component they concern.

    ** Fuel

    Loops that Go writes as [for] take fuel and answer [Hang] (or, in pure
    functions, the unchanged argument) when it runs out.  The fuel is computed
    from the input: reading loops get one more turn than [budget r], which
    bounds the reads a reader still answers and falls with each; [write_loop] and
    [split] one turn per byte, [fill_key] one per byte of the key; [extend] and
    [grow] as many as the size limit allows, [wait_client] the 16 looks that
    half a minute allows, [parse_value] twice the length of the document; the
    walk of [getFuncInfo] needs a turn per frame ([log_names_caller]).  That it is
    enough is part of the theorems: the round trips give [Ok], and
    [s1_read_total], [packet_read_bounded] and [http_read_bounded] exclude
    [Hang] on every input.  Numerals are bounded where Go bounds them: 32-bit
    sizes and serials, 64-bit clocks, [make] up to 2^48 bytes.

    ** What is not modelled, and why

    - Listening and dialling sockets, and TLS: calls into package net.  A dialled
      connection is any instance of [Reader] and [Writer], the success of a dial
      and what [Accept] returns are arguments ([dial], [LookupIP], [accepts]).
    - net/url's parser for absolute URLs ([ParseAbsolute]) and Unicode case
      folding beyond ASCII: an argument, and a restriction to ASCII names.
    - Timers: what a timer triggers is an action that may happen at any time, or
      an event of a run.  The log lines of the start functions are left out.
    - [http.ReadRequest] and [Request.Write]: parameters of the HTTP proxy, with
      what is documented of them ([is_request]).
    - The direct backend, two calls of package net; flag parsing and the decoding
      of the configuration file in src/examples, whose results are arguments;
      the interface declarations of src/message/codec and src/socks, which have
      one implementation each. *)
From Stdlib Require Export ZArith Lia.
From Stdlib Require Import Strings.Byte Strings.String.
Export String.StringSyntax.
From stdpp Require Export base tactics option numbers gmap list_numbers list.

(** Linear arithmetic with division and remainder by constants. *)
Ltac zdm := Z.to_euclidean_division_equations; lia.

(** ** Bytes and Go strings

    A Go [byte] is an intrinsically bounded [Byte.byte]; a [[]byte] and a
    Go [string] (an immutable byte sequence) are both [list byte]. *)
Abbreviation byte := Byte.byte.
Abbreviation bytes := (list Byte.byte).

Definition byte_val (b : byte) : Z := Z.of_N (Byte.to_N b).

(** The conversion [byte(z)] of a Go integer: truncation to eight bits. *)
Definition byte_of (z : Z) : byte :=
  match Byte.of_N (Z.to_N (z mod 256)) with Some b => b | None => Byte.x00 end.

Definition byte_eqb (a b : byte) : bool := Byte.eqb a b.

(** String literals of the source, as bytes. *)
Definition lit (s : String.string) : bytes := String.list_byte_of_string s.

Declare Scope df_scope.
Delimit Scope df_scope with df.
Arguments lit s%_string_scope.

#[global] Instance byte_eq_dec : EqDecision byte := Byte.byte_eq_dec.

#[global] Instance byte_countable : Countable byte.
Proof. refine (inj_countable Byte.to_N Byte.of_N _). intros b. apply Byte.of_to_N. Defined.

Lemma byte_val_range (b : byte) : (0 ≤ byte_val b < 256)%Z.
Proof. unfold byte_val. destruct b; cbv; split; discriminate || reflexivity. Qed.

Lemma byte_of_val (b : byte) : byte_of (byte_val b) = b.
Proof. destruct b; reflexivity. Qed.

Lemma byte_val_of (z : Z) : byte_val (byte_of z) = (z mod 256)%Z.
Proof.
  unfold byte_of, byte_val.
  assert (Hz : (0 ≤ z mod 256 < 256)%Z) by (apply Z.mod_pos_bound; lia).
  destruct (Byte.of_N (Z.to_N (z mod 256))) as [b|] eqn:E.
  - apply Byte.to_of_N in E. rewrite E. lia.
  - apply Byte.of_N_None_iff in E. lia.
Qed.

Lemma byte_val_inj (a b : byte) : byte_val a = byte_val b → a = b.
Proof. intros H. by rewrite <- (byte_of_val a), <- (byte_of_val b), H. Qed.

Lemma byte_eqb_eq (a b : byte) : byte_eqb a b = true ↔ a = b.
Proof. split; [apply Byte.byte_dec_bl | apply Byte.byte_dec_lb]. Qed.

(** Bitwise exclusive or of bytes. *)
Definition byte_xor (a b : byte) : byte := byte_of (Z.lxor (byte_val a) (byte_val b)).

Lemma lxor_range (a b : Z) :
  (0 ≤ a < 256)%Z → (0 ≤ b < 256)%Z → (0 ≤ Z.lxor a b < 256)%Z.
Proof.
  intros Ha Hb. split; [apply Z.lxor_nonneg; lia|].
  destruct (decide (Z.lxor a b = 0)%Z) as [->|Hne]; [lia|].
  assert (0 ≤ Z.lxor a b)%Z by (apply Z.lxor_nonneg; lia).
  apply (Z.log2_lt_pow2 _ 8); [lia|].
  pose proof (Z.log2_lxor a b ltac:(lia) ltac:(lia)).
  assert (Z.log2 a < 8)%Z.
  { destruct (decide (a = 0)%Z) as [->|]; [cbn; lia|]. apply Z.log2_lt_pow2; lia. }
  assert (Z.log2 b < 8)%Z.
  { destruct (decide (b = 0)%Z) as [->|]; [cbn; lia|]. apply Z.log2_lt_pow2; lia. }
  lia.
Qed.

Lemma byte_val_xor (a b : byte) :
  byte_val (byte_xor a b) = Z.lxor (byte_val a) (byte_val b).
Proof.
  unfold byte_xor. rewrite byte_val_of. apply Z.mod_small.
  apply lxor_range; apply byte_val_range.
Qed.

Lemma byte_xor_involutive (a k : byte) : byte_xor (byte_xor a k) k = a.
Proof.
  apply byte_val_inj. rewrite !byte_val_xor, Z.lxor_assoc, Z.lxor_nilpotent.
  apply Z.lxor_0_r.
Qed.

Lemma byte_xor_comm (a b : byte) : byte_xor a b = byte_xor b a.
Proof. apply byte_val_inj. by rewrite !byte_val_xor, Z.lxor_comm. Qed.

(** ** Fixed-width integers in network byte order

    [put_be n v] is [binary.BigEndian.PutUint16/32/64] for [n] = 2, 4, 8: the
    low [8 n] bits of [v], most significant byte first.  [get_be] is
    [binary.BigEndian.Uint16/32/64]. *)
Fixpoint put_be (n : nat) (v : Z) : bytes :=
  match n with
  | 0 => []
  | S n' => put_be n' (v / 256) ++ [byte_of v]
  end.

Definition get_be (l : bytes) : Z :=
  fold_left (λ acc b, acc * 256 + byte_val b)%Z l 0%Z.

(** The conversions [uint32(z)], [int64(z)] of Go integers. *)
Definition uint32 (z : Z) : Z := (z mod 2 ^ 32)%Z.
Definition int64 (z : Z) : Z := ((z + 2 ^ 63) mod 2 ^ 64 - 2 ^ 63)%Z.

(** The length of a slice as a Go [int]. *)
Definition len {A} (l : list A) : Z := Z.of_nat (length l).

Lemma length_put_be (n : nat) (v : Z) : length (put_be n v) = n.
Proof. revert v. induction n; intros v; cbn; [done|]. rewrite length_app, IHn. cbn. lia. Qed.

Lemma get_be_snoc (l : bytes) (b : byte) : get_be (l ++ [b]) = (get_be l * 256 + byte_val b)%Z.
Proof. unfold get_be. by rewrite fold_left_app. Qed.

Lemma get_be_put (n : nat) (v : Z) : get_be (put_be n v) = (v mod 256 ^ Z.of_nat n)%Z.
Proof.
  revert v. induction n as [|n IH]; intros v.
  - cbn. by rewrite Z.mod_1_r.
  - cbn [put_be]. rewrite get_be_snoc, IH, byte_val_of.
    rewrite Nat2Z.inj_succ, Z.pow_succ_r by lia.
    rewrite (Z.mul_comm 256), (Z.mul_comm (256 ^ Z.of_nat n) 256).
    rewrite Z.rem_mul_r by lia. lia.
Qed.

Lemma get_be_range (l : bytes) : (0 ≤ get_be l < 256 ^ len l)%Z.
Proof.
  unfold len. induction l as [|b l IH] using rev_ind; [cbn; lia|].
  rewrite get_be_snoc, length_app, Nat2Z.inj_add. cbn [length].
  rewrite Z.pow_add_r by lia. pose proof (byte_val_range b). lia.
Qed.

Lemma put_be_get (l : bytes) : put_be (length l) (get_be l) = l.
Proof.
  induction l as [|b l IH] using rev_ind; [done|].
  rewrite length_app, Nat.add_comm. cbn [put_be length Nat.add].
  rewrite get_be_snoc. pose proof (byte_val_range b).
  replace ((get_be l * 256 + byte_val b) / 256)%Z with (get_be l) by zdm.
  rewrite IH. do 2 f_equal. apply byte_val_inj. rewrite byte_val_of. zdm.
Qed.

Lemma get_be_put_small (n : nat) (v : Z) :
  (0 ≤ v < 256 ^ Z.of_nat n)%Z → get_be (put_be n v) = v.
Proof. intros. rewrite get_be_put. by apply Z.mod_small. Qed.

Lemma len_nonneg {A} (l : list A) : (0 ≤ len l)%Z.
Proof. unfold len. lia. Qed.

Lemma to_nat_len {A} (l : list A) : Z.to_nat (len l) = length l.
Proof. unfold len. lia. Qed.

Lemma uint32_small (v : Z) : (0 ≤ v < 2 ^ 32)%Z → uint32 v = v.
Proof. apply Z.mod_small. Qed.

Lemma int64_small (v : Z) : (0 ≤ v < 2 ^ 63)%Z → int64 v = v.
Proof. intros. unfold int64. rewrite Z.mod_small; lia. Qed.

(** ** Slices

    [copy_at i src dst] is [copy(dst[i:], src)] on the backing array [dst]:
    as many bytes as fit, the rest of [dst] unchanged. *)
Definition make_bytes (n : nat) : bytes := replicate n Byte.x00.

Definition copy_at (i : nat) (src dst : bytes) : bytes :=
  take i dst ++ take (length dst - i) src ++ drop (i + length src) dst.

(** [slice i j l] is [l[i:j]]. *)
Definition slice {A} (i j : nat) (l : list A) : list A := take (j - i) (drop i l).

Lemma length_make_bytes (n : nat) : length (make_bytes n) = n.
Proof. apply length_replicate. Qed.

Lemma length_copy_at (i : nat) (src dst : bytes) :
  i ≤ length dst → length (copy_at i src dst) = length dst.
Proof.
  intros. unfold copy_at. rewrite !length_app, !length_take, length_drop. lia.
Qed.

Lemma copy_at_fit (i : nat) (src dst : bytes) :
  i + length src ≤ length dst →
  copy_at i src dst = take i dst ++ src ++ drop (i + length src) dst.
Proof. intros. unfold copy_at. rewrite (take_ge src) by lia. done. Qed.

Lemma copy_at_app (pre src dst : bytes) (i : nat) :
  i = length pre → copy_at i src (pre ++ dst) = pre ++ copy_at 0 src dst.
Proof.
  intros ->. unfold copy_at. rewrite take_app_length, length_app.
  rewrite <- drop_drop, drop_app_length, Nat.add_0_l, Nat.sub_0_r, take_0.
  by replace (length pre + length dst - length pre) with (length dst) by lia.
Qed.

Lemma copy_at_all (src dst : bytes) : length src = length dst → copy_at 0 src dst = src.
Proof.
  intros H. unfold copy_at. rewrite take_0, take_ge by lia.
  rewrite drop_ge by lia. by rewrite app_nil_r.
Qed.

(** [copy] of two pieces into a fresh array that holds exactly both. *)
Lemma copy_two (a b : bytes) (n : nat) :
  n = length a + length b → copy_at (length a) b (copy_at 0 a (make_bytes n)) = a ++ b.
Proof.
  intros ->. rewrite (copy_at_fit 0) by (rewrite length_make_bytes; lia).
  rewrite take_0. cbn [app Nat.add]. rewrite copy_at_app by done. f_equal.
  apply copy_at_all. unfold make_bytes. rewrite drop_replicate, length_replicate. lia.
Qed.

(** The prefix of an array that a write past a prefix leaves alone. *)
Lemma take_copy_at (i j : nat) (src dst : bytes) :
  i ≤ j → j ≤ length dst → take i (copy_at j src dst) = take i dst.
Proof.
  intros. unfold copy_at. rewrite take_app_le by (rewrite length_take; lia).
  rewrite take_take. by replace (i `min` j) with i by lia.
Qed.

Lemma take_copy_at_ext (j : nat) (src dst : bytes) :
  j + length src ≤ length dst →
  take (j + length src) (copy_at j src dst) = take j dst ++ src.
Proof.
  intros. rewrite copy_at_fit by lia. rewrite app_assoc.
  rewrite take_app_le by (rewrite length_app, length_take; lia).
  rewrite take_ge; [done|]. rewrite length_app, length_take. lia.
Qed.

(** ** Errors, outcomes and the effect monad

    A Go [error] value: the sentinel errors of package [io], the
    [*net.OpError] that [utils.IsIOError] recognises, the errors the program
    builds itself with [fmt.Errorf] (kept as format and operands), and the
    error values of the standard library. *)
Inductive error : Type :=
  | EOF
  | ErrUnexpectedEOF
  | ErrShortBuffer
  | OpError
  | KeySizeError (n : Z)
  | LibError (package : bytes)
  | Errorf (format : bytes) (operands : list Z)
  | Wrapf (format : bytes) (cause : error).

#[global] Instance error_eq_dec : EqDecision error.
Proof. intros x. induction x; intros y; destruct y; try (right; congruence);
  solve_decision || (destruct (decide (format = format0)), (IHx y);
    [left; congruence | right; congruence..]). Defined.

(** What one call does: return a value, return an error, panic, or never
    return (block or loop for ever). *)
Inductive outcome (A : Type) : Type :=
  | Ok (a : A)
  | Err (e : error)
  | Panic
  | Hang.
Arguments Ok {A} a.
Arguments Err {A} e.
Arguments Panic {A}.
Arguments Hang {A}.

(** The call comes back: no panic, no endless wait. *)
Definition returns {A} (o : outcome A) : Prop :=
  match o with Ok _ | Err _ => True | Panic | Hang => False end.

(** A computation over the mutable state [S]: state changes made before an
    error or a panic persist, as they do in Go. *)
Definition M (S A : Type) : Type := S → outcome A * S.

#[global] Instance outcome_ret : MRet outcome := @Ok.
#[global] Instance outcome_bind : MBind outcome := λ A B k m,
  match m with Ok a => k a | Err e => Err e | Panic => Panic | Hang => Hang end.

Lemma returns_bind {A B} (m : outcome A) (k : A → outcome B) :
  returns m → (∀ a, returns (k a)) → returns (m ≫= k).
Proof. intros Hm Hk. destruct m; try done. apply Hk. Qed.

#[global] Instance M_ret S : MRet (M S) := λ A a s, (Ok a, s).
#[global] Instance M_bind S : MBind (M S) := λ A B k m s,
  match m s with
  | (Ok a, s') => k a s'
  | (Err e, s') => (Err e, s')
  | (Panic, s') => (Panic, s')
  | (Hang, s') => (Hang, s')
  end.

Section monad.
  Context {S : Type}.

Definition throw {A} (e : error) : M S A := λ s, (Err e, s).
Definition panic {A} : M S A := λ s, (Panic, s).
Definition hang {A} : M S A := λ s, (Hang, s).
Definition gets {A} (f : S → A) : M S A := λ s, (Ok (f s), s).
Definition modify (f : S → S) : M S unit := λ s, (Ok tt, f s).
Definition lift {A} (o : outcome A) : M S A := λ s, (o, s).

  (** [if v, err := m; err != nil { h(err) }]: errors are values. *)
Definition try {A} (m : M S A) (h : error → M S A) : M S A := λ s,
    match m s with (Err e, s') => h e s' | r => r end.

Lemma bind_ok {A B} (m : M S A) (k : A → M S B) s s' a :
    m s = (Ok a, s') → (m ≫= k) s = k a s'.
  Proof. intros H. unfold mbind, M_bind. by rewrite H. Qed.

Lemma bind_ok_inv {A B} (m : M S A) (k : A → M S B) s s' b :
  (m ≫= k) s = (Ok b, s') → ∃ a s1, m s = (Ok a, s1) ∧ k a s1 = (Ok b, s').
Proof. unfold mbind, M_bind. destruct (m s) as [[a|e| |] s1]; try done. eauto. Qed.

Lemma bind_err {A B} (m : M S A) (k : A → M S B) s s' e :
    m s = (Err e, s') → (m ≫= k) s = (Err e, s').
  Proof. intros H. unfold mbind, M_bind. by rewrite H. Qed.

Lemma bind_panic {A B} (m : M S A) (k : A → M S B) s s' :
    m s = (Panic, s') → (m ≫= k) s = (Panic, s').
  Proof. intros H. unfold mbind, M_bind. by rewrite H. Qed.

Lemma bind_hang {A B} (m : M S A) (k : A → M S B) s s' :
    m s = (Hang, s') → (m ≫= k) s = (Hang, s').
  Proof. intros H. unfold mbind, M_bind. by rewrite H. Qed.
End monad.

(** A computation on one component of a pair of states. *)
Definition on_fst {A B X} (m : M A X) : M (A * B) X := λ s,
  let '(r, a) := m s.1 in (r, (a, s.2)).
Definition on_snd {A B X} (m : M B X) : M (A * B) X := λ s,
  let '(r, b) := m s.2 in (r, (s.1, b)).

Lemma run_fst {A B X} (m : M A X) (a a' : A) (b : B) (r : outcome X) :
  m a = (r, a') → on_fst m (a, b) = (r, (a', b)).
Proof. intros H. unfold on_fst. cbn. by rewrite H. Qed.

Lemma run_snd {A B X} (m : M B X) (a : A) (b b' : B) (r : outcome X) :
  m b = (r, b') → on_snd m (a, b) = (r, (a, b')).
Proof. intros H. unfold on_snd. cbn. by rewrite H. Qed.

(** [moves Rel m]: whatever its outcome, [m] takes a state to a related one. *)
Create HintDb moves.

Section moves.
Context {S : Type} (Rel : S → S → Prop) `{!PreOrder Rel}.

Definition moves {A} (m : M S A) : Prop := ∀ s, Rel s (m s).2.

Lemma moves_outcome {A} (o : S → outcome A) : moves (λ s, (o s, s)).
Proof. intros s. reflexivity. Qed.

Lemma moves_bind {A B} (m : M S A) (k : A → M S B) : moves m → (∀ a, moves (k a)) → moves (m ≫= k).
Proof.
  intros Hm Hk s. specialize (Hm s). unfold mbind, M_bind. destruct (m s) as [[a|e| |] s1]; cbn in *; try done.
  etrans; [exact Hm|]. apply Hk.
Qed.

Lemma moves_if {A} (b : bool) (m k : M S A) : moves m → moves k → moves (if b then m else k).
Proof. by destruct b. Qed.

Lemma moves_decide {A} (P : Prop) `{Decision P} (m k : M S A) : moves m → moves k → moves (if decide P then m else k).
Proof. by case_decide. Qed.
End moves.

Lemma moves_fst {S T A} (Rel : S * T → S * T → Prop) (m : M S A) :
  (∀ t, moves (λ s s', Rel (s, t) (s', t)) m) → moves Rel (on_fst m).
Proof. intros Hm [s t]. specialize (Hm t s). unfold on_fst. cbn. by destruct (m s). Qed.

Lemma moves_snd {S T A} (Rel : S * T → S * T → Prop) (m : M T A) :
  (∀ s t t', Rel (s, t) (s, t')) → moves Rel (on_snd m).
Proof. intros Hm [s t]. unfold on_snd. cbn. destruct (m t). apply Hm. Qed.

(** The structure of the computation, with the hints for its leaves. *)
Ltac solve_moves :=
  cbv zeta; lazymatch goal with
  | |- moves _ (_ ≫= _) => apply moves_bind; [apply _|solve_moves|intros ?; solve_moves]
  | |- moves _ (if decide _ then _ else _) => apply moves_decide; solve_moves
  | |- moves _ (if _ then _ else _) => apply moves_if; solve_moves
  | |- moves _ (match ?x with _ => _ end) => destruct x; solve_moves
  | |- moves _ (lift _) => apply (moves_outcome _ (λ _, _)); apply _
  | |- moves _ (mret _) => apply (moves_outcome _ (λ _, Ok _)); apply _
  | |- moves _ (throw _) => apply (moves_outcome _ (λ _, Err _)); apply _
  | |- moves _ (gets _) => apply (moves_outcome _ (λ _, Ok _)); apply _
  | |- moves _ panic => apply (moves_outcome _ (λ _, Panic)); apply _
  | |- moves _ hang => apply (moves_outcome _ (λ _, Hang)); apply _
  | |- moves _ _ => solve [eauto with moves typeclass_instances]
  end.

(** [make([]byte, n)] for a computed [int]: a negative length, or one beyond
    the address space the runtime manages, panics. *)
Definition max_alloc : Z := 2 ^ 48.
Definition make_slice (n : Z) : outcome nat :=
  if (n <? 0)%Z || (max_alloc <? n)%Z then Panic else Ok (Z.to_nat n).

Lemma make_slice_ok (n : Z) : (0 ≤ n ≤ max_alloc)%Z → make_slice n = Ok (Z.to_nat n).
Proof.
  intros. unfold make_slice.
  destruct (Z.ltb_spec n 0); [lia|]. destruct (Z.ltb_spec max_alloc n); [lia|]. done.
Qed.

Lemma make_slice_negative (n : Z) : (n < 0)%Z → make_slice n = Panic.
Proof. intros. unfold make_slice. destruct (Z.ltb_spec n 0); [done|lia]. Qed.

(** The rewriting rules and side conditions the components share. *)
Create HintDb df.
Create Rewrite HintDb df.
#[export] Hint Rewrite @length_app @length_take @length_drop length_put_be
  length_make_bytes @length_replicate : df.
#[export] Hint Resolve byte_val_range @len_nonneg : df.

(** Discharge a goal about lengths of byte strings. *)
Ltac len_solve := unfold len in *; autorewrite with df in *; cbn [length] in *; lia.

(** Run the first statement of a sequence, its result known by [H]. *)
Tactic Notation "run" uconstr(H) :=
  first [ rewrite (bind_ok _ _ _ _ _ H) | rewrite (bind_err _ _ _ _ _ H)
        | rewrite (bind_panic _ _ _ _ H) | rewrite (bind_hang _ _ _ _ H) ].

(** ** Transition systems

    The interleavings of a component's goroutines are the runs of a relation;
    most are given by an executable function, which performs one action or says
    that it is not enabled. *)
Lemma rtc_invariant {A} (R : relation A) (I : A → Prop) :
  (∀ x y, R x y → I x → I y) → ∀ x y, rtc R x y → I x → I y.
Proof. intros Hstep x y Hr. induction Hr as [|x1 x2 x3 Hst _ IH]; [done|]. intros Hi. by eapply IH, Hstep. Qed.

Section actions.
Context {A S : Type} (exec : A → S → option S).

Definition acts (s s' : S) : Prop := ∃ a, exec a s = Some s'.

(** A script, each of whose actions may depend on the state it finds; and a
    sequence of actions. *)
Definition run_script (l : list (S → A)) (s : S) : option S := foldl (λ o f, s ← o; exec (f s) s) (Some s) l.
Definition run_actions (l : list A) (s : S) : option S := foldl (λ o a, s ← o; exec a s) (Some s) l.

Lemma run_script_rtc (l : list (S → A)) (s s' : S) : run_script l s = Some s' → rtc acts s s'.
Proof.
  revert s. induction l as [|f l IH]; unfold run_script in *; cbn [foldl]; intros s.
  - intros [= ->]. apply rtc_refl.
  - cbn [mbind option_bind]. destruct (exec (f s) s) as [s1|] eqn:E.
    + intros Hr. eapply rtc_l; [by exists (f s)|by apply IH].
    + intros Hr. exfalso. revert Hr. clear. by induction l.
Qed.

Lemma run_actions_script (l : list A) (s : S) : run_actions l s = run_script (map (λ a _, a) l) s.
Proof. unfold run_actions, run_script. generalize (Some s). induction l as [|a l IH]; intros o; [done|apply IH]. Qed.

Lemma run_actions_rtc (l : list A) (s s' : S) : run_actions l s = Some s' → rtc acts s s'.
Proof. rewrite run_actions_script. apply run_script_rtc. Qed.

Lemma acts_invariant (I : S → Prop) :
  (∀ a s s', exec a s = Some s' → I s → I s') → ∀ s s', rtc acts s s' → I s → I s'.
Proof. intros Hexec. apply rtc_invariant. intros s s' [a Ha]. by apply (Hexec a). Qed.
End actions.

(** What has been read only grows. *)
Lemma prefix_grow (a b c : bytes) : a `prefix_of` b → a `prefix_of` b ++ c.
Proof. intros [k ->]. exists (k ++ c). by rewrite app_assoc. Qed.

(** ** Randomness

    [crypto/rand] as a stream of bytes the environment chose beforehand: every
    theorem holds for all of them. *)
Definition rng : Type := nat → byte.

Definition rand_read (n : nat) : M rng bytes := λ g,
  (Ok (map g (seq 0 n)), λ i, g (n + i)).

Lemma rand_read_ok (n : nat) (g : rng) :
  ∃ d g', rand_read n g = (Ok d, g') ∧ length d = n.
Proof. do 2 eexists. split; [reflexivity|]. by rewrite length_map, length_seq. Qed.
