(* ===== verification/GoIO.v ===== *)
(** Package [io] as the program uses it: the interfaces [io.Reader] and
    [io.Writer] as type classes with their laws, [io.ReadFull], and the
    in-memory implementations ([bytes.Reader], [bytes.Buffer], and a
    connection that delivers its bytes in arbitrary chunks). *)
From S2P Require Import Prelude.

(** ** [io.Reader]

    [read n] is [r.Read(buf)] with [len(buf) = n]: the bytes it stored, or an
    error (no reader of this program returns both).  [budget] bounds the
    number of reads a state can still serve; it only serves as the loops'
    fuel. *)
Class Reader (T : Type) := {
  read : nat → M T bytes;
  budget : T → nat;
}.

(** What a client may assume: a state that [delivers] [bs] hands out exactly
    [bs], in pieces of its own choosing (possibly empty ones), then [io.EOF]. *)
Definition read_post {T} (deliv : T → bytes → Prop) (bud : T → nat)
    (n : nat) (s : T) (bs : bytes) (r : outcome bytes * T) : Prop :=
  match r with
  | (Ok d, s') => ∃ bs', bs = d ++ bs' ∧ length d ≤ n ∧ deliv s' bs' ∧
                         length d + bud s' ≤ bud s ∧ bud s' < bud s
  | (Err e, s') => bs = [] ∧ e = EOF ∧ deliv s' [] ∧ bud s' ≤ bud s
  | _ => False
  end.

Class ReaderLaws (T : Type) `{Reader T} := {
  delivers : T → bytes → Prop;
  read_law : ∀ s bs n, delivers s bs → 0 < n →
    read_post delivers budget n s bs (read n s);
}.

(** ** [io.Writer]

    [write d] returns the count the implementation reports. *)
Class Writer (T : Type) := { write : bytes → M T Z }.

(** ** [io.Closer] *)
Class Closer (T : Type) := { close : M T unit }.

(** [write_pre s n]: [s] accepts writes of up to [n] bytes.  [emitted s s' d]:
    between [s] and [s'] the writer has taken [d]. *)
Class WriterLaws (T : Type) `{Writer T} := {
  write_pre : T → nat → Prop;
  emitted : T → T → bytes → Prop;
  emitted_nil : ∀ s, emitted s s [];
  emitted_app : ∀ s1 s2 s3 a b,
    emitted s1 s2 a → emitted s2 s3 b → emitted s1 s3 (a ++ b);
  write_pre_mono : ∀ s m n, write_pre s n → m ≤ n → write_pre s m;
  write_pre_emitted : ∀ s s' d n, write_pre s n → emitted s s' d → write_pre s' n;
  write_law : ∀ s d, write_pre s (length d) →
    ∃ n s', write d s = (Ok n, s') ∧ emitted s s' d;
}.

(** ** [io.ReadFull]

    [io.ReadAtLeast(r, buf, len(buf))]; [acc] holds [buf[:n]]. *)
Section ReadFull.
  Context {T : Type} `{Reader T}.

Fixpoint readAtLeast (fuel : nat) (size : nat) (acc : bytes) : M T bytes :=
    if decide (size ≤ length acc) then mret acc
    else match fuel with
    | 0 => hang
    | S fuel => λ s,
        match read (size - length acc) s with
        | (Ok d, s') => readAtLeast fuel size (acc ++ d) s'
        | (Err e, s') =>
            (Err (if decide (acc ≠ [] ∧ e = EOF) then ErrUnexpectedEOF else e), s')
        | (Panic, s') => (Panic, s')
        | (Hang, s') => (Hang, s')
        end
    end.

  (** The fuel is the state's own bound; [ReadFull_ok] and [ReadFull_short]
      show that it never runs out. *)
Definition ReadFull (size : nat) : M T bytes := λ s,
    readAtLeast (S (budget s)) size [] s.
End ReadFull.

Section ReadFull_laws.
  Context {T : Type} `{ReaderLaws T}.

Lemma readAtLeast_ok (size fuel : nat) (acc bs : bytes) (s : T) :
    delivers s bs → budget s < fuel → length acc ≤ size → size ≤ length acc + length bs →
    ∃ s', readAtLeast fuel size acc s = (Ok (acc ++ take (size - length acc) bs), s') ∧
          delivers s' (drop (size - length acc) bs) ∧
          (size - length acc) + budget s' ≤ budget s ∧
          (length acc < size → budget s' < budget s).
  Proof.
    revert acc bs s. induction fuel as [|fuel IH]; intros acc bs s Hd Hb Ha Hs; [lia|].
    cbn [readAtLeast]. case_decide as Hdec.
    - exists s. replace (size - length acc) with 0 by lia. rewrite take_0, drop_0, app_nil_r.
      repeat split; [done | lia..].
    - pose proof (read_law s bs (size - length acc) Hd ltac:(lia)) as Hr.
      destruct (read (size - length acc) s) as [[d|e| |] s1]; cbn in Hr; try done.
      + destruct Hr as (bs' & -> & Hlen & Hd' & Hb1 & Hb2).
        rewrite length_app in Hs.
        destruct (IH (acc ++ d) bs' s1) as (s' & Hs' & Hdel & Hc & _);
          [done | lia | rewrite length_app; lia.. |].
        exists s'. rewrite Hs'. rewrite length_app in *.
        replace (size - (length acc + length d)) with (size - length acc - length d) in * by lia.
        rewrite take_app, drop_app, (take_ge d), (drop_ge d) by lia.
        rewrite <- app_assoc. repeat split; [done | lia..].
      + destruct Hr as (-> & _ & _). cbn in Hs. lia.
  Qed.

Lemma readAtLeast_short (size fuel : nat) (acc bs : bytes) (s : T) :
    delivers s bs → budget s < fuel → length acc + length bs < size →
    ∃ s', readAtLeast fuel size acc s =
          (Err (if decide (acc ++ bs = []) then EOF else ErrUnexpectedEOF), s') ∧
          delivers s' [] ∧ budget s' ≤ budget s.
  Proof.
    revert acc bs s. induction fuel as [|fuel IH]; intros acc bs s Hd Hb Hs; [lia|].
    cbn [readAtLeast]. case_decide as Hdec; [lia|].
    pose proof (read_law s bs (size - length acc) Hd ltac:(lia)) as Hr.
    destruct (read (size - length acc) s) as [[d|e| |] s1]; cbn in Hr; try done.
    - destruct Hr as (bs' & -> & Hlen & Hd' & Hb1 & Hb2). rewrite length_app in Hs.
      destruct (IH (acc ++ d) bs' s1) as (s' & -> & Hd'' & Hb'');
        [done | lia | rewrite length_app; lia |].
      exists s'. rewrite <- app_assoc. repeat split; [done | lia].
    - destruct Hr as (-> & -> & Hd' & Hb'). rewrite app_nil_r.
      exists s1. split; [|done]. do 2 f_equal.
      destruct acc; cbn; repeat case_decide; intuition congruence.
  Qed.

  (** [ReadFull] on enough input: exactly the next [size] bytes, whatever the
      chunking of the reads underneath. *)
Lemma ReadFull_ok (size : nat) (s : T) (bs : bytes) :
    delivers s bs → size ≤ length bs →
    ∃ s', ReadFull size s = (Ok (take size bs), s') ∧ delivers s' (drop size bs) ∧
          size + budget s' ≤ budget s ∧ (0 < size → budget s' < budget s).
  Proof.
    intros Hd Hs. unfold ReadFull.
    destruct (readAtLeast_ok size (S (budget s)) [] bs s Hd) as (s' & -> & Hd' & Hb);
      [lia | cbn; lia.. |].
    exists s'. cbn [length app] in *. rewrite Nat.sub_0_r in *. auto.
  Qed.

Lemma ReadFull_app (size : nat) (s : T) (bs rest : bytes) :
    delivers s (bs ++ rest) → size = length bs →
    ∃ s', ReadFull size s = (Ok bs, s') ∧ delivers s' rest ∧
          size + budget s' ≤ budget s ∧ (0 < size → budget s' < budget s).
  Proof.
    intros Hd ->. destruct (ReadFull_ok (length bs) s _ Hd) as (s' & Hr & Hd' & Hb);
      [rewrite length_app; lia|].
    rewrite take_app_length in Hr. rewrite drop_app_length in Hd'. eauto.
  Qed.

  (** [ReadFull] on too little input: [io.EOF] if nothing was left,
      [io.ErrUnexpectedEOF] in the middle. *)
Lemma ReadFull_short (size : nat) (s : T) (bs : bytes) :
    delivers s bs → length bs < size →
    ∃ s', ReadFull size s = (Err (if decide (bs = []) then EOF else ErrUnexpectedEOF), s')
          ∧ delivers s' [] ∧ budget s' ≤ budget s.
  Proof.
    intros Hd Hs. unfold ReadFull.
    destruct (readAtLeast_short size (S (budget s)) [] bs s Hd) as (s' & -> & Hd' & Hb');
      [lia | cbn; lia |]. cbn [app]. eauto.
  Qed.
(** Reading all of a stream: exactly its bytes, then the end of file. *)
Lemma ReadFull_all (s : T) (bs : bytes) :
  delivers s bs →
  ∃ s', ReadFull (length bs) s = (Ok bs, s') ∧ delivers s' [] ∧ (ReadFull 1 s').1 = Err EOF.
Proof.
  intros Hd. destruct (ReadFull_app (length bs) s bs []) as (s' & Hr & Hd' & _);
    [by rewrite app_nil_r|done|].
  exists s'. split; [done|]. split; [done|].
  destruct (ReadFull_short 1 s' [] Hd') as (s'' & -> & _); [cbn; lia|]. done.
Qed.
End ReadFull_laws.

(** Several writes in a row. *)
Section write_all.
  Context {T : Type} `{WriterLaws T}.

Fixpoint write_all (ds : list bytes) : M T unit :=
    match ds with
    | [] => mret tt
    | d :: ds' => _ ← write d; write_all ds'
    end.

Lemma write_all_ok (ds : list bytes) (s : T) (n : nat) :
    write_pre s n → Forall (λ d, length d ≤ n) ds →
    ∃ s', write_all ds s = (Ok tt, s') ∧ emitted s s' (concat ds).
  Proof.
    intros Hp Hds. revert s Hp. induction Hds as [|d ds Hd _ IH]; intros s Hp.
    - exists s. split; [done|]. apply emitted_nil.
    - destruct (write_law s d) as (k & s1 & Hw & He); [by eapply write_pre_mono|].
      destruct (IH s1) as (s2 & Hw2 & He2); [by eapply write_pre_emitted|].
      exists s2. cbn [write_all concat]. run Hw. split; [done|]. by eapply emitted_app.
  Qed.
End write_all.

(** ** In-memory readers and writers *)
Module Buf.
  (** [bytes.NewReader(dat)]: the bytes not read yet. *)
Record reader := mk_reader { rest : bytes }.

Definition Read (n : nat) : M reader bytes := λ r,
    match rest r with
    | [] => (Err EOF, r)
    | bs => (Ok (take n bs), mk_reader (drop n bs))
    end.

#[global] Instance reader_Reader : Reader reader :=
    { read := Read; budget := λ r, length (rest r) }.

#[global] Program Instance reader_laws : ReaderLaws reader :=
    { delivers := λ r bs, rest r = bs }.
  Next Obligation.
    intros [bs] bs' n <- Hn. cbn. destruct bs as [|b bs]; cbn.
    - auto.
    - exists (drop n (b :: bs)). rewrite take_drop, length_take, length_drop.
      cbn [length]. repeat split; lia.
  Qed.

  (** [bytes.NewBuffer([]byte{})] used as a writer: everything written. *)
Record buffer := mk_buffer { buf_bytes : bytes }.

Definition Write (d : bytes) : M buffer Z := λ b,
    (Ok (len d), mk_buffer (buf_bytes b ++ d)).

#[global] Instance buffer_Writer : Writer buffer := { write := Write }.

#[global] Program Instance buffer_laws : WriterLaws buffer :=
    { write_pre := λ _ _, True;
      emitted := λ b b' d, buf_bytes b' = buf_bytes b ++ d }.
  Next Obligation. intros. cbn. by rewrite app_nil_r. Qed.
  Next Obligation. cbn. intros * -> ->. by rewrite app_assoc. Qed.
  Next Obligation. done. Qed.
  Next Obligation. done. Qed.
  Next Obligation. intros b d _. do 2 eexists. split; reflexivity. Qed.
End Buf.

(** A connection whose peer has sent [chunks] and closed: each read returns
    at most one chunk, so a message may arrive in any number of pieces. *)
Module Conn.
Record conn := mk_conn { chunks : list bytes }.

Definition Read (n : nat) : M conn bytes := λ c,
    match chunks c with
    | [] => (Err EOF, c)
    | d :: ds =>
        (Ok (take n d), mk_conn (if decide (length d ≤ n) then ds else drop n d :: ds))
    end.

Definition weight (ds : list bytes) : nat := foldr (λ d k, S (length d + k)) 0 ds.

#[global] Instance conn_Reader : Reader conn :=
    { read := Read; budget := λ c, weight (chunks c) }.

#[global] Program Instance conn_laws : ReaderLaws conn :=
    { delivers := λ c bs, concat (chunks c) = bs }.
  Next Obligation.
    intros [[|d ds]] bs n <- Hn; cbn; [auto|].
    case_decide; cbn.
    - exists (concat ds). rewrite take_ge by lia. repeat split; lia.
    - exists (drop n d ++ concat ds). rewrite app_assoc, take_drop.
      rewrite length_take, length_drop. repeat split; lia.
  Qed.
End Conn.

(** [bufio.Reader]: a read ahead of at most 4096 bytes.  (Its error after a
    hundred empty reads in a row is not modelled.) *)
Module Bufio.
Record bufio (T : Type) := mk_bufio { rd : T; ahead : bytes }.
Arguments mk_bufio {T} rd ahead.
Arguments rd {T}.
Arguments ahead {T}.

Definition NewReader {T} (t : T) : bufio T := mk_bufio t [].
Definition bufio_size : nat := Z.to_nat 4096.

(** A large read of an empty buffer bypasses it; any other read of an empty
    buffer fills it first, with one read. *)
Definition Read {T} `{Reader T} (n : nat) : M (bufio T) bytes := λ b,
  match ahead b with
  | [] =>
      if decide (bufio_size ≤ n)
      then let '(r, t) := read n (rd b) in (r, mk_bufio t [])
      else match read bufio_size (rd b) with
           | (Ok d, t) => (Ok (take n d), mk_bufio t (drop n d))
           | (r, t) => (r, mk_bufio t [])
           end
  | d => (Ok (take n d), mk_bufio (rd b) (drop n d))
  end.

#[global] Instance bufio_Reader {T} `{Reader T} : Reader (bufio T) :=
  { read := Read; budget := λ b, length (ahead b) + budget (rd b) }.

#[global] Program Instance bufio_laws {T} `{ReaderLaws T} : ReaderLaws (bufio T) :=
  { delivers := λ b bs, ∃ rest, delivers (rd b) rest ∧ bs = ahead b ++ rest }.
Next Obligation.
  intros T ?? [t a] bs n (rest & Hd & ->) Hn. cbn [rd ahead read bufio_Reader] in *. unfold Read.
  cbn [rd ahead]. unfold read_post. cbn [budget bufio_Reader].
  assert (Hsz : 0 < bufio_size) by (unfold bufio_size; lia).
  destruct a as [|a0 a]; cbn [rd ahead app].
  - case_decide as Hbig.
    + pose proof (read_law t rest n Hd Hn) as Hr. unfold read_post in Hr.
      destruct (read n t) as [[d|e| |] t']; cbn [rd ahead length] in *; try done.
      * destruct Hr as (bs' & -> & ? & ? & ? & ?). exists bs'. repeat split; [lia|eauto|lia|lia].
      * destruct Hr as (-> & -> & ? & ?). repeat split; [eauto|lia].
    + pose proof (read_law t rest bufio_size Hd Hsz) as Hr. unfold read_post in Hr.
      destruct (read bufio_size t) as [[d|e| |] t']; cbn [rd ahead length] in *; try done.
      * destruct Hr as (bs' & -> & ? & ? & ? & ?). exists (drop n d ++ bs').
        rewrite app_assoc, take_drop, length_take, length_drop. repeat split; [lia|eauto|lia|lia].
      * destruct Hr as (-> & -> & ? & ?). repeat split; [eauto|lia].
  - exists (drop n (a0 :: a) ++ rest). rewrite app_comm_cons, app_assoc, take_drop.
    rewrite length_take, length_drop. cbn [length]. repeat split; [lia|eauto|lia|lia].
Qed.

(** [r.ReadByte()]. *)
Definition ReadByte {T} `{Reader T} : M (bufio T) byte :=
  b ← ReadFull 1; mret (nth 0 b Byte.x00).

(** [r.Peek(1)]. *)
Definition Peek1 {T} `{Reader T} : M (bufio T) byte :=
  b ← ReadFull 1;
  _ ← modify (λ s, mk_bufio (rd s) (b ++ ahead s));
  mret (nth 0 b Byte.x00).
End Bufio.

(** A two-way connection: what the peer sent, and what is sent to the peer. *)
Module Duplex.
Record duplex (R W : Type) := mk_duplex { rx : R; wx : W }.
Arguments mk_duplex {R W} rx wx.
Arguments rx {R W}.
Arguments wx {R W}.

Definition on_rx {R W A} (m : M R A) : M (duplex R W) A := λ c,
  let '(r, x) := m (rx c) in (r, mk_duplex x (wx c)).
Definition on_wx {R W A} (m : M W A) : M (duplex R W) A := λ c,
  let '(r, x) := m (wx c) in (r, mk_duplex (rx c) x).

#[global] Instance duplex_Reader {R W} `{Reader R} : Reader (duplex R W) :=
  { read := λ n, on_rx (read n); budget := λ c, budget (rx c) }.
#[global] Instance duplex_Writer {R W} `{Writer W} : Writer (duplex R W) :=
  { write := λ d, on_wx (write d) }.

#[global] Program Instance duplex_reader_laws {R W} `{ReaderLaws R} : ReaderLaws (duplex R W) :=
  { delivers := λ c bs, delivers (rx c) bs }.
Next Obligation.
  intros R W ?? [r w] bs n Hd Hn. pose proof (read_law r bs n Hd Hn) as Hr.
  unfold read_post in *. cbn in *. unfold on_rx. cbn [rx wx].
  by destruct (read n r) as [[]].
Qed.

#[global] Program Instance duplex_writer_laws {R W} `{WriterLaws W} : WriterLaws (duplex R W) :=
  { write_pre := λ c n, write_pre (wx c) n; emitted := λ c c' d, emitted (wx c) (wx c') d }.
Next Obligation. intros. apply emitted_nil. Qed.
Next Obligation. cbn. intros. by eapply emitted_app. Qed.
Next Obligation. cbn. intros. by eapply write_pre_mono. Qed.
Next Obligation. cbn. intros. by eapply write_pre_emitted. Qed.
Next Obligation.
  intros R W ?? [r w] d Hp. destruct (write_law w d Hp) as (n & w' & Hw & He).
  exists n, (mk_duplex r w'). cbn. unfold on_wx. cbn [wx rx]. by rewrite Hw.
Qed.

Lemma duplex_full {R W} `{Reader R} (n : nat) (r r' : R) (w : W) (o : outcome bytes) :
  ReadFull n r = (o, r') → ReadFull n (mk_duplex r w) = (o, mk_duplex r' w).
Proof.
  unfold ReadFull. change (budget (mk_duplex r w)) with (budget r). generalize (S (budget r)).
  intros fuel. generalize (@nil byte). revert r. induction fuel as [|fuel IH]; intros r acc;
    cbn [readAtLeast]; case_decide; try (by intros [= <- <-]).
  cbn [read duplex_Reader]. unfold on_rx. cbn [rx wx].
  destruct (read (n - length acc) r) as [[d|e| |] r1]; try (by intros [= <- <-]). apply IH.
Qed.

Lemma duplex_write {R W} `{Writer W} (r : R) (w w' : W) (d : bytes) (n : outcome Z) :
  write d w = (n, w') → write d (mk_duplex r w) = (n, mk_duplex r w').
Proof. intros Hw. cbn. unfold on_wx. cbn [wx rx]. by rewrite Hw. Qed.

Lemma duplex_ReadFull {R W} `{ReaderLaws R} (n : nat) (r : R) (w : W) (d rest : bytes) :
  delivers r (d ++ rest) → n = length d →
  ∃ r', ReadFull n (mk_duplex r w) = (Ok d, mk_duplex r' w) ∧ delivers r' rest.
Proof.
  intros Hd ->. destruct (ReadFull_app (length d) r d rest Hd eq_refl) as (r' & Hr & Hd' & _).
  exists r'. split; [|done]. by apply duplex_full.
Qed.

Lemma duplex_short {R W} `{ReaderLaws R} (n : nat) (r : R) (w : W) (bs : bytes) :
  delivers r bs → length bs < n →
  ∃ r', ReadFull n (mk_duplex r w)
        = (Err (if decide (bs = []) then EOF else ErrUnexpectedEOF), mk_duplex r' w).
Proof.
  intros Hd Hl. destruct (ReadFull_short n r bs Hd Hl) as (r' & Hr & _).
  exists r'. by apply duplex_full.
Qed.
End Duplex.

(** ** Readers that do not return without data

    As the sockets behind [net.Conn] do: a read with room in its buffer waits
    for at least one byte. *)
Class PromptReader (T : Type) `{ReaderLaws T} : Prop :=
  prompt : ∀ s bs n, delivers s bs → bs ≠ [] → 0 < n → ∃ d s', read n s = (Ok d, s') ∧ d ≠ [].

(** A connection whose peer has sent the pieces, none of them empty. *)
Module Net.
Record conn := mk_conn { pieces : list (byte * bytes) }.

Definition Read (n : nat) : M conn bytes := λ c,
  match pieces c with
  | [] => (Err EOF, c)
  | (b, d) :: ds =>
      (Ok (take n (b :: d)),
       mk_conn (match drop n (b :: d) with [] => ds | b' :: d' => (b', d') :: ds end))
  end.

Definition stream (ds : list (byte * bytes)) : bytes := concat (map (λ p, p.1 :: p.2) ds).

#[global] Instance conn_Reader : Reader conn :=
  { read := Read; budget := λ c, length (stream (pieces c)) }.

#[global] Program Instance conn_laws : ReaderLaws conn := { delivers := λ c bs, stream (pieces c) = bs }.
Next Obligation.
  intros [[|[b d] ds]] bs n <- Hn; cbn [read conn_Reader Read pieces]; [by cbn|].
  unfold read_post. cbn [budget conn_Reader pieces].
  set (ds' := match drop n (b :: d) with [] => ds | b' :: d' => (b', d') :: ds end).
  assert (Hs : stream ((b, d) :: ds) = take n (b :: d) ++ stream ds').
  { unfold ds', stream. cbn [map concat fst snd]. rewrite <- (take_drop n (b :: d)) at 1.
    rewrite <- app_assoc. f_equal. by destruct (drop n (b :: d)). }
  exists (stream ds'). rewrite Hs, length_app, length_take. cbn [length]. repeat split; lia.
Qed.

#[global] Instance conn_prompt : PromptReader conn.
Proof.
  intros [[|[b d] ds]] bs n <- Hne Hn; [by cbn in Hne|]. do 2 eexists. split; [reflexivity|].
  by destruct n; [lia|].
Qed.
End Net.

#[global] Instance buf_prompt : PromptReader Buf.reader.
Proof.
  intros [[|b bs]] bs' n <- Hne Hn; [by cbn in Hne|]. do 2 eexists. split; [reflexivity|].
  by destruct n; [lia|].
Qed.

#[global] Instance duplex_prompt {R W} `{PromptReader R} : PromptReader (Duplex.duplex R W).
Proof.
  intros [r w] bs n Hd Hne Hn. destruct (prompt r bs n Hd Hne Hn) as (d & r' & Hr & Hd').
  exists d, (Duplex.mk_duplex r' w). split; [|done]. cbn. unfold Duplex.on_rx. cbn. by rewrite Hr.
Qed.

(** ** Conversations

    [feeding k P]: as long as [P s bs] has bytes [bs] left, a read takes some
    of them (at least one of them, if [k]). *)
Definition feeding {T} `{Reader T} (k : bool) (P : T → bytes → Prop) : Prop :=
  ∀ s bs n, P s bs → bs ≠ [] → 0 < n →
    ∃ d s' bs', read n s = (Ok d, s') ∧ (k = true → d ≠ []) ∧ length d ≤ n ∧ bs = d ++ bs' ∧
                P s' bs' ∧ budget s' < budget s.

Lemma feeding_delivers {T} `{ReaderLaws T} : feeding false delivers.
Proof.
  intros s bs n Hd Hne Hn. pose proof (read_law s bs n Hd Hn) as Hr. unfold read_post in Hr.
  destruct (read n s) as [[d|e| |] s']; try done; [|by destruct Hr].
  destruct Hr as (bs' & -> & Hl & Hd' & _ & Hb). by exists d, s', bs'.
Qed.

Lemma feeding_prompt {T} `{PromptReader T} : feeding true delivers.
Proof.
  intros s bs n Hd Hne Hn. destruct (prompt s bs n Hd Hne Hn) as (d & s' & Hr & Hnd).
  pose proof (read_law s bs n Hd Hn) as Hp. unfold read_post in Hp. rewrite Hr in Hp.
  destruct Hp as (bs' & -> & Hl & Hd' & _ & Hb). by exists d, s', bs'.
Qed.

(** The peer sends [bs], and [next] only later: no read that takes a byte of
    [bs] takes one of [next] too. *)
Definition in_turn {T} `{ReaderLaws T} (s : T) (bs next : bytes) : Prop :=
  ∃ P, feeding true P ∧ P s bs ∧ ∀ s', P s' [] → delivers s' next.

Lemma feeding_in_turn {T} `{ReaderLaws T} (next : bytes) : feeding true (λ s bs, in_turn s bs next).
Proof.
  intros s bs n (P & HP & Hs & Hnext) Hne Hn. destruct (HP s bs n Hs Hne Hn) as (d & s' & bs' & Hr & Hd & Hl & E & Hs' & Hb).
  exists d, s', bs'. do 4 (split; [done|]). split; [by exists P|done].
Qed.

Lemma feeding_weaken {T} `{Reader T} (P : T → bytes → Prop) : feeding true P → feeding false P.
Proof.
  intros HP s bs n Hs Hne Hn. destruct (HP s bs n Hs Hne Hn) as (d & s' & bs' & Hr & _ & Hrest).
  exists d, s', bs'. split; [done|]. by split.
Qed.

Lemma in_turn_end {T} `{ReaderLaws T} (s : T) (next : bytes) : in_turn s [] next → delivers s next.
Proof. intros (P & _ & Hs & Hnext). by apply Hnext. Qed.

Lemma feeding_duplex {R W} `{Reader R} (k : bool) (P : R → bytes → Prop) :
  feeding k P → feeding k (λ (c : Duplex.duplex R W) bs, P (Duplex.rx c) bs).
Proof.
  intros HP [r w] bs n Hr Hne Hn. destruct (HP r bs n Hr Hne Hn) as (d & r' & bs' & E & ? & ? & ? & ? & ?).
  exists d, (Duplex.mk_duplex r' w), bs'. split; [|done]. cbn. unfold Duplex.on_rx. cbn [Duplex.rx Duplex.wx]. by rewrite E.
Qed.

Lemma net_in_turn (ps qs : list (byte * bytes)) :
  in_turn (Net.mk_conn (ps ++ qs)) (Net.stream ps) (Net.stream qs).
Proof.
  exists (λ c bs, ∃ ps, Net.pieces c = ps ++ qs ∧ bs = Net.stream ps). split; [|split; [by exists ps|]].
  - intros [pcs] bs n (ps' & E & ->) Hne Hn. cbn in E. subst pcs. destruct ps' as [|[b d] ps']; [done|].
    set (more := match drop n (b :: d) with [] => ps' | b' :: d' => (b', d') :: ps' end).
    assert (Hs : Net.stream ((b, d) :: ps') = take n (b :: d) ++ Net.stream more).
    { unfold more, Net.stream. cbn [map concat fst snd]. rewrite <- (take_drop n (b :: d)) at 1.
      rewrite <- app_assoc. f_equal. by destruct (drop n (b :: d)). }
    assert (Hm : match drop n (b :: d) with [] => ps' ++ qs | b' :: d' => (b', d') :: ps' ++ qs end = more ++ qs)
      by (unfold more; by destruct (drop n (b :: d))).
    exists (take n (b :: d)), (Net.mk_conn (more ++ qs)), (Net.stream more).
    split; [cbn; unfold Net.Read; cbn [Net.pieces app]; by rewrite Hm|]. split; [by destruct n; [lia|]|].
    split; [rewrite length_take; lia|]. split; [done|]. split; [by exists more|].
    change (Net.pieces (Net.mk_conn (((b, d) :: ps') ++ qs))) with (((b, d) :: ps') ++ qs).
    cbn [budget Net.conn_Reader Net.pieces]. unfold Net.stream in *. rewrite !map_app, !concat_app, Hs, !length_app, length_take.
    cbn [length]. lia.
  - intros [pcs] (ps' & E & Hnil). cbn in E. subst pcs. by destruct ps' as [|[b d] ps'].
Qed.

(** ** A buffered reader over a connection

    It reads the connection at least [bufio_size] bytes at a time.  A reader
    that is dropped takes what it has read ahead with it: what is still to be
    read is what [Bufio.rd] has. *)
Definition fills {T} `{Reader T} (Q : T → bytes → Prop) : Prop :=
  ∀ s bs n, Q s bs → bs ≠ [] → Bufio.bufio_size ≤ n →
    ∃ d s' bs', read n s = (Ok d, s') ∧ length d ≤ n ∧ bs = d ++ bs' ∧ Q s' bs' ∧ budget s' < budget s.

Definition buffered {T} (Q : T → bytes → Prop) (b : Bufio.bufio T) (bs : bytes) : Prop :=
  ∃ rest, Q (Bufio.rd b) rest ∧ bs = Bufio.ahead b ++ rest.

Lemma buffered_new {T} (Q : T → bytes → Prop) (s : T) (bs : bytes) : Q s bs → buffered Q (Bufio.NewReader s) bs.
Proof. intros Hs. by exists bs. Qed.

Lemma fills_feeding {T} `{Reader T} (Q : T → bytes → Prop) : feeding false Q → fills Q.
Proof.
  intros HQ s bs n Hs Hne Hn. destruct (HQ s bs n Hs Hne) as (d & s' & bs' & Hr & _ & Hl & E & Hs' & Hb).
  { unfold Bufio.bufio_size in Hn. lia. }
  by exists d, s', bs'.
Qed.

Lemma fills_delivers {T} `{ReaderLaws T} : fills delivers.
Proof. apply fills_feeding, feeding_delivers. Qed.

Lemma fills_in_turn {T} `{ReaderLaws T} (next : bytes) : fills (λ (s : T) bs, in_turn s bs next).
Proof. apply fills_feeding, feeding_weaken, feeding_in_turn. Qed.

(** All that the peer has sent is one segment that fits the buffer. *)
Definition one_segment (c : Net.conn) (bs : bytes) : Prop :=
  Net.stream (Net.pieces c) = bs ∧ length (Net.pieces c) ≤ 1 ∧ length bs ≤ Bufio.bufio_size.

(** The buffer takes it as a whole. *)
Definition at_once (c0 : Net.conn) (bs0 : bytes) (c : Net.conn) (bs : bytes) : Prop :=
  c = c0 ∧ bs = bs0 ∨ Net.pieces c = [] ∧ bs = [].

Lemma fills_at_once (c0 : Net.conn) (bs0 : bytes) : one_segment c0 bs0 → fills (at_once c0 bs0).
Proof.
  intros (E0 & Hp & Hl) c bs n [[-> ->]|[E ->]] Hne Hn; [|done]. subst bs0. destruct c0 as [pcs]. cbn [Net.pieces] in *.
  destruct pcs as [|[b d] [|? ?]]; [done| |cbn in Hp; lia].
  unfold Net.stream in Hl |- *. cbn [map concat fst snd] in Hl |- *. rewrite app_nil_r in Hl |- *.
  exists (b :: d), (Net.mk_conn []), []. cbn [read Net.conn_Reader]. unfold Net.Read. cbn [Net.pieces].
  rewrite take_ge, drop_ge by lia. split; [done|]. split; [lia|]. split; [by rewrite app_nil_r|].
  split; [by right|]. cbn. lia.
Qed.

Section buffered.
Context {T : Type} `{Reader T} (Q : T → bytes → Prop) (HQ : fills Q).

(** A read of an empty buffer. *)
Lemma bufio_fill (b : Bufio.bufio T) (bs : bytes) (n : nat) :
  Bufio.ahead b = [] → Q (Bufio.rd b) bs → bs ≠ [] → 0 < n →
  ∃ d b' bs', Bufio.Read n b = (Ok d, b') ∧ length d ≤ n ∧ bs = d ++ bs' ∧ buffered Q b' bs' ∧
    (length d < n → Bufio.ahead b' = []) ∧ budget (Bufio.rd b') < budget (Bufio.rd b).
Proof.
  intros Ha Hb Hne Hn. unfold Bufio.Read. rewrite Ha. case_decide as Hbig.
  - destruct (HQ _ bs n Hb Hne Hbig) as (d & s' & bs' & Hr & Hl & -> & Hs' & Hbud). rewrite Hr.
    exists d, (Bufio.mk_bufio s' []), bs'. do 3 (split; [done|]). split; [by exists bs'|done].
  - destruct (HQ _ bs Bufio.bufio_size Hb Hne (le_n _)) as (d & s' & bs' & Hr & Hl & -> & Hs' & Hbud). rewrite Hr.
    exists (take n d), (Bufio.mk_bufio s' (drop n d)), (drop n d ++ bs'). rewrite length_take.
    split; [done|]. split; [lia|]. split; [by rewrite app_assoc, take_drop|]. split; [by exists bs'|].
    split; [|done]. intros Hd. apply drop_ge. lia.
Qed.

Lemma bufio_readAtLeast (fuel size : nat) (acc bs : bytes) (b : Bufio.bufio T) :
  Bufio.ahead b = [] → buffered Q b bs → budget (Bufio.rd b) < fuel → length acc ≤ size → size ≤ length acc + length bs →
  ∃ b', readAtLeast fuel size acc b = (Ok (acc ++ take (size - length acc) bs), b') ∧
        buffered Q b' (drop (size - length acc) bs).
Proof.
  revert acc bs b. induction fuel as [|fuel IH]; intros acc bs b Ha Hb Hf Hacc Hs; [lia|]. cbn [readAtLeast].
  case_decide as Hdec.
  - exists b. replace (size - length acc) with 0 by lia. by rewrite take_0, drop_0, app_nil_r.
  - destruct Hb as (rest & Hb & ->). rewrite Ha in *. cbn [app] in *.
    destruct (bufio_fill b rest (size - length acc)) as (d & b1 & bs' & Hr & Hl & -> & Hb1 & Ha1 & Hbud);
      [done|done|by intros ->; cbn in Hs; lia|lia|].
    cbn [read Bufio.bufio_Reader]. rewrite Hr. rewrite length_app in Hs.
    destruct (decide (length d < size - length acc)) as [Hlt|Hge].
    + destruct (IH (acc ++ d) bs' b1) as (b' & Hr' & Hb'); [by apply Ha1|done|lia|rewrite length_app; lia..|].
      exists b'. rewrite Hr', length_app. replace (size - (length acc + length d)) with (size - length acc - length d) in * by lia.
      rewrite take_app, drop_app, (take_ge d), (drop_ge d) by lia. rewrite <- app_assoc. split; [done|].
      rewrite length_app in Hb'. by replace (size - (length acc + length d)) with (size - length acc - length d) in Hb' by lia.
    + exists b1. rewrite take_app, drop_app, (take_ge d), (drop_ge d) by lia.
      replace (size - length acc - length d) with 0 by lia. rewrite take_0, drop_0, app_nil_r. split; [|done].
      destruct fuel; cbn [readAtLeast]; rewrite decide_True by (rewrite length_app; lia); done.
Qed.

(** [io.ReadFull] of a buffered reader. *)
Lemma bufio_ReadFull (size : nat) (b : Bufio.bufio T) (bs rest : bytes) :
  buffered Q b (bs ++ rest) → size = length bs → ∃ b', ReadFull size b = (Ok bs, b') ∧ buffered Q b' rest.
Proof.
  intros Hb ->. unfold ReadFull. cbn [budget Bufio.bufio_Reader]. destruct (Bufio.ahead b) as [|a0 a] eqn:Ha.
  - destruct (bufio_readAtLeast (S (0 + budget (Bufio.rd b))) (length bs) [] _ b Ha Hb) as (b' & Hr & Hb');
      [lia|cbn; lia|rewrite length_app; cbn; lia|].
    exists b'. cbn [length app] in *. rewrite Nat.sub_0_r, take_app_length in Hr. rewrite Nat.sub_0_r, drop_app_length in Hb'.
    by rewrite Hr.
  - cbn [readAtLeast length]. case_decide as Hz.
    { destruct bs; [|cbn in Hz; lia]. by exists b. }
    destruct Hb as (rest' & Hb & E). rewrite Ha in E. cbn [read Bufio.bufio_Reader]. unfold Bufio.Read. rewrite Ha.
    rewrite Nat.sub_0_r. cbn [app]. destruct (decide (length (a0 :: a) < length bs)) as [Hlt|Hge].
    + destruct (bufio_readAtLeast (S (length a + budget (Bufio.rd b))) (length bs) (a0 :: a) rest'
        (Bufio.mk_bufio (Bufio.rd b) [])) as (b' & Hr & Hb'); cbn [Bufio.ahead Bufio.rd]; [done|by exists rest'|lia|lia| |].
      { apply (f_equal length) in E. rewrite !length_app in E. lia. }
      exists b'. rewrite take_ge, drop_ge by lia. cbn [Nat.add].
      assert (Et : bs = (a0 :: a) ++ take (length bs - length (a0 :: a)) rest' ∧ drop (length bs - length (a0 :: a)) rest' = rest).
      { pose proof (f_equal (take (length bs)) E) as E1. pose proof (f_equal (drop (length bs)) E) as E2.
        rewrite take_app_length, take_app, take_ge in E1 by lia. rewrite drop_app_length, drop_app, drop_ge in E2 by lia. done. }
      destruct Et as [Et <-]. split; [|done]. rewrite Hr. by rewrite <- Et.
    + exists (Bufio.mk_bufio (Bufio.rd b) (drop (length bs) (a0 :: a))).
      assert (Et : take (length bs) (a0 :: a) = bs ∧ rest = drop (length bs) (a0 :: a) ++ rest').
      { pose proof (f_equal (take (length bs)) E) as E1. pose proof (f_equal (drop (length bs)) E) as E2.
        rewrite take_app_length, take_app_le in E1 by lia. rewrite drop_app_length, drop_app_le in E2 by lia. done. }
      destruct Et as [-> ->]. split; [|by exists rest']. cbn [Nat.add].
      cbn [readAtLeast]; rewrite decide_True by lia; done.
Qed.

(** When the reader is dropped. *)
Lemma buffered_lost (b : Bufio.bufio T) (bs : bytes) :
  buffered Q b bs → ∃ lost kept, bs = lost ++ kept ∧ Q (Bufio.rd b) kept.
Proof. intros (rest & Hr & ->). by exists (Bufio.ahead b), rest. Qed.
End buffered.

(** Once some of the segment has been read the connection is empty. *)
Lemma buffered_at_once (c0 : Net.conn) (bs0 bs : bytes) (b : Bufio.bufio Net.conn) :
  buffered (at_once c0 bs0) b bs → length bs < length bs0 → delivers (Bufio.rd b) [].
Proof.
  intros (rest & [[_ ->]|[E ->]] & ->) Hl; [rewrite length_app in Hl; lia|].
  destruct (Bufio.rd b) as [pcs]. cbn in E. by subst pcs.
Qed.

Lemma buffered_in_turn {T} `{ReaderLaws T} (next : bytes) (b : Bufio.bufio T) :
  buffered (λ s bs, in_turn s bs next) b [] → delivers (Bufio.rd b) next.
Proof. intros (rest & Hr & E). symmetry in E. apply app_nil in E as [_ ->]. by apply in_turn_end. Qed.

(** ** Two-way connections

    The two directions do not interfere: reading sends nothing, and writing
    leaves what will be read as it is. *)
Definition sends_nothing {T} `{WriterLaws T} (s s' : T) : Prop := emitted s s' [].
Definition same_input {T} `{ReaderLaws T} (s s' : T) : Prop :=
  (∀ bs, delivers s bs → delivers s' bs) ∧ budget s' = budget s.

Class TwoWay (T : Type) `{ReaderLaws T} `{WriterLaws T} : Prop := {
  read_quiet : ∀ n, moves sends_nothing (read n);
  write_quiet : ∀ d, moves same_input (write d);
}.

#[global] Instance sends_nothing_preorder {T} `{WriterLaws T} : PreOrder (sends_nothing (T := T)).
Proof.
  split; [intros s; apply emitted_nil|]. intros s1 s2 s3 E1 E2. exact (emitted_app s1 s2 s3 [] [] E1 E2).
Qed.

#[global] Instance same_input_preorder {T} `{ReaderLaws T} : PreOrder (same_input (T := T)).
Proof.
  split; [done|]. intros s1 s2 s3 [D1 B1] [D2 B2]. split; [by intros bs ?%D1%D2|lia].
Qed.

#[global] Instance duplex_two_way {R W} `{ReaderLaws R} `{WriterLaws W} : TwoWay (Duplex.duplex R W).
Proof.
  split.
  - intros n [r w]. cbn. unfold Duplex.on_rx. cbn. destruct (read n r) as [o r']. apply emitted_nil.
  - intros d [r w]. cbn. unfold Duplex.on_wx. cbn. by destruct (write d w) as [o w'].
Qed.

Lemma moves_ReadFull {T} `{Reader T} (Rel : T → T → Prop) `{!PreOrder Rel} (n : nat) :
  (∀ k, moves Rel (read k)) → moves Rel (ReadFull n).
Proof.
  intros Hread s. unfold ReadFull. generalize (S (budget s)) as fuel. intros fuel. generalize (@nil byte) as acc. revert s.
  induction fuel as [|fuel IH]; intros s acc; cbn [readAtLeast]; case_decide; try reflexivity.
  specialize (Hread (n - length acc) s). destruct (read _ s) as [[d|e| |] s1]; cbn [snd] in *; try done.
  etrans; [exact Hread|]. apply IH.
Qed.

Lemma quiet_ReadFull {T} `{TwoWay T} (n : nat) : moves sends_nothing (ReadFull n).
Proof. apply moves_ReadFull; [apply _|]. apply read_quiet. Qed.

#[export] Hint Resolve quiet_ReadFull read_quiet write_quiet : moves.

(** ** Safety of parsers

    [safe m]: on any finite input [m] returns a value or an error, leaving a
    suffix of the input; it neither panics nor runs for ever. *)
Section safe.
  Context {T : Type} `{ReaderLaws T}.

Definition safe_at {A} (m : M T A) (s : T) (bs : bytes) : Prop :=
    match m s with
    | (Ok _, s') | (Err _, s') => ∃ bs', delivers s' bs' ∧ bs' `suffix_of` bs
    | _ => False
    end.

Definition safe {A} (m : M T A) : Prop := ∀ s bs, delivers s bs → safe_at m s bs.

Lemma safe_ret {A} (a : A) : safe (mret a).
  Proof. intros s bs Hd. exists bs. done. Qed.

Lemma safe_throw {A} (e : error) : safe (@throw T A e).
  Proof. intros s bs Hd. exists bs. done. Qed.

Lemma safe_lift {A} (o : outcome A) :
    returns o → safe (lift o).
  Proof. intros Ho s bs Hd. destruct o; try done; exists bs; done. Qed.

Lemma safe_bind {A B} (m : M T A) (k : A → M T B) :
    safe m → (∀ a, safe (k a)) → safe (m ≫= k).
  Proof.
    intros Hm Hk s bs Hd. specialize (Hm s bs Hd). unfold safe_at in *.
    unfold mbind, M_bind. destruct (m s) as [[a|e| |] s1]; try done.
    destruct Hm as (bs1 & Hd1 & Hs1). specialize (Hk a s1 bs1 Hd1). unfold safe_at in Hk.
    destruct (k a s1) as [[b|e| |] s2]; try done;
      destruct Hk as (bs2 & Hd2 & Hs2); exists bs2; split; [done|by etrans|done|by etrans].
  Qed.

Lemma safe_ReadFull (n : nat) : safe (ReadFull n).
  Proof.
    intros s bs Hd. unfold safe_at. destruct (decide (n ≤ length bs)) as [Hn|Hn].
    - destruct (ReadFull_ok n s bs Hd Hn) as (s' & -> & Hd' & _).
      exists (drop n bs). split; [done|]. exists (take n bs). by rewrite take_drop.
    - destruct (ReadFull_short n s bs Hd) as (s' & -> & Hd' & _); [lia|].
      exists []. split; [done|]. exists bs. by rewrite app_nil_r.
  Qed.

Lemma ReadFull_length (n : nat) (s s' : T) (bs d : bytes) :
  delivers s bs → ReadFull n s = (Ok d, s') → length d = n ∧ ∃ bs', delivers s' bs'.
Proof.
  intros Hd Hr. destruct (decide (n ≤ length bs)) as [Hn|Hn].
  - destruct (ReadFull_ok n s bs Hd Hn) as (s1 & Hr' & Hd' & _). rewrite Hr' in Hr.
    injection Hr as <- <-. rewrite length_take. split; [lia|]. eauto.
  - destruct (ReadFull_short n s bs Hd) as (s1 & Hr' & _); [lia|]. by rewrite Hr' in Hr.
Qed.

Lemma ReadFull_budget (n : nat) (s s' : T) (bs d : bytes) :
  delivers s bs → ReadFull n s = (Ok d, s') →
  ∃ bs', delivers s' bs' ∧ budget s' ≤ budget s ∧ (0 < n → budget s' < budget s).
Proof.
  intros Hd Hr. destruct (decide (n ≤ length bs)) as [Hn|Hn].
  - destruct (ReadFull_ok n s bs Hd Hn) as (s1 & Hr' & Hd' & Hb & Hlt). rewrite Hr' in Hr.
    injection Hr as _ <-. exists (drop n bs). split; [done|]. split; [lia|done].
  - destruct (ReadFull_short n s bs Hd) as (s1 & Hr' & _); [lia|]. by rewrite Hr' in Hr.
Qed.

Lemma safe_ReadFull_bind {A} (n : nat) (k : bytes → M T A) :
    (∀ h, length h = n → safe (k h)) → safe (ReadFull n ≫= k).
  Proof.
    intros Hk s bs Hd. unfold safe_at. destruct (decide (n ≤ length bs)) as [Hn|Hn].
    - destruct (ReadFull_ok n s bs Hd Hn) as (s' & Hr & Hd' & _). run Hr.
      assert (Hl : length (take n bs) = n) by (rewrite length_take; lia).
      specialize (Hk _ Hl s' _ Hd'). unfold safe_at in Hk.
      destruct (k (take n bs) s') as [[a|e| |] s2]; try done;
        destruct Hk as (bs2 & Hd2 & Hs2); exists bs2; (split; [done|]);
        (etrans; [exact Hs2|]); exists (take n bs); by rewrite take_drop.
    - destruct (ReadFull_short n s bs Hd) as (s' & Hr & Hd' & _); [lia|]. run Hr.
      exists []. split; [done|]. exists bs. by rewrite app_nil_r.
  Qed.

  (** Reading a length-prefixed body whose length field has [k] bytes. *)
Lemma safe_make_slice {A} (l : bytes) (k : nat → M T A) :
    length l ≤ 4 → (∀ n, safe (k n)) → safe (n ← lift (make_slice (get_be l)); k n).
  Proof.
    intros Hl Hk. apply safe_bind; [|done]. apply safe_lift.
    pose proof (get_be_range l) as Hr. rewrite make_slice_ok; [done|].
    assert (256 ^ len l ≤ 256 ^ 4)%Z by (apply Z.pow_le_mono_r; unfold len; lia).
    unfold max_alloc. lia.
  Qed.
End safe.

#[export] Hint Resolve safe_ret safe_throw safe_bind safe_ReadFull : df.
