(* ===== verification/Framing.v ===== *)
(** What the encrypting framers [f1] and [ws] share: both read the transport
    frame by frame and keep the part of a frame the caller's buffer could not
    take.  The class [Framed] is the interface a framer fulfils; the reader
    laws follow from it once for both. *)
From S2P Require Import Prelude GoIO.

(** Frames back to back on the wire, for a relation [fr p w]: "the bytes [w]
    are one frame with payload [p]". *)
Section frames.
Context (fr : bytes → bytes → Prop).

Definition are_frames (ps : list bytes) (w : bytes) : Prop :=
  ∃ ws, Forall2 fr ps ws ∧ w = concat ws.

Lemma are_frames_nil : are_frames [] [].
Proof. exists []. done. Qed.

Lemma are_frames_cons (p w : bytes) (ps : list bytes) (w' : bytes) :
  fr p w → are_frames ps w' → are_frames (p :: ps) (w ++ w').
Proof. intros Hf (ws & Hws & ->). exists (w :: ws). by split; [constructor|]. Qed.

Lemma are_frames_one (p w : bytes) : fr p w → are_frames [p] w.
Proof. intros Hf. rewrite <- (app_nil_r w). by apply are_frames_cons, are_frames_nil. Qed.

Lemma are_frames_app (ps ps' : list bytes) (w w' : bytes) :
  are_frames ps w → are_frames ps' w' → are_frames (ps ++ ps') (w ++ w').
Proof.
  intros (ws & Hws & ->) (ws' & Hws' & ->). exists (ws ++ ws').
  split; [by apply Forall2_app | by rewrite concat_app].
Qed.

Lemma are_frames_inv (ps : list bytes) (w : bytes) :
  are_frames ps w →
  match ps with
  | [] => w = []
  | p :: ps' => ∃ w1 w2, w = w1 ++ w2 ∧ fr p w1 ∧ are_frames ps' w2
  end.
Proof.
  intros (ws & Hws & ->). destruct Hws as [|p w1 ps' ws' Hf Hws]; [done|].
  exists w1, (concat ws'). repeat split; [done|]. by exists ws'.
Qed.
End frames.

(** ** The left-over buffer [bufRead[:lenBufRead]] *)

(** Moving the rest of the left-over to the front of its array. *)
Lemma left_over_shift (size l : nat) (buf : bytes) :
  size ≤ l → l ≤ length buf →
  take (l - size) (copy_at 0 (drop size buf) buf) = drop size (take l buf).
Proof.
  intros Hs Hl. rewrite skipn_firstn_comm. unfold copy_at. rewrite take_0. cbn [app].
  rewrite take_app_le by (rewrite length_take, length_drop; lia).
  rewrite take_take. f_equal. lia.
Qed.

(** Appending to the left-over in a larger array. *)
Lemma left_over_grow (l : nat) (dat buf : bytes) :
  l ≤ length buf →
  copy_at l dat (copy_at 0 (take l buf) (make_bytes (l + length dat))) = take l buf ++ dat.
Proof.
  intros Hl. assert (Hpre : l = length (take l buf)) by (rewrite length_take; lia).
  rewrite Hpre at 1 3. by apply copy_two.
Qed.

(** ** The interface *)
Section framed.
Context {T : Type} `{ReaderLaws T}.

Class Framed (F : Type) := {
  transport : F → T;
  left_over : F → bytes;
  sound_buf : F → Prop;
  frame : F → bytes → bytes → Prop;
  next_frame : M F bytes;
  take_left : nat → M F bytes;
  keep : bytes → F → F;
  next_frame_ok : ∀ f p w rest, sound_buf f → frame f p w → delivers (transport f) (w ++ rest) →
    ∃ f', next_frame f = (Ok p, f') ∧ delivers (transport f') rest ∧
          left_over f' = left_over f ∧ frame f' = frame f ∧ sound_buf f' ∧
          S (length p) + budget (transport f') ≤ budget (transport f);
  next_frame_eof : ∀ f, sound_buf f → delivers (transport f) [] →
    ∃ f', next_frame f = (Err EOF, f') ∧ delivers (transport f') [] ∧
          left_over f' = left_over f ∧ frame f' = frame f ∧ sound_buf f' ∧
          budget (transport f') ≤ budget (transport f);
  take_left_ok : ∀ f n, sound_buf f →
    ∃ f', take_left n f = (Ok (take n (left_over f)), f') ∧ left_over f' = drop n (left_over f) ∧
          transport f' = transport f ∧ frame f' = frame f ∧ sound_buf f';
  keep_ok : ∀ f d, sound_buf f →
    left_over (keep d f) = left_over f ++ d ∧ transport (keep d f) = transport f ∧
    frame (keep d f) = frame f ∧ sound_buf (keep d f);
}.

Context {F : Type} `{Framed F}.

(** The reading operation of both framers. *)
Definition framed_read (n : nat) : M F bytes := λ f,
  if decide (0 < length (left_over f)) then take_left n f
  else (chunk ← next_frame;
        if decide (n < length chunk) then
          _ ← modify (keep (drop n chunk)); mret (take n chunk)
        else mret chunk) f.

Definition framed_budget (f : F) : nat := length (left_over f) + budget (transport f).

(** The plain text [f] still has to deliver: its left-over and the payloads of
    the frames its transport delivers. *)
Definition framed_delivers (f : F) (bs : bytes) : Prop :=
  ∃ ps w, are_frames (frame f) ps w ∧ delivers (transport f) w ∧ sound_buf f ∧
          bs = left_over f ++ concat ps.

Lemma framed_read_law (f : F) (bs : bytes) (n : nat) :
  framed_delivers f bs → 0 < n →
  read_post framed_delivers framed_budget n f bs (framed_read n f).
Proof.
  intros (ps & w & Hf & Hd & Hw & ->) Hn. unfold framed_read, framed_delivers, framed_budget.
  case_decide as Hb.
  - destruct (take_left_ok f n Hw) as (f' & -> & Hl & Ht & Hfr & Hw'). unfold read_post; cbv beta.
    exists (drop n (left_over f) ++ concat ps). rewrite Hl, Ht, length_take, length_drop.
    rewrite app_assoc, take_drop. repeat split; try lia. exists ps, w. rewrite Hfr. auto.
  - assert (left_over f = []) as Hb' by (apply nil_length_inv; lia). clear Hb. rename Hb' into Hb.
    rewrite Hb. cbn [app length Nat.add]. apply are_frames_inv in Hf.
    destruct ps as [|p ps].
    + subst w. destruct (next_frame_eof f Hw Hd) as (f' & Hr & Hd' & Hl & Hfr & Hw' & Hbu).
      run Hr. unfold read_post; cbv beta. rewrite Hl, Hb. split; [done|]. split; [done|]. split; [|done].
      exists [], []. rewrite Hfr. split; [apply are_frames_nil|done].
    + destruct Hf as (w1 & w2 & -> & Hf1 & Hf2).
      destruct (next_frame_ok f p w1 w2 Hw Hf1 Hd) as (f' & Hr & Hd' & Hl & Hfr & Hw' & Hbu).
      run Hr. rewrite Hb in Hl. case_decide as Hlong.
      * unfold mbind, M_bind, modify, mret, M_ret, read_post; cbv beta.
        destruct (keep_ok f' (drop n p) Hw') as (E1 & E2 & E3 & E4). rewrite Hl in E1.
        exists (drop n p ++ concat ps). rewrite E1, E2. cbn [concat app].
        rewrite length_take, length_drop, app_assoc, take_drop. repeat split; try lia.
        exists ps, w2. rewrite E3, Hfr. auto.
      * unfold mret, M_ret, read_post; cbv beta. exists (concat ps). rewrite Hl. cbn [concat length].
        repeat split; try lia. exists ps, w2. rewrite Hfr. auto.
Qed.

(** A fresh framer over a transport that delivers frames. *)
Lemma framed_fresh (f : F) (ps : list bytes) (w : bytes) :
  left_over f = [] → sound_buf f → are_frames (frame f) ps w → delivers (transport f) w →
  framed_delivers f (concat ps).
Proof. intros Hl Hs Hf Hd. exists ps, w. by rewrite Hl. Qed.
End framed.
Arguments Framed T {_ _} F.
