(* ===== verification/Strconv.v ===== *)
(** Decimal numbers and ASCII text as the program uses them: [strconv.ParseInt],
    [strconv.ParseUint], [strconv.Atoi], the [%d] verb of [fmt], and the
    case-insensitive comparison [strings.EqualFold]. *)
From S2P Require Import Prelude.

Definition digit (d : Z) : byte := byte_of (48 + d).

(** The value of an ASCII digit. *)
Definition digit_val (b : byte) : option Z :=
  let v := byte_val b in
  if (48 <=? v)%Z && (v <=? 57)%Z then Some (v - 48)%Z else None.

(** [fmt.Sprintf("%d", n)] for [0 ≤ n]. *)
Fixpoint format_digits (fuel : nat) (n : Z) : bytes :=
  match fuel with
  | 0 => [digit n]
  | S fuel' =>
      if (n <? 10)%Z then [digit n]
      else format_digits fuel' (n / 10) ++ [digit (n mod 10)]
  end.

Definition format_uint (n : Z) : bytes := format_digits (Z.to_nat (Z.log2 n)) n.

Definition format_int (n : Z) : bytes :=
  if (n <? 0)%Z then Byte.x2d :: format_uint (- n) else format_uint n.

(** The value of a non-empty run of digits; [None] on any other character. *)
Fixpoint digits_val (l : bytes) (acc : Z) : option Z :=
  match l with
  | [] => Some acc
  | b :: l' => match digit_val b with
               | Some d => digits_val l' (acc * 10 + d)
               | None => None
               end
  end.

Definition strconv_error : error := LibError (lit "strconv").

(** [strconv.ParseUint(s, 10, 64)]. *)
Definition ParseUint (s : bytes) : outcome Z :=
  match s with
  | [] => Err strconv_error
  | _ => match digits_val s 0 with
         | Some n => if (n <? 2 ^ 64)%Z then Ok n else Err strconv_error
         | None => Err strconv_error
         end
  end.

(** [strconv.ParseInt(s, 10, 64)]; on a 64-bit target also [strconv.Atoi(s)]. *)
Definition ParseInt (s : bytes) : outcome Z :=
  let '(neg, ds) :=
    match s with
    | b :: s' => if decide (b = Byte.x2d) then (true, s')
                 else if decide (b = Byte.x2b) then (false, s') else (false, s)
    | [] => (false, s)
    end in
  n ← ParseUint ds;
  if (neg : bool) then if (n <=? 2 ^ 63)%Z then Ok (- n)%Z else Err strconv_error
  else if (n <? 2 ^ 63)%Z then Ok n else Err strconv_error.

Definition Atoi : bytes → outcome Z := ParseInt.

Lemma ParseInt_returns (s : bytes) : returns (ParseInt s).
Proof.
  unfold ParseInt. destruct (match s with b :: _ => _ | [] => _ end) as [[] ds];
    (apply returns_bind; [|intros n; by case_match]); unfold ParseUint; repeat case_match; done.
Qed.

Lemma digit_val_digit (d : Z) : (0 ≤ d < 10)%Z → digit_val (digit d) = Some d.
Proof.
  intros H. unfold digit_val, digit. rewrite byte_val_of, Z.mod_small by lia.
  destruct (Z.leb_spec 48 (48 + d)); [|lia]. destruct (Z.leb_spec (48 + d) 57); [|lia].
  cbn. f_equal. lia.
Qed.

Lemma digits_val_app (l1 l2 : bytes) (acc : Z) :
  digits_val (l1 ++ l2) acc = digits_val l1 acc ≫= digits_val l2.
Proof.
  revert acc. induction l1 as [|b l1 IH]; intros acc; cbn; [done|].
  destruct (digit_val b); cbn; [apply IH | done].
Qed.

Lemma format_digits_val (fuel : nat) (n : Z) :
  (0 ≤ n)%Z → (Z.log2 n ≤ Z.of_nat fuel)%Z →
  digits_val (format_digits fuel n) 0 = Some n.
Proof.
  revert n. induction fuel as [|fuel IH]; intros n Hn Hl; cbn [format_digits].
  - assert (n < 2)%Z.
    { destruct (Z.le_gt_cases 2 n); [|done].
      pose proof (Z.log2_le_mono 2 n ltac:(done)). cbn in *. lia. }
    cbn. rewrite digit_val_digit by lia. f_equal.
  - destruct (Z.ltb_spec n 10); [cbn; by rewrite digit_val_digit by lia|].
    rewrite digits_val_app, IH; [|zdm|].
    + cbn. rewrite digit_val_digit by zdm. f_equal. zdm.
    + pose proof (Z.log2_le_mono (n / 10) (n / 2) ltac:(zdm)).
      assert (Z.log2 (n / 2) = Z.log2 n - 1)%Z.
      { change 2%Z with (2 ^ 1)%Z at 1. rewrite <- Z.shiftr_div_pow2, Z.log2_shiftr by lia.
        pose proof (Z.log2_le_mono 2 n ltac:(lia)) as Hm. cbn in Hm. lia. }
      lia.
Qed.

Lemma format_uint_val (n : Z) : (0 ≤ n)%Z → digits_val (format_uint n) 0 = Some n.
Proof.
  intros. apply format_digits_val; [done|]. pose proof (Z.log2_nonneg n). lia.
Qed.

Lemma format_digits_cons (fuel : nat) (n : Z) :
  (0 ≤ n)%Z → (Z.log2 n ≤ Z.of_nat fuel)%Z →
  ∃ b l, format_digits fuel n = b :: l ∧ ∃ d, digit_val b = Some d.
Proof.
  revert n. induction fuel as [|fuel IH]; intros n Hn Hl.
  - pose proof (format_digits_val 0 n Hn Hl) as Hv. cbn in *.
    do 2 eexists; split; [done|]. destruct (digit_val (digit n)); [eauto|done].
  - pose proof (format_digits_val (S fuel) n Hn Hl) as Hv. revert Hv.
    destruct (format_digits (S fuel) n) as [|b l] eqn:E.
    + cbn in E. destruct (n <? 10)%Z; [done|]. by apply app_nil in E as [_ ?].
    + cbn. intros Hv. do 2 eexists; split; [done|]. destruct (digit_val b); [eauto|done].
Qed.

Lemma format_uint_cons (n : Z) :
  (0 ≤ n)%Z → ∃ b l, format_uint n = b :: l ∧ ∃ d, digit_val b = Some d.
Proof.
  intros. apply format_digits_cons; [done|]. pose proof (Z.log2_nonneg n). lia.
Qed.

Lemma ParseUint_format (n : Z) : (0 ≤ n < 2 ^ 64)%Z → ParseUint (format_uint n) = Ok n.
Proof.
  intros H. unfold ParseUint. rewrite format_uint_val by lia.
  destruct (format_uint_cons n) as (b & l & -> & _); [lia|].
  destruct (Z.ltb_spec n (2 ^ 64)); [done|lia].
Qed.

(** Printing a 64-bit integer with [%d] and parsing it back. *)
Lemma ParseInt_format (n : Z) : (- 2 ^ 63 ≤ n < 2 ^ 63)%Z → ParseInt (format_int n) = Ok n.
Proof.
  intros H. unfold format_int, ParseInt. destruct (Z.ltb_spec n 0).
  - rewrite decide_True by done. rewrite ParseUint_format by lia. cbn [mbind outcome_bind].
    destruct (Z.leb_spec (- n) (2 ^ 63)); [|lia]. f_equal. lia.
  - pose proof (ParseUint_format n ltac:(lia)) as HP.
    destruct (format_uint_cons n) as (b & l & E & d & Hd); [lia|]. rewrite E in *.
    rewrite !decide_False by (intros ->; cbn in Hd; done). rewrite HP.
    cbn [mbind outcome_bind]. destruct (Z.ltb_spec n (2 ^ 63)); [done|lia].
Qed.

(** ** Case-insensitive comparison

    [strings.ToLower] and [strings.EqualFold] on ASCII text; bytes above 127
    are compared as they are. *)
Definition lower (b : byte) : byte :=
  let v := byte_val b in
  if (65 <=? v)%Z && (v <=? 90)%Z then byte_of (v + 32) else b.

Definition upper (b : byte) : byte :=
  let v := byte_val b in
  if (97 <=? v)%Z && (v <=? 122)%Z then byte_of (v - 32) else b.

Definition ToLower (s : bytes) : bytes := map lower s.
Definition ToUpper (s : bytes) : bytes := map upper s.
Definition EqualFold (a b : bytes) : bool := bool_decide (ToLower a = ToLower b).

Lemma EqualFold_refl (s : bytes) : EqualFold s s = true.
Proof. by apply bool_decide_eq_true. Qed.

Lemma lower_upper (b : byte) : lower (upper b) = lower b.
Proof. destruct b; reflexivity. Qed.

Lemma EqualFold_ToUpper (s : bytes) : EqualFold (ToUpper s) s = true.
Proof.
  apply bool_decide_eq_true. unfold ToLower, ToUpper. rewrite map_map.
  apply map_ext. apply lower_upper.
Qed.
