(* ===== verification/Base64.v ===== *)
(** [base64.StdEncoding] as the program uses it ([EncodeToString],
    [DecodeString]). *)
From S2P Require Import Prelude.

Definition b64_alphabet : bytes :=
  lit "ABCDEFGHIJKLMNOPQRSTUVWXYZabcdefghijklmnopqrstuvwxyz0123456789+/".

Definition b64_char (v : Z) : byte := nth (Z.to_nat v) b64_alphabet Byte.x00.

Definition b64_val (c : byte) : option Z :=
  let v := byte_val c in
  if (65 <=? v)%Z && (v <=? 90)%Z then Some (v - 65)%Z
  else if (97 <=? v)%Z && (v <=? 122)%Z then Some (v - 71)%Z
  else if (48 <=? v)%Z && (v <=? 57)%Z then Some (v + 4)%Z
  else if (v =? 43)%Z then Some 62%Z
  else if (v =? 47)%Z then Some 63%Z
  else None.

Definition pad_char : byte := Byte.x3d.

Fixpoint EncodeToString (src : bytes) : bytes :=
  match src with
  | b0 :: b1 :: b2 :: t =>
      let n := (byte_val b0 * 65536 + byte_val b1 * 256 + byte_val b2)%Z in
      [b64_char (n / 262144); b64_char (n / 4096 mod 64);
       b64_char (n / 64 mod 64); b64_char (n mod 64)] ++ EncodeToString t
  | [b0; b1] =>
      let n := (byte_val b0 * 65536 + byte_val b1 * 256)%Z in
      [b64_char (n / 262144); b64_char (n / 4096 mod 64); b64_char (n / 64 mod 64); pad_char]
  | [b0] =>
      let n := (byte_val b0 * 65536)%Z in
      [b64_char (n / 262144); b64_char (n / 4096 mod 64); pad_char; pad_char]
  | [] => []
  end.

Definition b64_error : error := LibError (lit "base64").

(** Quanta of four characters, line breaks already removed; padding ends the
    text, and the unused bits of the last character are ignored. *)
Fixpoint decode_quanta (src : bytes) : outcome bytes :=
  match src with
  | [] => Ok []
  | c0 :: c1 :: c2 :: c3 :: t =>
      match b64_val c0, b64_val c1 with
      | Some v0, Some v1 =>
          match b64_val c2, b64_val c3 with
          | Some v2, Some v3 =>
              let n := (((v0 * 64 + v1) * 64 + v2) * 64 + v3)%Z in
              rest ← decode_quanta t;
              Ok (byte_of (n / 65536) :: byte_of (n / 256) :: byte_of n :: rest)
          | Some v2, None =>
              let n := (((v0 * 64 + v1) * 64 + v2) * 64)%Z in
              if decide (c3 = pad_char ∧ t = []) then
                Ok [byte_of (n / 65536); byte_of (n / 256)]
              else Err b64_error
          | None, _ =>
              let n := ((v0 * 64 + v1) * 64 * 64)%Z in
              if decide (c2 = pad_char ∧ c3 = pad_char ∧ t = []) then
                Ok [byte_of (n / 65536)]
              else Err b64_error
          end
      | _, _ => Err b64_error
      end
  | _ => Err b64_error
  end.

Definition is_newline (c : byte) : bool := bool_decide (c = Byte.x0a ∨ c = Byte.x0d).

Definition DecodeString (s : bytes) : outcome bytes :=
  decode_quanta (filter (λ c, negb (is_newline c)) s).

Lemma b64_val_char (v : Z) : (0 ≤ v < 64)%Z → b64_val (b64_char v) = Some v.
Proof.
  intros Hv.
  assert (Hall : forallb (λ i, bool_decide (b64_val (b64_char (Z.of_nat i)) = Some (Z.of_nat i)))
                   (seq 0 64) = true) by (vm_compute; reflexivity).
  rewrite forallb_forall in Hall. specialize (Hall (Z.to_nat v)).
  rewrite Z2Nat.id in Hall by lia. apply (bool_decide_eq_true _), Hall.
  apply in_seq. lia.
Qed.

Lemma b64_char_plain (v : Z) : (0 ≤ v < 64)%Z → is_newline (b64_char v) = false.
Proof.
  intros Hv.
  assert (Hall : forallb (λ i, negb (is_newline (b64_char (Z.of_nat i)))) (seq 0 64) = true)
    by (vm_compute; reflexivity).
  rewrite forallb_forall in Hall. specialize (Hall (Z.to_nat v)).
  rewrite Z2Nat.id in Hall by lia. apply negb_true_iff, Hall. apply in_seq. lia.
Qed.

Lemma byte_of_eq (z : Z) (b : byte) : (z mod 256 = byte_val b)%Z → byte_of z = b.
Proof. intros H. apply byte_val_inj. by rewrite byte_val_of. Qed.

(** Induction three bytes at a time, as the encoder proceeds. *)
Lemma three_ind (P : bytes → Prop) :
  P [] → (∀ a, P [a]) → (∀ a b, P [a; b]) → (∀ a b c t, P t → P (a :: b :: c :: t)) →
  ∀ l, P l.
Proof.
  intros H0 H1 H2 H3. fix IH 1. intros [|a [|b [|c t]]]; [done..|]. apply H3, IH.
Qed.

Lemma decode_quanta_encode (src : bytes) : decode_quanta (EncodeToString src) = Ok src.
Proof.
  induction src as [|a|a b|a b c t IH] using three_ind; [done|..];
    cbn [EncodeToString app decode_quanta];
    pose proof (byte_val_range a); try pose proof (byte_val_range b);
    try pose proof (byte_val_range c);
    rewrite !b64_val_char by zdm.
  - change (b64_val pad_char) with (@None Z). rewrite decide_True by done.
    do 2 f_equal. apply byte_of_eq. zdm.
  - change (b64_val pad_char) with (@None Z). rewrite decide_True by done.
    repeat f_equal; apply byte_of_eq; zdm.
  - rewrite IH. cbn [mbind outcome_bind]. repeat f_equal; apply byte_of_eq; zdm.
Qed.

Lemma EncodeToString_plain (src : bytes) : Forall (λ c, is_newline c = false) (EncodeToString src).
Proof.
  induction src as [|a|a b|a b c t IH] using three_ind; cbn [EncodeToString app]; [constructor|..];
    pose proof (byte_val_range a); try pose proof (byte_val_range b);
    try pose proof (byte_val_range c);
    repeat (apply Forall_cons; split); try done; apply b64_char_plain; zdm.
Qed.

Lemma filter_plain (l : bytes) :
  Forall (λ c, is_newline c = false) l → filter (λ c, negb (is_newline c)) l = l.
Proof.
  induction 1 as [|c l Hc _ IH]; [done|].
  rewrite filter_cons_True by (by rewrite Hc). by rewrite IH.
Qed.

(** Base64 is a round trip. *)
Lemma DecodeString_EncodeToString (src : bytes) : DecodeString (EncodeToString src) = Ok src.
Proof.
  unfold DecodeString. rewrite filter_plain by apply EncodeToString_plain.
  apply decode_quanta_encode.
Qed.

Lemma EncodeToString_length (src : bytes) :
  length (EncodeToString src) = 4 * ((length src + 2) `div` 3).
Proof.
  induction src as [|a|a b|a b c t IH] using three_ind; try reflexivity.
  cbn [EncodeToString app length]. rewrite IH.
  replace (S (S (S (length t))) + 2) with (1 * 3 + (length t + 2)) by lia.
  rewrite Nat.div_add_l by lia. lia.
Qed.

Lemma decode_quanta_returns (src : bytes) : returns (decode_quanta src).
Proof.
  remember (length src) as n eqn:Hn. assert (length src ≤ n) as Hle by lia. clear Hn.
  revert src Hle. induction n as [|n IH]; intros [|c0 [|c1 [|c2 [|c3 t]]]] Hl; cbn in Hl; try done; try lia.
  cbn [decode_quanta]. destruct (b64_val c0), (b64_val c1); try done.
  destruct (b64_val c2), (b64_val c3); try done; try (case_decide; done).
  apply returns_bind; [apply IH; lia | done].
Qed.

Lemma DecodeString_returns (s : bytes) : returns (DecodeString s).
Proof. apply decode_quanta_returns. Qed.

(** What holds of the alphabet and the padding holds of every encoded text. *)
Lemma b64_char_in (v : Z) : (0 ≤ v < 64)%Z → In (b64_char v) b64_alphabet.
Proof.
  intros Hv. unfold b64_char. apply nth_In. change (length b64_alphabet) with 64. lia.
Qed.

Lemma EncodeToString_forallb (p : byte → bool) (src : bytes) :
  forallb p (pad_char :: b64_alphabet) = true → forallb p (EncodeToString src) = true.
Proof.
  cbn [forallb]. intros [Hpad Hall]%andb_true_iff. rewrite forallb_forall in Hall.
  assert (Hp : ∀ v, (0 ≤ v < 64)%Z → p (b64_char v) = true) by (intros v Hv; by apply Hall, b64_char_in).
  induction src as [|a|a b|a b c t IH] using three_ind; [done|..]; cbn [EncodeToString app forallb];
    pose proof (byte_val_range a); try pose proof (byte_val_range b); try pose proof (byte_val_range c);
    rewrite ?Hpad, !Hp by zdm; done.
Qed.
