(* ===== verification/Json.v ===== *)
(** Package [encoding/json] as the program uses it: [Marshal] of a struct whose
    fields are strings and [uint32]s, and [Unmarshal] of a document into such a
    struct.  The encoder escapes as [encoding/json] does (HTML-safe, invalid
    UTF-8 replaced by U+FFFD); the decoder is a parser for whole JSON
    documents. *)
From S2P Require Import Prelude Strconv.

(** ** UTF-8

    [utf8_len l]: the length of the well-formed UTF-8 sequence [l] starts
    with; 0 if it starts with none ([utf8.DecodeRune] gives [RuneError, 1]). *)
Definition in_range (lo hi : Z) (b : byte) : bool :=
  (lo <=? byte_val b)%Z && (byte_val b <=? hi)%Z.

Definition cont : byte → bool := in_range 128 191.

Definition utf8_len (l : bytes) : nat :=
  match l with
  | [] => 0
  | b0 :: t =>
      if in_range 0 127 b0 then 1 else
      match t with
      | b1 :: t1 =>
          if in_range 194 223 b0 && cont b1 then 2 else
          match t1 with
          | b2 :: t2 =>
              if (in_range 224 224 b0 && in_range 160 191 b1
                  || in_range 225 236 b0 && cont b1
                  || in_range 237 237 b0 && in_range 128 159 b1
                  || in_range 238 239 b0 && cont b1) && cont b2 then 3 else
              match t2 with
              | b3 :: _ =>
                  if (in_range 240 240 b0 && in_range 144 191 b1
                      || in_range 241 243 b0 && cont b1
                      || in_range 244 244 b0 && in_range 128 143 b1)
                     && cont b2 && cont b3 then 4 else 0
              | [] => 0
              end
          | [] => 0
          end
      | [] => 0
      end
  end.

(** [utf8.Valid]; [skip] counts the bytes left of the current sequence. *)
Fixpoint utf8_valid_from (skip : nat) (l : bytes) : bool :=
  match l with
  | [] => true
  | b :: t =>
      match skip with
      | S k => utf8_valid_from k t
      | 0 => match utf8_len l with
             | 0 => false
             | S k => utf8_valid_from k t
             end
      end
  end.
Definition utf8_valid (l : bytes) : bool := utf8_valid_from 0 l.

(** [utf8.AppendRune]. *)
Definition encode_rune (r : Z) : bytes :=
  if (r <? 128)%Z then [byte_of r]
  else if (r <? 2048)%Z then [byte_of (192 + r / 64); byte_of (128 + r mod 64)]
  else if (r <? 65536)%Z then
    [byte_of (224 + r / 4096); byte_of (128 + r / 64 mod 64); byte_of (128 + r mod 64)]
  else [byte_of (240 + r / 262144); byte_of (128 + r / 4096 mod 64);
        byte_of (128 + r / 64 mod 64); byte_of (128 + r mod 64)].

Definition replacement : bytes := [Byte.xef; Byte.xbf; Byte.xbd].

(** ** String encoding *)
Definition hex_digit (d : Z) : byte :=
  if (d <? 10)%Z then byte_of (48 + d) else byte_of (87 + d).

(** [\u00XX] *)
Definition escape_u00 (b : byte) : bytes :=
  lit "\u00" ++ [hex_digit (byte_val b / 16); hex_digit (byte_val b mod 16)].

(** The characters the encoder may copy: printable ASCII except quote,
    backslash, and the HTML characters. *)
Definition html_safe (b : byte) : bool :=
  in_range 32 127 b &&
  negb (bool_decide (b ∈ [Byte.x22; Byte.x5c; Byte.x3c; Byte.x3e; Byte.x26])).

Definition escape_ascii (b : byte) : bytes :=
  if html_safe b then [b]
  else if decide (b = Byte.x5c) then lit "\\"
  else if decide (b = Byte.x22) then [Byte.x5c; Byte.x22]
  else if decide (b = Byte.x0a) then lit "\n"
  else if decide (b = Byte.x0d) then lit "\r"
  else if decide (b = Byte.x09) then lit "\t"
  else escape_u00 b.

(** Whether the three-byte sequence is U+2028 or U+2029. *)
Definition line_separator (l : bytes) : option bytes :=
  match l with
  | b0 :: b1 :: b2 :: _ =>
      if decide (b0 = Byte.xe2 ∧ b1 = Byte.x80 ∧ b2 = Byte.xa8) then Some (lit "\u2028")
      else if decide (b0 = Byte.xe2 ∧ b1 = Byte.x80 ∧ b2 = Byte.xa9) then Some (lit "\u2029")
      else None
  | _ => None
  end.

(** The body of a string literal; [skip] counts the bytes left of the current
    sequence, [copy] tells whether they are emitted. *)
Fixpoint escape_from (skip : nat) (copy : bool) (l : bytes) : bytes :=
  match l with
  | [] => []
  | b :: t =>
      match skip with
      | S k => (if copy then [b] else []) ++ escape_from k copy t
      | 0 =>
          if in_range 0 127 b then escape_ascii b ++ escape_from 0 true t else
          match utf8_len l with
          | 0 => lit "\ufffd" ++ escape_from 0 true t
          | S k => match line_separator l with
                   | Some e => e ++ escape_from k false t
                   | None => [b] ++ escape_from k true t
                   end
          end
      end
  end.

Definition quote : byte := Byte.x22.
Definition encode_string (s : bytes) : bytes := quote :: escape_from 0 true s ++ [quote].

(** ** Struct encoding

    One field of a struct: its tag name, whether it is [omitempty], and its
    value. *)
Inductive field_value := FString (s : bytes) | FUint32 (n : Z).
Record field := mk_field { f_name : bytes; f_omitempty : bool; f_value : field_value }.

Definition field_empty (v : field_value) : bool :=
  match v with
  | FString s => bool_decide (s = [])
  | FUint32 n => (n =? 0)%Z
  end.

Definition encode_value (v : field_value) : bytes :=
  match v with FString s => encode_string s | FUint32 n => format_uint n end.

Definition encode_field (f : field) : bytes :=
  encode_string (f_name f) ++ lit ":" ++ encode_value (f_value f).

Fixpoint encode_fields (fs : list field) : bytes :=
  match fs with
  | [] => []
  | [f] => encode_field f
  | f :: fs' => encode_field f ++ lit "," ++ encode_fields fs'
  end.

(** [omitempty] leaves out a field with an empty value. *)
Definition present (f : field) : bool := negb (f_omitempty f && field_empty (f_value f)).

(** [json.Marshal] of a pointer to a struct with these fields; it cannot fail
    on such a struct. *)
Definition Marshal (fs : list field) : outcome bytes :=
  Ok (lit "{" ++ encode_fields (filter present fs) ++ lit "}").

(** ** Parsing *)
#[warnings="-register-all"]
Inductive json : Type :=
  | JNull
  | JBool (b : bool)
  | JNum (raw : bytes)
  | JStr (s : bytes)
  | JArr (items : list json)
  | JObj (members : list (bytes * json)).

Definition is_space (b : byte) : bool :=
  bool_decide (b ∈ [Byte.x20; Byte.x09; Byte.x0a; Byte.x0d]).

Fixpoint skip_space (l : bytes) : bytes :=
  match l with
  | b :: t => if is_space b then skip_space t else l
  | [] => []
  end.

Definition hex_val (b : byte) : option Z :=
  let v := byte_val b in
  if in_range 48 57 b then Some (v - 48)%Z
  else if in_range 97 102 b then Some (v - 87)%Z
  else if in_range 65 70 b then Some (v - 55)%Z
  else None.

Definition hex4 (a b c d : byte) : option Z :=
  x ← hex_val a; y ← hex_val b; z ← hex_val c; w ← hex_val d;
  Some (((x * 16 + y) * 16 + z) * 16 + w)%Z.

(** One-character escapes. *)
Definition unescape (b : byte) : option byte :=
  if bool_decide (b ∈ [Byte.x22; Byte.x5c; Byte.x2f]) then Some b
  else if decide (b = Byte.x62) then Some Byte.x08
  else if decide (b = Byte.x66) then Some Byte.x0c
  else if decide (b = Byte.x6e) then Some Byte.x0a
  else if decide (b = Byte.x72) then Some Byte.x0d
  else if decide (b = Byte.x74) then Some Byte.x09
  else None.

Definition is_surrogate (r : Z) : bool := (55296 <=? r)%Z && (r <=? 57343)%Z.
Definition surrogate_pair (r1 r2 : Z) : option Z :=
  if (55296 <=? r1)%Z && (r1 <=? 56319)%Z && (56320 <=? r2)%Z && (r2 <=? 57343)%Z
  then Some ((r1 - 55296) * 1024 + (r2 - 56320) + 65536)%Z else None.

(** The contents of a string literal up to its closing quote, and the rest of
    the input.  [skip] counts the bytes left of the current UTF-8 sequence. *)
Fixpoint parse_string (skip : nat) (l : bytes) : option (bytes * bytes) :=
  match l with
  | [] => None
  | b :: t =>
      match skip with
      | S k => '(s, r) ← parse_string k t; Some (b :: s, r)
      | 0 =>
          if decide (b = quote) then Some ([], t)
          else if decide (b = Byte.x5c) then
            match t with
            | c :: t1 =>
                if decide (c = Byte.x75) then
                  match t1 with
                  | h1 :: h2 :: h3 :: h4 :: t2 =>
                      r1 ← hex4 h1 h2 h3 h4;
                      if is_surrogate r1 then
                        match t2 with
                        | e1 :: e2 :: g1 :: g2 :: g3 :: g4 :: t3 =>
                            match (if decide (e1 = Byte.x5c ∧ e2 = Byte.x75)
                                   then hex4 g1 g2 g3 g4 ≫= surrogate_pair r1 else None) with
                            | Some r => '(s, u) ← parse_string 0 t3; Some (encode_rune r ++ s, u)
                            | None => '(s, u) ← parse_string 0 t2; Some (replacement ++ s, u)
                            end
                        | _ => '(s, u) ← parse_string 0 t2; Some (replacement ++ s, u)
                        end
                      else '(s, u) ← parse_string 0 t2; Some (encode_rune r1 ++ s, u)
                  | _ => None
                  end
                else x ← unescape c; '(s, u) ← parse_string 0 t1; Some (x :: s, u)
            | [] => None
            end
          else if in_range 0 31 b then None
          else match utf8_len l with
               | 0 => '(s, u) ← parse_string 0 t; Some (replacement ++ s, u)
               | S k => '(s, u) ← parse_string k t; Some (b :: s, u)
               end
      end
  end.

(** Numbers: the longest prefix of the literal's grammar. *)
Fixpoint take_digits (l : bytes) : bytes * bytes :=
  match l with
  | b :: t => if in_range 48 57 b then let '(d, r) := take_digits t in (b :: d, r) else ([], l)
  | [] => ([], [])
  end.

Definition parse_fraction (l : bytes) : option (bytes * bytes) :=
  match l with
  | b :: t => if decide (b = Byte.x2e) then
                match take_digits t with ([], _) => None | (d, r) => Some (b :: d, r) end
              else Some ([], l)
  | [] => Some ([], [])
  end.

Definition parse_exponent (l : bytes) : option (bytes * bytes) :=
  match l with
  | b :: t =>
      if bool_decide (b ∈ [Byte.x65; Byte.x45]) then
        let '(sign, t1) := match t with
                           | c :: t1 => if bool_decide (c ∈ [Byte.x2b; Byte.x2d])
                                        then ([c], t1) else ([], t)
                           | [] => ([], t)
                           end in
        match take_digits t1 with ([], _) => None | (d, r) => Some (b :: sign ++ d, r) end
      else Some ([], l)
  | [] => Some ([], [])
  end.

Definition parse_number (l : bytes) : option (json * bytes) :=
  let '(sign, l1) := match l with
                     | b :: t => if decide (b = Byte.x2d) then ([b], t) else ([], l)
                     | [] => ([], l)
                     end in
  '(int, l2) ← match l1 with
               | b :: t => if decide (b = Byte.x30) then Some ([b], t)
                           else match take_digits l1 with
                                | ([], _) => None
                                | (d, r) => Some (d, r)
                                end
               | [] => None
               end;
  '(frac, l3) ← parse_fraction l2;
  '(ex, l4) ← parse_exponent l3;
  Some (JNum (sign ++ int ++ frac ++ ex), l4).

Definition parse_literal (word : bytes) (v : json) (l : bytes) : option (json * bytes) :=
  if decide (take (length word) l = word) then Some (v, drop (length word) l) else None.

(** One JSON value; [depth] is the nesting still allowed. *)
Fixpoint parse_value (fuel depth : nat) (l : bytes) : option (json * bytes) :=
  match fuel with
  | 0 => None
  | S fuel' =>
      match skip_space l with
      | [] => None
      | b :: t =>
          if decide (b = Byte.x7b) then
            match depth with
            | 0 => None
            | S depth' =>
                match skip_space t with
                | c :: t1 => if decide (c = Byte.x7d) then Some (JObj [], t1)
                             else '(ms, r) ← parse_members fuel' depth' t; Some (JObj ms, r)
                | [] => None
                end
            end
          else if decide (b = Byte.x5b) then
            match depth with
            | 0 => None
            | S depth' =>
                match skip_space t with
                | c :: t1 => if decide (c = Byte.x5d) then Some (JArr [], t1)
                             else '(vs, r) ← parse_items fuel' depth' t; Some (JArr vs, r)
                | [] => None
                end
            end
          else if decide (b = quote) then '(s, r) ← parse_string 0 t; Some (JStr s, r)
          else if decide (b = Byte.x74) then parse_literal (lit "true") (JBool true) (b :: t)
          else if decide (b = Byte.x66) then parse_literal (lit "false") (JBool false) (b :: t)
          else if decide (b = Byte.x6e) then parse_literal (lit "null") JNull (b :: t)
          else parse_number (b :: t)
      end
  end
with parse_members (fuel depth : nat) (l : bytes) : option (list (bytes * json) * bytes) :=
  match fuel with
  | 0 => None
  | S fuel' =>
      match skip_space l with
      | b :: t =>
          if decide (b = quote) then
            '(k, r1) ← parse_string 0 t;
            match skip_space r1 with
            | c :: r2 =>
                if decide (c = Byte.x3a) then
                  '(v, r3) ← parse_value fuel' depth r2;
                  match skip_space r3 with
                  | e :: r4 =>
                      if decide (e = Byte.x2c) then
                        '(ms, r5) ← parse_members fuel' depth r4; Some ((k, v) :: ms, r5)
                      else if decide (e = Byte.x7d) then Some ([(k, v)], r4)
                      else None
                  | [] => None
                  end
                else None
            | [] => None
            end
          else None
      | [] => None
      end
  end
with parse_items (fuel depth : nat) (l : bytes) : option (list json * bytes) :=
  match fuel with
  | 0 => None
  | S fuel' =>
      '(v, r1) ← parse_value fuel' depth l;
      match skip_space r1 with
      | e :: r2 =>
          if decide (e = Byte.x2c) then
            '(vs, r3) ← parse_items fuel' depth r2; Some (v :: vs, r3)
          else if decide (e = Byte.x5d) then Some ([v], r2)
          else None
      | [] => None
      end
  end.

(** [encoding/json]'s nesting limit. *)
Definition max_depth : nat := Z.to_nat 10000.

(** A whole document: one value surrounded by space.  At most two nested calls
    of the parser look at the same character, so twice the document's length
    is enough fuel. *)
Definition parse_document (l : bytes) : option json :=
  '(v, r) ← parse_value (S (2 * length l)) max_depth l;
  match skip_space r with [] => Some v | _ => None end.

(** ** Decoding into a struct

    Field names are matched exactly, or else case-insensitively with the two
    non-ASCII characters that fold to ASCII letters (U+212A to [k], U+017F to
    [s]). *)
Fixpoint fold_name (l : bytes) : bytes :=
  match l with
  | [] => []
  | b0 :: t =>
      match t with
      | b1 :: t1 =>
          if decide (b0 = Byte.xc5 ∧ b1 = Byte.xbf) then Byte.x73 :: fold_name t1 else
          match t1 with
          | b2 :: t2 =>
              if decide (b0 = Byte.xe2 ∧ b1 = Byte.x84 ∧ b2 = Byte.xaa)
              then Byte.x6b :: fold_name t2 else lower b0 :: fold_name t
          | [] => lower b0 :: fold_name t
          end
      | [] => lower b0 :: fold_name t
      end
  end.

Definition json_error : error := LibError (lit "json").

(** Storing one JSON value in a field: [null] leaves it alone, a value of the
    wrong type is an error (and leaves it alone). *)
Definition store (f : field) (v : json) : field * bool :=
  match v, f_value f with
  | JNull, _ => (f, true)
  | JStr s, FString _ => (mk_field (f_name f) (f_omitempty f) (FString s), true)
  | JNum raw, FUint32 _ =>
      match ParseUint raw with
      | Ok n => if (n <? 2 ^ 32)%Z
                then (mk_field (f_name f) (f_omitempty f) (FUint32 n), true) else (f, false)
      | _ => (f, false)
      end
  | _, _ => (f, false)
  end.

Fixpoint store_first (p : field → bool) (v : json) (fs : list field) : option (list field * bool) :=
  match fs with
  | [] => None
  | f :: fs' => if p f then let '(f', ok) := store f v in Some (f' :: fs', ok)
                else '(fs'', ok) ← store_first p v fs'; Some (f :: fs'', ok)
  end.

Definition store_member (fs : list field) (k : bytes) (v : json) : list field * bool :=
  match store_first (λ f, bool_decide (f_name f = k)) v fs with
  | Some r => r
  | None =>
      match store_first (λ f, bool_decide (fold_name (f_name f) = fold_name k)) v fs with
      | Some r => r
      | None => (fs, true)
      end
  end.

Fixpoint store_members (fs : list field) (ms : list (bytes * json)) : list field * bool :=
  match ms with
  | [] => (fs, true)
  | (k, v) :: ms' =>
      let '(fs1, ok1) := store_member fs k v in
      let '(fs2, ok2) := store_members fs1 ms' in (fs2, ok1 && ok2)
  end.

(** [json.Unmarshal(dat, m)] for a struct [m] with the fields [fs]: the new
    fields, or an error. *)
Definition Unmarshal (dat : bytes) (fs : list field) : outcome (list field) :=
  match parse_document dat with
  | None => Err json_error
  | Some JNull => Ok fs
  | Some (JObj ms) => let '(fs', ok) := store_members fs ms in
                      if (ok : bool) then Ok fs' else Err json_error
  | Some _ => Err json_error
  end.

(** A struct's fields with their zero values. *)
Definition zero_field (f : field) : field :=
  mk_field (f_name f) (f_omitempty f)
    match f_value f with FString _ => FString [] | FUint32 _ => FUint32 0 end.

(** What survives the encoding: valid UTF-8, and integers of the field's width;
    the tag names are plain. *)
Definition value_ok (v : field_value) : bool :=
  match v with
  | FString s => utf8_valid s
  | FUint32 n => (0 <=? n)%Z && (n <? 2 ^ 32)%Z
  end.
Definition field_ok (f : field) : bool :=
  forallb (λ b, html_safe b) (f_name f) && value_ok (f_value f).

(** ** The string codec *)
Lemma utf8_len_ext (l l' : bytes) (n : nat) :
  utf8_len l = S n → take (S n) l' = take (S n) l → utf8_len l' = S n.
Proof.
  intros H E.
  destruct l as [|b0 [|b1 [|b2 [|b3 t]]]]; cbn [utf8_len] in H;
    repeat case_match; simplify_eq;
    destruct l' as [|c0 [|c1 [|c2 [|c3 t']]]]; cbn [take] in E; simplify_eq;
    cbn [utf8_len]; repeat case_match; congruence.
Qed.

Lemma utf8_len_length (l : bytes) : utf8_len l ≤ length l.
Proof. destruct l as [|b0 [|b1 [|b2 [|b3 t]]]]; cbn [utf8_len length]; repeat case_match; lia. Qed.

Lemma parse_escape_ascii (b : byte) (rest : bytes) :
  in_range 0 127 b = true →
  parse_string 0 (escape_ascii b ++ rest) = '(s, u) ← parse_string 0 rest; Some (b :: s, u).
Proof. destruct b; intros H; try discriminate H; reflexivity. Qed.

Lemma parse_escape_fffd (rest : bytes) :
  parse_string 0 (lit "\u2028" ++ rest)
  = '(s, u) ← parse_string 0 rest; Some ([Byte.xe2; Byte.x80; Byte.xa8] ++ s, u).
Proof. reflexivity. Qed.

Lemma parse_copied (k : nat) (l rest : bytes) :
  k ≤ length l →
  parse_string k (l ++ rest) =
  '(s, u) ← parse_string 0 (drop k l ++ rest); Some (take k l ++ s, u).
Proof.
  revert l. induction k as [|k IH]; intros l Hk.
  - cbn. destruct (parse_string 0 _) as [[s u]|]; done.
  - destruct l as [|b l]; cbn in *; [lia|]. rewrite IH by lia.
    destruct (parse_string 0 _) as [[s u]|]; done.
Qed.

Lemma escape_flag (copy : bool) (l : bytes) : escape_from 0 copy l = escape_from 0 true l.
Proof. by destruct l. Qed.

Lemma escape_copied (k : nat) (l : bytes) :
  k ≤ length l → escape_from k true l = take k l ++ escape_from 0 true (drop k l).
Proof.
  revert l. induction k as [|k IH]; intros [|b l] Hk; cbn in Hk; try done; try lia.
  cbn. by rewrite IH by lia.
Qed.

Lemma escape_skipped (k : nat) (l : bytes) :
  k ≤ length l → escape_from k false l = escape_from 0 true (drop k l).
Proof.
  revert l. induction k as [|k IH]; intros [|b l] Hk; cbn in Hk; try done; try lia.
  cbn. by rewrite IH by lia.
Qed.

Lemma utf8_valid_drop (k : nat) (l : bytes) : utf8_valid_from k l = utf8_valid (drop k l).
Proof.
  revert l. induction k as [|k IH]; intros [|b l]; try done. cbn. apply IH.
Qed.

Lemma line_separator_inv (b : byte) (t e rest : bytes) (k : nat) :
  line_separator (b :: t) = Some e → utf8_len (b :: t) = S k →
  parse_string 0 (e ++ rest) = '(s, u) ← parse_string 0 rest; Some (b :: take k t ++ s, u).
Proof.
  destruct t as [|b1 [|b2 t]]; cbn [line_separator]; try done.
  destruct (decide _) as [(-> & -> & ->)|_];
    [|destruct (decide _) as [(-> & -> & ->)|_]; [|done]];
    intros [= <-]; cbn [utf8_len]; intros [= <-]; reflexivity.
Qed.

Lemma not_ascii (b : byte) :
  in_range 0 127 b = false → b ≠ quote ∧ b ≠ Byte.x5c ∧ in_range 0 31 b = false.
Proof. destruct b; intros H; try discriminate H; repeat split; discriminate. Qed.

(** Decoding the encoding of a valid UTF-8 string gives the string back. *)
Lemma parse_escape (s rest : bytes) :
  utf8_valid s = true →
  parse_string 0 (escape_from 0 true s ++ quote :: rest) = Some (s, rest).
Proof.
  remember (length s) as n eqn:Hn. assert (length s ≤ n) as Hle by lia. clear Hn.
  revert s Hle. induction n as [|n IH]; intros [|b t] Hle Hv; cbn in Hle; try done; [lia|].
  assert (Htail : ∀ k, utf8_len (b :: t) = S k → k ≤ length t ∧
      parse_string 0 (escape_from 0 true (drop k t) ++ quote :: rest) = Some (drop k t, rest)).
  { intros k Hk. pose proof (utf8_len_length (b :: t)) as Hl. cbn [length] in Hl.
    split; [lia|]. apply IH; [rewrite length_drop; lia|].
    unfold utf8_valid in Hv. cbn [utf8_valid_from] in Hv. rewrite Hk in Hv.
    by rewrite utf8_valid_drop in Hv. }
  cbn [escape_from]. destruct (in_range 0 127 b) eqn:Hasc.
  - rewrite <- app_assoc, parse_escape_ascii by done.
    destruct (Htail 0) as [_ H0]; [destruct t; cbn [utf8_len]; by rewrite Hasc|].
    rewrite drop_0 in H0. by rewrite H0.
  - destruct (utf8_len (b :: t)) as [|k] eqn:Hk.
    + unfold utf8_valid in Hv. cbn [utf8_valid_from] in Hv. by rewrite Hk in Hv.
    + destruct (Htail k eq_refl) as [Hkl Hd].
      destruct (line_separator (b :: t)) as [e|] eqn:Hls.
      * rewrite escape_skipped, <- app_assoc, (line_separator_inv _ _ _ _ _ Hls Hk), Hd by done. cbn. by rewrite take_drop.
      * rewrite escape_copied by done. cbn [app].
        destruct (not_ascii b Hasc) as (Hq & Hb & Hc).
        cbn [parse_string]. rewrite !decide_False, Hc by done.
        erewrite utf8_len_ext; [|exact Hk|].
        2: { cbn [take]. f_equal. rewrite <- app_assoc, take_app_le by (rewrite length_take; lia).
             rewrite take_take. f_equal. lia. }
        rewrite <- app_assoc, parse_copied by (rewrite length_take; lia).
        rewrite (drop_ge (take k t)) by (rewrite length_take; lia). cbn [app]. rewrite Hd.
        rewrite take_take, Nat.min_id. cbn. by rewrite take_drop.
Qed.

(** ** The struct codec *)
Lemma take_digits_app (l r : bytes) (acc v : Z) :
  digits_val l acc = Some v → (∀ c t, r = c :: t → in_range 48 57 c = false) →
  take_digits (l ++ r) = (l, r).
Proof.
  intros Hv Hr. revert acc Hv. induction l as [|b l IH]; intros acc Hv.
  - cbn. destruct r as [|c t]; [done|]. cbn. by rewrite (Hr c t).
  - cbn in Hv. destruct (digit_val b) as [d|] eqn:Hd; [|done].
    cbn. assert (in_range 48 57 b = true) as ->.
    { unfold digit_val in Hd. unfold in_range. by destruct (_ && _)%Z. }
    by rewrite (IH _ Hv).
Qed.

Lemma format_digits_head (fuel : nat) (n : Z) :
  (0 < n)%Z → (Z.log2 n ≤ Z.of_nat fuel)%Z →
  ∃ b l, format_digits fuel n = b :: l ∧ b ≠ Byte.x30 ∧ b ≠ Byte.x2d.
Proof.
  assert (Hd : ∀ m, (0 < m < 10)%Z → digit m ≠ Byte.x30 ∧ digit m ≠ Byte.x2d).
  { intros m Hm. split; intros E; apply (f_equal byte_val) in E; unfold digit in E;
      rewrite byte_val_of, Z.mod_small in E by lia; cbn in E; lia. }
  revert n. induction fuel as [|fuel IH]; intros n Hn Hl; cbn [format_digits].
  - assert (n < 2)%Z.
    { destruct (Z.le_gt_cases 2 n); [|done].
      pose proof (Z.log2_le_mono 2 n ltac:(done)). cbn in *. lia. }
    do 2 eexists. split; [done|]. apply Hd. lia.
  - destruct (Z.ltb_spec n 10); [do 2 eexists; split; [done|]; apply Hd; lia|].
    destruct (IH (n / 10)%Z) as (b & l & -> & Hb); [zdm| |cbn; eauto].
    pose proof (Z.log2_le_mono (n / 10) (n / 2) ltac:(zdm)).
    assert (Z.log2 (n / 2) = Z.log2 n - 1)%Z; [|lia].
    change 2%Z with (2 ^ 1)%Z at 1. rewrite <- Z.shiftr_div_pow2, Z.log2_shiftr by lia.
    pose proof (Z.log2_le_mono 2 n ltac:(lia)) as Hm. cbn in Hm. lia.
Qed.

(** The characters that may follow a value inside an object. *)
Definition closes (c : byte) : Prop := c = Byte.x2c ∨ c = Byte.x7d.

Lemma parse_number_format (n : Z) (c : byte) (r : bytes) :
  (0 ≤ n)%Z → closes c →
  parse_number (format_uint n ++ c :: r) = Some (JNum (format_uint n), c :: r).
Proof.
  intros Hn Hc. unfold parse_number.
  assert (Hnd : ∀ c' t, c :: r = c' :: t → in_range 48 57 c' = false).
  { intros c' t [= <- _]. by destruct Hc as [-> | ->]. }
  assert (Htail : ∀ d, ('(frac, l3) ← parse_fraction (c :: r);
      '(ex, l4) ← parse_exponent l3;
      Some (JNum ([] ++ d ++ frac ++ ex), l4)) = Some (JNum d, c :: r)).
  { intros d. trans (Some (JNum (d ++ [] ++ []), c :: r)); [|by rewrite !app_nil_r].
    destruct Hc as [-> | ->]; reflexivity. }
  destruct (decide (n = 0)%Z) as [->|Hne].
  - cbn [format_uint format_digits app Z.log2 Z.to_nat]. apply Htail.
  - unfold format_uint.
    destruct (format_digits_head (Z.to_nat (Z.log2 n)) n) as (b & l & E & Hb & Hm);
      [lia | pose proof (Z.log2_nonneg n); lia |].
    pose proof (format_uint_val n Hn) as Hv. unfold format_uint in Hv. rewrite E in *.
    change ((b :: l) ++ c :: r) with (b :: l ++ c :: r).
    cbv beta iota. rewrite decide_False by done. cbv beta iota.
    rewrite decide_False by done.
    change (b :: l ++ c :: r) with ((b :: l) ++ c :: r).
    rewrite (take_digits_app _ _ _ _ Hv Hnd). apply Htail.
Qed.

Definition json_of (v : field_value) : json :=
  match v with FString s => JStr s | FUint32 n => JNum (format_uint n) end.

Lemma format_uint_first (n : Z) :
  (0 ≤ n)%Z → ∃ b l, format_uint n = b :: l ∧ in_range 48 57 b = true.
Proof.
  intros Hn. destruct (format_uint_cons n Hn) as (b & l & E & d & Hd).
  exists b, l. split; [done|]. unfold digit_val in Hd. unfold in_range. by destruct (_ && _)%Z.
Qed.

Lemma parse_value_encode (v : field_value) (fuel depth : nat) (c : byte) (r : bytes) :
  value_ok v = true → closes c →
  parse_value (S fuel) depth (encode_value v ++ c :: r) = Some (json_of v, c :: r).
Proof.
  intros Hv Hc. destruct v as [s|n]; cbn [encode_value json_of value_ok] in *.
  - unfold encode_string. rewrite <- app_comm_cons, <- app_assoc.
    cbn [parse_value app skip_space]. cbn [is_space]. change (is_space quote) with false.
    cbv iota. cbn [decide]. rewrite !decide_False, decide_True by done.
    change ([quote] ++ c :: r) with (quote :: c :: r). by rewrite parse_escape.
  - apply andb_true_iff in Hv as [Hv _]. apply Z.leb_le in Hv.
    destruct (format_uint_first n Hv) as (b & l & E & Hb).
    pose proof (parse_number_format n c r Hv Hc) as Hp. rewrite E in *.
    cbn [app] in *. cbn [parse_value skip_space].
    assert (is_space b = false) as -> by (destruct b; done || discriminate Hb).
    rewrite !decide_False by (intros ->; discriminate Hb). exact Hp.
Qed.

Lemma html_safe_valid (s : bytes) : forallb html_safe s = true → utf8_valid s = true.
Proof.
  unfold utf8_valid. induction s as [|b s IH]; [done|]. cbn [forallb]. intros [Hb Hs]%andb_true_iff.
  assert (in_range 0 127 b = true) as Ha by (destruct b; done || discriminate Hb).
  cbn [utf8_valid_from]. assert (utf8_len (b :: s) = 1) as ->.
  { destruct s; cbn [utf8_len]; by rewrite Ha. }
  by apply IH.
Qed.

Definition member_of (f : field) : bytes * json := (f_name f, json_of (f_value f)).

Lemma parse_field (f : field) (fuel depth : nat) (c : byte) (r : bytes) :
  field_ok f = true → closes c →
  parse_members (S (S fuel)) depth (encode_field f ++ c :: r) =
    if decide (c = Byte.x2c)
    then '(ms, r5) ← parse_members (S fuel) depth r; Some (member_of f :: ms, r5)
    else Some ([member_of f], r).
Proof.
  intros [Hn Hv]%andb_true_iff Hc. unfold encode_field, encode_string.
  rewrite <- !app_assoc, <- app_comm_cons, <- app_assoc.
  assert (Hm : ∀ k (l : bytes), parse_members (S k) depth (quote :: l) =
     ('(k', r1) ← parse_string 0 l;
       match skip_space r1 with
       | c :: r2 =>
           if decide (c = Byte.x3a) then
             '(v, r3) ← parse_value k depth r2;
             match skip_space r3 with
             | e :: r4 =>
                 if decide (e = Byte.x2c) then
                   '(ms, r5) ← parse_members k depth r4; Some ((k', v) :: ms, r5)
                 else if decide (e = Byte.x7d) then Some ([(k', v)], r4)
                 else None
             | [] => None
             end
           else None
       | [] => None
       end)) by reflexivity.
  rewrite Hm. change ([quote] ++ ?x) with (quote :: x).
  rewrite parse_escape by (by apply html_safe_valid). cbn [mbind option_bind].
  change (skip_space (lit ":" ++ ?x)) with (Byte.x3a :: x). cbv iota beta.
  rewrite decide_True by done. rewrite parse_value_encode by done.
  cbn [mbind option_bind]. destruct Hc as [-> | ->]; reflexivity.
Qed.

Lemma parse_fields (fs : list field) (fuel depth : nat) (r : bytes) :
  forallb field_ok fs = true → fs ≠ [] → length fs < fuel →
  parse_members fuel depth (encode_fields fs ++ Byte.x7d :: r) = Some (map member_of fs, r).
Proof.
  revert fuel. induction fs as [|f fs IH]; intros fuel Hok Hne Hf; [done|].
  cbn [forallb] in Hok. apply andb_true_iff in Hok as [Hfo Hfs]. cbn [length] in Hf.
  destruct fuel as [|[|fuel]]; [lia..|]. destruct fs as [|f' fs'].
  - cbn [encode_fields]. rewrite parse_field by (done || by right).
    by rewrite decide_False.
  - change (encode_fields (f :: f' :: fs'))
      with (encode_field f ++ [Byte.x2c] ++ encode_fields (f' :: fs')).
    rewrite <- !app_assoc. change ([Byte.x2c] ++ ?x) with (Byte.x2c :: x).
    rewrite parse_field by (done || by left). rewrite decide_True by done.
    rewrite IH by (done || lia). reflexivity.
Qed.

Lemma encode_fields_length (fs : list field) : length fs ≤ length (encode_fields fs).
Proof.
  assert (Hf : ∀ f, 1 ≤ length (encode_field f)) by (intros f; cbn; lia).
  induction fs as [|f [|f' fs'] IH]; [done| cbn [encode_fields]; apply Hf |].
  change (encode_fields (f :: f' :: fs'))
    with (encode_field f ++ lit "," ++ encode_fields (f' :: fs')).
  rewrite !length_app. cbn [length] in *. specialize (Hf f). lia.
Qed.

Lemma parse_document_encode (fs : list field) :
  forallb field_ok fs = true →
  parse_document (lit "{" ++ encode_fields fs ++ lit "}") = Some (JObj (map member_of fs)).
Proof.
  intros Hok. unfold parse_document.
  destruct fs as [|f fs]; [reflexivity|].
  change (lit "{" ++ ?x) with (Byte.x7b :: x). change (lit "}") with [Byte.x7d].
  set (fuel := 2 * _). cbn [parse_value skip_space]. change (is_space Byte.x7b) with false.
  cbv iota beta. rewrite decide_True by done.
  change max_depth with (S (Z.to_nat 9999)). cbv iota.
  assert (∃ t, encode_fields (f :: fs) ++ [Byte.x7d] = quote :: t) as [t Ht].
  { destruct fs; cbn [encode_fields encode_field encode_string app]; unfold encode_field, encode_string;
      cbn [app]; eauto. }
  assert (Hm : parse_members fuel (Z.to_nat 9999) (encode_fields (f :: fs) ++ [Byte.x7d])
               = Some (map member_of (f :: fs), [])).
  { apply parse_fields; [done..|]. pose proof (encode_fields_length (f :: fs)).
    unfold fuel. cbn [length] in *. rewrite length_app. lia. }
  rewrite Ht in *. cbn [skip_space]. change (is_space quote) with false. cbv iota.
  rewrite decide_False by done. rewrite Hm. reflexivity.
Qed.

Lemma store_first_skip (k : bytes) (v : json) (pre fs : list field) :
  k ∉ map f_name pre →
  store_first (λ f, bool_decide (f_name f = k)) v (pre ++ fs) =
  '(fs', ok) ← store_first (λ f, bool_decide (f_name f = k)) v fs; Some (pre ++ fs', ok).
Proof.
  induction pre as [|p pre IH]; intros Hk; cbn [app store_first].
  - by destruct (store_first _ v fs) as [[? ?]|].
  - cbn [map] in Hk. apply not_elem_of_cons in Hk as [Hk1 Hk2].
    rewrite bool_decide_eq_false_2 by congruence. rewrite IH by done.
    by destruct (store_first _ v fs) as [[? ?]|].
Qed.

Lemma store_encoded (f : field) :
  value_ok (f_value f) = true → store (zero_field f) (json_of (f_value f)) = (f, true).
Proof.
  destruct f as [name om [s|n]]; cbn; [done|]. intros [H1 H2]%andb_true_iff.
  apply Z.leb_le in H1. apply Z.ltb_lt in H2.
  rewrite ParseUint_format by lia. by destruct (Z.ltb_spec n (2 ^ 32)); [|lia].
Qed.

Lemma absent_zero (f : field) : present f = false → zero_field f = f.
Proof.
  destruct f as [name om [s|n]]; unfold present, zero_field; cbn;
    rewrite negb_false_iff, andb_true_iff; intros [_ H].
  - apply bool_decide_eq_true in H. by subst.
  - apply Z.eqb_eq in H. by subst.
Qed.

Lemma store_members_encoded (pre fs : list field) :
  forallb field_ok fs = true → NoDup (map f_name (pre ++ fs)) →
  store_members (pre ++ map zero_field fs) (map member_of (filter present fs)) = (pre ++ fs, true).
Proof.
  revert pre. induction fs as [|f fs IH]; intros pre Hok Hnd; [done|].
  cbn [forallb] in Hok. apply andb_true_iff in Hok as [Hf Hfs].
  assert (Hnd' : NoDup (map f_name ((pre ++ [f]) ++ fs))) by (by rewrite <- app_assoc).
  specialize (IH (pre ++ [f]) Hfs Hnd'). rewrite <- !app_assoc in IH. cbn [app] in IH.
  destruct (present f) eqn:Hp.
  - rewrite filter_cons_True by (by rewrite Hp). cbn [map store_members member_of].
    assert (Hk : f_name f ∉ map f_name pre).
    { rewrite map_app in Hnd. apply list.NoDup_app in Hnd as (_ & Hd & _). cbn [map] in Hd.
      intros Hin. apply (Hd _ Hin). by left. }
    unfold store_member. rewrite store_first_skip by done. cbn [store_first zero_field f_name].
    rewrite bool_decide_eq_true_2 by done.
    apply andb_true_iff in Hf as [_ Hv]. fold (zero_field f). rewrite store_encoded by done.
    cbn [mbind option_bind]. by rewrite IH.
  - rewrite filter_cons_False by (rewrite Hp; tauto). cbn [map].
    rewrite (absent_zero f Hp). exact IH.
Qed.

(** Decoding the encoding of a struct into a zero struct gives the struct back. *)
Lemma Unmarshal_Marshal (fs : list field) :
  forallb field_ok fs = true → NoDup (map f_name fs) →
  ∃ dat, Marshal fs = Ok dat ∧ Unmarshal dat (map zero_field fs) = Ok fs.
Proof.
  intros Hok Hnd. unfold Marshal. eexists. split; [reflexivity|].
  unfold Unmarshal. rewrite parse_document_encode.
  - pose proof (store_members_encoded [] fs Hok Hnd) as Hs. cbn [app] in Hs.
    by rewrite Hs.
  - apply forallb_forall. intros f Hin. rewrite forallb_forall in Hok. apply Hok.
    apply list_elem_of_In in Hin. apply list_elem_of_filter in Hin as [_ Hin].
    by apply list_elem_of_In.
Qed.

Lemma Unmarshal_returns (dat : bytes) (fs : list field) : returns (Unmarshal dat fs).
Proof. unfold Unmarshal. repeat case_match; done. Qed.
