(* ===== verification/Conf.v ===== *)
(** Package [conf]: the string parameters passed between the components
    (src/conf/conf.go, names.go, buffer.go). *)
From S2P Require Import Prelude Strconv.

Module Conf.
(** [conf.Values]. *)
Abbreviation Values := (gmap bytes bytes).

Definition MAX_BUFFER_SIZE : Z := 1024 * 1024 * 8.
Definition DEFAULT_BUFFER_SIZE : Z := 1024 * 64.

Definition FRAMER_PSK : bytes := lit "framer_psk".
Definition FRAMER_TIMESTAMP : bytes := lit "framer_timestamp".
Definition FRAMER_ROLE : bytes := lit "framer_role".
Definition SERVER_URL : bytes := lit "server_url".
Definition PORT : bytes := lit "port".

(** A fresh map with the same entries, built entry by entry. *)
Definition Clone (v : Values) : Values := map_fold (λ name val d, <[name:=val]> d) ∅ v.

Definition Set_ (name value : bytes) (v : Values) : Values := <[name:=value]> v.

Definition Get (name : bytes) (v : Values) : bytes :=
  match v !! name with Some val => val | None => [] end.

Definition GetInt (name : bytes) (v : Values) : Z :=
  match v !! name with
  | Some val => match Atoi val with Ok iv => iv | _ => 0 end
  | None => 0
  end.

Definition GetInt64 (name : bytes) (v : Values) : Z :=
  match v !! name with
  | Some val => match ParseInt val with Ok iv => iv | _ => 0 end
  | None => 0
  end.

Lemma Clone_eq (v : Values) : Clone v = v.
Proof.
  unfold Clone. induction v as [|k x m Hk Hf IH] using map_first_key_ind.
  - apply map_fold_empty.
  - rewrite map_fold_insert_first_key by done. by rewrite IH.
Qed.

Lemma Get_Set (name value : bytes) (v : Values) : Get name (Set_ name value v) = value.
Proof. unfold Get, Set_. by rewrite lookup_insert_eq. Qed.

Lemma Get_Set_ne (name name' value : bytes) (v : Values) :
  name ≠ name' → Get name (Set_ name' value v) = Get name v.
Proof. intros. unfold Get, Set_. by rewrite lookup_insert_ne. Qed.

(** An integer stored in decimal is read back; what does not parse reads as 0. *)
Lemma GetInt_Set (name : bytes) (n : Z) (v : Values) :
  (- 2 ^ 63 ≤ n < 2 ^ 63)%Z → GetInt name (Set_ name (format_int n) v) = n.
Proof.
  intros. unfold GetInt, Set_. rewrite lookup_insert_eq. unfold Atoi.
  by rewrite ParseInt_format.
Qed.
End Conf.
