(* ===== verification/Log.v ===== *)
(** Package [log] (src/log): levels, message formatting, the built-in logger,
    and the syslog handler with its entries (levels.go, format.go, message.go,
    logger_builtin.go, log.go, handler_stdout.go, syslog.go,
    handler_syslog.go). *)
From S2P Require Import Prelude GoIO Strconv Json.

Module Log.

(** ** levels.go *)
Definition CRITICAL : Z := 2.
Definition ERROR : Z := 3.
Definition WARNING : Z := 4.
Definition INFO : Z := 6.
Definition DEBUG : Z := 7.
Definition NOTSET : Z := 8.

Definition idx : list (Z * bytes) :=
  [(CRITICAL, lit "critical"); (ERROR, lit "error"); (WARNING, lit "warning"); (INFO, lit "info"); (DEBUG, lit "debug")].

Fixpoint level_name (lev : Z) (l : list (Z * bytes)) : bytes :=
  match l with
  | [] => []
  | (k, name) :: l => if (k =? lev)%Z then name else level_name lev l
  end.
Definition GetLevelName (lev : Z) : bytes := level_name lev idx.

(** ["\u001b[31mCRI\u001b[0m"] and its like. *)
Definition esc : bytes := [Byte.x1b].
Definition colored (color text : bytes) : bytes := esc ++ lit "[" ++ color ++ lit "m" ++ text ++ esc ++ lit "[0m".

Definition GetLevelNameColored (lev : Z) : bytes :=
  if (lev =? CRITICAL)%Z then colored (lit "31") (lit "CRI")
  else if (lev =? ERROR)%Z then colored (lit "31;1") (lit "ERR")
  else if (lev =? WARNING)%Z then colored (lit "33;1") (lit "WRN")
  else if (lev =? INFO)%Z then colored (lit "32;1") (lit "INF")
  else if (lev =? DEBUG)%Z then colored (lit "30;1") (lit "DBG")
  else [].

(** The names differ, so the order of the map's visit does not matter. *)
Fixpoint find_level (name : bytes) (l : list (Z * bytes)) : Z :=
  match l with
  | [] => NOTSET
  | (k, lname) :: l => if EqualFold name lname then k else find_level name l
  end.
Definition GetLevel (name : bytes) : Z := find_level name idx.

(** ** [time.Time] as the package prints it

    A point in time (seconds and nanoseconds since 1970, UTC) with the offset
    of its location, in seconds east of UTC. *)
Record Time := mk_Time { unix : Z; nanos : Z; zone : Z }.

(** The proleptic Gregorian date of a day number (day 0 is 1970-01-01), from
    the 400-year cycle that begins on 0000-03-01. *)
Definition civil (day : Z) : Z * Z * Z :=
  let z := (day + 719468)%Z in
  let era := (z / 146097)%Z in
  let doe := (z mod 146097)%Z in
  let yoe := ((doe - doe / 1460 + doe / 36524 - doe / 146096) / 365)%Z in
  let doy := (doe - (365 * yoe + yoe / 4 - yoe / 100))%Z in
  let mp := ((5 * doy + 2) / 153)%Z in
  let d := (doy - (153 * mp + 2) / 5 + 1)%Z in
  let m := if (mp <? 10)%Z then (mp + 3)%Z else (mp - 9)%Z in
  let y := (yoe + era * 400)%Z in
  (if (m <=? 2)%Z then (y + 1)%Z else y, m, d).

Fixpoint zero_pad (n : nat) (s : bytes) : bytes :=
  match n with
  | 0 => s
  | S n => if decide (length s ≤ n) then lit "0" ++ zero_pad n s else s
  end.
Definition padded (n : nat) (z : Z) : bytes := zero_pad n (format_uint z).

Definition date_text (secs : Z) : bytes :=
  let '(y, m, d) := civil (secs / 86400)%Z in padded 4 y ++ lit "-" ++ padded 2 m ++ lit "-" ++ padded 2 d.
Definition clock_text (secs : Z) : bytes :=
  let s := (secs mod 86400)%Z in
  padded 2 (s / 3600)%Z ++ lit ":" ++ padded 2 ((s / 60) mod 60)%Z ++ lit ":" ++ padded 2 (s mod 60)%Z.

(** [t.Format("2006-01-02 15:04:05")], and [t.UTC().Format("2006-01-02T15:04:05Z")]
    (years 0 to 9999). *)
Definition format_date (t : Time) : bytes :=
  let s := (unix t + zone t)%Z in date_text s ++ lit " " ++ clock_text s.
Definition format_utc (t : Time) : bytes := date_text (unix t) ++ lit "T" ++ clock_text (unix t) ++ lit "Z".

(** [t.MarshalJSON()] (RFC 3339 with nanoseconds); years beyond 9999 fail. *)
Fixpoint drop_zeros (n : nat) (frac : Z) (digits : nat) : bytes :=
  match n with
  | 0 => []
  | S n => if (frac mod 10 =? 0)%Z then drop_zeros n (frac / 10)%Z (digits - 1)
           else lit "." ++ padded digits frac
  end.
Definition fraction (ns : Z) : bytes := drop_zeros 9 ns 9.
Definition zone_text (z : Z) : bytes :=
  if (z =? 0)%Z then lit "Z"
  else (if (z <? 0)%Z then lit "-" else lit "+") ++
       padded 2 (Z.abs z / 3600)%Z ++ lit ":" ++ padded 2 ((Z.abs z / 60) mod 60)%Z.
Definition json_time (t : Time) : option bytes :=
  let s := (unix t + zone t)%Z in
  let '(y, _, _) := civil (s / 86400)%Z in
  if ((0 <=? y) && (y <=? 9999))%Z then
    Some (date_text s ++ lit "T" ++ clock_text s ++ fraction (nanos t) ++ zone_text (zone t))
  else None.

(** ** message.go, format.go *)
Record Message := mk_Message {
  Timestamp : Time;
  LoggerName : bytes;
  Body : bytes;
  Lev : Z;
  Mod : bytes;
  FileName : bytes;
  LineNo : Z;
}.

Definition json_member (name value : bytes) : bytes := encode_string name ++ lit ":" ++ value.

(** [json.Marshal(msg)]. *)
Definition json_message (m : Message) : option bytes :=
  ts ← json_time (Timestamp m);
  Some (lit "{" ++ json_member (lit "timestamp") (encode_string ts) ++ lit "," ++
        json_member (lit "logger_name") (encode_string (LoggerName m)) ++ lit "," ++
        json_member (lit "message") (encode_string (Body m)) ++ lit "," ++
        json_member (lit "lev") (format_int (Lev m)) ++ lit "," ++
        json_member (lit "mod") (encode_string (Mod m)) ++ lit "," ++
        json_member (lit "filename") (encode_string (FileName m)) ++ lit "," ++
        json_member (lit "line_no") (format_int (LineNo m)) ++ lit "}").

(** What the pattern's [\w] matches at the head of [s], in bytes: a word
    character, or one of the two letters that fold to one. *)
Definition word_byte (b : byte) : bool :=
  let v := byte_val b in
  ((48 <=? v) && (v <=? 57) || (65 <=? v) && (v <=? 90) || (97 <=? v) && (v <=? 122) || (v =? 95))%Z.
Definition word_at (s : bytes) : nat :=
  match s with
  | [] => 0
  | b :: _ => if word_byte b then 1
              else if decide (take 2 s = [Byte.xc5; Byte.xbf]) then 2
              else if decide (take 3 s = [Byte.xe2; Byte.x84; Byte.xaa]) then 3 else 0
  end.

(** The longest [\w+] at the head of [s], in bytes. *)
Fixpoint word_run (fuel : nat) (s : bytes) : nat :=
  match fuel with
  | 0 => 0
  | S fuel => match word_at s with 0 => 0 | k => k + word_run fuel (drop k s) end
  end.

(** The pattern [\$(\w+[*]?)] on what follows a dollar sign. *)
Definition match_var (s : bytes) : nat :=
  match word_run (length s) s with
  | 0 => 0
  | k => match drop k s with b :: _ => if byte_eqb b Byte.x2a then S k else k | [] => k end
  end.

(** The replacement of a match, its [key] being without the dollar sign. *)
Definition substitute (m : Message) (key : bytes) : bytes :=
  if decide (key = lit "time") then format_date (Timestamp m)
  else if decide (key = lit "name") then LoggerName m
  else if decide (key = lit "message") then Body m
  else if decide (key = lit "lev") then GetLevelName (Lev m)
  else if decide (key = lit "lev*") then GetLevelNameColored (Lev m)
  else if decide (key = lit "mod") then Mod m
  else if decide (key = lit "filename") then FileName m
  else if decide (key = lit "lineno") then format_int (LineNo m)
  else lit "$" ++ key.

(** [ptVar.ReplaceAllStringFunc]: leftmost matches, none overlapping. *)
Definition dollar : byte := Byte.x24.
Fixpoint replace_vars (fuel : nat) (m : Message) (s : bytes) : bytes :=
  match fuel, s with
  | S fuel, b :: s =>
      if byte_eqb b dollar then
        match match_var s with
        | 0 => b :: replace_vars fuel m s
        | k => substitute m (take k s) ++ replace_vars fuel m (drop k s)
        end
      else b :: replace_vars fuel m s
  | _, _ => []
  end.

Definition formatMessage (format : bytes) (m : Message) : bytes :=
  if decide (length format = 0) then default [] (json_message m)
  else if EqualFold format (lit "@json") then default [] (json_message m)
  else replace_vars (length format) m format.

(** ** Handlers and loggers

    A handler's output: for the standard one the lines printed ([log.Logger]
    without prefix, which ends a line that is not ended), for the syslog one
    the messages put on its channel. *)
Record Handler := mk_handler { h_format : bytes; output : bytes }.

Definition end_line (s : bytes) : bytes :=
  match last s with Some b => if byte_eqb b Byte.x0a then s else s ++ [Byte.x0a] | None => [Byte.x0a] end.

(** [defaultHandler.Write]. *)
Definition HWrite (m : Message) (h : Handler) : Handler :=
  mk_handler (h_format h) (output h ++ end_line (formatMessage (h_format h) m)).
Definition SetFormat (format : bytes) (h : Handler) : Handler := mk_handler format (output h).
Definition DefaultHandler : Handler := mk_handler (lit "[$mod] <$filename:$lineno> $lev* $message") [].

Record LoggerBuiltin := mk_logger { l_Lev : Z; l_Name : bytes; Handlers : list Handler }.

(** Where a call comes from ([getFuncInfo]) and when. *)
Record caller := mk_caller { c_now : Time; c_mod : bytes; c_file : bytes; c_line : Z }.

Definition makeMessage (c : caller) (lev : Z) (body : bytes) (l : LoggerBuiltin) : Message :=
  mk_Message (c_now c) (l_Name l) body lev (c_mod c) (c_file c) (c_line c).

(** What [Print], [Printf] and [Println] share: [body] is the formatted text. *)
Definition emit (c : caller) (lev : Z) (body : bytes) (l : LoggerBuiltin) : LoggerBuiltin :=
  if (l_Lev l <? lev)%Z then l
  else mk_logger (l_Lev l) (l_Name l) (map (HWrite (makeMessage c lev body l)) (Handlers l)).

(** [fmt.Sprintln] of operands, each given as the text it prints as. *)
Fixpoint Sprintln (vs : list bytes) : bytes :=
  match vs with
  | [] => [Byte.x0a]
  | [v] => v ++ [Byte.x0a]
  | v :: vs => v ++ lit " " ++ Sprintln vs
  end.

Definition Print (c : caller) (lev : Z) (vs : list bytes) : LoggerBuiltin → LoggerBuiltin := emit c lev (Sprintln vs).
Definition Println (c : caller) (lev : Z) (vs : list bytes) : LoggerBuiltin → LoggerBuiltin := emit c lev (Sprintln vs).
(** [body] is what [fmt.Sprintf] makes of the format and its operands. *)
Definition Printf (c : caller) (lev : Z) (body : bytes) : LoggerBuiltin → LoggerBuiltin := emit c lev body.
Definition Debug (c : caller) (vs : list bytes) := Print c DEBUG vs.
Definition Debugf (c : caller) (body : bytes) := Printf c DEBUG body.
Definition Error (c : caller) (vs : list bytes) := Print c ERROR vs.
Definition Errorf (c : caller) (body : bytes) := Printf c ERROR body.
Definition Warning (c : caller) (vs : list bytes) := Print c WARNING vs.
Definition Warningf (c : caller) (body : bytes) := Printf c WARNING body.
Definition Warn (c : caller) (vs : list bytes) := Print c WARNING vs.
Definition Warnf (c : caller) (body : bytes) := Printf c WARNING body.
Definition Info (c : caller) (vs : list bytes) := Print c INFO vs.
Definition Infof (c : caller) (body : bytes) := Printf c INFO body.
Definition GetHandlers (l : LoggerBuiltin) : list Handler := Handlers l.
Definition Level (l : LoggerBuiltin) : Z := l_Lev l.
Definition SetLevel (lev : Z) (l : LoggerBuiltin) : LoggerBuiltin := mk_logger lev (l_Name l) (Handlers l).
Definition SetHandlers (hl : list Handler) (l : LoggerBuiltin) : LoggerBuiltin := mk_logger (l_Lev l) (l_Name l) hl.

(** log.go: the default logger, by name of its level. *)
Definition defaultLogger : LoggerBuiltin := mk_logger NOTSET [] [DefaultHandler].
Definition SetLevelName (levelName : bytes) (l : LoggerBuiltin) : LoggerBuiltin := SetLevel (GetLevel levelName) l.
Definition NewLogger (name : bytes) (level : Z) (handler : option Handler) : LoggerBuiltin :=
  mk_logger level name (match handler with Some h => [h] | None => [] end).
(** The package's functions, on its default logger. *)
Module Default.
Definition Print (c : caller) (vs : list bytes) := Print c NOTSET vs.
Definition Printf (c : caller) (body : bytes) := Printf c NOTSET body.
Definition Println (c : caller) (vs : list bytes) := Println c NOTSET vs.
Definition Debug := Debug.
Definition Debugf := Debugf.
Definition Error := Error.
Definition Errorf := Errorf.
Definition Warning := Warning.
Definition Warningf := Warningf.
Definition Warn := Warn.
Definition Warnf := Warnf.
Definition Info := Info.
Definition Infof := Infof.
Definition SetLevel := SetLevel.
Definition UpdateLevel := SetLevel.
Definition Level := Level.
End Default.

Definition GetLogger (name : bytes) : LoggerBuiltin := NewLogger name NOTSET (Some DefaultHandler).

(** ** syslog.go *)

(** CRITICAL, ERROR, WARNING and INFO as they are; DEBUG and anything else 7. *)
Definition SeverityFromLevel (lev : Z) : Z :=
  if (lev =? CRITICAL)%Z then 2%Z
  else if (lev =? ERROR)%Z then 3%Z
  else if (lev =? WARNING)%Z then 4%Z
  else if (lev =? INFO)%Z then 6%Z
  else 7%Z.

Record EntryRFC5424 := mk_5424 {
  Facility : Z;
  Severity : Z;
  ETimestamp : Time;
  Hostname : bytes;
  App : bytes;
  Pid : Z;
  Content : bytes;
}.

Definition pri (facility severity : Z) : Z := (facility * 8 + severity)%Z.

(** The one write of [EntryRFC5424.WriteTo]. *)
Definition line_5424 (e : EntryRFC5424) : bytes :=
  let app := if decide (0 < length (App e)) then App e else lit "-" in
  lit "<" ++ format_int (pri (Facility e) (Severity e)) ++ lit ">" ++ format_int 1 ++ lit " " ++
  format_utc (ETimestamp e) ++ lit " " ++ Hostname e ++ lit " " ++ app ++ lit " " ++ format_int (Pid e) ++ lit " " ++
  lit "-" ++ lit " " ++ lit "-" ++ lit " " ++ Content e.
Definition WriteTo_5424 {W} `{Writer W} (e : EntryRFC5424) : M W Z := write (line_5424 e).

Record EntryRFC3164 := mk_3164 {
  Facility3 : Z;
  Severity3 : Z;
  Timestamp3 : Time;
  Hostname3 : bytes;
  Tag3 : bytes;
  Pid3 : Z;
  Content3 : bytes;
}.

(** [EntryRFC3164.WriteTo], with [t.Format(time.Stamp)]. *)
Definition month_name (m : Z) : bytes :=
  nth (Z.to_nat (m - 1)) [lit "Jan"; lit "Feb"; lit "Mar"; lit "Apr"; lit "May"; lit "Jun"; lit "Jul"; lit "Aug";
                          lit "Sep"; lit "Oct"; lit "Nov"; lit "Dec"] [].
Definition format_stamp (t : Time) : bytes :=
  let s := (unix t + zone t)%Z in
  let '(_, m, d) := civil (s / 86400)%Z in
  month_name m ++ lit " " ++ (if (d <? 10)%Z then lit " " else []) ++ format_uint d ++ lit " " ++ clock_text s.
Definition line_3164 (e : EntryRFC3164) : bytes :=
  let prefix := Tag3 e ++ (if (0 <? Pid3 e)%Z then lit "[" ++ format_int (Pid3 e) ++ lit "]:" else lit ":") in
  lit "<" ++ format_int (pri (Facility3 e) (Severity3 e)) ++ lit ">" ++ format_stamp (Timestamp3 e) ++ lit " " ++
  Hostname3 e ++ lit " " ++ prefix ++ lit " " ++ Content3 e.
Definition WriteTo_3164 {W} `{Writer W} (e : EntryRFC3164) : M W Z := write (line_3164 e).

(** [SyslogEntry]: both kinds write themselves. *)
Class SyslogEntry (E : Type) := { WriteTo : ∀ {W} `{Writer W}, E → M W Z }.
#[export] Instance entry_5424 : SyslogEntry EntryRFC5424 := {| WriteTo := @WriteTo_5424 |}.
#[export] Instance entry_3164 : SyslogEntry EntryRFC3164 := {| WriteTo := @WriteTo_3164 |}.

(** ** handler_syslog.go *)
Record SyslogOptions := mk_options { o_Host : bytes; o_Port : Z; o_Tag : bytes; o_Format : bytes }.

(** The entry the worker makes of a message; [now], [hostname] and [pid] are
    the system's. *)
Definition syslog_entry (o : SyslogOptions) (format hostname : bytes) (now : Time) (pid : Z) (m : Message) : EntryRFC5424 :=
  mk_5424 1 (SeverityFromLevel (Lev m)) now hostname (o_Tag o) pid (formatMessage format m).

(** The worker: dialling, in its [select], sending an entry, gone.  The channel
    exists once the worker has dialled; it has room for 1024 messages.
    [blocked] are the messages of [Write] calls that wait for room; [accepted]
    and [sent] record what was put on the channel and taken off it to be
    sent. *)
Inductive worker_at := WDial | WSelect | WSend (m : Message) | WGone.
Record syslogHandler := mk_syslog {
  ch : option (list Message);
  worker : worker_at;
  cancelled : bool;
  blocked : list Message;
  accepted : list Message;
  sent : list Message;
}.

Definition NewSyslogHandler : syslogHandler := mk_syslog None WDial false [] [] [].
Definition ch_cap : nat := Z.to_nat 1024.

Inductive sys_action :=
  | SDial | SDialFails | STake | SSent | SDone | SCleanUp | SWrite (m : Message) | SUnblock.

Definition sys_exec (a : sys_action) (h : syslogHandler) : option syslogHandler :=
  match a with
  | SDial =>
      match worker h with
      | WDial => Some (mk_syslog (Some []) WSelect (cancelled h) (blocked h) (accepted h) (sent h))
      | _ => None
      end
  | SDialFails =>
      match worker h with
      | WDial => Some (mk_syslog (ch h) WGone (cancelled h) (blocked h) (accepted h) (sent h))
      | _ => None
      end
  | STake =>
      match worker h, ch h with
      | WSelect, Some (m :: q) => Some (mk_syslog (Some q) (WSend m) (cancelled h) (blocked h) (accepted h) (sent h))
      | _, _ => None
      end
  | SSent =>
      match worker h with
      | WSend m => Some (mk_syslog (ch h) WSelect (cancelled h) (blocked h) (accepted h) (sent h ++ [m]))
      | _ => None
      end
  | SDone =>
      match worker h with
      | WSelect => if cancelled h
                   then Some (mk_syslog (ch h) WGone (cancelled h) (blocked h) (accepted h) (sent h)) else None
      | _ => None
      end
  | SCleanUp => Some (mk_syslog (ch h) (worker h) true (blocked h) (accepted h) (sent h))
  | SWrite m =>
      match ch h with
      | None => Some h
      | Some q =>
          if decide (length q < ch_cap)
          then Some (mk_syslog (Some (q ++ [m])) (worker h) (cancelled h) (blocked h) (accepted h ++ [m]) (sent h))
          else Some (mk_syslog (ch h) (worker h) (cancelled h) (blocked h ++ [m]) (accepted h) (sent h))
      end
  | SUnblock =>
      match ch h, blocked h with
      | Some q, m :: ms =>
          if decide (length q < ch_cap)
          then Some (mk_syslog (Some (q ++ [m])) (worker h) (cancelled h) ms (accepted h ++ [m]) (sent h))
          else None
      | _, _ => None
      end
  end.
Definition sys_step : relation syslogHandler := acts sys_exec.

(** ** Facts *)

(** What the events of a program leave in a handler's output. *)
Definition event : Type := caller * Z * list bytes.
Definition log_event (l : LoggerBuiltin) (e : event) : LoggerBuiltin := Print e.1.1 e.1.2 e.2 l.

(** The line an event makes under a format. *)
Definition line (name format : bytes) (e : event) : bytes :=
  end_line (formatMessage format
    (mk_Message (c_now e.1.1) name (Sprintln e.2) e.1.2 (c_mod e.1.1) (c_file e.1.1) (c_line e.1.1))).

Lemma log_events (evs : list event) (l : LoggerBuiltin) :
  let l' := foldl log_event l evs in
  l_Lev l' = l_Lev l ∧ l_Name l' = l_Name l ∧
  Handlers l' = map (λ h, mk_handler (h_format h)
    (output h ++ concat (map (line (l_Name l) (h_format h)) (filter (λ e, (e.1.2 <= l_Lev l)%Z) evs)))) (Handlers l).
Proof.
  revert l. induction evs as [|e evs IH]; intros l.
  - cbn. do 2 (split; [done|]). induction (Handlers l) as [|[f o] hs IHh]; [done|]. cbn. by rewrite <- IHh, app_nil_r.
  - cbn [foldl]. destruct (IH (log_event l e)) as (-> & -> & ->).
    unfold log_event, Print, emit. destruct (Z.ltb_spec (l_Lev l) e.1.2) as [Hlt|Hge]; cbn [l_Lev l_Name Handlers].
    + rewrite filter_cons_False by lia. done.
    + rewrite filter_cons_True by lia. do 2 (split; [done|]). rewrite map_map. apply map_ext. intros h.
      unfold HWrite. cbn [h_format output map concat]. by rewrite <- app_assoc.
Qed.

(** *** Templates *)
Inductive segment := Text (s : bytes) | Var (key : bytes) (star : bool).
Definition var_key (key : bytes) (star : bool) : bytes := key ++ (if star then [Byte.x2a] else []).
Definition seg_text (g : segment) : bytes := match g with Text s => s | Var key star => dollar :: var_key key star end.
Definition seg_value (m : Message) (g : segment) : bytes :=
  match g with Text s => s | Var key star => substitute m (var_key key star) end.

(** A text has no dollar sign; a variable's name is one or more ASCII word
    characters, and what follows it does not prolong it. *)
Definition ascii (b : byte) : bool := (byte_val b <? 128)%Z.
Definition stops (star : bool) (rest : bytes) : bool :=
  match rest with
  | [] => true
  | b :: _ => ascii b && negb (word_byte b) && (star || negb (byte_eqb b Byte.x2a))
  end.
Fixpoint template_ok (gs : list segment) : bool :=
  match gs with
  | [] => true
  | Text s :: gs => forallb (λ b, negb (byte_eqb b dollar)) s && template_ok gs
  | Var key star :: gs =>
      bool_decide (key ≠ []) && forallb word_byte key && (star || stops star (concat (map seg_text gs))) &&
      template_ok gs
  end.

Lemma word_at_stop (rest : bytes) :
  match rest with [] => true | b :: _ => ascii b && negb (word_byte b) end = true → word_at rest = 0.
Proof.
  destruct rest as [|b rest]; [done|]. intros [Ha Hw%negb_true_iff]%andb_true_iff. cbn [word_at]. rewrite Hw.
  rewrite !decide_False; [done| |]; intros E; apply (f_equal head) in E; cbn in E; injection E as ->; by vm_compute in Ha.
Qed.

Lemma word_run_word (key rest : bytes) (fuel : nat) :
  forallb word_byte key = true → word_at rest = 0 → length key ≤ fuel → word_run fuel (key ++ rest) = length key.
Proof.
  intros Hk Hr. revert fuel. induction key as [|b key IH]; intros fuel Hf; cbn [app length] in *.
  - destruct fuel; [done|]. cbn [word_run]. by rewrite Hr.
  - destruct fuel as [|fuel]; [lia|]. cbn [forallb] in Hk. apply andb_true_iff in Hk as [Hb Hk].
    cbn [word_run word_at]. rewrite Hb. cbn [drop]. rewrite IH by (done || lia). done.
Qed.

Lemma match_var_ok (key rest : bytes) (star : bool) :
  key ≠ [] → forallb word_byte key = true → (star = true ∨ stops star rest = true) →
  match_var (var_key key star ++ rest) = length (var_key key star).
Proof.
  intros Hne Hk Hs. unfold match_var, var_key. rewrite <- app_assoc.
  assert (Hw : word_at ((if star then [Byte.x2a] else []) ++ rest) = 0).
  { destruct star; [done|]. destruct Hs as [?|Hs]; [done|]. apply word_at_stop. destruct rest; [done|].
    cbn [stops app] in *. by apply andb_true_iff in Hs as [? _]. }
  rewrite word_run_word by (rewrite ?length_app; (done || lia)).
  destruct (length key) eqn:El; [by apply nil_length_inv in El|]. rewrite <- El, drop_app_length, length_app.
  destruct star; cbn [app length].
  - by rewrite Nat.add_1_r.
  - rewrite Nat.add_0_r. destruct rest as [|b rest]; [done|]. destruct Hs as [?|Hs]; [done|]. cbn [stops orb] in Hs.
    apply andb_true_iff in Hs as [_ Hs%negb_true_iff]. by rewrite Hs.
Qed.

Lemma replace_text (s rest : bytes) (m : Message) (fuel : nat) :
  forallb (λ b, negb (byte_eqb b dollar)) s = true → length s ≤ fuel →
  replace_vars fuel m (s ++ rest) = s ++ replace_vars (fuel - length s) m rest.
Proof.
  revert fuel. induction s as [|b s IH]; intros fuel Hs Hf; cbn [app length] in *; [by rewrite Nat.sub_0_r|].
  destruct fuel as [|fuel]; [lia|]. cbn [forallb] in Hs. apply andb_true_iff in Hs as [Hb%negb_true_iff Hs].
  cbn [replace_vars]. rewrite Hb, IH by (done || lia). done.
Qed.

Lemma replace_template (gs : list segment) (m : Message) (fuel : nat) :
  template_ok gs = true → length (concat (map seg_text gs)) ≤ fuel →
  replace_vars fuel m (concat (map seg_text gs)) = concat (map (seg_value m) gs).
Proof.
  revert fuel. induction gs as [|[s|key star] gs IH]; intros fuel Hok Hf; cbn [map concat template_ok] in *.
  - by destruct fuel.
  - apply andb_true_iff in Hok as [Hs Hok]. cbn [seg_text seg_value] in *. rewrite length_app in Hf.
    rewrite replace_text by (done || lia). by rewrite IH by (done || lia).
  - rewrite !andb_true_iff in Hok. destruct Hok as [[[Hne%bool_decide_eq_true Hk] Hs] Hok].
    cbn [seg_text seg_value app length] in *. rewrite length_app in Hf. destruct fuel as [|fuel]; [lia|].
    cbn [replace_vars]. change (byte_eqb dollar dollar) with true. cbn match.
    rewrite match_var_ok by (done || by apply orb_true_iff in Hs).
    destruct (length (var_key key star)) eqn:El.
    { unfold var_key in El. rewrite length_app in El. destruct key; [done|cbn in El; lia]. }
    rewrite <- El, take_app_length, drop_app_length, IH by (done || lia). done.
Qed.

(** *** Reading an RFC 5424 entry back *)

(** What a receiver of version 1 entries without structured data does. *)
Fixpoint take_until (x : byte) (s : bytes) : option (bytes * bytes) :=
  match s with
  | [] => None
  | b :: s => if byte_eqb b x then Some ([], s) else p ← take_until x s; Some (b :: p.1, p.2)
  end.

Definition space : byte := Byte.x20.

Record received := mk_received {
  r_facility : Z; r_severity : Z; r_time : bytes; r_host : bytes; r_app : bytes; r_pid : Z; r_text : bytes;
}.

Definition number (s : bytes) : option Z := match Atoi s with Ok n => Some n | _ => None end.

Definition parse_5424 (s : bytes) : option received :=
  match s with
  | Byte.x3c :: s =>
      '(p, s) ← take_until Byte.x3e s; p ← number p;
      '(ver, s) ← take_until space s;
      if decide (ver = lit "1") then
        '(ts, s) ← take_until space s; '(host, s) ← take_until space s; '(app, s) ← take_until space s;
        '(pid, s) ← take_until space s; pid ← number pid;
        '(msgid, s) ← take_until space s; '(sd, s) ← take_until space s;
        if decide (sd = lit "-") then Some (mk_received (p / 8)%Z (p mod 8)%Z ts host app pid s) else None
      else None
  | _ => None
  end.

(** Texts without a space and without [>]. *)
Definition plain_byte (b : byte) : bool := negb (byte_eqb b space) && negb (byte_eqb b Byte.x3e).
Definition plain : bytes → bool := forallb plain_byte.

Lemma plain_app (a b : bytes) : plain (a ++ b) = plain a && plain b.
Proof. apply forallb_app. Qed.

Lemma take_until_plain (x : byte) (a s : bytes) :
  (∀ b, b ∈ a → byte_eqb b x = false) → take_until x (a ++ x :: s) = Some (a, s).
Proof.
  induction a as [|b a IH]; intros Ha; cbn [app take_until].
  - assert (byte_eqb x x = true) as -> by (apply byte_dec_bl_refl || (unfold byte_eqb; by apply Byte.byte_dec_lb)). done.
  - rewrite Ha by left. rewrite IH by (intros c Hc; apply Ha; by right). done.
Qed.

Lemma plain_until (x : byte) (a s : bytes) :
  x = space ∨ x = Byte.x3e → plain a = true → take_until x (a ++ x :: s) = Some (a, s).
Proof.
  intros Hx Ha. apply take_until_plain. intros b Hb. unfold plain in Ha. rewrite forallb_forall in Ha.
  specialize (Ha b). apply list_elem_of_In in Hb. specialize (Ha Hb).
  apply andb_true_iff in Ha as [H1%negb_true_iff H2%negb_true_iff]. by destruct Hx as [->| ->].
Qed.

Lemma digit_plain_byte (d : Z) : (0 <= d < 10)%Z → plain_byte (digit d) = true.
Proof.
  intros Hd. assert (d = 0 ∨ d = 1 ∨ d = 2 ∨ d = 3 ∨ d = 4 ∨ d = 5 ∨ d = 6 ∨ d = 7 ∨ d = 8 ∨ d = 9)%Z as Hc by lia.
  by repeat (destruct Hc as [->|Hc]; [reflexivity|]); subst d.
Qed.

Lemma format_digits_plain (fuel : nat) (n : Z) :
  (0 <= n)%Z → (Z.log2 n <= Z.of_nat fuel)%Z → plain (format_digits fuel n) = true.
Proof.
  revert n. induction fuel as [|fuel IH]; intros n Hn Hl; cbn [format_digits].
  - assert (n < 2)%Z.
    { destruct (Z.le_gt_cases 2 n) as [H2|]; [|done].
      pose proof (Z.log2_le_mono 2 n H2) as Hm. cbn in Hm, Hl. lia. }
    unfold plain. cbn [forallb]. by rewrite digit_plain_byte by lia.
  - destruct (Z.ltb_spec n 10).
    + unfold plain. cbn [forallb]. by rewrite digit_plain_byte by lia.
    + rewrite plain_app, IH; [|zdm|].
      * unfold plain. cbn [forallb]. by rewrite digit_plain_byte by zdm.
      * pose proof (Z.log2_le_mono (n / 10) (n / 2) ltac:(zdm)).
        assert (Z.log2 (n / 2) = Z.log2 n - 1)%Z.
        { change 2%Z with (2 ^ 1)%Z at 1. rewrite <- Z.shiftr_div_pow2, Z.log2_shiftr by lia.
          pose proof (Z.log2_le_mono 2 n ltac:(lia)) as Hm. cbn in Hm. lia. }
        lia.
Qed.

Lemma uint_plain_bytes (n : Z) : (0 <= n)%Z → plain (format_uint n) = true.
Proof. intros Hn. apply format_digits_plain; [done|]. pose proof (Z.log2_nonneg n). lia. Qed.

Lemma format_int_plain (n : Z) : (0 <= n)%Z → plain (format_int n) = true.
Proof. intros Hn. unfold format_int. destruct (Z.ltb_spec n 0); [lia|]. by apply uint_plain_bytes. Qed.

Lemma padded_plain (n : nat) (z : Z) : (0 <= z)%Z → plain (padded n z) = true.
Proof.
  intros Hz. unfold padded. pose proof (uint_plain_bytes z Hz) as Hp. revert Hp. generalize (format_uint z).
  induction n as [|n IH]; intros s Hs; cbn [zero_pad]; [done|]. case_decide; [|done]. rewrite plain_app, IH; done.
Qed.

Lemma civil_pos (day : Z) : (0 <= day)%Z → let '(y, m, d) := civil day in (0 <= y ∧ 1 <= m ∧ 1 <= d)%Z.
Proof.
  intros Hd. unfold civil. set (z := (day + 719468)%Z). assert (0 <= z)%Z by lia. clearbody z. clear day Hd.
  assert (Hdoe : (0 <= z mod 146097 < 146097)%Z) by (by apply Z.mod_pos_bound).
  assert (Hera : (0 <= z / 146097)%Z) by (by apply Z.div_pos).
  generalize dependent (z mod 146097)%Z. generalize dependent (z / 146097)%Z. intros era Hera doe Hdoe. clear z H.
  set (yoe := ((doe - doe / 1460 + doe / 36524 - doe / 146096) / 365)%Z).
  assert (Hy : (0 <= doe - (365 * yoe + yoe / 4 - yoe / 100) ∧ 0 <= yoe)%Z) by (unfold yoe; zdm).
  destruct Hy as [Hdoy Hyoe]. generalize dependent (doe - (365 * yoe + yoe / 4 - yoe / 100))%Z. intros doy Hdoy.
  clearbody yoe. set (mp := ((5 * doy + 2) / 153)%Z).
  assert (Hmp : (0 <= mp ∧ 1 <= doy - (153 * mp + 2) / 5 + 1)%Z) by (unfold mp; zdm). clearbody mp.
  destruct (Z.ltb_spec mp 10); cbn match; destruct (Z.leb_spec (mp + 3) 2); destruct (Z.leb_spec (mp - 9) 2); lia.
Qed.

Lemma format_utc_plain (t : Time) : (0 <= unix t)%Z → plain (format_utc t) = true.
Proof.
  intros Ht. unfold format_utc, date_text, clock_text.
  pose proof (civil_pos (unix t / 86400) ltac:(apply Z.div_pos; lia)) as Hc.
  destruct (civil (unix t / 86400)) as [[y m] d]. destruct Hc as (Hy & Hm & Hd).
  assert (Hs : (0 <= unix t mod 86400 < 86400)%Z) by (by apply Z.mod_pos_bound).
  rewrite !plain_app, !padded_plain by zdm. done.
Qed.

Definition entry_ok (e : EntryRFC5424) : bool :=
  ((0 <=? Facility e) && (Facility e <? 2 ^ 32) && (0 <=? Severity e) && (Severity e <? 8) && (0 <=? unix (ETimestamp e)) &&
   (0 <=? Pid e) && (Pid e <? 2 ^ 32))%Z && plain (Hostname e) && plain (App e).

Lemma until_space (a s : bytes) : plain a = true → take_until space (a ++ lit " " ++ s) = Some (a, s).
Proof. intros Ha. apply plain_until; [by left|done]. Qed.

Lemma until_gt (a s : bytes) : plain a = true → take_until Byte.x3e (a ++ lit ">" ++ s) = Some (a, s).
Proof. intros Ha. apply plain_until; [by right|done]. Qed.

Lemma number_format (n : Z) : (0 <= n < 2 ^ 63)%Z → number (format_int n) = Some n.
Proof. intros Hn. unfold number, Atoi. by rewrite ParseInt_format by lia. Qed.

Lemma line_5424_parse (e : EntryRFC5424) :
  entry_ok e = true →
  parse_5424 (line_5424 e) = Some (mk_received (Facility e) (Severity e) (format_utc (ETimestamp e)) (Hostname e)
    (if decide (0 < length (App e)) then App e else lit "-") (Pid e) (Content e)).
Proof.
  unfold entry_ok. rewrite !andb_true_iff, !Z.leb_le, !Z.ltb_lt.
  intros [[[[[[[[Hf1 Hf2] Hs1] Hs2] Ht] Hp1] Hp2] Hh] Ha].
  set (app := if decide (0 < length (App e)) then App e else lit "-").
  assert (Happ : plain app = true) by (unfold app; case_decide; done).
  assert (Hpri : (0 <= pri (Facility e) (Severity e) < 2 ^ 63)%Z) by (unfold pri; lia).
  unfold line_5424. fold app. cbn [app lit String.list_byte_of_string].
  change (lit "<" ++ ?x) with (Byte.x3c :: x). unfold parse_5424.
  rewrite until_gt by (apply format_int_plain; lia). cbn [mbind option_bind].
  rewrite number_format by lia. cbn [mbind option_bind].
  rewrite until_space by done. cbn [mbind option_bind]. rewrite decide_True by done.
  rewrite until_space by (by apply format_utc_plain). cbn [mbind option_bind].
  rewrite until_space by done. cbn [mbind option_bind].
  rewrite until_space by done. cbn [mbind option_bind].
  rewrite until_space by (by apply format_int_plain). cbn [mbind option_bind].
  rewrite number_format by lia. cbn [mbind option_bind].
  rewrite until_space by done. cbn [mbind option_bind].
  rewrite until_space by done. cbn [mbind option_bind].
  rewrite decide_True by done. unfold pri. do 2 f_equal; zdm.
Qed.

(** *** The syslog handler *)
Definition in_send (w : worker_at) : list Message := match w with WSend m => [m] | _ => [] end.

Definition syslog_ok (h : syslogHandler) : Prop :=
  match ch h with
  | None => accepted h = [] ∧ sent h = [] ∧ blocked h = [] ∧ (worker h = WDial ∨ worker h = WGone)
  | Some q => sent h ++ in_send (worker h) ++ q = accepted h ∧ length q ≤ ch_cap ∧ worker h ≠ WDial
  end.

Lemma sys_exec_ok (a : sys_action) (h h' : syslogHandler) : sys_exec a h = Some h' → syslog_ok h → syslog_ok h'.
Proof.
  unfold syslog_ok. intros Hx Hok. destruct a; cbn [sys_exec] in Hx.
  - destruct (worker h) eqn:Ew; try done. injection Hx as <-. cbn [ch worker sent accepted in_send app].
    destruct (ch h); [by destruct Hok as (_ & _ & ?)|]. destruct Hok as (-> & -> & _). split; [done|]. split; [cbn; lia|done].
  - destruct (worker h) eqn:Ew; try done. injection Hx as <-. cbn [ch worker sent accepted blocked].
    destruct (ch h); [by destruct Hok as (_ & _ & ?)|]. destruct Hok as (? & ? & ? & _). auto.
  - destruct (worker h) eqn:Ew; try done. destruct (ch h) as [[|m q]|]; try done. injection Hx as <-.
    cbn [ch worker sent accepted in_send app length] in *. destruct Hok as (? & ? & _). split; [done|]. split; [lia|done].
  - destruct (worker h) as [| |m|] eqn:Ew; try done. injection Hx as <-. cbn [ch worker sent accepted in_send app] in *.
    destruct (ch h); [|by destruct Hok as (_ & _ & _ & [?|?])]. destruct Hok as (<- & ? & _).
    split; [by rewrite <- app_assoc|done].
  - destruct (worker h) eqn:Ew; try done. destruct (cancelled h); [|done]. injection Hx as <-.
    cbn [ch worker sent accepted in_send app] in *. destruct (ch h); [by destruct Hok as (? & ? & _)|].
    destruct Hok as (? & ? & ? & _). auto.
  - by injection Hx as <-.
  - destruct (ch h) as [q|] eqn:Ec; [|injection Hx as <-; by rewrite Ec].
    destruct Hok as (Ha & Hl & Hw). case_decide; injection Hx as <-; cbn [ch worker sent accepted].
    + split; [by rewrite <- Ha, <- !app_assoc|]. split; [rewrite length_app; cbn; lia|done].
    + done.
  - destruct (ch h) as [q|] eqn:Ec; [|done]. destruct (blocked h) as [|m ms]; [done|]. case_decide; [|done].
    injection Hx as <-. destruct Hok as (Ha & Hl & Hw). cbn [ch worker sent accepted].
    split; [by rewrite <- Ha, <- !app_assoc|]. split; [rewrite length_app; cbn; lia|done].
Qed.

Lemma sys_reachable_ok (h : syslogHandler) : rtc sys_step NewSyslogHandler h → syslog_ok h.
Proof. intros Hr. apply (acts_invariant sys_exec syslog_ok sys_exec_ok NewSyslogHandler); [done|]. cbn; auto. Qed.

(** A full channel without a worker. *)
Definition jammed (m : Message) (h : syslogHandler) : Prop :=
  worker h = WGone ∧ (∃ q, ch h = Some q ∧ length q = ch_cap) ∧ m ∈ blocked h.

Lemma sys_exec_jammed (a : sys_action) (m : Message) (h h' : syslogHandler) :
  sys_exec a h = Some h' → jammed m h → jammed m h'.
Proof.
  intros Hx (Hw & (q & Hq & Hl) & Hm). destruct a; cbn [sys_exec] in Hx; rewrite ?Hw, ?Hq in Hx; try done.
  - injection Hx as <-. split; [done|]. split; [by exists q|done].
  - rewrite decide_False in Hx by lia. injection Hx as <-. split; [done|]. split; [by exists q|].
    cbn [blocked]. apply elem_of_app. by left.
  - destruct (blocked h); [done|]. by rewrite decide_False in Hx by lia.
Qed.

(** Filling the channel of a handler whose worker has gone. *)
Definition stopped (q : list Message) : syslogHandler := mk_syslog (Some q) WGone true [] q [].

Lemma fill_channel (m : Message) (n : nat) : n ≤ ch_cap → rtc sys_step (stopped []) (stopped (replicate n m)).
Proof.
  induction n as [|n IH]; intros Hn; [apply rtc_refl|]. etrans; [apply IH; lia|].
  eapply rtc_l; [|apply rtc_refl]. exists (SWrite m). cbn [sys_exec ch stopped].
  rewrite decide_True by (rewrite length_replicate; lia). cbn [worker cancelled blocked accepted sent].
  unfold stopped. by rewrite replicate_S_end.
Qed.

Lemma sys_exec_silent (a : sys_action) (m : Message) (h h' : syslogHandler) :
  sys_exec a h = Some h' → jammed m h → sent h = [] → sent h' = [].
Proof.
  intros Hx (Hw & (q & Hq & Hl) & _) Hs. destruct a; cbn [sys_exec] in Hx; rewrite ?Hw, ?Hq in Hx; try done.
  - by injection Hx as <-.
  - rewrite decide_False in Hx by lia. by injection Hx as <-.
  - destruct (blocked h); [done|]. by rewrite decide_False in Hx by lia.
Qed.

Lemma GetLevel_name (name : bytes) (lev : Z) :
  EqualFold name (GetLevelName lev) = true → GetLevelName lev ≠ [] → GetLevel name = lev.
Proof.
  intros He Hne. apply bool_decide_eq_true in He. unfold GetLevel, idx. unfold GetLevelName, idx in *. cbn [level_name] in *.
  cbn [find_level]. unfold EqualFold. rewrite !He.
  repeat (case_match; [match goal with H : (_ =? _)%Z = true |- _ => apply Z.eqb_eq in H; subst lev; reflexivity end|]). done.
Qed.


Example civil_epoch : civil 0 = (1970, 1, 1)%Z. Proof. reflexivity. Qed.
Example civil_leap : civil 11016 = (2000, 2, 29)%Z. Proof. reflexivity. Qed.
Example civil_century : civil (-25509) = (1900, 2, 28)%Z ∧ civil (-25508) = (1900, 3, 1)%Z. Proof. split; reflexivity. Qed.

Example format_sample :
  formatMessage (lit "$time [$mod] $lev $unknown$ $message*")
    (mk_Message (mk_Time 1700000000 0 3600) [] (lit "hi $lev") INFO (lit "df/log") (lit "a.go") 7)
  = lit "2023-11-14 23:13:20 [df/log] info $unknown$ $message*".
Proof. vm_compute. reflexivity. Qed.
Example stamp_sample :
  line_3164 (mk_3164 1 6 (mk_Time 1700000000 0 0) (lit "box") (lit "df") 42 (lit "hi"))
  = lit "<14>Nov 14 22:13:20 box df[42]: hi".
Proof. vm_compute. reflexivity. Qed.
Example json_sample :
  json_time (mk_Time 1700000000 120000000 (-19800)) = Some (lit "2023-11-14T16:43:20.12-05:30").
Proof. vm_compute. reflexivity. Qed.
(** ** Properties *)

(** C37: the level of a logger is a filter and nothing else: after any sequence
    of calls every handler has, in order, one ended line for each call whose
    level is at most the logger's, rendered in the handler's format, and
    nothing of the others; a level set by a known name, in any case, lets
    exactly the levels up to it pass, an unknown name lets everything pass. *)
Theorem log_filter (evs : list event) (l : LoggerBuiltin) (name : bytes) :
  (Handlers (foldl log_event l evs) = map (λ h, mk_handler (h_format h)
     (output h ++ concat (map (line (l_Name l) (h_format h)) (filter (λ e, (e.1.2 <= l_Lev l)%Z) evs)))) (Handlers l)) ∧
  Forall (λ h, ∀ e, last (line (l_Name l) (h_format h) e) = Some Byte.x0a) (Handlers l) ∧
  (l_Lev (SetLevelName name l) = NOTSET ∨
   GetLevelName (l_Lev (SetLevelName name l)) ≠ [] ∧ EqualFold name (GetLevelName (l_Lev (SetLevelName name l))) = true) ∧
  (∀ lev, EqualFold name (GetLevelName lev) = true → GetLevelName lev ≠ [] → l_Lev (SetLevelName name l) = lev).
Proof.
  split; [apply log_events|]. split; [|split].
  - apply Forall_forall. intros h _ e. unfold line. generalize (formatMessage (h_format h)
      (mk_Message (c_now e.1.1) (l_Name l) (Sprintln e.2) e.1.2 (c_mod e.1.1) (c_file e.1.1) (c_line e.1.1))).
    intros s. unfold end_line. destruct (last s) as [b|] eqn:El; [|done].
    destruct (byte_eqb b Byte.x0a) eqn:Eb; [apply byte_eqb_eq in Eb; by rewrite El, Eb|]. by rewrite last_snoc.
  - cbn [SetLevelName SetLevel l_Lev]. unfold GetLevel, idx. cbn [find_level].
    repeat (case_match; [right; split; [vm_compute; discriminate|done]|]). by left.
  - intros lev Hlev Hne. cbn [SetLevelName SetLevel l_Lev]. by apply GetLevel_name.
Qed.

(** C38: the message format is the template it reads like: a format made of
    texts without a dollar sign and of variables [$name] (one or more ASCII
    word characters, a star at the end of it if any) is rendered piece by
    piece, the known variables by their values, the unknown ones as they
    stand; a format that is empty or [@json] gives the message as JSON. *)
Theorem format_template (gs : list segment) (m : Message) :
  template_ok gs = true → concat (map seg_text gs) ≠ [] → EqualFold (concat (map seg_text gs)) (lit "@json") = false →
  formatMessage (concat (map seg_text gs)) m = concat (map (seg_value m) gs) ∧
  formatMessage [] m = default [] (json_message m) ∧ formatMessage (lit "@JSON") m = default [] (json_message m).
Proof.
  intros Hok Hne Hj. split; [|done]. unfold formatMessage.
  rewrite decide_False by (by intros ?%nil_length_inv). rewrite Hj. by apply replace_template.
Qed.

Definition sample_message : Message :=
  mk_Message (mk_Time 1700000000 0 0) (lit "n") (lit "$lev!") WARNING (lit "df") (lit "a.go") 12.
Definition sample_format : list segment :=
  [Text (lit "["); Var (lit "mod") false; Text (lit "] <"); Var (lit "filename") false; Text (lit ":"); Var (lit "lineno") false;
   Text (lit "> "); Var (lit "lev") true; Text (lit " "); Var (lit "nope") false; Text (lit " "); Var (lit "message") false].

Lemma format_template_witness :
  formatMessage (lit "[$mod] <$filename:$lineno> $lev* $nope $message") sample_message
  = lit "[df] <a.go:12> " ++ colored (lit "33;1") (lit "WRN") ++ lit " $nope $lev!".
Proof.
  destruct (format_template sample_format sample_message) as [H _]; [reflexivity|discriminate|reflexivity|].
  etrans; [|etrans; [exact H|]]; vm_compute; reflexivity.
Defined.

(** A syslog line reads back: a receiver that follows RFC 5424 finds in the
    entry written for a message the facility, the severity, the time, the host,
    the application (a dash if there is none), the process and the whole text,
    whatever bytes the text holds. *)
Theorem syslog_roundtrip {W} `{WriterLaws W} (e : EntryRFC5424) (w : W) :
  entry_ok e = true → write_pre w (length (line_5424 e)) →
  ∃ n w' wire, WriteTo_5424 e w = (Ok n, w') ∧ emitted w w' wire ∧
    parse_5424 wire = Some (mk_received (Facility e) (Severity e) (format_utc (ETimestamp e)) (Hostname e)
      (if decide (0 < length (App e)) then App e else lit "-") (Pid e) (Content e)).
Proof.
  intros He Hw. destruct (write_law w (line_5424 e) Hw) as (n & w' & H3 & H4).
  exists n, w', (line_5424 e). split; [exact H3|]. split; [exact H4|]. by apply line_5424_parse.
Qed.

Definition sample_options : SyslogOptions := mk_options (lit "10.0.0.1") 514 (lit "df") (lit "$message").

Lemma syslog_roundtrip_witness :
  ∃ n w' wire, WriteTo_5424 (syslog_entry sample_options (lit "$message") (lit "box") (mk_Time 1700000000 0 0) 42 sample_message)
                 (Buf.mk_buffer []) = (Ok n, w') ∧ emitted (Buf.mk_buffer []) w' wire ∧
    parse_5424 wire = Some (mk_received 1 4 (lit "2023-11-14T22:13:20Z") (lit "box") (lit "df") 42 (lit "$lev!")).
Proof.
  destruct (syslog_roundtrip (syslog_entry sample_options (lit "$message") (lit "box") (mk_Time 1700000000 0 0) 42 sample_message)
              (Buf.mk_buffer [])) as (n & w' & wire & H1 & H2 & H3); [vm_compute; reflexivity|exact I|].
  exists n, w', wire. split; [exact H1|]. split; [exact H2|]. etrans; [exact H3|]. vm_compute. reflexivity.
Defined.

(** The syslog handler sends what it accepts in order, but logging after
    [CleanUp] stops the program: in every interleaving the entries sent are a
    prefix of the messages put on the channel, at most 1024 of them waiting;
    once the worker has gone, the 1025th [Write] never returns. *)
Theorem syslog_jams (h : syslogHandler) (m : Message) :
  rtc sys_step NewSyslogHandler h →
  (sent h `prefix_of` accepted h ∧ match ch h with Some q => length q ≤ ch_cap | None => True end) ∧
  ∃ h', rtc sys_step NewSyslogHandler h' ∧ cancelled h' = true ∧ accepted h' = replicate ch_cap m ∧
    ∀ h'', rtc sys_step h' h'' → m ∈ blocked h'' ∧ sent h'' = [].
Proof.
  intros Hr. split.
  - apply sys_reachable_ok in Hr. unfold syslog_ok in Hr. destruct (ch h) as [q|].
    + destruct Hr as (<- & ? & _). split; [by apply prefix_app_r|done].
    + by destruct Hr as (-> & -> & _).
  - set (q := replicate ch_cap m). exists (mk_syslog (Some q) WGone true [m] q []). split; [|split; [done|split; [done|]]].
    + eapply rtc_l; [by exists SDial|]. eapply rtc_l; [by exists SCleanUp|]. eapply rtc_l; [by exists SDone|].
      etrans; [apply (fill_channel m ch_cap); done|]. eapply rtc_l; [|apply rtc_refl]. exists (SWrite m).
      cbn [sys_exec ch stopped]. rewrite decide_False by (rewrite length_replicate; lia). done.
    + intros h'' Hr'. assert (Hj : jammed m (mk_syslog (Some q) WGone true [m] q []) ∧ sent (mk_syslog (Some q) WGone true [m] q []) = []).
      { split; [|done]. split; [done|]. split; [exists q; split; [done|apply length_replicate]|left]. }
      apply (acts_invariant sys_exec (λ h, jammed m h ∧ sent h = [])) in Hr' as [(_ & _ & ?) ?]; [done| |done].
      intros a h1 h2 Ha [Hj1 Hs]. split; [by eapply sys_exec_jammed|]. by apply (sys_exec_silent a m h1).
Qed.

Lemma syslog_jams_witness :
  ∃ h', rtc sys_step NewSyslogHandler h' ∧ cancelled h' = true ∧
    ∀ h'', rtc sys_step h' h'' → sample_message ∈ blocked h''.
Proof.
  destruct (syslog_jams NewSyslogHandler sample_message (rtc_refl _ _)) as [_ (h' & H1 & H2 & _ & H3)].
  exists h'. split; [exact H1|]. split; [exact H2|]. intros h'' Hr. by apply H3.
Defined.
End Log.
