(* ===== verification/Loggers.v ===== *)
(** The interfaces of package [log] (src/log/handler.go, logger.go): the
    handlers behind [Handler] (handler_stdout.go, handler_syslog.go), a logger
    with handlers of both kinds (logger_builtin.go) and the package's default
    logger (log.go).  A call that blocks its goroutine is [Hang]. *)
From S2P Require Import Prelude Log.

Module Loggers.
Import Log.

(** [Handler]. *)
Class IsHandler (H : Type) := {
  hd_Format : H → bytes;
  hd_SetFormat : bytes → H → H;
  hd_Write : Message → H → outcome unit * H;
  hd_CleanUp : H → H;
}.

#[export] Instance stdout_handler : IsHandler Handler := {|
  hd_Format := h_format;
  hd_SetFormat := SetFormat;
  hd_Write m h := (Ok tt, HWrite m h);
  hd_CleanUp h := h;
|}.

(** [syslogHandler]: its [format], whether [cancel] is still set, and what its
    channel and worker have come to. *)
Record syslog := mk_sys { s_format : bytes; s_cancel : bool; s_state : syslogHandler }.

Definition new_syslog (o : SyslogOptions) : syslog := mk_sys (o_Format o) true NewSyslogHandler.

(** A [Write] that finds the channel full is left among the blocked ones. *)
Definition sys_full (s : syslogHandler) : bool :=
  match ch s with Some q => bool_decide (ch_cap <= length q) | None => false end.

Definition sys_act (a : sys_action) (h : syslog) : syslog :=
  mk_sys (s_format h) (s_cancel h) (default (s_state h) (sys_exec a (s_state h))).

Definition sys_Write (m : Message) (h : syslog) : outcome unit * syslog :=
  (if sys_full (s_state h) then Hang else Ok tt, sys_act (SWrite m) h).

Definition sys_CleanUp (h : syslog) : syslog :=
  if s_cancel h then mk_sys (s_format h) false (s_state (sys_act SCleanUp h)) else h.

#[export] Instance syslog_handler : IsHandler syslog := {|
  hd_Format := s_format;
  hd_SetFormat f h := mk_sys f (s_cancel h) (s_state h);
  hd_Write := sys_Write;
  hd_CleanUp := sys_CleanUp;
|}.

(** The handlers a logger holds, whatever they are. *)
Inductive handler := Stdout (h : Handler) | Syslog (h : syslog).

#[export] Instance any_handler : IsHandler handler := {|
  hd_Format h := match h with Stdout h => hd_Format h | Syslog h => hd_Format h end;
  hd_SetFormat f h := match h with Stdout h => Stdout (hd_SetFormat f h) | Syslog h => Syslog (hd_SetFormat f h) end;
  hd_Write m h := match h with
                  | Stdout h => let '(r, h) := hd_Write m h in (r, Stdout h)
                  | Syslog h => let '(r, h) := hd_Write m h in (r, Syslog h)
                  end;
  hd_CleanUp h := match h with Stdout h => Stdout (hd_CleanUp h) | Syslog h => Syslog (hd_CleanUp h) end;
|}.

(** ** [LoggerBuiltin] *)
Section logger.
Context {H : Type} `{!IsHandler H}.

Record logger := mk_log { lg_Lev : Z; lg_Name : bytes; lg_Handlers : list H }.

(** The loop over the handlers: one that blocks keeps the rest waiting. *)
Fixpoint write_all (m : Message) (hs : list H) : outcome unit * list H :=
  match hs with
  | [] => (Ok tt, [])
  | h :: hs =>
      let '(r, h) := hd_Write m h in
      match r with
      | Ok _ => let '(r, hs) := write_all m hs in (r, h :: hs)
      | r => (r, h :: hs)
      end
  end.

Definition emit (c : caller) (lev : Z) (body : bytes) (l : logger) : outcome unit * logger :=
  if (lg_Lev l <? lev)%Z then (Ok tt, l)
  else
    let '(r, hs) := write_all (makeMessage c lev body (mk_logger (lg_Lev l) (lg_Name l) [])) (lg_Handlers l) in
    (r, mk_log (lg_Lev l) (lg_Name l) hs).

Definition CleanUp (l : logger) : logger := mk_log (lg_Lev l) (lg_Name l) (map hd_CleanUp (lg_Handlers l)).
Definition SetHandlers (hs : list H) (l : logger) : logger := mk_log (lg_Lev l) (lg_Name l) hs.
End logger.
Arguments logger : clear implicits.

(** [Logger], the part its other methods are made of: [Print], [Printf] and
    [Println] emit a text, the rest name a level. *)
Class IsLogger (L H : Type) := {
  lo_Level : L → Z;
  lo_SetLevel : Z → L → L;
  lo_Emit : caller → Z → bytes → L → outcome unit * L;
  lo_GetHandlers : L → list H;
  lo_SetHandlers : list H → L → L;
  lo_CleanUp : L → L;
}.

#[export] Instance builtin_logger {H} `{!IsHandler H} : IsLogger (logger H) H := {|
  lo_Level := lg_Lev;
  lo_SetLevel lev l := mk_log lev (lg_Name l) (lg_Handlers l);
  lo_Emit := emit;
  lo_GetHandlers := lg_Handlers;
  lo_SetHandlers := SetHandlers;
  lo_CleanUp := CleanUp;
|}.

(** The package's variable [defaultLogger], and its functions. *)
Definition package : Type := logger handler.
Definition initial : package := mk_log NOTSET [] [Stdout DefaultHandler].
Definition SetLoggerDefault (l : logger handler) (_ : package) : package := l.
Definition GetLoggerDefault (p : package) : logger handler := p.

(** ** Facts *)
Section facts.
Context {H : Type} `{!IsHandler H}.

Definition ready (m : Message) (h : H) : Prop := (hd_Write m h).1 = Ok tt.
Definition written (m : Message) (h : H) : H := (hd_Write m h).2.

Lemma write_all_ready (m : Message) (hs more : list H) : Forall (ready m) hs →
  write_all m (hs ++ more) = ((write_all m more).1, map (written m) hs ++ (write_all m more).2).
Proof.
  induction 1 as [|h hs Hh _ IH]; cbn; [by destruct (write_all m more)|]. unfold ready, written in *.
  destruct (hd_Write m h) as [r h']. cbn in *. by rewrite Hh, IH.
Qed.

Lemma write_all_blocks (m : Message) (h : H) (hs : list H) : (hd_Write m h).1 = Hang →
  write_all m (h :: hs) = (Hang, written m h :: hs).
Proof. unfold written. cbn. destruct (hd_Write m h) as [r h']. by intros [= ->]. Qed.
End facts.

(** With standard handlers only, the loggers of file Log. *)
Lemma emit_stdout (c : caller) (lev : Z) (body : bytes) (l : LoggerBuiltin) :
  emit c lev body (mk_log (l_Lev l) (l_Name l) (map Stdout (Handlers l)))
  = (Ok tt, let l' := Log.emit c lev body l in mk_log (l_Lev l') (l_Name l') (map Stdout (Handlers l'))).
Proof.
  unfold emit, Log.emit. cbn [lg_Lev lg_Name lg_Handlers]. destruct (Z.ltb_spec (l_Lev l) lev); [done|].
  rewrite <- (app_nil_r (map Stdout _)), write_all_ready by (apply Forall_fmap; by apply Forall_true).
  cbn. rewrite app_nil_r, !map_map. done.
Qed.

(** What [CleanUp] does to a handler: a syslog handler's worker is told to stop. *)
Definition told (h : handler) : Prop :=
  match h with Stdout _ => True | Syslog h => s_cancel h = false → cancelled (s_state h) = true end.

Lemma cleaned (h : handler) : told h →
  hd_CleanUp (hd_CleanUp h) = hd_CleanUp h ∧ hd_Format (hd_CleanUp h) = hd_Format h ∧
  match hd_CleanUp h with Stdout h' => h = Stdout h' | Syslog h' => cancelled (s_state h') = true end.
Proof.
  intros Ht. destruct h as [h|[f [] st]]; [done| |]; cbn in *; [done|]. split; [done|]. split; [done|]. by apply Ht.
Qed.

Lemma sys_write_full (m : Message) (h : syslog) : sys_full (s_state h) = true →
  hd_Write m (Syslog h) = (Hang, Syslog (sys_act (SWrite m) h)) ∧ blocked (s_state (sys_act (SWrite m) h)) = blocked (s_state h) ++ [m].
Proof.
  intros Hf. split; [cbn; unfold sys_Write; by rewrite Hf|]. unfold sys_full in Hf. unfold sys_act. cbn.
  destruct (ch (s_state h)); [|done]. apply bool_decide_eq_true in Hf. by rewrite decide_False by lia.
Qed.

Lemma sys_write_ready (m : Message) (h : syslog) : sys_full (s_state h) = false → ready m (Syslog h).
Proof. unfold ready. cbn. unfold sys_Write. by intros ->. Qed.

(** ** Properties *)

(** A message reaches a logger's handlers in their order and up to the first
    whose channel is full: that one keeps the caller, and the handlers behind
    it never see the message; if none is full all of them get it. Cleaning up
    tells every syslog worker to stop, once, and changes no other handler. *)
Theorem handlers_in_order (c : caller) (lev : Z) (body : bytes) (name : bytes) (level : Z) (hs more : list handler) (h : syslog) :
  (lev <= level)%Z →
  let m := makeMessage c lev body (mk_logger level name []) in
  Forall (ready m) hs →
  emit c lev body (mk_log level name hs) = (Ok tt, mk_log level name (map (written m) hs)) ∧
  (sys_full (s_state h) = true →
   emit c lev body (mk_log level name (hs ++ Syslog h :: more))
   = (Hang, mk_log level name (map (written m) hs ++ Syslog (sys_act (SWrite m) h) :: more))) ∧
  (Forall told hs →
   CleanUp (CleanUp (mk_log level name hs)) = CleanUp (mk_log level name hs) ∧
   Forall (λ h', match h' with Stdout _ => True | Syslog h' => cancelled (s_state h') = true end)
     (lg_Handlers (CleanUp (mk_log level name hs)))).
Proof.
  intros Hlev m Hr. unfold emit. cbn [lg_Lev lg_Name lg_Handlers]. destruct (Z.ltb_spec level lev); [lia|]. fold m. split; [|split].
  - rewrite <- (app_nil_r hs) at 1. rewrite write_all_ready by done. cbn. by rewrite app_nil_r.
  - intros Hf. destruct (sys_write_full m h Hf) as [Hw _]. rewrite write_all_ready by done.
    rewrite (write_all_blocks m (Syslog h) more (f_equal fst Hw)).
    assert (E : written m (Syslog h) = Syslog (sys_act (SWrite m) h)) by exact (f_equal snd Hw). by rewrite E.
  - intros Ht. unfold CleanUp. cbn [lg_Lev lg_Name lg_Handlers]. split.
    + f_equal. rewrite map_map. apply map_ext_in. intros h' Hin%list_elem_of_In. apply cleaned.
      by apply (proj1 (Forall_forall _ _) Ht).
    + apply Forall_fmap. eapply Forall_impl; [exact Ht|]. intros h' Hh. cbn. destruct (cleaned h' Hh) as (_ & _ & Hc).
      by destruct h'.
Qed.

Definition here : caller := mk_caller (mk_Time 0 0 0) (lit "df") (lit "a.go") 1.
Definition full_syslog : syslog := mk_sys (lit "$message") true (stopped (replicate ch_cap sample_message)).

Lemma full_syslog_full : sys_full (s_state full_syslog) = true.
Proof.
  unfold sys_full. cbn [ch s_state full_syslog stopped]. rewrite length_replicate. by apply bool_decide_eq_true.
Qed.

Lemma handlers_in_order_witness :
  (emit here WARNING (lit "x") (mk_log INFO (lit "n") [Stdout DefaultHandler; Syslog full_syslog; Stdout DefaultHandler])).1 = Hang.
Proof.
  destruct (handlers_in_order here WARNING (lit "x") (lit "n") INFO [Stdout DefaultHandler] [Stdout DefaultHandler] full_syslog)
    as (_ & H & _); [done|by constructor|].
  apply (f_equal fst (H full_syslog_full)).
Defined.
End Loggers.
