(* ===== verification/Message.v ===== *)
(** Package [message]: the messages exchanged between the proxy's two halves
    (src/message/message.go), with the JSON tags of the structs that travel
    as JSON. *)
From S2P Require Import Prelude Json.

Definition KindData : Z := 0.
Definition KindRequestDNS : Z := 1.
Definition KindResultDNS : Z := 2.
Definition KindRequestDial : Z := 4.
Definition KindConnectionState : Z := 8.
Definition KindPingPong : Z := 16.

Record MessageRequestDNS := mk_RequestDNS {
  rdns_Id : Z;
  rdns_Network : bytes;
  rdns_DomainName : bytes;
}.

Record MessageResultDNS := mk_ResultDNS {
  sdns_Id : Z;
  sdns_Ack : Z;
  sdns_Addresses : list bytes;
  sdns_Error : bytes;
}.

Record MessageRequestDial := mk_RequestDial {
  dial_Id : Z;
  dial_Network : bytes;
  dial_Address : bytes;
  dial_ConnectionId : bytes;
}.

Record MessageConnectionState := mk_ConnectionState {
  state_Id : Z;
  state_Ack : Z;
  state_ConnectionId : bytes;
  state_State : bytes;
  state_Error : bytes;
  state_ErrorType : bytes;
}.

Record MessageData := mk_Data {
  data_Id : Z;
  data_Ack : Z;
  data_ConnectionId : bytes;
  data_Data : bytes;
}.

Record MessagePing := mk_Ping { ping_Id : Z; ping_Ack : Z }.

(** The dynamic types behind the interface [Message]. *)
Inductive Message : Type :=
  | RequestDNS (m : MessageRequestDNS)
  | ResultDNS (m : MessageResultDNS)
  | RequestDial (m : MessageRequestDial)
  | ConnectionState (m : MessageConnectionState)
  | Data (m : MessageData)
  | Ping (m : MessagePing).

#[global] Instance MessageRequestDNS_eq_dec : EqDecision MessageRequestDNS.
Proof. solve_decision. Defined.
#[global] Instance MessageResultDNS_eq_dec : EqDecision MessageResultDNS.
Proof. solve_decision. Defined.
#[global] Instance MessageRequestDial_eq_dec : EqDecision MessageRequestDial.
Proof. solve_decision. Defined.
#[global] Instance MessageConnectionState_eq_dec : EqDecision MessageConnectionState.
Proof. solve_decision. Defined.
#[global] Instance MessageData_eq_dec : EqDecision MessageData.
Proof. solve_decision. Defined.
#[global] Instance MessagePing_eq_dec : EqDecision MessagePing.
Proof. solve_decision. Defined.
#[global] Instance Message_eq_dec : EqDecision Message.
Proof. solve_decision. Defined.

Definition Kind (m : Message) : Z :=
  match m with
  | RequestDNS _ => KindRequestDNS
  | ResultDNS _ => KindResultDNS
  | RequestDial _ => KindRequestDial
  | ConnectionState _ => KindConnectionState
  | Data _ => KindData
  | Ping _ => KindPingPong
  end.

Definition MessageId (m : Message) : Z :=
  match m with
  | RequestDNS m => rdns_Id m
  | ResultDNS m => sdns_Id m
  | RequestDial m => dial_Id m
  | ConnectionState m => state_Id m
  | Data m => data_Id m
  | Ping m => ping_Id m
  end.

(** Requests carry no acknowledgement. *)
Definition AckMessageId (m : Message) : Z :=
  match m with
  | RequestDNS _ | RequestDial _ => 0
  | ResultDNS m => sdns_Ack m
  | ConnectionState m => state_Ack m
  | Data m => data_Ack m
  | Ping m => ping_Ack m
  end.

(** ** JSON tags *)
Definition RequestDNS_fields (m : MessageRequestDNS) : list field :=
  [ mk_field (lit "id") false (FUint32 (rdns_Id m));
    mk_field (lit "network") true (FString (rdns_Network m));
    mk_field (lit "domain_name") true (FString (rdns_DomainName m)) ].

Definition RequestDNS_of_fields (fs : list field) : MessageRequestDNS :=
  match map f_value fs with
  | [FUint32 id; FString net; FString dn] => mk_RequestDNS id net dn
  | _ => mk_RequestDNS 0 [] []
  end.

Definition RequestDial_fields (m : MessageRequestDial) : list field :=
  [ mk_field (lit "id") false (FUint32 (dial_Id m));
    mk_field (lit "network") true (FString (dial_Network m));
    mk_field (lit "address") true (FString (dial_Address m));
    mk_field (lit "connection_id") true (FString (dial_ConnectionId m)) ].

Definition RequestDial_of_fields (fs : list field) : MessageRequestDial :=
  match map f_value fs with
  | [FUint32 id; FString net; FString addr; FString cid] => mk_RequestDial id net addr cid
  | _ => mk_RequestDial 0 [] [] []
  end.

Definition ConnectionState_fields (m : MessageConnectionState) : list field :=
  [ mk_field (lit "id") false (FUint32 (state_Id m));
    mk_field (lit "ack") false (FUint32 (state_Ack m));
    mk_field (lit "connection_id") true (FString (state_ConnectionId m));
    mk_field (lit "state") true (FString (state_State m));
    mk_field (lit "error") true (FString (state_Error m));
    mk_field (lit "error_type") true (FString (state_ErrorType m)) ].

Definition ConnectionState_of_fields (fs : list field) : MessageConnectionState :=
  match map f_value fs with
  | [FUint32 id; FUint32 ack; FString cid; FString st; FString e; FString et] =>
      mk_ConnectionState id ack cid st e et
  | _ => mk_ConnectionState 0 0 [] [] [] []
  end.

(** ** Well-formed messages

    The ids are [uint32]s and the strings that travel as JSON are valid UTF-8. *)
Definition is_uint32 (z : Z) : bool := (0 <=? z)%Z && (z <? 2 ^ 32)%Z.

Definition message_ok (m : Message) : bool :=
  is_uint32 (MessageId m) && is_uint32 (AckMessageId m) &&
  match m with
  | RequestDNS m => utf8_valid (rdns_Network m) && utf8_valid (rdns_DomainName m)
  | RequestDial m => utf8_valid (dial_Network m) && utf8_valid (dial_Address m)
                     && utf8_valid (dial_ConnectionId m)
  | ConnectionState m => utf8_valid (state_ConnectionId m) && utf8_valid (state_State m)
                         && utf8_valid (state_Error m) && utf8_valid (state_ErrorType m)
  | ResultDNS _ | Data _ | Ping _ => true
  end.

Lemma is_uint32_spec (z : Z) : is_uint32 z = true ↔ (0 ≤ z < 2 ^ 32)%Z.
Proof. unfold is_uint32. rewrite andb_true_iff, Z.leb_le, Z.ltb_lt. done. Qed.
