(* ===== verification/CodecS1.v ===== *)
(** Package [message/codec/s1]: the framing of messages on a transport
    (src/message/codec/s1/reader.go, writer.go), over any [io.Reader] and any
    [io.Writer]. *)
From S2P Require Import Prelude GoIO Strconv Json Message.

Module S1.
(** ** Reader *)
Section reader.
  Context {T : Type} `{Reader T}.

Definition ReadArrayHeader : M T Z :=
    h ← ReadFull 5;
    if decide (h !! 0 = Some Byte.x61) then mret (get_be (drop 1 h))
    else throw (Errorf (lit "type is not array: %d") [get_be (take 1 h)]).

Definition ReadBytes : M T bytes :=
    h ← ReadFull 5;
    if decide (h !! 0 = Some Byte.x62) then
      size ← lift (make_slice (get_be (drop 1 h)));
      ReadFull size
    else throw (Errorf (lit "type is not bytes: %d") [get_be (take 1 h)]).

Definition ReadString : M T bytes :=
    h ← ReadFull 5;
    if decide (h !! 0 = Some Byte.x73) then
      size ← lift (make_slice (get_be (drop 1 h)));
      ReadFull size
    else throw (Errorf (lit "type is not bytes: %d") [get_be (take 1 h)]).

  (** [for i := 0; i < arrHeader.Size; i += 1 { ... r1.ReadBytes() ... }] *)
Fixpoint ReadBytesN (n : nat) : M T (list bytes) :=
    match n with
    | 0 => mret []
    | S n' => b ← ReadBytes; bs ← ReadBytesN n'; mret (b :: bs)
    end.

  (** The body of a [KindResultDNS] message. *)
Definition ReadResultDNS (id ack : Z) : M T Message :=
    size ← ReadArrayHeader;
    addrs ← ReadBytesN (Z.to_nat size);
    errMsg ← ReadString;
    mret (ResultDNS (mk_ResultDNS id ack addrs errMsg)).

  (** The body of a [KindData] message. *)
Definition ReadData (id ack : Z) : M T Message :=
    connId ← ReadString;
    body ← ReadBytes;
    mret (Data (mk_Data id ack connId body)).
End reader.

Definition known_kind (kind : Z) : bool :=
  bool_decide (kind ∈ [KindRequestDNS; KindResultDNS; KindRequestDial;
                       KindConnectionState; KindData; KindPingPong]).

Definition unknown_kind {A} (kind : Z) : outcome A := Err (Errorf (lit "unknown kind: %d") [kind]).

(** The second [switch kind] of [Reader.Read]: the message from its header
    fields and its body. *)
Definition decode_body (kind id ack : Z) (dat : bytes) : outcome Message :=
  if (kind =? KindRequestDNS)%Z then
    fs ← Unmarshal dat (RequestDNS_fields (mk_RequestDNS 0 [] []));
    let m := RequestDNS_of_fields fs in
    mret (RequestDNS (mk_RequestDNS id (rdns_Network m) (rdns_DomainName m)))
  else if (kind =? KindRequestDial)%Z then
    fs ← Unmarshal dat (RequestDial_fields (mk_RequestDial 0 [] [] []));
    let m := RequestDial_of_fields fs in
    mret (RequestDial (mk_RequestDial id (dial_Network m) (dial_Address m) (dial_ConnectionId m)))
  else if (kind =? KindConnectionState)%Z then
    fs ← Unmarshal dat (ConnectionState_fields (mk_ConnectionState 0 0 [] [] [] []));
    let m := ConnectionState_of_fields fs in
    mret (ConnectionState (mk_ConnectionState id ack (state_ConnectionId m) (state_State m)
                             (state_Error m) (state_ErrorType m)))
  else if (kind =? KindResultDNS)%Z then (ReadResultDNS id ack (Buf.mk_reader dat)).1
  else if (kind =? KindData)%Z then (ReadData id ack (Buf.mk_reader dat)).1
  else if (kind =? KindPingPong)%Z then mret (Ping (mk_Ping id ack))
  else unknown_kind kind.

(** [Reader.Read]. *)
Definition Read {T} `{Reader T} : M T Message :=
  header ← ReadFull 20;
  let kind := get_be (slice 0 1 header) in
  let id := get_be (slice 8 12 header) in
  let ack := get_be (slice 12 16 header) in
  let size := get_be (slice 16 20 header) in
  if known_kind kind then
    n ← lift (make_slice size);
    dat ← ReadFull n;
    lift (decode_body kind id ack dat)
  else lift (unknown_kind kind).

(** ** Writer *)
Section writer.
  Context {T : Type} `{Writer T}.

Definition total_length (chunks : list bytes) : nat :=
    foldl (λ total chunk, if decide (length chunk ≤ 0) then total else total + length chunk)
      0 chunks.

  (** [copy(chunkAll[i:], chunk); i += len(chunk)] for every chunk. *)
Definition copy_chunks (chunks : list bytes) (all : bytes) : bytes :=
    (foldl (λ '(all, i) chunk, (copy_at i chunk all, i + length chunk)) (all, 0) chunks).1.

Definition writeMany (chunks : list bytes) : M T Z :=
    if decide (length chunks ≤ 0) then mret 0%Z
    else write (copy_chunks chunks (make_bytes (total_length chunks))).

  (** A tag, a 32-bit length and the data, as [WriteBytes] and [WriteString]
      lay them out. *)
Definition tagged_chunk (tag : byte) (dat : bytes) : bytes :=
    let chunk := <[0:=tag]> (make_bytes (5 + length dat)) in
    let chunk := copy_at 1 (put_be 4 (uint32 (len dat))) chunk in
    copy_at 5 dat chunk.

Definition WriteBytes (dat : bytes) : M T Z := write (tagged_chunk Byte.x62 dat).

Definition WriteArrayHeader (size : Z) : M T Z :=
    write (copy_at 1 (put_be 4 (uint32 size)) (lit "a" ++ make_bytes 4)).

Definition WriteString (s : bytes) : M T Z := write (tagged_chunk Byte.x73 s).

Definition WriteInt32 (i : Z) : M T Z :=
    write (copy_at 1 (put_be 4 (uint32 i)) (<[0:=Byte.x69]> (make_bytes 5))).

Definition WriteInt64 (i : Z) : M T Z :=
    write (copy_at 1 (put_be 8 i) (<[0:=Byte.x49]> (make_bytes 9))).

Definition WriteBool (v : bool) : M T Z :=
    write (<[1:=if v then Byte.x79 else Byte.x6e]> (<[0:=Byte.x3d]> (make_bytes 2))).

Fixpoint WriteBytesAll (l : list bytes) : M T unit :=
    match l with
    | [] => mret tt
    | b :: l' => _ ← WriteBytes b; WriteBytesAll l'
    end.
End writer.

(** The body of a [KindResultDNS] message, built in a [bytes.Buffer]. *)
Definition ResultDNS_body (m1 : MessageResultDNS) : M Buf.buffer unit :=
  _ ← WriteArrayHeader (len (sdns_Addresses m1));
  _ ← WriteBytesAll (sdns_Addresses m1);
  _ ← WriteString (sdns_Error m1);
  mret tt.

(** The body of a [KindData] message and the total size written. *)
Definition Data_body (m1 : MessageData) : M Buf.buffer Z :=
  n1 ← WriteString (data_ConnectionId m1);
  n2 ← WriteBytes (data_Data m1);
  mret (n1 + n2)%Z.

(** kind(1) + reserved(7) + id(4) + ack(4), the length still zero. *)
Definition new_header (m : Message) : bytes :=
  let header := <[0:=byte_of (Kind m)]> (make_bytes 20) in
  let header := copy_at 8 (put_be 4 (MessageId m)) header in
  copy_at 12 (put_be 4 (AckMessageId m)) header.

(** [binary.BigEndian.PutUint32(header[16:], size)] *)
Definition put_size (size : Z) (header : bytes) : bytes :=
  copy_at 16 (put_be 4 (uint32 size)) header.

Definition json_fields (m : Message) : option (list field) :=
  match m with
  | RequestDNS m => Some (RequestDNS_fields m)
  | RequestDial m => Some (RequestDial_fields m)
  | ConnectionState m => Some (ConnectionState_fields m)
  | _ => None
  end.

(** [Writer.Write], over a transport and the system's randomness. *)
Definition Write {T} `{Writer T} (m : Message) : M (T * rng) Z :=
  let header := new_header m in
  match m with
  | RequestDNS _ | RequestDial _ | ConnectionState _ =>
      dat ← lift (from_option Marshal Panic (json_fields m));
      on_fst (writeMany [put_size (len dat) header; dat])
  | ResultDNS m1 =>
      match ResultDNS_body m1 (Buf.mk_buffer []) with
      | (Ok _, buf) =>
          let dat := Buf.buf_bytes buf in
          on_fst (writeMany [put_size (len dat) header; dat])
      | (Err e, _) => throw e
      | (Panic, _) => panic
      | (Hang, _) => hang
      end
  | Data m1 =>
      match Data_body m1 (Buf.mk_buffer []) with
      | (Ok total, buf) => on_fst (writeMany [put_size total header; Buf.buf_bytes buf])
      | (Err e, _) => throw e
      | (Panic, _) => panic
      | (Hang, _) => hang
      end
  | Ping _ =>
      buf ← on_snd (rand_read 8);
      on_fst (writeMany [put_size 8 header; buf])
  end.

(** ** Wire formats

    The 20-byte header and the body, and a tagged byte string, as they appear
    on the wire. *)
Definition frame (kind id ack : Z) (dat : bytes) : bytes :=
  byte_of kind :: make_bytes 7 ++ put_be 4 id ++ put_be 4 ack ++
  put_be 4 (uint32 (len dat)) ++ dat.

Definition tagged (tag : byte) (dat : bytes) : bytes :=
  tag :: put_be 4 (uint32 (len dat)) ++ dat.

(** The body [Writer.Write] sends for a message; a ping's is random. *)
Definition payload (m : Message) (g : rng) : bytes :=
  match m with
  | RequestDNS _ | RequestDial _ | ConnectionState _ =>
      match from_option Marshal Panic (json_fields m) with Ok dat => dat | _ => [] end
  | ResultDNS m1 =>
      lit "a" ++ put_be 4 (uint32 (len (sdns_Addresses m1))) ++
      concat (map (tagged Byte.x62) (sdns_Addresses m1)) ++ tagged Byte.x73 (sdns_Error m1)
  | Data m1 => tagged Byte.x73 (data_ConnectionId m1) ++ tagged Byte.x62 (data_Data m1)
  | Ping _ => map g (seq 0 8)
  end.

Definition wire (m : Message) (g : rng) : bytes :=
  frame (Kind m) (MessageId m) (AckMessageId m) (payload m g).

(** Everything the format must hold in 32 bits. *)
Definition sizes_ok (m : Message) (g : rng) : bool :=
  (len (payload m g) <? 2 ^ 32)%Z &&
  match m with
  | ResultDNS m1 =>
      (len (sdns_Addresses m1) <? 2 ^ 32)%Z &&
      forallb (λ a, (len a <? 2 ^ 32)%Z) (sdns_Addresses m1) && (len (sdns_Error m1) <? 2 ^ 32)%Z
  | Data m1 => (len (data_ConnectionId m1) <? 2 ^ 32)%Z && (len (data_Data m1) <? 2 ^ 32)%Z
  | _ => true
  end.

Lemma get_put_u32 (v : Z) : (0 ≤ v < 2 ^ 32)%Z → get_be (put_be 4 (uint32 v)) = v.
Proof. intros. rewrite uint32_small by done. apply get_be_put_small. cbn. lia. Qed.

Lemma make_slice_len {A} (l : list A) :
  (len l < 2 ^ 32)%Z → make_slice (len l) = Ok (length l).
Proof.
  intros. rewrite make_slice_ok; [by rewrite to_nat_len|].
  pose proof (len_nonneg l). unfold max_alloc. lia.
Qed.

Lemma length_frame (kind id ack : Z) (dat : bytes) :
  length (frame kind id ack dat) = 20 + length dat.
Proof. unfold frame. cbn [length]. len_solve. Qed.

Section reader_spec.
  Context {T : Type} `{ReaderLaws T}.

  (** What [ReadBytes] and [ReadString] share. *)
Definition read_tagged (tag : byte) : M T bytes :=
    h ← ReadFull 5;
    if decide (h !! 0 = Some tag) then
      size ← lift (make_slice (get_be (drop 1 h)));
      ReadFull size
    else throw (Errorf (lit "type is not bytes: %d") [get_be (take 1 h)]).

Lemma read_tagged_ok (tag : byte) (d rest : bytes) (s : T) :
    delivers s (tagged tag d ++ rest) → (len d < 2 ^ 32)%Z →
    ∃ s', read_tagged tag s = (Ok d, s') ∧ delivers s' rest.
  Proof.
    intros Hd Hl. unfold tagged in Hd.
    replace ((tag :: put_be 4 (uint32 (len d)) ++ d) ++ rest)
      with ((tag :: put_be 4 (uint32 (len d))) ++ d ++ rest) in Hd
      by (by rewrite (app_comm_cons _ _ tag), <- app_assoc).
    destruct (ReadFull_app 5 s _ _ Hd eq_refl) as (s1 & H1 & Hd1 & _).
    destruct (ReadFull_app (length d) s1 d rest Hd1 eq_refl) as (s2 & H2 & Hd2 & _).
    exists s2. split; [|done]. unfold read_tagged. run H1.
    rewrite decide_True by done. cbn [drop]. pose proof (len_nonneg d).
    rewrite drop_0, get_put_u32 by lia. unfold mbind at 1, M_bind, lift.
    rewrite make_slice_len by done. exact H2.
  Qed.

Lemma ReadBytesN_ok (l : list bytes) (rest : bytes) (s : T) :
    delivers s (concat (map (tagged Byte.x62) l) ++ rest) →
    forallb (λ a, (len a <? 2 ^ 32)%Z) l = true →
    ∃ s', ReadBytesN (length l) s = (Ok l, s') ∧ delivers s' rest.
  Proof.
    revert s. induction l as [|a l IH]; intros s Hd Hl; [by exists s|].
    cbn [forallb map concat length ReadBytesN] in *. apply andb_true_iff in Hl as [Ha Hl].
    apply Z.ltb_lt in Ha. rewrite <- app_assoc in Hd.
    destruct (read_tagged_ok _ _ _ _ Hd Ha) as (s1 & H1 & Hd1).
    destruct (IH _ Hd1 Hl) as (s2 & H2 & Hd2).
    exists s2. split; [|done]. change ReadBytes with (read_tagged Byte.x62). by run H1; run H2.
  Qed.

Lemma ReadResultDNS_ok (id ack : Z) (addrs : list bytes) (errMsg rest : bytes) (s : T) :
    delivers s (lit "a" ++ put_be 4 (uint32 (len addrs)) ++
                concat (map (tagged Byte.x62) addrs) ++ tagged Byte.x73 errMsg ++ rest) →
    (len addrs < 2 ^ 32)%Z → forallb (λ a, (len a <? 2 ^ 32)%Z) addrs = true →
    (len errMsg < 2 ^ 32)%Z →
    ∃ s', ReadResultDNS id ack s = (Ok (ResultDNS (mk_ResultDNS id ack addrs errMsg)), s')
          ∧ delivers s' rest.
  Proof.
    intros Hd Hn Ha He. rewrite app_assoc in Hd.
    destruct (ReadFull_app 5 s _ _ Hd eq_refl) as (s1 & H1 & Hd1 & _).
    destruct (ReadBytesN_ok _ _ _ Hd1 Ha) as (s2 & H2 & Hd2).
    destruct (read_tagged_ok _ _ _ _ Hd2 He) as (s3 & H3 & Hd3).
    exists s3. split; [|done]. unfold ReadResultDNS.
    assert (ReadArrayHeader s = (Ok (len addrs), s1)) as Hah.
    { unfold ReadArrayHeader. run H1. rewrite decide_True by done.
      change (drop 1 _) with (put_be 4 (uint32 (len addrs))). pose proof (len_nonneg addrs).
      by rewrite get_put_u32 by lia. }
    run Hah. rewrite to_nat_len. run H2. change ReadString with (read_tagged Byte.x73). by run H3.
  Qed.

Lemma ReadData_ok (id ack : Z) (connId body rest : bytes) (s : T) :
    delivers s (tagged Byte.x73 connId ++ tagged Byte.x62 body ++ rest) →
    (len connId < 2 ^ 32)%Z → (len body < 2 ^ 32)%Z →
    ∃ s', ReadData id ack s = (Ok (Data (mk_Data id ack connId body)), s') ∧ delivers s' rest.
  Proof.
    intros Hd Hc Hb.
    destruct (read_tagged_ok _ _ _ _ Hd Hc) as (s1 & H1 & Hd1).
    destruct (read_tagged_ok _ _ _ _ Hd1 Hb) as (s2 & H2 & Hd2).
    exists s2. split; [|done]. unfold ReadData.
    change ReadBytes with (read_tagged Byte.x62).
    change ReadString with (read_tagged Byte.x73). by run H1; run H2.
  Qed.

  (** [Reader.Read] on a frame: the body is decoded under the header's fields. *)
Lemma Read_frame (kind id ack : Z) (dat rest : bytes) (s : T) :
    delivers s (frame kind id ack dat ++ rest) → known_kind kind = true →
    (0 ≤ id < 2 ^ 32)%Z → (0 ≤ ack < 2 ^ 32)%Z → (len dat < 2 ^ 32)%Z →
    ∃ s', Read s = (decode_body kind id ack dat, s') ∧ delivers s' rest.
  Proof.
    intros Hd Hk Hid Hack Hl. unfold frame in Hd.
    set (hdr := byte_of kind :: make_bytes 7 ++ put_be 4 id ++ put_be 4 ack ++
                put_be 4 (uint32 (len dat))).
    replace (_ ++ rest) with (hdr ++ dat ++ rest) in Hd
      by (unfold hdr; rewrite !(app_comm_cons _ _ (byte_of kind)), <- !app_assoc; done).
    destruct (ReadFull_app 20 s _ _ Hd eq_refl) as (s1 & H1 & Hd1 & _).
    destruct (ReadFull_app (length dat) s1 dat rest Hd1 eq_refl) as (s2 & H2 & Hd2 & _).
    exists s2. split; [|done]. unfold Read. run H1.
    change (slice 8 12 hdr) with (put_be 4 id). change (slice 12 16 hdr) with (put_be 4 ack).
    change (slice 16 20 hdr) with (put_be 4 (uint32 (len dat))).
    change (slice 0 1 hdr) with [byte_of kind].
    pose proof (len_nonneg dat). rewrite get_put_u32 by lia.
    rewrite !(get_be_put_small 4) by (cbn; lia).
    assert (get_be [byte_of kind] = kind) as ->.
    { unfold known_kind in Hk. apply bool_decide_eq_true in Hk.
      repeat (apply elem_of_cons in Hk as [-> | Hk]; [reflexivity|]).
      by apply elem_of_nil in Hk. }
    cbv zeta. rewrite Hk. unfold mbind at 1, M_bind at 1, lift at 1.
    rewrite make_slice_len by done. by run H2.
  Qed.
End reader_spec.

Lemma tagged_chunk_eq (tag : byte) (dat : bytes) : tagged_chunk tag dat = tagged tag dat.
Proof.
  unfold tagged_chunk, tagged. set (n := put_be 4 (uint32 (len dat))).
  assert (length n = 4) as Hn by apply length_put_be.
  change (<[0:=tag]> (make_bytes (5 + length dat)))
    with ([tag] ++ (make_bytes 4 ++ make_bytes (length dat))).
  rewrite (copy_at_app [tag]) by done.
  rewrite (copy_at_fit 0) by (rewrite Hn; len_solve). rewrite take_0, Hn.
  change (drop (0 + 4) (make_bytes 4 ++ make_bytes (length dat))) with (make_bytes (length dat)).
  rewrite !app_assoc, copy_at_app by (rewrite !length_app, Hn; done).
  rewrite copy_at_all by len_solve. done.
Qed.

Lemma put_size_header (m : Message) (dat : bytes) :
  put_size (len dat) (new_header m) ++ dat
  = frame (Kind m) (MessageId m) (AckMessageId m) dat.
Proof. reflexivity. Qed.

Section writer_spec.
  Context {W : Type} `{WriterLaws W}.

Lemma writeMany_two (a b : bytes) : a ≠ [] → writeMany [a; b] = write (a ++ b).
  Proof.
    intros Ha. unfold writeMany. rewrite decide_False by (cbn; lia). f_equal.
    unfold copy_chunks, total_length. cbn [foldl fst].
    rewrite (decide_False (P := length a ≤ 0)) by (destruct a; cbn; [done|lia]).
    rewrite Nat.add_0_l. apply copy_two. case_decide; [|done]. lia.
  Qed.

Lemma write_frame (m : Message) (dat : bytes) (w : W) (g : rng) :
    write_pre w (20 + length dat) →
    ∃ n w', on_fst (writeMany [put_size (len dat) (new_header m); dat]) (w, g)
              = (Ok n, (w', g)) ∧
            emitted w w' (frame (Kind m) (MessageId m) (AckMessageId m) dat).
  Proof.
    intros Hp. rewrite writeMany_two by done. rewrite put_size_header.
    destruct (write_law w (frame (Kind m) (MessageId m) (AckMessageId m) dat))
      as (n & w' & Hw & He); [by rewrite length_frame|].
    exists n, w'. split; [|done]. unfold on_fst. cbn [fst snd]. by rewrite Hw.
  Qed.
End writer_spec.

Lemma WriteBytesAll_buffer (l : list bytes) (acc : bytes) :
  WriteBytesAll l (Buf.mk_buffer acc)
  = (Ok tt, Buf.mk_buffer (acc ++ concat (map (tagged Byte.x62) l))).
Proof.
  revert acc. induction l as [|a l IH]; intros acc; cbn [map concat WriteBytesAll].
  - by rewrite app_nil_r.
  - unfold mbind, M_bind, WriteBytes. cbn [write Buf.buffer_Writer Buf.Write Buf.buf_bytes].
    rewrite tagged_chunk_eq, IH. by rewrite <- app_assoc.
Qed.

Lemma ResultDNS_body_ok (m1 : MessageResultDNS) (g : rng) :
  ResultDNS_body m1 (Buf.mk_buffer []) = (Ok tt, Buf.mk_buffer (payload (ResultDNS m1) g)).
Proof.
  unfold ResultDNS_body, WriteArrayHeader, WriteString, mbind, M_bind.
  cbn [write Buf.buffer_Writer Buf.Write Buf.buf_bytes app].
  rewrite WriteBytesAll_buffer. unfold mret, M_ret. cbn [Buf.buf_bytes payload].
  rewrite tagged_chunk_eq. do 2 f_equal.
Qed.

Lemma Data_body_ok (m1 : MessageData) (g : rng) :
  Data_body m1 (Buf.mk_buffer [])
  = (Ok (len (payload (Data m1) g)), Buf.mk_buffer (payload (Data m1) g)).
Proof.
  unfold Data_body, WriteString, WriteBytes, mbind, M_bind.
  cbn [write Buf.buffer_Writer Buf.Write Buf.buf_bytes app].
  rewrite !tagged_chunk_eq. unfold mret, M_ret. do 2 f_equal.
  cbn [payload]. unfold len. rewrite length_app. lia.
Qed.

(** [Writer.Write] emits exactly the message's wire format, in one write. *)
Lemma Write_wire {W} `{WriterLaws W} (m : Message) (w : W) (g : rng) :
  write_pre w (20 + length (payload m g)) →
  ∃ n w' g', Write m (w, g) = (Ok n, (w', g')) ∧ emitted w w' (wire m g).
Proof.
  intros Hp. unfold wire.
  destruct m as [m|m1|m|m|m1|m]; cbn [Write].
  - destruct (write_frame (RequestDNS m) _ w g Hp) as (n & w' & Hw & He). eauto.
  - rewrite (ResultDNS_body_ok m1 g). cbn [Buf.buf_bytes].
    destruct (write_frame (ResultDNS m1) _ w g Hp) as (n & w' & Hw & He). eauto.
  - destruct (write_frame (RequestDial m) _ w g Hp) as (n & w' & Hw & He). eauto.
  - destruct (write_frame (ConnectionState m) _ w g Hp) as (n & w' & Hw & He). eauto.
  - rewrite (Data_body_ok m1 g). cbn [Buf.buf_bytes].
    destruct (write_frame (Data m1) _ w g Hp) as (n & w' & Hw & He). eauto.
  - change 8%Z with (len (map g (seq 0 8))).
    destruct (write_frame (Ping m) _ w (λ i, g (8 + i)) Hp) as (n & w' & Hw & He). eauto.
Qed.

(** ** Decoding what was encoded *)
Lemma message_ok_ids (m : Message) :
  message_ok m = true → (0 ≤ MessageId m < 2 ^ 32)%Z ∧ (0 ≤ AckMessageId m < 2 ^ 32)%Z.
Proof.
  unfold message_ok. rewrite !andb_true_iff, !is_uint32_spec. tauto.
Qed.

(** A struct of plain field names that travels as JSON comes back whole. *)
Lemma json_roundtrip (fs zs : list field) :
  zs = map zero_field fs → forallb field_ok fs = true → NoDup (map f_name fs) →
  ∃ dat, Marshal fs = Ok dat ∧ Unmarshal dat zs = Ok fs.
Proof. intros ->. apply Unmarshal_Marshal. Qed.

Ltac json_case fs zs :=
  destruct (json_roundtrip fs zs) as (dat & Hmar & Hun);
  [ reflexivity
  | cbn [forallb]; unfold field_ok; cbn; unfold is_uint32 in *; rewrite ?andb_true_r;
    rewrite ?andb_true_iff in *; tauto
  | refine (bool_decide_unpack _ _); vm_compute; exact I
  | cbn [json_fields from_option]; rewrite Hmar; cbn;
    rewrite Hun; reflexivity ].

Lemma decode_payload (m : Message) (g : rng) :
  message_ok m = true → sizes_ok m g = true →
  decode_body (Kind m) (MessageId m) (AckMessageId m) (payload m g) = Ok m.
Proof.
  intros Hok Hs. unfold message_ok in Hok. unfold sizes_ok in Hs.
  destruct m as [[id net dn]|[id ack addrs e]|[id net addr cid]|[id ack cid st e et]|[id ack cid d]|[id ack]];
    cbn [Kind MessageId AckMessageId payload] in *.
  - json_case (RequestDNS_fields (mk_RequestDNS id net dn))
              (RequestDNS_fields (mk_RequestDNS 0 [] [])).
  - rewrite !andb_true_iff, !Z.ltb_lt in Hs. destruct Hs as (_ & (Hn & Ha) & He).
    cbn in Hn, Ha, He.
    destruct (ReadResultDNS_ok id ack addrs e [] (Buf.mk_reader (payload (ResultDNS
      (mk_ResultDNS id ack addrs e)) g))) as (s' & Hr & _); [|done..|].
    + cbn [delivers Buf.reader_laws Buf.rest payload]. by rewrite app_nil_r.
    + unfold decode_body. cbn -[ReadResultDNS]. cbn [payload] in Hr.
      change ((ReadResultDNS id ack (Buf.mk_reader (payload (ResultDNS
        (mk_ResultDNS id ack addrs e)) g))).1 = Ok (ResultDNS (mk_ResultDNS id ack addrs e))).
      cbn [payload]. by rewrite Hr.
  - json_case (RequestDial_fields (mk_RequestDial id net addr cid))
              (RequestDial_fields (mk_RequestDial 0 [] [] [])).
  - json_case (ConnectionState_fields (mk_ConnectionState id ack cid st e et))
              (ConnectionState_fields (mk_ConnectionState 0 0 [] [] [] [])).
  - rewrite !andb_true_iff, !Z.ltb_lt in Hs. destruct Hs as (_ & Hc & Hd). cbn in Hc, Hd.
    destruct (ReadData_ok id ack cid d [] (Buf.mk_reader
      (tagged Byte.x73 cid ++ tagged Byte.x62 d))) as (s' & Hr & _); [|done..|].
    + cbn [delivers Buf.reader_laws Buf.rest]. by rewrite app_nil_r.
    + change ((ReadData id ack (Buf.mk_reader
        (tagged Byte.x73 cid ++ tagged Byte.x62 d))).1 = Ok (Data (mk_Data id ack cid d))).
      by rewrite Hr.
  - reflexivity.
Qed.

Lemma known_Kind (m : Message) : known_kind (Kind m) = true.
Proof. by destruct m. Qed.

(** [Reader.Read] recovers any well-formed message from its wire format. *)
Lemma Read_wire {R} `{ReaderLaws R} (m : Message) (g : rng) (r : R) (rest : bytes) :
  message_ok m = true → sizes_ok m g = true → delivers r (wire m g ++ rest) →
  ∃ r', Read r = (Ok m, r') ∧ delivers r' rest.
Proof.
  intros Hok Hs Hd. destruct (message_ok_ids m Hok) as [Hid Hack].
  destruct (Read_frame _ _ _ _ _ r Hd (known_Kind m) Hid Hack) as (r' & Hr & Hd').
  { unfold sizes_ok in Hs. apply andb_true_iff in Hs as [Hs _]. by apply Z.ltb_lt. }
  exists r'. rewrite Hr, decode_payload by done. done.
Qed.

(** ** Totality

    On any input the parsers return a value or an error. *)
Section reader_safety.
  Context {R : Type} `{ReaderLaws R}.

Lemma safe_read_tagged (tag : byte) : safe (read_tagged tag).
  Proof.
    apply safe_ReadFull_bind. intros h Hh. case_decide; [|apply safe_throw].
    apply safe_make_slice; [len_solve|]. apply safe_ReadFull.
  Qed.

Lemma safe_ReadArrayHeader : safe ReadArrayHeader.
  Proof.
    apply safe_ReadFull_bind. intros h Hh. case_decide; [apply safe_ret | apply safe_throw].
  Qed.

Lemma safe_ReadBytesN (n : nat) : safe (ReadBytesN n).
  Proof.
    induction n as [|n IH]; [apply safe_ret|]. cbn [ReadBytesN].
    apply safe_bind; [apply (safe_read_tagged Byte.x62)|]. intros b.
    apply safe_bind; [done|]. intros. apply safe_ret.
  Qed.

Lemma safe_ReadResultDNS (id ack : Z) : safe (ReadResultDNS id ack).
  Proof.
    apply safe_bind; [apply safe_ReadArrayHeader|]. intros n.
    apply safe_bind; [apply safe_ReadBytesN|]. intros l.
    apply safe_bind; [apply (safe_read_tagged Byte.x73)|]. intros. apply safe_ret.
  Qed.

Lemma safe_ReadData (id ack : Z) : safe (ReadData id ack).
  Proof.
    apply safe_bind; [apply (safe_read_tagged Byte.x73)|]. intros c.
    apply safe_bind; [apply (safe_read_tagged Byte.x62)|]. intros. apply safe_ret.
  Qed.
End reader_safety.

(** Whatever the connection's reads keep, reading a message keeps; the same of
    writes. *)
Section moves.
Context {T : Type} (Rel : T → T → Prop) `{!PreOrder Rel}.

Lemma moves_Read `{Reader T} : (∀ n, moves Rel (read n)) → moves Rel (Read (T := T)).
Proof.
  intros Hr. assert (Hfull : ∀ n, moves Rel (ReadFull n)) by (intros n; by apply moves_ReadFull).
  unfold Read. solve_moves.
Qed.

Definition same_conn (s s' : T * rng) : Prop := Rel s.1 s'.1.

#[local] Instance same_conn_preorder : PreOrder same_conn.
Proof. split; [intros s; unfold same_conn; reflexivity|]. intros s1 s2 s3 E1 E2. unfold same_conn in *. by etrans. Qed.

Lemma moves_Write `{Writer T} (m : Message) : (∀ d, moves Rel (write d)) → moves same_conn (Write m).
Proof.
  intros Hw.
  assert (Hmany : ∀ cs, moves same_conn (on_fst (writeMany cs))).
  { intros cs. apply moves_fst. intros g s. unfold writeMany. case_decide; [unfold same_conn; reflexivity|]. apply Hw. }
  assert (Hdraw : ∀ n, moves same_conn (on_snd (rand_read n))).
  { intros n. apply moves_snd. intros. unfold same_conn. reflexivity. }
  unfold Write. solve_moves.
Qed.
End moves.

(** Reading a message sends nothing, and writing one leaves what will be read
    as it is. *)
Lemma silent_Read {T} `{TwoWay T} : moves sends_nothing (Read (T := T)).
Proof. apply moves_Read; [apply _|]. apply read_quiet. Qed.

Lemma Write_quiet {T} `{TwoWay T} (m : Message) : moves (same_conn same_input) (Write m).
Proof. apply moves_Write; [apply _|]. apply write_quiet. Qed.

Lemma safe_result {A} (m : M Buf.reader A) (dat : bytes) :
  safe m → returns (m (Buf.mk_reader dat)).1.
Proof.
  intros Hm. specialize (Hm (Buf.mk_reader dat) dat eq_refl). unfold safe_at in Hm.
  by destruct (m (Buf.mk_reader dat)) as [[?|?| |] ?].
Qed.

Lemma decode_body_returns (kind id ack : Z) (dat : bytes) :
  returns (decode_body kind id ack dat).
Proof.
  unfold decode_body.
  destruct (kind =? _)%Z; [apply returns_bind; [apply Unmarshal_returns | done]|].
  destruct (kind =? _)%Z; [apply returns_bind; [apply Unmarshal_returns | done]|].
  destruct (kind =? _)%Z; [apply returns_bind; [apply Unmarshal_returns | done]|].
  destruct (kind =? _)%Z; [apply safe_result, safe_ReadResultDNS|].
  destruct (kind =? _)%Z; [apply safe_result, safe_ReadData|].
  destruct (kind =? _)%Z; done.
Qed.

Section read_safety.
Context {R : Type} `{ReaderLaws R}.

Lemma safe_Read : safe (Read (T := R)).
Proof.
  apply safe_bind; [apply safe_ReadFull|]. intros h. cbv zeta.
  destruct (known_kind _); [|by apply safe_lift].
  apply safe_make_slice; [unfold slice; len_solve|]. intros n.
  apply safe_bind; [apply safe_ReadFull|]. intros. apply safe_lift, decode_body_returns.
Qed.

(** Every message takes at least one read. *)
Lemma Read_budget (r r' : R) (bs : bytes) (m : Message) :
  delivers r bs → Read r = (Ok m, r') → budget r' < budget r ∧ ∃ bs', delivers r' bs'.
Proof.
  intros Hd E. unfold Read in E. apply bind_ok_inv in E as (h & r1 & E1 & E).
  destruct (ReadFull_budget _ _ _ _ _ Hd E1) as (bs1 & Hd1 & _ & Hb1). specialize (Hb1 ltac:(lia)).
  cbv zeta in E. destruct (known_kind _); [|done].
  apply bind_ok_inv in E as (n & r2 & E2 & E). injection E2 as _ <-.
  apply bind_ok_inv in E as (dat & r3 & E3 & E).
  destruct (ReadFull_budget _ _ _ _ _ Hd1 E3) as (bs3 & Hd3 & Hb3 & _).
  injection E as _ <-. split; [lia|eauto].
Qed.
End read_safety.

Lemma get_kind_header (kind id ack : Z) (dat : bytes) :
  known_kind kind = true →
  get_be (slice 0 1 (take 20 (frame kind id ack dat))) = kind ∧
  slice 8 12 (take 20 (frame kind id ack dat)) = put_be 4 id ∧
  slice 12 16 (take 20 (frame kind id ack dat)) = put_be 4 ack ∧
  slice 16 20 (take 20 (frame kind id ack dat)) = put_be 4 (uint32 (len dat)).
Proof.
  intros Hk. repeat split. change (slice 0 1 _) with [byte_of kind].
  unfold known_kind in Hk. apply bool_decide_eq_true in Hk.
  repeat (apply elem_of_cons in Hk as [-> | Hk]; [reflexivity|]).
  by apply elem_of_nil in Hk.
Qed.

(** ** Properties *)

(** C1: the codec is a round trip: whatever writer and reader implementations
    lie underneath, [Write] emits the wire format of a well-formed message,
    and [Read] on a stream that starts with it returns that same message (ids,
    strings, addresses and data included) and leaves exactly the rest. *)
Theorem s1_roundtrip {W R} `{WriterLaws W} `{ReaderLaws R} (m : Message) (w : W) (g : rng)
    (r : R) (rest : bytes) :
  message_ok m = true → sizes_ok m g = true →
  write_pre w (20 + length (payload m g)) → delivers r (wire m g ++ rest) →
  (∃ n w' g', Write m (w, g) = (Ok n, (w', g')) ∧ emitted w w' (wire m g)) ∧
  (∃ r', Read r = (Ok m, r') ∧ delivers r' rest).
Proof.
  intros Hok Hs Hp Hd. split; [by apply Write_wire | by eapply Read_wire].
Qed.

Definition sample_state : Message :=
  ConnectionState (mk_ConnectionState 7 9 (lit "c1") (lit "error") (Byte.x22 :: lit "a<b & \n") []).

Definition sample_rng : rng := λ i, byte_of (Z.of_nat i * 37 + 11).

Lemma s1_roundtrip_witness :
  let w := wire sample_state sample_rng in
  (∃ n w' g', Write sample_state (Buf.mk_buffer [], sample_rng) = (Ok n, (w', g')) ∧
              emitted (Buf.mk_buffer []) w' w) ∧
  (∃ r', Read (Conn.mk_conn [take 3 w; []; drop 3 w ++ lit "xy"]) = (Ok sample_state, r') ∧
         delivers r' (lit "xy")).
Proof.
  apply (s1_roundtrip sample_state (Buf.mk_buffer []) sample_rng); vm_compute; done || exact I.
Defined.

(** C9: the codec's reader is total: on any finite input, well-formed or not,
    [Read] returns a message or an error and leaves a suffix of the input; it
    never panics (no slice or allocation out of range) and never loops. *)
Theorem s1_read_total {R} `{ReaderLaws R} (r : R) (bs : bytes) :
  delivers r bs →
  ∃ o r' bs', Read r = (o, r') ∧ returns o ∧ delivers r' bs' ∧ bs' `suffix_of` bs.
Proof.
  intros Hd. pose proof safe_Read as Hs.
  specialize (Hs r bs Hd). unfold safe_at in Hs.
  destruct (Read r) as [[?|?| |] r']; try done; destruct Hs as (bs' & Hd' & Hs);
    eexists _, r', bs'; (split; [reflexivity|]); done.
Qed.

Lemma s1_read_total_witness :
  ∃ o r' bs', Read (Conn.mk_conn [lit "GET / HTTP/1.1"; lit "xxxxxxxxxxxxxxxxxx"]) = (o, r') ∧
    returns o ∧ delivers r' bs' ∧ bs' `suffix_of` lit "GET / HTTP/1.1xxxxxxxxxxxxxxxxxx".
Proof. apply s1_read_total. reflexivity. Defined.

(** A frame cut short is never taken for a message: reading any proper
    prefix of a message's wire format fails, with [io.EOF] when the cut is at
    the start or right after the header and [io.ErrUnexpectedEOF] anywhere else. *)
Theorem s1_read_truncated {R} `{ReaderLaws R} (m : Message) (g : rng) (r : R) (pre suf : bytes) :
  message_ok m = true → sizes_ok m g = true →
  wire m g = pre ++ suf → suf ≠ [] → delivers r pre →
  ∃ r', Read r = (Err (if decide (length pre = 0 ∨ length pre = 20)
                       then EOF else ErrUnexpectedEOF), r').
Proof.
  intros Hok Hs Hw Hne Hd. unfold wire in Hw.
  pose proof (length_frame (Kind m) (MessageId m) (AckMessageId m) (payload m g)) as Hlen.
  rewrite Hw, length_app in Hlen. assert (0 < length suf) by (destruct suf; cbn; [done|lia]).
  unfold sizes_ok in Hs. apply andb_true_iff in Hs as [Hs _]. apply Z.ltb_lt in Hs.
  destruct (decide (length pre < 20)) as [Hsh|Hsh].
  - destruct (ReadFull_short 20 r pre Hd Hsh) as (r' & Hr & _). exists r'.
    unfold Read. run Hr. do 3 f_equal. apply decide_ext. rewrite <- length_zero_iff_nil. lia.
  - destruct (ReadFull_ok 20 r pre Hd) as (r1 & Hr1 & Hd1 & _); [lia|].
    destruct (ReadFull_short (length (payload m g)) r1 _ Hd1) as (r2 & Hr2 & _);
      [rewrite length_drop; lia|].
    destruct (get_kind_header (Kind m) (MessageId m) (AckMessageId m) (payload m g)
                (known_Kind m)) as (E0 & E1 & E2 & E3).
    rewrite Hw, take_app_le in E0, E1, E2, E3 by lia.
    exists r2. unfold Read. run Hr1. cbv zeta. rewrite E0, E1, E2, E3, known_Kind.
    pose proof (len_nonneg (payload m g)). rewrite get_put_u32 by lia.
    unfold mbind at 1, M_bind at 1, lift at 1. rewrite make_slice_len by done. run Hr2.
    do 3 f_equal. apply decide_ext. rewrite <- length_zero_iff_nil, length_drop. lia.
Qed.

Lemma s1_read_truncated_witness :
  let w := wire sample_state sample_rng in
  ∃ r', Read (Conn.mk_conn [take 25 w]) = (Err ErrUnexpectedEOF, r').
Proof.
  apply (s1_read_truncated sample_state sample_rng _ (take 25 (wire sample_state sample_rng))
           (drop 25 (wire sample_state sample_rng))); vm_compute; done.
Defined.

(** A frame of a kind the protocol does not define is refused after its
    20-byte header, whatever its declared length; nothing of its body is read
    or allocated. *)
Theorem s1_read_unknown_kind {R} `{ReaderLaws R} (r : R) (b : byte) (fields rest : bytes) :
  known_kind (byte_val b) = false → length fields = 19 →
  delivers r (b :: fields ++ rest) →
  ∃ r', Read r = (Err (Errorf (lit "unknown kind: %d") [byte_val b]), r') ∧ delivers r' rest.
Proof.
  intros Hk Hl Hd. rewrite app_comm_cons in Hd.
  destruct (ReadFull_app 20 r _ _ Hd ltac:(cbn; lia)) as (r' & Hr & Hd' & _).
  exists r'. split; [|done]. unfold Read. run Hr. cbv zeta.
  assert (get_be (slice 0 1 (b :: fields)) = byte_val b) as -> by reflexivity.
  by rewrite Hk.
Qed.

Lemma s1_read_unknown_kind_witness :
  ∃ r', Read (Conn.mk_conn [lit "GET / HTTP/1.1..Host: x"])
        = (Err (Errorf (lit "unknown kind: %d") [71%Z]), r') ∧ delivers r' (lit ": x").
Proof.
  apply (s1_read_unknown_kind _ Byte.x47 (lit "ET / HTTP/1.1..Host")); reflexivity.
Defined.
End S1.
