(* ===== verification/Aes.v ===== *)
(** The parts of [crypto/aes] and [crypto/cipher] that the framers call: the
    AES block cipher for the three key sizes (FIPS 197), [aes.NewCipher], and
    the CFB mode streams of [cipher.NewCFBEncrypter] and
    [cipher.NewCFBDecrypter]. *)
From S2P Require Import Prelude.

Definition BlockSize : nat := 16.

(** ** Arithmetic in GF(2^8) *)
Definition xtime (b : byte) : byte :=
  let v := (2 * byte_val b)%Z in
  byte_of (if (v <? 256)%Z then v else Z.lxor v 283).

Fixpoint gf_mul_bits (fuel : nat) (k : Z) (a : byte) : byte :=
  match fuel with
  | 0 => Byte.x00
  | S fuel' =>
      let r := gf_mul_bits fuel' (k / 2) (xtime a) in
      if (k mod 2 =? 1)%Z then byte_xor a r else r
  end.

Definition gf_mul (a b : byte) : byte := gf_mul_bits 8 (byte_val b) a.

(** [a^254], the inverse of [a] (0 for 0). *)
Definition gf_inv (a : byte) : byte :=
  let a2 := gf_mul a a in let a3 := gf_mul a2 a in let a6 := gf_mul a3 a3 in
  let a12 := gf_mul a6 a6 in let a15 := gf_mul a12 a3 in let a30 := gf_mul a15 a15 in
  let a60 := gf_mul a30 a30 in let a120 := gf_mul a60 a60 in
  let a126 := gf_mul a120 a6 in let a127 := gf_mul a126 a in gf_mul a127 a127.

Definition rotl8 (v n : Z) : Z := ((v * 2 ^ n) mod 256 + v / 2 ^ (8 - n))%Z.

Definition sbox_entry (b : byte) : byte :=
  let v := byte_val (gf_inv b) in
  byte_of (Z.lxor 99 (Z.lxor v (Z.lxor (rotl8 v 1) (Z.lxor (rotl8 v 2)
             (Z.lxor (rotl8 v 3) (rotl8 v 4)))))).

Definition sbox_table : bytes :=
  Eval vm_compute in map (λ i, sbox_entry (byte_of (Z.of_nat i))) (seq 0 256).

Definition nth_byte (l : bytes) (i : nat) : byte := nth i l Byte.x00.

Definition sbox (b : byte) : byte := nth_byte sbox_table (N.to_nat (Byte.to_N b)).

(** ** The cipher; a state is the sixteen bytes in input order (by columns) *)
Definition SubBytes (s : bytes) : bytes := map sbox s.

Definition ShiftRows (s : bytes) : bytes :=
  map (nth_byte s) [0; 5; 10; 15; 4; 9; 14; 3; 8; 13; 2; 7; 12; 1; 6; 11].

Definition mix_column (a b c d : byte) : bytes :=
  let x2 := xtime in
  let x3 e := byte_xor (xtime e) e in
  [ byte_xor (byte_xor (x2 a) (x3 b)) (byte_xor c d);
    byte_xor (byte_xor a (x2 b)) (byte_xor (x3 c) d);
    byte_xor (byte_xor a b) (byte_xor (x2 c) (x3 d));
    byte_xor (byte_xor (x3 a) b) (byte_xor c (x2 d)) ].

Definition MixColumns (s : bytes) : bytes :=
  flat_map (λ c, mix_column (nth_byte s (4 * c)) (nth_byte s (4 * c + 1))
                            (nth_byte s (4 * c + 2)) (nth_byte s (4 * c + 3))) (seq 0 4).

Definition AddRoundKey (k s : bytes) : bytes :=
  map (λ i, byte_xor (nth_byte s i) (nth_byte k i)) (seq 0 16).

(** Key schedule: the words of the expanded key, concatenated. *)
Definition sub_word (w : bytes) : bytes := map sbox w.
Definition rot_word (w : bytes) : bytes := drop 1 w ++ take 1 w.
Definition xor_word (a b : bytes) : bytes := zip_with byte_xor a b.

Fixpoint rcon (n : nat) : byte :=
  match n with 0 | 1 => Byte.x01 | S n' => xtime (rcon n') end.

Definition word (w : list bytes) (i : nat) : bytes := nth i w [].

Definition next_word (nk i : nat) (w : list bytes) : bytes :=
  let temp := word w (i - 1) in
  let temp :=
    if decide (i `mod` nk = 0) then
      xor_word (sub_word (rot_word temp)) [rcon (i `div` nk); Byte.x00; Byte.x00; Byte.x00]
    else if decide (6 < nk ∧ i `mod` nk = 4) then sub_word temp else temp in
  xor_word (word w (i - nk)) temp.

Fixpoint expand (nk n i : nat) (w : list bytes) : list bytes :=
  match n with
  | 0 => w
  | S n' => expand nk n' (S i) (w ++ [next_word nk i w])
  end.

Definition key_words (key : bytes) : list bytes :=
  let nk := length key `div` 4 in
  expand nk (4 * (nk + 7) - nk) nk (map (λ i, slice (4 * i) (4 * i + 4) key) (seq 0 nk)).

Definition round_key (w : list bytes) (r : nat) : bytes :=
  concat (map (word w) (seq (4 * r) 4)).

Fixpoint rounds (w : list bytes) (n r : nat) (s : bytes) : bytes :=
  match n with
  | 0 => AddRoundKey (round_key w r) (ShiftRows (SubBytes s))
  | S n' => rounds w n' (S r) (AddRoundKey (round_key w r) (MixColumns (ShiftRows (SubBytes s))))
  end.

(** [block.Encrypt(dst, src)] for the cipher of [key]. *)
Definition aes_encrypt (key src : bytes) : bytes :=
  let w := key_words key in
  rounds w (length key `div` 4 + 5) 1 (AddRoundKey (round_key w 0) src).

Definition key_size_ok (key : bytes) : bool :=
  bool_decide (length key = 16 ∨ length key = 24 ∨ length key = 32).

(** [aes.NewCipher(key)] *)
Definition NewCipher (key : bytes) : outcome (bytes → bytes) :=
  if key_size_ok key then Ok (aes_encrypt key) else Err (KeySizeError (len key)).

(** ** Block ciphers

    What the stream mode relies on: a block cipher maps every input to a
    block. *)
Class BlockCipher (E : bytes → bytes) : Prop :=
  block_length : ∀ src, length (E src) = BlockSize.

Lemma length_AddRoundKey (k s : bytes) : length (AddRoundKey k s) = BlockSize.
Proof. unfold AddRoundKey. by rewrite length_map, length_seq. Qed.

#[global] Instance aes_block_cipher (key : bytes) : BlockCipher (aes_encrypt key).
Proof.
  intros src. unfold aes_encrypt. generalize (length key `div` 4 + 5) as n.
  generalize (AddRoundKey (round_key (key_words key) 0) src) as s. generalize 1 as r.
  intros r s n. revert r s. induction n as [|n IH]; intros r s; cbn [rounds].
  - apply length_AddRoundKey.
  - apply IH.
Qed.

(** ** CFB mode

    One [XORKeyStream] call on a fresh stream: each block of key stream is the
    encryption of the previous block of cipher text, the first one of [iv].
    The fuel is the length of the data: every turn consumes a block or ends. *)
Fixpoint cfb_encrypt (fuel : nat) (E : bytes → bytes) (iv src : bytes) : bytes :=
  match fuel, src with
  | S fuel', _ :: _ =>
      let c := zip_with byte_xor src (E iv) in
      c ++ cfb_encrypt fuel' E c (drop BlockSize src)
  | _, _ => []
  end.

Fixpoint cfb_decrypt (fuel : nat) (E : bytes → bytes) (iv src : bytes) : bytes :=
  match fuel, src with
  | S fuel', _ :: _ =>
      zip_with byte_xor src (E iv) ++
      cfb_decrypt fuel' E (take BlockSize src) (drop BlockSize src)
  | _, _ => []
  end.

Definition CFBEncrypt (E : bytes → bytes) (iv src : bytes) : bytes :=
  cfb_encrypt (length src) E iv src.
Definition CFBDecrypt (E : bytes → bytes) (iv src : bytes) : bytes :=
  cfb_decrypt (length src) E iv src.

Section cfb.
  Context (E : bytes → bytes) `{!BlockCipher E}.

Lemma zip_xor_take (a b : bytes) :
    zip_with byte_xor a b = zip_with byte_xor (take (length b) a) b.
  Proof.
    revert b. induction a as [|x a IH]; intros [|y b]; cbn; try done. by rewrite <- IH.
  Qed.

Lemma zip_xor_involutive (a k : bytes) :
    length a ≤ length k → zip_with byte_xor (zip_with byte_xor a k) k = a.
  Proof.
    revert k. induction a as [|x a IH]; intros [|y k] Hl; cbn in *; try done; [lia|].
    rewrite byte_xor_involutive. by rewrite IH by lia.
  Qed.

Lemma zip_xor_app (a b k : bytes) :
    length a = length k → zip_with byte_xor (a ++ b) k = zip_with byte_xor a k.
  Proof.
    revert k. induction a as [|x a IH]; intros [|y k] Hl; cbn in *; try done.
    - by destruct b.
    - by rewrite IH by lia.
  Qed.

Lemma cfb_encrypt_length (fuel : nat) (iv src : bytes) :
    length src ≤ fuel → length (cfb_encrypt fuel E iv src) = length src.
  Proof.
    revert iv src. induction fuel as [|fuel IH]; intros iv [|x src] Hl; cbn [length] in Hl;
      try done; [lia|].
    cbn [cfb_encrypt]. rewrite length_app, IH by (rewrite length_drop; cbn; lia).
    rewrite length_zip_with, (block_length (E:=E)), length_drop. unfold BlockSize. lia.
  Qed.

Lemma cfb_decrypt_length (fuel : nat) (iv src : bytes) :
    length src ≤ fuel → length (cfb_decrypt fuel E iv src) = length src.
  Proof.
    revert iv src. induction fuel as [|fuel IH]; intros iv [|x src] Hl; cbn [length] in Hl;
      try done; [lia|].
    cbn [cfb_decrypt]. rewrite length_app, IH by (rewrite length_drop; cbn; lia).
    rewrite length_zip_with, (block_length (E:=E)), length_drop. unfold BlockSize. lia.
  Qed.

Lemma cfb_decrypt_encrypt (fuel : nat) (iv src : bytes) :
    length src ≤ fuel → cfb_decrypt fuel E iv (cfb_encrypt fuel E iv src) = src.
  Proof.
    revert iv src. induction fuel as [|fuel IH]; intros iv [|x src] Hl; cbn [length] in Hl;
      try done; [lia|].
    cbn [cfb_encrypt]. rewrite zip_xor_take, (block_length (E:=E)).
    set (blk := take BlockSize (x :: src)). set (c := zip_with byte_xor blk (E iv)).
    assert (Hblk : length blk ≤ BlockSize) by (unfold blk; rewrite length_take; lia).
    assert (Hc : length c = length blk).
    { unfold c. rewrite length_zip_with, (block_length (E:=E)). lia. }
    assert (Hne : 0 < length blk) by (unfold blk, BlockSize; rewrite length_take; cbn; lia).
    set (rest := cfb_encrypt fuel E c (drop BlockSize (x :: src))).
    assert (Hdec : zip_with byte_xor (c ++ rest) (E iv) = blk ∧
                   drop BlockSize (c ++ rest) = rest ∧
                   (rest ≠ [] → take BlockSize (c ++ rest) = c)).
    { destruct (decide (length blk = BlockSize)) as [Hfull|Hpart].
      - rewrite zip_xor_app by (rewrite Hc, (block_length (E:=E)); done).
        rewrite <- Hfull, <- Hc, drop_app_length, take_app_length.
        split; [|done]. apply zip_xor_involutive. rewrite (block_length (E:=E)). lia.
      - assert (drop BlockSize (x :: src) = []) as Hd.
        { apply drop_ge. unfold blk in *. rewrite length_take in Hpart. lia. }
        assert (rest = []) as ->.
        { unfold rest. rewrite Hd. by destruct fuel. }
        rewrite app_nil_r. repeat split; [|apply drop_ge; lia|done].
        apply zip_xor_involutive. rewrite (block_length (E:=E)). lia. }
    destruct Hdec as (Hz & Hdr & Htk).
    destruct (c ++ rest) as [|y t] eqn:Heq.
    { apply app_nil in Heq as [Heq _]. rewrite Heq in Hc. cbn in Hc. lia. }
    cbn [cfb_decrypt]. rewrite Hz, Hdr.
    replace (cfb_decrypt fuel E (take BlockSize (y :: t)) rest) with (cfb_decrypt fuel E c rest).
    - unfold rest. rewrite IH by (rewrite length_drop; cbn; lia). apply take_drop.
    - destruct rest as [|z rest']; [by destruct fuel|]. by rewrite Htk.
  Qed.

Lemma CFBEncrypt_length (iv src : bytes) : length (CFBEncrypt E iv src) = length src.
  Proof. by apply cfb_encrypt_length. Qed.

Lemma CFBDecrypt_length (iv src : bytes) : length (CFBDecrypt E iv src) = length src.
  Proof. by apply cfb_decrypt_length. Qed.

  (** Decryption with the same key and initialisation vector recovers the data. *)
Lemma CFBDecrypt_CFBEncrypt (iv src : bytes) : CFBDecrypt E iv (CFBEncrypt E iv src) = src.
  Proof. unfold CFBDecrypt. rewrite CFBEncrypt_length. by apply cfb_decrypt_encrypt. Qed.
End cfb.

#[global] Opaque aes_encrypt.

(** FIPS 197, appendix C: the example vectors for the three key sizes. *)
Definition hex_key (n : nat) : bytes := map (λ i, byte_of (Z.of_nat i)) (seq 0 n).
Definition fips_plain : bytes := map (λ i, byte_of (Z.of_nat i * 17)) (seq 0 16).

Example fips197_128 : get_be (aes_encrypt (hex_key 16) fips_plain)
  = 0x69c4e0d86a7b0430d8cdb78070b4c55a%Z.
Proof. vm_compute. reflexivity. Qed.
Example fips197_192 : get_be (aes_encrypt (hex_key 24) fips_plain)
  = 0xdda97ca4864cdfe06eaf70a0ec0d7191%Z.
Proof. vm_compute. reflexivity. Qed.
Example fips197_256 : get_be (aes_encrypt (hex_key 32) fips_plain)
  = 0x8ea2b7ca516745bfeafc49904b496089%Z.
Proof. vm_compute. reflexivity. Qed.
