(* ===== verification/FramerF1.v ===== *)
(** Package [transport/framer/f1]: encryption of chunks (encrypt.go) and the
    [F1] framer (f1.go), a reader and writer of encrypted, padded frames over
    any transport. *)
From S2P Require Import Prelude GoIO Framing Strconv Base64 Conf Aes.

(** ** encrypt.go *)
Module Crypt.
Definition KeySize : nat := BlockSize.

Definition NewKey : M rng bytes := rand_read BlockSize.

  (** [iv := ciphertext[:16]; rand.Read(iv); ... XORKeyStream(ciphertext[16:], dat)] *)
Definition Encrypt (key dat : bytes) : M rng bytes :=
    block ← lift (NewCipher key);
    iv ← rand_read BlockSize;
    let ciphertext := copy_at 0 iv (make_bytes (BlockSize + length dat)) in
    mret (copy_at BlockSize (CFBEncrypt block iv dat) ciphertext).

  (** [dat[:16]] panics on shorter data (if the backing array reaches that far,
      the negative [make] after it panics instead). *)
Definition Decrypt (key dat : bytes) : outcome bytes :=
    block ← NewCipher key;
    if decide (length dat < BlockSize) then Panic
    else Ok (CFBDecrypt block (take BlockSize dat) (drop BlockSize dat)).

  (** The concatenation, shorter operand first, its second part combined with
      its first [j] bytes in place. *)
Definition Xor (x y : bytes) : bytes :=
    let lenX := length x in
    let lenY := length y in
    let rs := make_bytes (lenX + lenY) in
    let '(rs, j) :=
      if decide (lenX < lenY) then (copy_at lenX y (copy_at 0 x rs), lenX)
      else (copy_at lenY x (copy_at 0 y rs), lenY) in
    drop j (foldl (λ rs i, <[j + i := byte_xor (nth_byte rs i) (nth_byte rs (j + i))]> rs)
              rs (seq 0 j)).

Lemma Encrypt_ok (key dat : bytes) (g : rng) :
    key_size_ok key = true →
    ∃ ct g', Encrypt key dat g = (Ok ct, g') ∧ length ct = BlockSize + length dat ∧
             Decrypt key ct = Ok dat.
  Proof.
    intros Hk. unfold Encrypt, NewCipher. rewrite Hk.
    destruct (rand_read_ok BlockSize g) as (iv & g' & Hr & Hl).
    exists (iv ++ CFBEncrypt (aes_encrypt key) iv dat), g'. split; [|split].
    - unfold mbind, M_bind, lift. rewrite Hr. unfold mret, M_ret. do 2 f_equal.
      rewrite <- Hl at 1. apply copy_two. rewrite CFBEncrypt_length by apply _. lia.
    - rewrite length_app, CFBEncrypt_length by apply _. lia.
    - unfold Decrypt, NewCipher. rewrite Hk. cbn [mbind outcome_bind].
      rewrite decide_False by (rewrite length_app; lia).
      rewrite take_app_length', drop_app_length' by done.
      by rewrite CFBDecrypt_CFBEncrypt by apply _.
  Qed.

Lemma Decrypt_length (key dat p : bytes) :
    Decrypt key dat = Ok p → length dat = BlockSize + length p.
  Proof.
    unfold Decrypt, NewCipher. destruct (key_size_ok key); cbn [mbind outcome_bind]; [|done].
    case_decide; [done|]. intros [= <-]. rewrite CFBDecrypt_length by apply _.
    rewrite length_drop. lia.
  Qed.

  (** The loop of [Xor] combines the first [j] bytes of the second part. *)
Lemma xor_loop (a b c : bytes) (done : nat) :
    length a = length b → done ≤ length a →
    foldl (λ rs i, <[length a + i := byte_xor (nth_byte rs i) (nth_byte rs (length a + i))]> rs)
      (a ++ b ++ c) (seq 0 done)
    = a ++ (zip_with byte_xor (take done a) (take done b) ++ drop done b) ++ c.
  Proof.
    intros Hab. induction done as [|k IH]; intros Hd; [done|].
    rewrite seq_S, foldl_app, IH by lia. cbn [foldl Nat.add].
    set (z := zip_with byte_xor (take k a) (take k b)).
    assert (Hz : length z = k).
    { unfold z. rewrite length_zip_with, !length_take. lia. }
    destruct (lookup_lt_is_Some_2 a k) as [x Hx]; [lia|].
    destruct (lookup_lt_is_Some_2 b k) as [y Hy]; [lia|].
    rewrite (drop_S b y k Hy). unfold nth_byte.
    rewrite !(nth_lookup _ _ _), lookup_app_l, Hx by lia.
    rewrite !lookup_app_r, <- !app_assoc by lia.
    replace (length a + k - length a) with k by lia.
    rewrite (lookup_app_r z) by lia. rewrite Hz, Nat.sub_diag. cbn [lookup list_lookup app default].
    rewrite insert_app_r. f_equal.
    replace k with (length z + 0) at 1 by lia. rewrite insert_app_r. cbn [list_insert insert].
    rewrite (take_S_r a k x Hx), (take_S_r b k y Hy), zip_with_app
      by (rewrite !length_take; lia). fold z. by rewrite <- app_assoc.
  Qed.

Lemma Xor_spec (x y : bytes) :
    Xor x y = let '(s, l) := if decide (length x < length y) then (x, y) else (y, x) in
              zip_with byte_xor s (take (length s) l) ++ drop (length s) l.
  Proof.
    assert (Haux : ∀ s l, length s ≤ length l →
      drop (length s) (foldl (λ rs i, <[length s + i :=
             byte_xor (nth_byte rs i) (nth_byte rs (length s + i))]> rs)
           (s ++ l) (seq 0 (length s)))
      = zip_with byte_xor s (take (length s) l) ++ drop (length s) l).
    { intros s l Hl. rewrite <- (take_drop (length s) l) at 1.
      rewrite xor_loop by (rewrite ?length_take; lia). rewrite drop_app_length.
      rewrite (drop_ge (take _ l)), app_nil_r, (take_ge s), take_take, Nat.min_id
        by (rewrite ?length_take; lia). done. }
    unfold Xor. case_decide as Hd.
    - rewrite copy_two by lia. apply Haux. lia.
    - rewrite copy_two by lia. apply Haux. lia.
  Qed.
End Crypt.

(** ** f1.go *)
Module F1.
Record F1 (T : Type) := mk_F1 {
  tx : T;
  psk : bytes;
  bufRead : bytes;
  lenBufRead : nat;
}.
Arguments mk_F1 {T} tx psk bufRead lenBufRead.
Arguments tx {T}.
Arguments psk {T}.
Arguments bufRead {T}.
Arguments lenBufRead {T}.

(** A computation on the underlying transport. *)
Definition on_tx {T A} (m : M T A) : M (F1 T) A := λ f,
  let '(r, t) := m (tx f) in (r, mk_F1 t (psk f) (bufRead f) (lenBufRead f)).

Definition SetPSK {T} (key : bytes) (f : F1 T) : F1 T :=
  mk_F1 (tx f) key (bufRead f) (lenBufRead f).

Definition appendBuf {T} (dat : bytes) (f : F1 T) : F1 T :=
  let sizeAfter := lenBufRead f + length dat in
  if decide (length (bufRead f) < sizeAfter) then
    let buf := make_bytes sizeAfter in
    let buf := copy_at 0 (take (lenBufRead f) (bufRead f)) buf in
    let buf := copy_at (lenBufRead f) dat buf in
    mk_F1 (tx f) (psk f) buf sizeAfter
  else mk_F1 (tx f) (psk f) (copy_at (lenBufRead f) dat (bufRead f)) sizeAfter.

(** Serving a read of [n] bytes from the left-over of an earlier frame. *)
Definition take_buffered {T} (n : nat) : M (F1 T) bytes := λ f,
  let size := if decide (lenBufRead f < n) then lenBufRead f else n in
  (Ok (take size (bufRead f)),
   mk_F1 (tx f) (psk f) (copy_at 0 (drop size (bufRead f)) (bufRead f)) (lenBufRead f - size)).

(** [chunk[:n]] of a freshly made slice. *)
Definition slice_to (n : Z) (chunk : bytes) : outcome bytes :=
  if (n <? 0)%Z || (len chunk <? n)%Z then Panic else Ok (take (Z.to_nat n) chunk).

(** One frame from the transport, decrypted, its padding removed. *)
Definition read_frame {T} `{Reader T} : M (F1 T) bytes :=
  header ← on_tx (ReadFull 10);
  let sizeAll := get_be (slice 2 6 header) in
  let sizePad := get_be (slice 6 10 header) in
  size ← lift (make_slice sizeAll);
  chunkEnc ← on_tx (ReadFull size);
  key ← gets psk;
  chunk ← lift (Crypt.Decrypt key chunkEnc);
  lift (slice_to (len chunk - sizePad) chunk).

(** [F1.Read] with a buffer of [n] bytes. *)
Definition Read {T} `{Reader T} (n : nat) : M (F1 T) bytes := λ f,
  if decide (0 < lenBufRead f) then take_buffered n f
  else (chunk ← read_frame;
        if decide (n < length chunk) then
          _ ← modify (appendBuf (drop n chunk)); mret (take n chunk)
        else mret chunk) f.

(** The padding of a chunk: between 2 and 255 random bytes for short data,
    2 bytes otherwise. *)
Definition pad_size (size : nat) : M rng nat :=
  n ← (if decide (size < 256) then r ← rand_read 1; mret (Z.to_nat (get_be r)) else mret 0);
  mret (if decide (n < 2) then 2 else n).

(** [F1.Write]: the count returned is the transport's, not [len(dat)]. *)
Definition Write {T} `{Writer T} (dat : bytes) : M (F1 T * rng) Z :=
  sizePad ← on_snd (pad_size (length dat));
  pad ← on_snd (rand_read sizePad);
  let chunk := copy_at (length dat) pad (copy_at 0 dat (make_bytes (length dat + sizePad))) in
  key ← gets (λ s, psk s.1);
  chunkEnc ← on_snd (Crypt.Encrypt key chunk);
  let size := length chunkEnc in
  let header := make_bytes 10 in
  let header := copy_at 2 (put_be 4 (uint32 (Z.of_nat size))) header in
  let header := copy_at 6 (put_be 4 (uint32 (Z.of_nat sizePad))) header in
  let sizeHeader := length header in
  let chunkFin := copy_at sizeHeader chunkEnc (copy_at 0 header (make_bytes (sizeHeader + size))) in
  on_fst (on_tx (write chunkFin)).

(** *** The constructor [f1.Framer] *)

(** [for i := 0; i < keySize; i += len(pskb) { copy(k[i:], pskb) }]; at most
    [keySize] turns, since [pskb] is not empty. *)
Fixpoint fill_key (fuel i : nat) (pskb k : bytes) : bytes :=
  match fuel with
  | 0 => k
  | S fuel' => if decide (i < Crypt.KeySize)
               then fill_key fuel' (i + length pskb) pskb (copy_at i pskb k) else k
  end.

(** The key from the base64 PSK and the decimal time stamp of the parameters;
    an undecodable or empty PSK panics. *)
Definition derive_key (psk64 timestamp : bytes) : outcome bytes :=
  let ts := match ParseInt timestamp with Ok iv => iv | _ => 0%Z end in
  match DecodeString psk64 with
  | Ok pskb =>
      if decide (length pskb <= 0) then Panic else
      let pskb :=
        if decide (Crypt.KeySize < length pskb) then take Crypt.KeySize pskb
        else if decide (length pskb < Crypt.KeySize)
        then fill_key Crypt.KeySize 0 pskb (make_bytes Crypt.KeySize)
        else pskb in
      let tsBytes := put_be 8 ts in
      Ok (zip_with byte_xor (take (length tsBytes) pskb) tsBytes ++ drop (length tsBytes) pskb)
  | _ => Panic
  end.

Definition Framer {T} (t : T) (cfg : Conf.Values) : outcome (F1 T) :=
  key ← derive_key (Conf.Get Conf.FRAMER_PSK cfg) (Conf.Get Conf.FRAMER_TIMESTAMP cfg);
  Ok (mk_F1 t key (make_bytes (Z.to_nat Conf.DEFAULT_BUFFER_SIZE)) 0).

Definition Close {T} `{Closer T} : M (F1 T) unit := on_tx close.

(** ** Frames on the wire

    [is_frame key p w]: the bytes [w] are one frame that carries the payload
    [p] under [key]. *)
Definition is_frame (key p w : bytes) : Prop :=
  ∃ h ct pad, w = h ++ put_be 4 (len ct) ++ put_be 4 (len pad) ++ ct ∧
    length h = 2 ∧ (len ct < 2 ^ 32)%Z ∧ Crypt.Decrypt key ct = Ok (p ++ pad).

(** ** The framer as a reader *)
#[global] Instance F1_Reader {T} `{Reader T} : Reader (F1 T) :=
  { read := Read;
    budget := λ f, length (take (lenBufRead f) (bufRead f)) + budget (tx f) }.

Section reader.
  Context {T : Type} `{ReaderLaws T}.

Lemma run_on_tx {A} (m : M T A) (f : F1 T) (r : outcome A) (t' : T) :
    m (tx f) = (r, t') → on_tx m f = (r, mk_F1 t' (psk f) (bufRead f) (lenBufRead f)).
  Proof. intros E. unfold on_tx. by rewrite E. Qed.

Lemma read_frame_ok (f : F1 T) (p w rest : bytes) :
    is_frame (psk f) p w → delivers (tx f) (w ++ rest) →
    ∃ t', read_frame f = (Ok p, mk_F1 t' (psk f) (bufRead f) (lenBufRead f)) ∧
          delivers t' rest ∧ 26 + length p + budget t' ≤ budget (tx f).
  Proof.
    intros (h & ct & pad & -> & Hh & Hct & Hdec) Hd.
    pose proof (Crypt.Decrypt_length _ _ _ Hdec) as Hlen. rewrite length_app in Hlen.
    set (hdr := h ++ put_be 4 (len ct) ++ put_be 4 (len pad)).
    assert (Hhl : 10 = length hdr) by (unfold hdr; len_solve).
    replace (_ ++ rest) with (hdr ++ ct ++ rest) in Hd by (unfold hdr; by rewrite <- !app_assoc).
    destruct (ReadFull_app 10 (tx f) _ _ Hd Hhl) as (t1 & R1 & Hd1 & Hb1 & _).
    destruct (ReadFull_app (length ct) t1 ct rest Hd1 eq_refl) as (t2 & R2 & Hd2 & Hb2 & _).
    exists t2. split; [|split; [done|unfold BlockSize in *; lia]].
    unfold read_frame. run (run_on_tx _ f _ _ R1). cbv zeta.
    destruct h as [|h0 [|h1 [|? ?]]]; try done.
    change (slice 2 6 hdr) with (put_be 4 (len ct)).
    change (slice 6 10 hdr) with (put_be 4 (len pad)).
    pose proof (len_nonneg ct). pose proof (len_nonneg pad).
    assert (len pad ≤ len ct)%Z by (unfold len; lia).
    rewrite !(get_be_put_small 4) by (cbn; lia).
    assert (Hms : make_slice (len ct) = Ok (length ct)).
    { rewrite make_slice_ok by (unfold max_alloc; lia). by rewrite to_nat_len. }
    unfold mbind at 1, M_bind at 1, lift at 1. rewrite Hms.
    run (run_on_tx _ (mk_F1 t1 (psk f) (bufRead f) (lenBufRead f)) _ _ R2).
    unfold mbind at 1, M_bind at 1, gets at 1. cbn [psk].
    unfold mbind, M_bind, lift. rewrite Hdec. unfold slice_to.
    replace (len (p ++ pad) - len pad)%Z with (len p) by (unfold len; rewrite length_app; lia).
    destruct (Z.ltb_spec (len p) 0); [unfold len in *; lia|].
    destruct (Z.ltb_spec (len (p ++ pad)) (len p)); [unfold len in *; rewrite length_app in *; lia|].
    cbn [orb]. by rewrite to_nat_len, take_app_length.
  Qed.

(** What a read leaves behind when the caller's buffer was too small. *)
Lemma appendBuf_spec (dat : bytes) (f : F1 T) :
  lenBufRead f ≤ length (bufRead f) →
  let f' := appendBuf dat f in
  tx f' = tx f ∧ psk f' = psk f ∧ lenBufRead f' ≤ length (bufRead f') ∧
  take (lenBufRead f') (bufRead f') = take (lenBufRead f) (bufRead f) ++ dat.
Proof.
  intros Hl. unfold appendBuf. case_decide as Hc; cbn [tx psk lenBufRead bufRead].
  - rewrite left_over_grow by done. repeat split; [rewrite length_app, length_take; lia|].
    apply take_ge. rewrite length_app, length_take. lia.
  - repeat split; [rewrite length_copy_at; lia|]. by rewrite take_copy_at_ext by lia.
Qed.

#[global] Program Instance F1_Framed : Framed T (F1 T) :=
  { transport := tx; left_over := λ f, take (lenBufRead f) (bufRead f);
    sound_buf := λ f, lenBufRead f ≤ length (bufRead f); frame := λ f, is_frame (psk f);
    next_frame := read_frame; take_left := take_buffered; keep := appendBuf }.
Next Obligation.
  intros f p w rest Hl Hf Hd. destruct (read_frame_ok f p w rest Hf Hd) as (t' & Hr & Hd' & Hb).
  eexists. split; [exact Hr|]. cbn [tx psk bufRead lenBufRead]. repeat split; [done..|lia].
Qed.
Next Obligation.
  intros f Hl Hd. destruct (ReadFull_short 10 (tx f) [] Hd) as (t' & Hr & Hd' & Hb); [cbn; lia|].
  eexists. split; [unfold read_frame; by run (run_on_tx _ f _ _ Hr)|]. done.
Qed.
Next Obligation.
  cbn beta. intros f n Hl. unfold take_buffered. set (size := if decide _ then _ else _).
  assert (Hsz : size = n `min` lenBufRead f) by (unfold size; case_decide; lia).
  eexists. split; [rewrite take_take, <- Hsz; reflexivity|].
  cbn [tx psk bufRead lenBufRead]. split; [|split; [done|split; [done|]]].
  - rewrite left_over_shift by lia. rewrite Hsz.
    destruct (Nat.min_spec n (lenBufRead f)) as [[? ->]|[? ->]]; [done|].
    by rewrite !drop_ge by (rewrite length_take; lia).
  - rewrite length_copy_at; lia.
Qed.
Next Obligation.
  intros f d Hl. destruct (appendBuf_spec d f Hl) as (? & E & ? & ?). by rewrite E.
Qed.

#[global] Program Instance F1_laws : ReaderLaws (F1 T) := { delivers := framed_delivers }.
Next Obligation.
  intros f bs n Hd Hn. cbn [read budget F1_Reader].
  replace (Read n f) with (framed_read n f); [exact (framed_read_law f bs n Hd Hn)|].
  destruct Hd as (_ & _ & _ & _ & Hl & _). cbn in Hl. unfold framed_read, Read.
  cbn [left_over F1_Framed]. rewrite length_take, Nat.min_l by done. reflexivity.
Qed.
End reader.

(** ** The framer as a writer *)
Lemma pad_size_ok (size : nat) (g : rng) :
  ∃ n g', pad_size size g = (Ok n, g') ∧ 2 ≤ n < 256.
Proof.
  unfold pad_size. case_decide.
  - destruct (rand_read_ok 1 g) as (r & g' & Hr & Hl).
    pose proof (get_be_range r) as Hb. replace (len r) with 1%Z in Hb by (unfold len; lia).
    cbn in Hb. unfold mbind, M_bind. rewrite Hr. unfold mret, M_ret.
    do 2 eexists. split; [reflexivity|]. case_decide; lia.
  - do 2 eexists. split; [reflexivity|]. case_decide; lia.
Qed.

(** The random padding is at least two bytes and fits one byte's range. *)
Definition max_overhead : nat := 281.

Section writer.
  Context {W : Type} `{WriterLaws W}.

#[global] Instance F1_Writer : Writer (F1 W * rng) := { write := Write }.

Definition F1_write_pre (s : F1 W * rng) (n : nat) : Prop :=
    key_size_ok (psk s.1) = true ∧ (Z.of_nat (n + max_overhead) < 2 ^ 32)%Z ∧
    write_pre (tx s.1) (n + max_overhead).

Definition F1_emitted (s s' : F1 W * rng) (d : bytes) : Prop :=
    ∃ ps w, are_frames (is_frame (psk s.1)) ps w ∧ d = concat ps ∧
            emitted (tx s.1) (tx s'.1) w ∧ psk s'.1 = psk s.1.

  (** [F1.Write] sends one frame that carries the data, in a single write of
      the transport, whose count it returns. *)
Lemma Write_frame (f : F1 W) (g : rng) (d : bytes) :
    F1_write_pre (f, g) (length d) →
    ∃ n w t' g', Write d (f, g) = (Ok n, (mk_F1 t' (psk f) (bufRead f) (lenBufRead f), g')) ∧
      is_frame (psk f) d w ∧ write w (tx f) = (Ok n, t') ∧ emitted (tx f) t' w ∧
      26 + length d + 2 ≤ length w ≤ length d + max_overhead.
  Proof.
    intros (Hk & Hsz & Hp). cbn [fst] in *.
    destruct (pad_size_ok (length d) g) as (np & g1 & Hps & Hnp).
    destruct (rand_read_ok np g1) as (pad & g2 & Hpad & Hpl).
    destruct (Crypt.Encrypt_ok (psk f) (d ++ pad) g2 Hk) as (ct & g3 & He & Hcl & Hdec).
    rewrite length_app in Hcl. unfold max_overhead, BlockSize in *.
    set (w := make_bytes 2 ++ put_be 4 (len ct) ++ put_be 4 (len pad) ++ ct).
    assert (Hwl : length w = 10 + length ct) by (unfold w; len_solve).
    destruct (write_law (tx f) w) as (n & t' & Hw & Hem);
      [eapply write_pre_mono; [exact Hp|lia]|].
    exists n, w, t', g3. split; [|split; [|split; [done|split; [done|lia]]]].
    - unfold Write. run (run_snd _ f _ _ _ Hps). run (run_snd _ f _ _ _ Hpad).
      subst np. cbv zeta. rewrite copy_two by done.
      unfold mbind at 1, M_bind at 1, gets at 1. cbn [fst].
      run (run_snd _ f _ _ _ He).
      change (copy_at 6 ?a (copy_at 2 ?b (make_bytes 10))) with (make_bytes 2 ++ b ++ a).
      fold (len ct). fold (len pad). pose proof (len_nonneg ct). pose proof (len_nonneg pad).
      rewrite !uint32_small by (unfold len in *; lia).
      rewrite copy_two by done. rewrite <- !app_assoc. fold w.
      apply run_fst. by apply run_on_tx.
    - exists (make_bytes 2), ct, pad. split; [done|]. unfold len.
      repeat split; [lia|done].
  Qed.

Lemma F1_write_law (s : F1 W * rng) (d : bytes) :
    F1_write_pre s (length d) → ∃ n s', write d s = (Ok n, s') ∧ F1_emitted s s' d.
  Proof.
    destruct s as [f g]. intros Hp.
    destruct (Write_frame f g d Hp) as (n & w & t' & g' & Hw & Hf & _ & He & _).
    do 2 eexists. split; [exact Hw|]. exists [d], w. cbn [fst tx psk concat].
    rewrite app_nil_r. repeat split; [|done].
    by apply are_frames_one.
  Qed.

#[global] Program Instance F1_writer_laws : WriterLaws (F1 W * rng) :=
    { write_pre := F1_write_pre; emitted := F1_emitted; write_law := F1_write_law }.
  Next Obligation.
    intros [f g]. exists [], []. repeat split; [apply are_frames_nil | apply emitted_nil].
  Qed.
  Next Obligation.
    cbn beta. intros s1 s2 s3 a b (ps & w & Hf & -> & He & Hk) (ps' & w' & Hf' & -> & He' & Hk').
    exists (ps ++ ps'), (w ++ w'). rewrite Hk in Hf', Hk'. rewrite concat_app.
    repeat split; [by apply are_frames_app | by eapply emitted_app | done].
  Qed.
  Next Obligation.
    cbn beta. intros s m n (Hk & Hs & Hp) Hle. split; [done|]. split; [lia|].
    eapply write_pre_mono; [exact Hp|lia].
  Qed.
  Next Obligation.
    cbn beta. intros s s' d n (Hk & Hs & Hp) (ps & w & _ & _ & He & Hkk).
    split; [by rewrite Hkk|]. split; [done|]. by eapply write_pre_emitted.
  Qed.
End writer.

(** ** The derived key *)
Lemma length_fill_key (fuel i : nat) (pskb k : bytes) :
  length k = Crypt.KeySize → length (fill_key fuel i pskb k) = Crypt.KeySize.
Proof.
  revert i k. induction fuel as [|fuel IH]; intros i k Hk; [done|].
  cbn [fill_key]. case_decide; [|done]. apply IH. rewrite length_copy_at; lia.
Qed.

Lemma derive_key_length (psk64 ts key : bytes) :
  derive_key psk64 ts = Ok key → length key = Crypt.KeySize.
Proof.
  unfold derive_key. destruct (DecodeString psk64) as [pskb| | |]; try done.
  case_decide; [done|]. set (k := if decide _ then _ else _). intros [= <-].
  assert (Hk : length k = 16).
  { unfold k. repeat case_decide.
    - rewrite length_take. unfold Crypt.KeySize, BlockSize in *. lia.
    - by rewrite length_fill_key by apply length_make_bytes.
    - unfold Crypt.KeySize, BlockSize in *. lia. }
  rewrite length_app, length_zip_with, length_take, length_drop, Hk. done.
Qed.

Lemma derive_key_total (psk64 ts pskb : bytes) :
  DecodeString psk64 = Ok pskb → pskb ≠ [] →
  ∃ key, derive_key psk64 ts = Ok key ∧ key_size_ok key = true.
Proof.
  intros Hd Hne. destruct (derive_key psk64 ts) as [key| | |] eqn:E.
  - exists key. split; [done|]. apply derive_key_length in E.
    unfold key_size_ok. apply bool_decide_eq_true. by left.
  - unfold derive_key in E. rewrite Hd in E. destruct pskb; [done|]. by rewrite decide_False in E.
  - unfold derive_key in E. rewrite Hd in E. destruct pskb; [done|]. by rewrite decide_False in E.
  - unfold derive_key in E. rewrite Hd in E. destruct pskb; [done|]. by rewrite decide_False in E.
Qed.

(** ** Properties *)

(** Encryption is a round trip: for every AES key size and every choice of
    the random initialisation vector, [Encrypt] succeeds, lengthens the data
    by exactly one block, and [Decrypt] under the same key returns the data. *)
Theorem encrypt_decrypt (key dat : bytes) (g : rng) :
  key_size_ok key = true →
  ∃ ct g', Crypt.Encrypt key dat g = (Ok ct, g') ∧ length ct = BlockSize + length dat ∧
           Crypt.Decrypt key ct = Ok dat.
Proof. apply Crypt.Encrypt_ok. Qed.

Definition sample_key : bytes := lit "0123456789abcdef".
Definition sample_bytes : rng := λ i, byte_of (Z.of_nat i * 61 + 5).

Lemma encrypt_decrypt_witness :
  ∃ ct g', Crypt.Encrypt sample_key (lit "twenty bytes of text") sample_bytes = (Ok ct, g') ∧
    length ct = 36 ∧ Crypt.Decrypt sample_key ct = Ok (lit "twenty bytes of text").
Proof. apply encrypt_decrypt. reflexivity. Defined.

(** C2: the framer is a transparent channel: what one side writes through [F1]
    in any number of chunks, over any transport, the other side (with the same
    key) reads back as the same byte stream, then end of file, however the
    wire's bytes are cut into reads and whatever the random padding. *)
Theorem f1_transparent {W R} `{WriterLaws W} `{ReaderLaws R} (f : F1 W) (g : rng)
    (ds : list bytes) (n : nat) :
  write_pre (f, g) n → Forall (λ d, length d ≤ n) ds →
  ∃ f' g' wire, write_all ds (f, g) = (Ok tt, (f', g')) ∧ emitted (tx f) (tx f') wire ∧
    ∀ fr : F1 R, psk fr = psk f → lenBufRead fr = 0 → delivers (tx fr) wire →
    ∃ fr', ReadFull (length (concat ds)) fr = (Ok (concat ds), fr') ∧
           delivers fr' [] ∧ (ReadFull 1 fr').1 = Err EOF.
Proof.
  intros Hp Hds. destruct (write_all_ok ds (f, g) n Hp Hds) as ([f' g'] & Hw & He).
  destruct He as (ps & wire & Hf & Hps & He & Hk). cbn [fst] in *.
  exists f', g', wire. split; [done|]. split; [done|]. intros fr Hkr Hl Hd.
  apply ReadFull_all. rewrite Hps. eapply framed_fresh; [by cbn; rewrite Hl| |by cbn; rewrite Hkr|done].
  cbn. lia.
Qed.

Definition sample_writer : F1 Buf.buffer := mk_F1 (Buf.mk_buffer []) sample_key [] 0.

Lemma f1_transparent_witness :
  ∃ f' g' wire,
    write_all [lit "hello"; []; lit "world!"] (sample_writer, sample_bytes) = (Ok tt, (f', g')) ∧
    emitted (Buf.mk_buffer []) (tx f') wire ∧
    ∀ fr : F1 Conn.conn, psk fr = sample_key → lenBufRead fr = 0 → delivers (tx fr) wire →
    ∃ fr', ReadFull 11 fr = (Ok (lit "helloworld!"), fr') ∧
           delivers fr' [] ∧ (ReadFull 1 fr').1 = Err EOF.
Proof.
  apply (f1_transparent sample_writer sample_bytes [lit "hello"; []; lit "world!"] 6).
  - split; [reflexivity|]. split; [vm_compute; reflexivity|]. exact I.
  - repeat (apply Forall_cons; split; [cbn; lia|]). by apply Forall_nil.
Defined.

(** A write reports the transport's byte count, which always exceeds the
    number of bytes the caller passed (frame header, initialisation vector and
    padding are included), contrary to [io.Writer]'s [0 <= n <= len(p)]. *)
Theorem f1_write_count (f : F1 Buf.buffer) (g : rng) (d : bytes) :
  key_size_ok (psk f) = true → (len d + 281 < 2 ^ 32)%Z →
  ∃ n s', Write d (f, g) = (Ok n, s') ∧ (len d + 28 ≤ n ≤ len d + 281)%Z.
Proof.
  intros Hk Hl. destruct (Write_frame f g d) as (n & w & t' & g' & Hw & _ & Hb & _ & Hwl).
  { split; [done|]. split; [|exact I]. unfold len in *. cbn [fst]. unfold max_overhead. lia. }
  do 2 eexists. split; [exact Hw|]. injection Hb as <- _.
  unfold len, max_overhead in *. lia.
Qed.

Lemma f1_write_count_witness :
  ∃ n s', Write (lit "hi") (sample_writer, sample_bytes) = (Ok n, s') ∧ (30 ≤ n ≤ 283)%Z.
Proof. apply (f1_write_count sample_writer sample_bytes (lit "hi")); reflexivity. Defined.

(** The framer trusts the lengths of a frame header: when the declared
    padding exceeds the decrypted text, or the cipher text is shorter than the
    initialisation vector, reading the frame panics instead of returning an
    error. *)
Theorem f1_read_panics {R} `{ReaderLaws R} (f : F1 R) (n : nat) (h ct rest : bytes) (sizePad : Z) :
  key_size_ok (psk f) = true → lenBufRead f = 0 → length h = 2 →
  (len ct < 2 ^ 32)%Z → (0 ≤ sizePad < 2 ^ 32)%Z →
  (len ct < 16 ∨ len ct < 16 + sizePad)%Z →
  delivers (tx f) (h ++ put_be 4 (len ct) ++ put_be 4 sizePad ++ ct ++ rest) →
  (Read n f).1 = Panic.
Proof.
  intros Hk Hl Hh Hct Hpad Hbad Hd.
  set (hdr := h ++ put_be 4 (len ct) ++ put_be 4 sizePad).
  replace (h ++ _) with (hdr ++ ct ++ rest) in Hd by (unfold hdr; by rewrite <- !app_assoc).
  destruct (ReadFull_app 10 (tx f) _ _ Hd) as (t1 & R1 & Hd1 & _); [unfold hdr; len_solve|].
  destruct (ReadFull_app (length ct) t1 ct rest Hd1 eq_refl) as (t2 & R2 & Hd2 & _).
  destruct h as [|h0 [|h1 [|? ?]]]; try done.
  pose proof (len_nonneg ct).
  assert (Hf : ∃ f', read_frame f = (Panic, f')).
  { unfold read_frame. run (run_on_tx _ f _ _ R1). cbv zeta.
    change (slice 2 6 hdr) with (put_be 4 (len ct)). change (slice 6 10 hdr) with (put_be 4 sizePad).
    rewrite !(get_be_put_small 4) by (cbn; lia).
    assert (Hms : make_slice (len ct) = Ok (length ct)).
    { rewrite make_slice_ok by (unfold max_alloc; lia). by rewrite to_nat_len. }
    unfold mbind at 1, M_bind at 1, lift at 1. rewrite Hms.
    run (run_on_tx _ (mk_F1 t1 (psk f) (bufRead f) (lenBufRead f)) _ _ R2).
    unfold mbind, M_bind, gets, lift, Crypt.Decrypt, NewCipher. cbn [psk]. rewrite Hk.
    cbn [mbind outcome_bind]. case_decide as Hs; [by eexists|].
    unfold slice_to. assert (Hlen : len (CFBDecrypt (aes_encrypt (psk f)) (take BlockSize ct)
                                      (drop BlockSize ct)) = (len ct - 16)%Z).
    { unfold len. rewrite CFBDecrypt_length by apply _. rewrite length_drop.
      unfold BlockSize in *. lia. }
    rewrite Hlen. unfold len, BlockSize in *.
    destruct (Z.ltb_spec (Z.of_nat (length ct) - 16 - sizePad) 0); [by eexists|lia]. }
  destruct Hf as [f' Hf]. unfold Read. rewrite decide_False by lia.
  unfold mbind, M_bind. by rewrite Hf.
Qed.

Lemma f1_read_panics_witness :
  (Read 10 (mk_F1 (Conn.mk_conn [make_bytes 2 ++ put_be 4 16 ++ put_be 4 1 ++ make_bytes 16])
              sample_key [] 0)).1 = Panic.
Proof.
  apply (f1_read_panics _ 10 (make_bytes 2) (make_bytes 16) [] 1);
    try reflexivity; try (right; reflexivity). split; [discriminate | reflexivity].
Defined.

(** The framer's constructor: any PSK that decodes to at least one byte
    gives a 16-byte AES key (longer material is cut, shorter repeated), so the
    constructor succeeds and the framer's cipher accepts the key; an empty or
    undecodable PSK makes it panic. *)
Theorem f1_framer_key {T} (t : T) (cfg : Conf.Values) :
  match DecodeString (Conf.Get Conf.FRAMER_PSK cfg) with
  | Ok (_ :: _) => ∃ f, Framer t cfg = Ok f ∧ tx f = t ∧ lenBufRead f = 0 ∧
                        length (psk f) = Crypt.KeySize ∧ key_size_ok (psk f) = true
  | _ => Framer t cfg = Panic
  end.
Proof.
  unfold Framer. destruct (DecodeString (Conf.Get Conf.FRAMER_PSK cfg)) as [[|b k]| | |] eqn:E;
    try (unfold derive_key; rewrite E; done).
  destruct (derive_key_total _ (Conf.Get Conf.FRAMER_TIMESTAMP cfg) _ E) as (key & Hk & Hok);
    [done|].
  rewrite Hk. cbn [mbind outcome_bind]. eexists. split; [done|]. cbn [tx lenBufRead psk].
  apply derive_key_length in Hk. done.
Qed.
End F1.
