(* ===== verification/FramerF1g.v ===== *)
(** Package [transport/framer/f1g]: the [f1] framer with a session key the
    server sends in its first frame (src/transport/framer/f1g/f1g.go), and the
    pass-through framer [F0] (src/transport/framer/f1/f0.go). *)
From S2P Require Import Prelude GoIO Framing Strconv Base64 Conf Aes FramerF1.

(** ** f0.go *)
Module F0.
Record F0 (T : Type) := mk_F0 { tx : T }.
Arguments mk_F0 {T} tx.
Arguments tx {T}.

Definition Read {T} `{Reader T} (n : nat) : M (F0 T) bytes := λ f,
  let '(r, t) := read n (tx f) in (r, mk_F0 t).

Definition Write {T} `{Writer T} (buf : bytes) : M (F0 T) Z := λ f,
  let '(r, t) := write buf (tx f) in (r, mk_F0 t).

Definition Close {T} `{Closer T} : M (F0 T) unit := λ f,
  let '(r, t) := close (tx f) in (r, mk_F0 t).
End F0.

(** ** f1g.go *)
Module F1g.
Record F1g (T : Type) := mk_F1g {
  role : bytes;
  tx : F1.F1 T;
  eof : bool;
}.
Arguments mk_F1g {T} role tx eof.
Arguments role {T}.
Arguments tx {T}.
Arguments eof {T}.

Definition set_eof {T} (f : F1g T) : F1g T := mk_F1g (role f) (tx f) true.
Definition SetPSK {T} (key : bytes) (f : F1g T) : F1g T :=
  mk_F1g (role f) (F1.SetPSK key (tx f)) (eof f).

(** A computation on the inner framer, with or without the random source. *)
Definition on_tx {T A} (m : M (F1.F1 T) A) : M (F1g T * rng) A := λ s,
  let '(r, t) := m (tx s.1) in (r, (mk_F1g (role s.1) t (eof s.1), s.2)).
Definition on_txr {T A} (m : M (F1.F1 T * rng) A) : M (F1g T * rng) A := λ s,
  let '(r, (t, g)) := m (tx s.1, s.2) in (r, (mk_F1g (role s.1) t (eof s.1), g)).

Definition handshake {T} `{Reader T} `{Writer T} : M (F1g T * rng) unit :=
  let lenKey := Crypt.KeySize in
  r ← gets (λ s, role s.1);
  if EqualFold r (lit "server") then
    key ← on_snd Crypt.NewKey;
    chunk ← on_snd (rand_read (lenKey * 2));
    let chunk := copy_at lenKey key chunk in
    try (_ ← on_txr (F1.Write chunk); modify (λ s, (SetPSK key s.1, s.2)))
        (λ _, modify (λ s, (set_eof s.1, s.2)))
  else
    try (chunk ← on_tx (ReadFull (lenKey * 2));
         let key := drop lenKey chunk in
         modify (λ s, (SetPSK key s.1, s.2)))
        (λ _, modify (λ s, (set_eof s.1, s.2))).

Definition Read {T} `{Reader T} (n : nat) : M (F1g T) bytes := λ f,
  if eof f then (Err EOF, f)
  else let '(r, t) := F1.Read n (tx f) in (r, mk_F1g (role f) t (eof f)).

Definition Write {T} `{Writer T} (dat : bytes) : M (F1g T * rng) Z := λ s,
  if eof s.1 then (Err EOF, s) else on_txr (F1.Write dat) s.

Definition Close {T} `{Closer T} : M (F1g T * rng) unit := on_tx F1.Close.

Definition Framer {T} `{Reader T} `{Writer T} (t : T) (cfg : Conf.Values) (g : rng) :
    outcome (F1g T * rng) :=
  txF1 ← F1.Framer t cfg;
  match handshake (mk_F1g (Conf.Get Conf.FRAMER_ROLE cfg) txF1 false, g) with
  | (Ok _, s) => Ok s
  | (Err e, _) => Err e
  | (Panic, _) => Panic
  | (Hang, _) => Hang
  end.

(** ** Reading and writing after the handshake *)
Section laws.
Context {T : Type}.

#[global] Instance F1g_Reader `{Reader T} : Reader (F1g T) :=
  { read := Read; budget := λ f, budget (tx f) }.

#[global] Program Instance F1g_reader_laws `{ReaderLaws T} : ReaderLaws (F1g T) :=
  { delivers := λ f bs, eof f = false ∧ delivers (tx f) bs }.
Next Obligation.
  intros ?? [r f e] bs n [He Hd] Hn. cbn [eof tx] in *. subst e.
  pose proof (read_law f bs n Hd Hn) as Hr. cbn [read F1g_Reader]. unfold Read. cbn [eof tx role].
  change (F1.Read n f) with (read n f). unfold read_post in *. cbn [budget F1g_Reader].
  destruct (read n f) as [[d|e| |] f']; cbn [tx eof]; [|by destruct Hr as (? & ? & ? & ?)|done..].
  destruct Hr as (bs' & ? & ? & ? & ? & ?). exists bs'. auto.
Qed.

#[global] Instance F1g_Writer `{Writer T} : Writer (F1g T * rng) := { write := Write }.

#[global] Program Instance F1g_writer_laws `{WriterLaws T} : WriterLaws (F1g T * rng) :=
  { write_pre := λ s n, eof s.1 = false ∧ write_pre (tx s.1, s.2) n;
    emitted := λ s s' d, (eof s.1 = false → eof s'.1 = false) ∧
                         emitted (tx s.1, s.2) (tx s'.1, s'.2) d }.
Next Obligation. intros ?? s. split; [done|]. apply emitted_nil. Qed.
Next Obligation.
  intros ?? s1 s2 s3 a b [He1 Ha] [He2 Hb]. split; [by auto|]. by eapply emitted_app.
Qed.
Next Obligation. intros ?? s m n [He Hp] Hle. split; [done|]. by eapply write_pre_mono. Qed.
Next Obligation.
  intros ?? s s' d n [He Hp] [He' Hem]. split; [by auto|]. by eapply write_pre_emitted.
Qed.
Next Obligation.
  intros ?? [f g] d [He Hp]. cbn [fst snd] in *.
  destruct (write_law (tx f, g) d Hp) as (n & [f' g'] & Hw & Hem).
  exists n, (mk_F1g (role f) f' (eof f), g'). cbn [write F1g_Writer]. unfold Write, on_txr.
  cbn [fst snd]. rewrite He. change (F1.Write d (tx f, g)) with (write d (tx f, g)).
  rewrite Hw. done.
Qed.
End laws.

(** ** The handshake *)

(** The session key the server draws: the first bytes of its random source. *)
Definition session_key (g : rng) : bytes := map g (seq 0 Crypt.KeySize).

Lemma length_session_key (g : rng) : length (session_key g) = Crypt.KeySize.
Proof. unfold session_key. by rewrite length_map, length_seq. Qed.

Lemma server_handshake {T} `{Reader T} `{WriterLaws T} (f : F1g T) (g : rng) (n : nat) :
  EqualFold (role f) (lit "server") = true → eof f = false →
  write_pre (tx f, g) n → 32 ≤ n →
  ∃ f' g' nonce w, handshake (f, g) = (Ok tt, (f', g')) ∧ eof f' = false ∧
    write_pre (tx f', g') n ∧ F1.psk (tx f') = session_key g ∧
    length nonce = 16 ∧ F1.is_frame (F1.psk (tx f)) (nonce ++ session_key g) w ∧
    emitted (F1.tx (tx f)) (F1.tx (tx f')) w.
Proof.
  intros Hr He Hp Hn. unfold handshake. cbv zeta.
  unfold mbind at 1, M_bind at 1, gets at 1. cbn [fst]. rewrite Hr.
  rewrite (bind_ok _ _ (f, g) (f, λ i, g (BlockSize + i)) (session_key g)) by reflexivity.
  destruct (rand_read_ok (Crypt.KeySize * 2) (λ i, g (BlockSize + i))) as (ch & g1 & Hch & Hl).
  run (run_snd _ f _ _ _ Hch).
  change (Crypt.KeySize * 2) with 32 in *. change Crypt.KeySize with 16 in *.
  set (chunk := copy_at 16 (session_key g) ch).
  pose proof (length_session_key g) as Hk. change Crypt.KeySize with 16 in Hk.
  assert (Hchunk : chunk = take 16 ch ++ session_key g).
  { unfold chunk. rewrite copy_at_fit by lia. f_equal. rewrite drop_ge by lia. apply app_nil_r. }
  assert (Hcl : length chunk = 32) by (rewrite Hchunk, length_app, length_take; lia).
  assert (Hp' : write_pre (tx f, g1) (length chunk)).
  { rewrite Hcl. destruct Hp as (Hk1 & Hs & Hp). split; [done|]. cbn [fst] in *. split; [lia|].
    eapply write_pre_mono; [exact Hp|lia]. }
  destruct (F1.Write_frame (tx f) g1 chunk Hp') as (k & w & t' & g' & Hw & Hf & _ & Hem & _).
  exists (mk_F1g (role f) (F1.mk_F1 t' (session_key g) (F1.bufRead (tx f)) (F1.lenBufRead (tx f))) false),
    g', (take 16 ch), w.
  split; [|split; [done|split; [|split; [done|split; [rewrite length_take; lia|split]]]]].
  - unfold try, mbind, M_bind, on_txr. cbn [fst snd]. rewrite Hw, He. reflexivity.
  - destruct Hp as (_ & Hs & Hp). cbn [fst tx F1.psk F1.tx] in *.
    split; [unfold key_size_ok; cbn [fst F1.psk]; by rewrite Hk|]. cbn [fst]. split; [done|].
    by eapply write_pre_emitted.
  - by rewrite Hchunk in Hf.
  - done.
Qed.

Lemma client_handshake {T} `{ReaderLaws T} `{Writer T} (f : F1g T) (g : rng)
    (nonce key w rest : bytes) :
  EqualFold (role f) (lit "server") = false → eof f = false → F1.lenBufRead (tx f) = 0 →
  length nonce = 16 → length key = 16 →
  F1.is_frame (F1.psk (tx f)) (nonce ++ key) w → delivers (F1.tx (tx f)) (w ++ rest) →
  ∃ f', handshake (f, g) = (Ok tt, (f', g)) ∧ eof f' = false ∧ F1.psk (tx f') = key ∧
        F1.lenBufRead (tx f') = 0 ∧ delivers (F1.tx (tx f')) rest.
Proof.
  intros Hr He Hl Hn Hk Hf Hd.
  destruct (F1.read_frame_ok (tx f) _ w rest Hf Hd) as (t' & Hrd & Hd' & _).
  set (b := F1.bufRead (tx f)) in *.
  assert (Hfull : ReadFull 32 (tx f) = (Ok (nonce ++ key), F1.mk_F1 t' (F1.psk (tx f)) b 0)).
  { unfold ReadFull. cbn [readAtLeast]. rewrite decide_False by (cbn; lia).
    cbn [length Nat.sub read F1.F1_Reader]. unfold F1.Read. rewrite decide_False by lia.
    unfold mbind, M_bind. rewrite Hrd, Hl. rewrite decide_False by (rewrite length_app; lia).
    unfold mret at 1, M_ret at 1. cbn [app].
    assert (H32 : 32 ≤ length (nonce ++ key)) by (rewrite length_app; lia).
    destruct (budget (tx f)); cbn [readAtLeast]; by rewrite decide_True by done. }
  exists (mk_F1g (role f) (F1.mk_F1 t' key b 0) false).
  split; [|done]. unfold handshake. cbv zeta.
  unfold mbind at 1, M_bind at 1, gets at 1. cbn [fst]. rewrite Hr.
  change (Crypt.KeySize * 2) with 32. change Crypt.KeySize with 16.
  unfold try, mbind, M_bind, on_tx. cbn [fst snd]. rewrite Hfull. unfold modify.
  unfold SetPSK, F1.SetPSK. cbn [fst snd tx F1.tx F1.psk F1.bufRead F1.lenBufRead role eof].
  by rewrite He, <- Hn, drop_app_length.
Qed.

(** ** Properties *)

(** C31: the negotiated framer: the server draws a session key and sends it
    under the pre-shared key in its first frame; a client with the same
    pre-shared key ends its handshake with that session key, and everything
    the server writes afterwards (encrypted under the session key) is what
    the client reads, then end of file. *)
Theorem f1g_session {S C} `{Reader S} `{WriterLaws S} `{ReaderLaws C} `{Writer C}
    (f : F1g S) (g : rng) (ds : list bytes) (n : nat) :
  EqualFold (role f) (lit "server") = true → write_pre (f, g) n → 32 ≤ n →
  Forall (λ d, length d ≤ n) ds →
  ∃ f1 g1 f2 g2 wire,
    handshake (f, g) = (Ok tt, (f1, g1)) ∧ write_all ds (f1, g1) = (Ok tt, (f2, g2)) ∧
    emitted (F1.tx (tx f)) (F1.tx (tx f2)) wire ∧ F1.psk (tx f1) = session_key g ∧
    ∀ (fc : F1g C) (gc : rng), EqualFold (role fc) (lit "server") = false → eof fc = false →
      F1.psk (tx fc) = F1.psk (tx f) → F1.lenBufRead (tx fc) = 0 →
      delivers (F1.tx (tx fc)) wire →
      ∃ fc1 fc2, handshake (fc, gc) = (Ok tt, (fc1, gc)) ∧ F1.psk (tx fc1) = session_key g ∧
        ReadFull (length (concat ds)) fc1 = (Ok (concat ds), fc2) ∧ (ReadFull 1 fc2).1 = Err EOF.
Proof.
  intros Hr [He Hp] Hn Hds.
  destruct (server_handshake f g n Hr He Hp Hn)
    as (f1 & g1 & nonce & w1 & Hh & He1 & Hp1 & Hk1 & Hnon & Hf1 & Hem1).
  assert (Hp1' : write_pre (f1, g1) n) by done.
  destruct (write_all_ok ds (f1, g1) n Hp1' Hds) as ([f2 g2] & Hw & [_ Hem2]).
  destruct Hem2 as (ps & w2 & Hf2 & Hps & Hem2 & _). cbn [fst snd] in *.
  exists f1, g1, f2, g2, (w1 ++ w2).
  split; [done|]. split; [done|]. split; [by eapply emitted_app|]. split; [done|].
  intros fc gc Hrc Hec Hkc Hlc Hdc. rewrite <- Hkc in Hf1.
  destruct (client_handshake fc gc nonce (session_key g) w1 w2 Hrc Hec Hlc Hnon
              (length_session_key g) Hf1 Hdc) as (fc1 & Hhc & Hec1 & Hkc1 & Hlc1 & Hdc1).
  assert (Hdel : delivers fc1 (concat ds)).
  { split; [done|]. rewrite Hps. eapply framed_fresh; [by cbn; rewrite Hlc1| | |done].
    - cbn. lia.
    - cbn [frame F1.F1_Framed]. by rewrite Hkc1, <- Hk1. }
  destruct (ReadFull_all fc1 _ Hdel) as (fc2 & Hrd & _ & Heof). eauto 10.
Qed.

Definition sample_f1g (r : bytes) (wire : list bytes) : F1g (Duplex.duplex Conn.conn Buf.buffer) :=
  mk_F1g r (F1.mk_F1 (Duplex.mk_duplex (Conn.mk_conn wire) (Buf.mk_buffer [])) F1.sample_key [] 0) false.

Lemma f1g_session_witness :
  ∃ f1 g1 f2 g2 wire,
    handshake (sample_f1g (lit "Server") [], F1.sample_bytes) = (Ok tt, (f1, g1)) ∧
    write_all [lit "hello"; lit "world!"] (f1, g1) = (Ok tt, (f2, g2)) ∧
    emitted (F1.tx (tx (sample_f1g (lit "Server") []))) (F1.tx (tx f2)) wire ∧
    F1.psk (tx f1) = session_key F1.sample_bytes ∧
    ∀ (fc : F1g (Duplex.duplex Conn.conn Buf.buffer)) (gc : rng),
      EqualFold (role fc) (lit "server") = false → eof fc = false →
      F1.psk (tx fc) = F1.sample_key → F1.lenBufRead (tx fc) = 0 →
      delivers (F1.tx (tx fc)) wire →
      ∃ fc1 fc2, handshake (fc, gc) = (Ok tt, (fc1, gc)) ∧
        F1.psk (tx fc1) = session_key F1.sample_bytes ∧
        ReadFull 11 fc1 = (Ok (lit "helloworld!"), fc2) ∧ (ReadFull 1 fc2).1 = Err EOF.
Proof.
  apply (f1g_session (sample_f1g (lit "Server") []) F1.sample_bytes [lit "hello"; lit "world!"] 32).
  - vm_compute. reflexivity.
  - split; [reflexivity|]. split; [reflexivity|]. split; [vm_compute; reflexivity|]. exact I.
  - lia.
  - repeat (apply Forall_cons; split; [cbn; lia|]). by apply Forall_nil.
Defined.
End F1g.
