(* ===== verification/FramerWs.v ===== *)
(** Package [transport/framer/ws]: the framer that sends each encrypted chunk
    as one binary WebSocket frame (src/transport/framer/ws/ws.go). *)
From S2P Require Import Prelude GoIO Framing Strconv Base64 Conf Aes FramerF1.

Module Ws.
Definition Encrypt (key dat : bytes) : M rng bytes := Crypt.Encrypt key dat.
Definition Decrypt (key dat : bytes) : outcome bytes := Crypt.Decrypt key dat.

Record Ws (T : Type) := mk_Ws {
  tx : T;
  psk : bytes;
  mask : bool;
  bufRead : bytes;
  lenBufRead : nat;
}.
Arguments mk_Ws {T} tx psk mask bufRead lenBufRead.
Arguments tx {T}.
Arguments psk {T}.
Arguments mask {T}.
Arguments bufRead {T}.
Arguments lenBufRead {T}.

(** A computation on the underlying transport. *)
Definition on_tx {T A} (m : M T A) : M (Ws T) A := λ f,
  let '(r, t) := m (tx f) in (r, mk_Ws t (psk f) (mask f) (bufRead f) (lenBufRead f)).

Definition SetPSK {T} (key : bytes) (f : Ws T) : Ws T :=
  mk_Ws (tx f) key (mask f) (bufRead f) (lenBufRead f).

Definition appendBuf {T} (dat : bytes) (f : Ws T) : Ws T :=
  let sizeAfter := lenBufRead f + length dat in
  if decide (length (bufRead f) < sizeAfter) then
    let buf := make_bytes sizeAfter in
    let buf := copy_at 0 (take (lenBufRead f) (bufRead f)) buf in
    let buf := copy_at (lenBufRead f) dat buf in
    mk_Ws (tx f) (psk f) (mask f) buf sizeAfter
  else mk_Ws (tx f) (psk f) (mask f) (copy_at (lenBufRead f) dat (bufRead f)) sizeAfter.

(** Serving a read of [n] bytes from the left-over of an earlier frame. *)
Definition take_buffered {T} (n : nat) : M (Ws T) bytes := λ f,
  let size := if decide (lenBufRead f < n) then lenBufRead f else n in
  (Ok (take size (bufRead f)),
   mk_Ws (tx f) (psk f) (mask f) (copy_at 0 (drop size (bufRead f)) (bufRead f))
     (lenBufRead f - size)).

(** [for i, v := range chunkEnc { chunkEnc[i] = v ^ mask[i%4] }]. *)
Definition apply_mask (m chunk : bytes) : bytes :=
  imap (λ i v, byte_xor v (nth_byte m (i mod 4))) chunk.

(** The payload length of a frame, from its second byte and the 0, 2 or 8
    bytes after it; [int(uint64)] may be negative. *)
Definition read_size {T} `{Reader T} (sizeBase : Z) : M (Ws T) Z :=
  if (sizeBase <? 126)%Z then mret sizeBase
  else if (sizeBase =? 126)%Z then sizeb ← on_tx (ReadFull 2); mret (get_be sizeb)
  else sizeb ← on_tx (ReadFull 8); mret (int64 (get_be sizeb)).

(** One frame from the transport, unmasked and decrypted. *)
Definition read_frame {T} `{Reader T} : M (Ws T) bytes :=
  header ← on_tx (ReadFull 2);
  let h0 := byte_val (nth_byte header 0) in
  let h1 := byte_val (nth_byte header 1) in
  let fin := (0 <? Z.land h0 (Z.shiftl 1 7))%Z in
  let opCode := Z.land h0 15 in
  if negb fin || negb (opCode =? 2)%Z then throw EOF else
  let masking := (0 <? Z.land h1 (Z.shiftl 1 7))%Z in
  let sizeBase := Z.land h1 127 in
  size ← read_size sizeBase;
  client ← gets mask;
  if eqb masking client then throw (Errorf (lit "mask error in receiving frame.") []) else
  m ← (if masking then on_tx (ReadFull 4) else mret []);
  size ← lift (make_slice size);
  chunkEnc ← on_tx (ReadFull size);
  let chunkEnc := if decide (0 < length m) then apply_mask m chunkEnc else chunkEnc in
  key ← gets psk;
  lift (Decrypt key chunkEnc).

(** [Ws.Read] with a buffer of [n] bytes. *)
Definition Read {T} `{Reader T} (n : nat) : M (Ws T) bytes := λ f,
  if decide (0 < lenBufRead f) then take_buffered n f
  else (chunk ← read_frame;
        if decide (n < length chunk) then
          _ ← modify (appendBuf (drop n chunk)); mret (take n chunk)
        else mret chunk) f.

(** The first bytes of a frame of [size] payload bytes, room for the mask
    included. *)
Definition frame_header (size : nat) (client : bool) : bytes :=
  let sizeExtra := if decide (125 < size)
                   then (if decide (2 ^ 16 ≤ Z.of_nat size)%Z then 8 else 2) else 0 in
  let maskSize := if client then 4 else 0 in
  let header := make_bytes (2 + sizeExtra + maskSize) in
  let header := <[0 := byte_of 130]> header in
  let header :=
    if decide (size ≤ 125) then <[1 := byte_of (Z.of_nat size)]> header
    else if decide (sizeExtra = 2)
    then copy_at 2 (put_be 2 (Z.of_nat size)) (<[1 := byte_of 126]> header)
    else copy_at 2 (put_be 8 (Z.of_nat size)) (<[1 := byte_of 127]> header) in
  if client
  then <[1 := byte_of (Z.lor (byte_val (nth_byte header 1)) (Z.shiftl 1 7))]> header
  else header.

Definition Write {T} `{Writer T} (dat : bytes) : M (Ws T * rng) Z :=
  key ← gets (λ s, psk s.1);
  client ← gets (λ s, mask s.1);
  chunkEnc ← on_snd (Encrypt key dat);
  let size := length chunkEnc in
  let header := frame_header size client in
  hc ← (if client : bool then
          m ← on_snd (rand_read 4);
          mret (copy_at (length header - 4) m header, apply_mask m chunkEnc)
        else mret (header, chunkEnc));
  let '(header, chunkEnc) := hc in
  let chunkFin := copy_at (length header) chunkEnc
                    (copy_at 0 header (make_bytes (length header + size))) in
  on_fst (on_tx (write chunkFin)).

(** The transport is only asked to read and write; [closer] is what the type
    assertion to [io.Closer] finds. *)
Definition Close {T} (closer : option (Closer T)) : M (Ws T) unit :=
  match closer with Some c => on_tx close | None => mret tt end.

(** The constructor; its key derivation is that of [f1.Framer]. *)
Definition Framer {T} (t : T) (cfg : Conf.Values) : outcome (Ws T) :=
  key ← F1.derive_key (Conf.Get Conf.FRAMER_PSK cfg) (Conf.Get Conf.FRAMER_TIMESTAMP cfg);
  Ok (mk_Ws t key (EqualFold (Conf.Get Conf.FRAMER_ROLE cfg) (lit "client"))
        (make_bytes (Z.to_nat Conf.DEFAULT_BUFFER_SIZE)) 0).

(** ** Frames on the wire *)

(** The length field: seven bits, or 16 or 64 bits behind an escape. *)
Definition size_field (size : nat) : Z * bytes :=
  if decide (size ≤ 125) then (Z.of_nat size, [])
  else if decide (Z.of_nat size < 2 ^ 16)%Z then (126%Z, put_be 2 (Z.of_nat size))
  else (127%Z, put_be 8 (Z.of_nat size)).

Definition header_bytes (size : nat) (client : bool) (m : bytes) : bytes :=
  byte_of 130 :: byte_of ((size_field size).1 + (if client then 128 else 0)) ::
  (size_field size).2 ++ m.

(** [is_frame key client p w]: the bytes [w] are one frame, sent by the client
    if [client], that carries the payload [p] under [key]. *)
Definition is_frame (key : bytes) (client : bool) (p w : bytes) : Prop :=
  ∃ m ct, w = header_bytes (length ct) client m ++ (if client then apply_mask m ct else ct) ∧
    length m = (if client then 4 else 0) ∧ (len ct ≤ max_alloc)%Z ∧ Decrypt key ct = Ok p.

Lemma length_apply_mask (m c : bytes) : length (apply_mask m c) = length c.
Proof. apply length_imap. Qed.

Lemma apply_mask_involutive (m c : bytes) : apply_mask m (apply_mask m c) = c.
Proof.
  apply list_eq. intros i. unfold apply_mask. rewrite !list_lookup_imap.
  destruct (c !! i) as [b|]; [|done]. cbn. by rewrite byte_xor_involutive.
Qed.

Lemma land_fin (b : byte) : (0 <? Z.land (byte_val b) (Z.shiftl 1 7))%Z = (128 <=? byte_val b)%Z.
Proof. destruct b; reflexivity. Qed.

Lemma land_base (b : byte) : Z.land (byte_val b) 127 = (byte_val b mod 128)%Z.
Proof. destruct b; reflexivity. Qed.

Lemma lor_masked (b : byte) :
  (byte_val b < 128)%Z → Z.lor (byte_val b) (Z.shiftl 1 7) = (byte_val b + 128)%Z.
Proof. destruct b; intros; try reflexivity; done. Qed.

Lemma size_field_range (size : nat) : (0 ≤ (size_field size).1 < 128)%Z.
Proof. unfold size_field. repeat case_decide; cbn; lia. Qed.

Lemma length_header_bytes (size : nat) (client : bool) (m : bytes) :
  length m = (if client then 4 else 0) →
  2 ≤ length (header_bytes size client m) ≤ 14.
Proof.
  intros Hm. unfold header_bytes, size_field. repeat case_decide; cbn [length snd fst];
    autorewrite with df; cbn [length]; destruct client; lia.
Qed.

(** The header [Write] builds is the one described above. *)
Lemma frame_header_bytes (size : nat) (client : bool) (m : bytes) :
  length m = (if client then 4 else 0) →
  copy_at (length (frame_header size client) - length m) m (frame_header size client)
  = header_bytes size client m.
Proof.
  intros Hm.
  assert (Hlor : ∀ z, (0 ≤ z < 128)%Z →
    byte_of (Z.lor (byte_val (byte_of z)) (Z.shiftl 1 7)) = byte_of (z + 128)).
  { intros z Hz. rewrite lor_masked by (rewrite byte_val_of, Z.mod_small; lia).
    by rewrite byte_val_of, Z.mod_small by lia. }
  destruct client; [destruct m as [|a [|b [|c [|d [|? ?]]]]] | destruct m]; try done.
  - unfold frame_header, header_bytes, size_field. repeat case_decide; try lia; cbv zeta.
    + cbn [Nat.add make_bytes replicate insert list_insert nth_byte nth]. rewrite Hlor by lia. done.
    + cbn [Nat.add make_bytes replicate insert list_insert nth_byte nth].
      done.
    + cbn [Nat.add make_bytes replicate insert list_insert nth_byte nth].
      done.
  - unfold frame_header, header_bytes, size_field. repeat case_decide; try lia; cbv zeta.
    + cbn. by rewrite Z.add_0_r.
    + done.
    + done.
Qed.

(** ** The framer as a reader *)
#[global] Instance Ws_Reader {T} `{Reader T} : Reader (Ws T) :=
  { read := Read;
    budget := λ f, length (take (lenBufRead f) (bufRead f)) + budget (tx f) }.

Section reader.
Context {T : Type} `{ReaderLaws T}.

Lemma ws_run_on_tx {A} (m : M T A) (f : Ws T) (r : outcome A) (t' : T) :
  m (tx f) = (r, t') → on_tx m f = (r, mk_Ws t' (psk f) (mask f) (bufRead f) (lenBufRead f)).
Proof. intros E. unfold on_tx. by rewrite E. Qed.

(** The state after the transport has moved on to [t']. *)
Definition moved (f : Ws T) (t' : T) : Ws T :=
  mk_Ws t' (psk f) (mask f) (bufRead f) (lenBufRead f).

Lemma read_size_ok (f : Ws T) (size : nat) (rest : bytes) :
  (Z.of_nat size ≤ max_alloc)%Z → delivers (tx f) ((size_field size).2 ++ rest) →
  ∃ t', read_size (size_field size).1 f = (Ok (Z.of_nat size), moved f t') ∧
        delivers t' rest ∧ budget t' ≤ budget (tx f).
Proof.
  intros Hs. unfold size_field, read_size, max_alloc in *.
  repeat case_decide; cbn [fst snd app]; intros Hd.
  - destruct (Z.ltb_spec (Z.of_nat size) 126); [|lia].
    exists (tx f). by destruct f.
  - cbn [Z.ltb Z.eqb Z.compare Pos.compare Pos.compare_cont Pos.eqb].
    destruct (ReadFull_app 2 (tx f) _ _ Hd) as (t' & Hr & Hd' & Hb & _);
      [by rewrite length_put_be|].
    exists t'. run (ws_run_on_tx _ f _ _ Hr).
    rewrite (get_be_put_small 2) by (cbn; lia). split; [done|]. split; [done|lia].
  - cbn [Z.ltb Z.eqb Z.compare Pos.compare Pos.compare_cont Pos.eqb].
    destruct (ReadFull_app 8 (tx f) _ _ Hd) as (t' & Hr & Hd' & Hb & _);
      [by rewrite length_put_be|].
    exists t'. run (ws_run_on_tx _ f _ _ Hr).
    rewrite (get_be_put_small 8), int64_small by (cbn; lia). split; [done|]. split; [done|lia].
Qed.

Lemma read_mask_ok (f : Ws T) (client : bool) (m rest : bytes) :
  length m = (if client then 4 else 0) → delivers (tx f) (m ++ rest) →
  ∃ t', (if client then on_tx (ReadFull 4) else mret []) f = (Ok m, moved f t') ∧
        delivers t' rest ∧ budget t' ≤ budget (tx f).
Proof.
  intros Hm Hd. destruct client.
  - destruct (ReadFull_app 4 (tx f) m rest Hd) as (t' & Hr & Hd' & Hb & _); [done|].
    exists t'. split; [by apply ws_run_on_tx|]. split; [done|lia].
  - destruct m; [|done]. exists (tx f). by destruct f.
Qed.

Lemma ws_read_frame_ok (f : Ws T) (p w rest : bytes) :
  is_frame (psk f) (negb (mask f)) p w → delivers (tx f) (w ++ rest) →
  ∃ t', read_frame f = (Ok p, moved f t') ∧ delivers t' rest ∧
        18 + length p + budget t' ≤ budget (tx f).
Proof.
  intros (m & ct & -> & Hm & Hct & Hdec) Hd. set (c := negb (mask f)) in *.
  set (body := if c then _ else _) in Hd.
  assert (Hbl : length body = length ct) by (unfold body; destruct c; [apply length_apply_mask|done]).
  pose proof (Crypt.Decrypt_length _ _ _ Hdec) as Hlen. pose proof (len_nonneg ct).
  pose proof (size_field_range (length ct)) as Hsf.
  set (b1 := byte_of ((size_field (length ct)).1 + (if c then 128 else 0))) in *.
  assert (Hb1 : byte_val b1 = ((size_field (length ct)).1 + (if c then 128 else 0))%Z).
  { unfold b1. rewrite byte_val_of, Z.mod_small; [done|]. destruct c; lia. }
  unfold header_bytes in Hd. fold b1 in Hd. cbn [app] in Hd. rewrite <- !app_assoc in Hd.
  destruct (ReadFull_app 2 (tx f) [byte_of 130; b1] _ Hd eq_refl) as (t1 & R1 & Hd1 & B1 & _).
  destruct (read_size_ok (moved f t1) (length ct) _ Hct Hd1) as (t2 & R2 & Hd2 & B2).
  destruct (read_mask_ok (moved f t2) c m _ Hm Hd2) as (t3 & R3 & Hd3 & B3).
  destruct (ReadFull_app (length ct) t3 body rest Hd3) as (t4 & R4 & Hd4 & B4 & _); [done|].
  exists t4. cbn [moved tx] in *. split; [|split; [done|unfold BlockSize in *; lia]].
  unfold read_frame. run (ws_run_on_tx _ f _ _ R1). cbv zeta. cbn [nth_byte nth].
  change (negb (0 <? Z.land (byte_val (byte_of 130)) (Z.shiftl 1 7))%Z
          || negb (Z.land (byte_val (byte_of 130)) 15 =? 2)%Z) with false. cbn match.
  rewrite land_fin, land_base, Hb1.
  replace (128 <=? _)%Z with c by (destruct c; symmetry; [apply Z.leb_le|apply Z.leb_gt]; lia).
  replace (_ mod 128)%Z with (size_field (length ct)).1 by (destruct c; zdm).
  unfold moved in *. cbn [tx psk mask bufRead lenBufRead] in *. run R2.
  unfold mbind at 1, M_bind at 1, gets at 1. cbn [mask].
  replace (eqb c (mask f)) with false by (unfold c; by destruct (mask f)). run R3.
  rewrite (bind_ok _ _ _ (mk_Ws t3 (psk f) (mask f) (bufRead f) (lenBufRead f)) (length ct))
    by (unfold lift; rewrite make_slice_ok by (unfold len in *; lia); by rewrite Nat2Z.id).
  run (ws_run_on_tx _ (mk_Ws t3 (psk f) (mask f) (bufRead f) (lenBufRead f)) _ _ R4).
  replace (if decide (0 < length m) then apply_mask m body else body) with ct;
    [unfold mbind, M_bind, gets, lift; cbn [psk]; by rewrite Hdec|].
  unfold body. destruct c; rewrite Hm.
  - rewrite decide_True by lia. by rewrite apply_mask_involutive.
  - by rewrite decide_False by lia.
Qed.

Lemma ws_appendBuf_spec (dat : bytes) (f : Ws T) :
  lenBufRead f ≤ length (bufRead f) →
  let f' := appendBuf dat f in
  tx f' = tx f ∧ psk f' = psk f ∧ mask f' = mask f ∧ lenBufRead f' ≤ length (bufRead f') ∧
  take (lenBufRead f') (bufRead f') = take (lenBufRead f) (bufRead f) ++ dat.
Proof.
  intros Hl. unfold appendBuf. case_decide as Hc; cbn [tx psk mask lenBufRead bufRead].
  - rewrite left_over_grow by done. repeat split; [rewrite length_app, length_take; lia|].
    apply take_ge. rewrite length_app, length_take. lia.
  - repeat split; [rewrite length_copy_at; lia|]. by rewrite take_copy_at_ext by lia.
Qed.

#[global] Program Instance Ws_Framed : Framed T (Ws T) :=
  { transport := tx; left_over := λ f, take (lenBufRead f) (bufRead f);
    sound_buf := λ f, lenBufRead f ≤ length (bufRead f);
    frame := λ f, is_frame (psk f) (negb (mask f));
    next_frame := read_frame; take_left := take_buffered; keep := appendBuf }.
Next Obligation.
  intros f p w rest Hl Hf Hd. destruct (ws_read_frame_ok f p w rest Hf Hd) as (t' & Hr & Hd' & Hb).
  eexists. split; [exact Hr|]. cbn [moved tx psk mask bufRead lenBufRead].
  repeat split; [done..|lia].
Qed.
Next Obligation.
  intros f Hl Hd. destruct (ReadFull_short 2 (tx f) [] Hd) as (t' & Hr & Hd' & Hb); [cbn; lia|].
  eexists. split; [unfold read_frame; by run (ws_run_on_tx _ f _ _ Hr)|]. done.
Qed.
Next Obligation.
  cbn beta. intros f n Hl. unfold take_buffered. set (size := if decide _ then _ else _).
  assert (Hsz : size = n `min` lenBufRead f) by (unfold size; case_decide; lia).
  eexists. split; [rewrite take_take, <- Hsz; reflexivity|].
  cbn [tx psk mask bufRead lenBufRead]. split; [|split; [done|split; [done|]]].
  - rewrite left_over_shift by lia. rewrite Hsz.
    destruct (Nat.min_spec n (lenBufRead f)) as [[? ->]|[? ->]]; [done|].
    by rewrite !drop_ge by (rewrite length_take; lia).
  - rewrite length_copy_at; lia.
Qed.
Next Obligation.
  intros f d Hl. destruct (ws_appendBuf_spec d f Hl) as (? & E & E' & ? & ?). by rewrite E, E'.
Qed.

#[global] Program Instance Ws_laws : ReaderLaws (Ws T) := { delivers := framed_delivers }.
Next Obligation.
  intros f bs n Hd Hn. cbn [read budget Ws_Reader].
  replace (Read n f) with (framed_read n f); [exact (framed_read_law f bs n Hd Hn)|].
  destruct Hd as (_ & _ & _ & _ & Hl & _). cbn in Hl. unfold framed_read, Read.
  cbn [left_over Ws_Framed]. rewrite length_take, Nat.min_l by done. reflexivity.
Qed.
End reader.

(** ** The framer as a writer *)

(** Frame header, mask and initialisation vector. *)
Definition max_overhead : nat := 30.

Section writer.
Context {W : Type} `{WriterLaws W}.

#[global] Instance Ws_Writer : Writer (Ws W * rng) := { write := Write }.

Definition Ws_write_pre (s : Ws W * rng) (n : nat) : Prop :=
  key_size_ok (psk s.1) = true ∧ (Z.of_nat (n + max_overhead) ≤ max_alloc)%Z ∧
  write_pre (tx s.1) (n + max_overhead).

Definition Ws_emitted (s s' : Ws W * rng) (d : bytes) : Prop :=
  ∃ ps w, are_frames (is_frame (psk s.1) (mask s.1)) ps w ∧ d = concat ps ∧
          emitted (tx s.1) (tx s'.1) w ∧ psk s'.1 = psk s.1 ∧ mask s'.1 = mask s.1.

(** [Ws.Write] sends one frame that carries the data, in a single write of the
    transport, whose count it returns. *)
Lemma Write_ws_frame (f : Ws W) (g : rng) (d : bytes) :
  Ws_write_pre (f, g) (length d) →
  ∃ n w t' g', Write d (f, g)
      = (Ok n, (mk_Ws t' (psk f) (mask f) (bufRead f) (lenBufRead f), g')) ∧
    is_frame (psk f) (mask f) d w ∧ write w (tx f) = (Ok n, t') ∧ emitted (tx f) t' w ∧
    18 + length d ≤ length w ≤ length d + max_overhead.
Proof.
  intros (Hk & Hsz & Hp). cbn [fst] in *.
  destruct (Crypt.Encrypt_ok (psk f) d g Hk) as (ct & g1 & He & Hcl & Hdec).
  unfold max_overhead, BlockSize in *.
  assert (Hm : ∃ m g', length m = (if mask f then 4 else 0) ∧
    (if mask f then
       m ← on_snd (rand_read 4);
       mret (copy_at (length (frame_header (length ct) (mask f)) - 4) m
               (frame_header (length ct) (mask f)), apply_mask m ct)
     else mret (frame_header (length ct) (mask f), ct)) (f, g1)
    = (Ok (header_bytes (length ct) (mask f) m, if mask f then apply_mask m ct else ct), (f, g'))).
  { destruct (mask f) eqn:Em.
    - destruct (rand_read_ok 4 g1) as (m & g' & Hr & Hl). exists m, g'. split; [done|].
      run (run_snd _ f _ _ _ Hr). rewrite <- (frame_header_bytes _ true m Hl), Hl. done.
    - exists [], g1. split; [done|]. rewrite <- (frame_header_bytes _ false [] eq_refl).
      cbn [length]. rewrite Nat.sub_0_r. unfold copy_at. rewrite take_nil.
      cbn [app length]. by rewrite Nat.add_0_r, take_drop. }
  destruct Hm as (m & g' & Hml & Hmask).
  set (hdr := header_bytes (length ct) (mask f) m) in *.
  set (body := if mask f then apply_mask m ct else ct) in *.
  assert (Hbl : length body = length ct)
    by (unfold body; destruct (mask f); [apply length_apply_mask|done]).
  pose proof (length_header_bytes (length ct) (mask f) m Hml) as Hh. fold hdr in Hh.
  destruct (write_law (tx f) (hdr ++ body)) as (n & t' & Hw & Hem);
    [eapply write_pre_mono; [exact Hp|rewrite length_app; lia]|].
  exists n, (hdr ++ body), t', g'.
  split; [|split; [|split; [done|split; [done|rewrite length_app; lia]]]].
  - unfold Write. unfold mbind at 1, M_bind at 1, gets at 1. cbn [fst].
    unfold mbind at 1, M_bind at 1, gets at 1. cbn [fst].
    run (run_snd _ f _ _ _ He). cbv zeta. run Hmask. cbn match.
    rewrite copy_two by lia. apply run_fst. by apply ws_run_on_tx.
  - exists m, ct. unfold len. repeat split; [done|lia|done].
Qed.

Lemma Ws_write_law (s : Ws W * rng) (d : bytes) :
  Ws_write_pre s (length d) → ∃ n s', write d s = (Ok n, s') ∧ Ws_emitted s s' d.
Proof.
  destruct s as [f g]. intros Hp.
  destruct (Write_ws_frame f g d Hp) as (n & w & t' & g' & Hw & Hf & _ & He & _).
  do 2 eexists. split; [exact Hw|]. exists [d], w. cbn [fst tx psk mask concat].
  rewrite app_nil_r. repeat split; [by apply are_frames_one | done].
Qed.

#[global] Program Instance Ws_writer_laws : WriterLaws (Ws W * rng) :=
  { write_pre := Ws_write_pre; emitted := Ws_emitted; write_law := Ws_write_law }.
Next Obligation.
  intros [f g]. exists [], []. repeat split; [apply are_frames_nil | apply emitted_nil].
Qed.
Next Obligation.
  cbn beta. intros s1 s2 s3 a b (ps & w & Hf & -> & He & Hk & Hm) (ps' & w' & Hf' & -> & He' & Hk' & Hm').
  exists (ps ++ ps'), (w ++ w'). rewrite Hk, Hm in Hf'. rewrite Hk in Hk'. rewrite Hm in Hm'.
  rewrite concat_app. repeat split; [by apply are_frames_app | by eapply emitted_app | done..].
Qed.
Next Obligation.
  cbn beta. intros s m n (Hk & Hs & Hp) Hle. split; [done|]. split; [lia|].
  eapply write_pre_mono; [exact Hp|lia].
Qed.
Next Obligation.
  cbn beta. intros s s' d n (Hk & Hs & Hp) (ps & w & _ & _ & He & Hkk & _).
  split; [by rewrite Hkk|]. split; [done|]. by eapply write_pre_emitted.
Qed.
End writer.

(** ** Properties *)

(** C28: the WebSocket framer is a transparent channel between the two roles:
    what one side writes in any chunks (of any size, across the 125-byte and
    64-KiB length encodings), over any transport, the side of the opposite
    role with the same key reads back as the same byte stream, then end of
    file, however the wire's bytes are cut and whatever the masks. *)
Theorem ws_transparent {W R} `{WriterLaws W} `{ReaderLaws R} (f : Ws W) (g : rng)
    (ds : list bytes) (n : nat) :
  write_pre (f, g) n → Forall (λ d, length d ≤ n) ds →
  ∃ f' g' wire, write_all ds (f, g) = (Ok tt, (f', g')) ∧ emitted (tx f) (tx f') wire ∧
    ∀ fr : Ws R, psk fr = psk f → mask fr = negb (mask f) → lenBufRead fr = 0 →
    delivers (tx fr) wire →
    ∃ fr', ReadFull (length (concat ds)) fr = (Ok (concat ds), fr') ∧
           delivers fr' [] ∧ (ReadFull 1 fr').1 = Err EOF.
Proof.
  intros Hp Hds. destruct (write_all_ok ds (f, g) n Hp Hds) as ([f' g'] & Hw & He).
  destruct He as (ps & wire & Hf & Hps & He & Hk). cbn [fst] in *.
  exists f', g', wire. split; [done|]. split; [done|]. intros fr Hkr Hm Hl Hd.
  apply ReadFull_all. rewrite Hps. eapply framed_fresh; [by cbn; rewrite Hl| | |done].
  - cbn. lia.
  - cbn [frame Ws_Framed]. by rewrite Hkr, Hm, negb_involutive.
Qed.

Definition sample_client : Ws Buf.buffer := mk_Ws (Buf.mk_buffer []) F1.sample_key true [] 0.

Lemma ws_transparent_witness :
  ∃ f' g' wire,
    write_all [lit "hello"; []; lit "world!"] (sample_client, F1.sample_bytes) = (Ok tt, (f', g')) ∧
    emitted (Buf.mk_buffer []) (tx f') wire ∧
    ∀ fr : Ws Conn.conn, psk fr = F1.sample_key → mask fr = false → lenBufRead fr = 0 →
    delivers (tx fr) wire →
    ∃ fr', ReadFull 11 fr = (Ok (lit "helloworld!"), fr') ∧
           delivers fr' [] ∧ (ReadFull 1 fr').1 = Err EOF.
Proof.
  apply (ws_transparent sample_client F1.sample_bytes [lit "hello"; []; lit "world!"] 6).
  - split; [reflexivity|]. split; [vm_compute; discriminate|]. exact I.
  - repeat (apply Forall_cons; split; [cbn; lia|]). by apply Forall_nil.
Defined.

(** The side that shares the sender's role refuses its frames: a frame
    whose mask bit equals the reader's own mask flag is an error, after at
    most the length field has been consumed. *)
Theorem ws_wrong_role {W R} `{WriterLaws W} `{ReaderLaws R} (f : Ws W) (g : rng) (d : bytes) :
  write_pre (f, g) (length d) →
  ∃ n f' g' wire, Write d (f, g) = (Ok n, (f', g')) ∧ emitted (tx f) (tx f') wire ∧
    ∀ (fr : Ws R) (k : nat), mask fr = mask f → lenBufRead fr = 0 → delivers (tx fr) wire →
    (Read k fr).1 = Err (Errorf (lit "mask error in receiving frame.") []).
Proof.
  intros Hp. destruct (Write_ws_frame f g d Hp) as (n & w & t' & g' & Hw & Hf & _ & He & _).
  do 4 eexists. split; [exact Hw|]. split; [exact He|]. intros fr k Hm Hl Hd.
  destruct Hf as (m & ct & -> & Hml & Hct & _). rewrite <- Hm in *. set (c := mask fr) in *.
  pose proof (size_field_range (length ct)) as Hsf.
  set (b1 := byte_of ((size_field (length ct)).1 + (if c then 128 else 0))) in *.
  assert (Hb1 : byte_val b1 = ((size_field (length ct)).1 + (if c then 128 else 0))%Z).
  { unfold b1. rewrite byte_val_of, Z.mod_small; [done|]. destruct c; lia. }
  unfold header_bytes in Hd. fold b1 in Hd. cbn [app] in Hd. rewrite <- !app_assoc in Hd.
  destruct (ReadFull_app 2 (tx fr) [byte_of 130; b1] _ Hd eq_refl) as (t1 & R1 & Hd1 & _).
  destruct (read_size_ok (moved fr t1) (length ct) _ Hct Hd1) as (t2 & R2 & _).
  unfold Read. rewrite decide_False by lia. unfold read_frame.
  unfold mbind at 1, M_bind at 1. run (ws_run_on_tx _ fr _ _ R1). cbv zeta. cbn [nth_byte nth].
  change (negb (0 <? Z.land (byte_val (byte_of 130)) (Z.shiftl 1 7))%Z
          || negb (Z.land (byte_val (byte_of 130)) 15 =? 2)%Z) with false. cbn match.
  rewrite land_fin, land_base, Hb1.
  replace (128 <=? _)%Z with c by (destruct c; symmetry; [apply Z.leb_le|apply Z.leb_gt]; lia).
  replace (_ mod 128)%Z with (size_field (length ct)).1 by (destruct c; zdm).
  unfold moved in *. run R2. unfold mbind, M_bind, gets. cbn [mask].
  replace (eqb c (mask fr)) with true by (unfold c; by destruct (mask fr)). done.
Qed.

Lemma ws_wrong_role_witness :
  ∃ n f' g' wire, Write (lit "hello") (sample_client, F1.sample_bytes) = (Ok n, (f', g')) ∧
    emitted (Buf.mk_buffer []) (tx f') wire ∧
    ∀ (fr : Ws Conn.conn) (k : nat), mask fr = true → lenBufRead fr = 0 → delivers (tx fr) wire →
    (Read k fr).1 = Err (Errorf (lit "mask error in receiving frame.") []).
Proof.
  apply (ws_wrong_role sample_client F1.sample_bytes (lit "hello")).
  split; [reflexivity|]. split; [vm_compute; discriminate|]. exact I.
Defined.

(** A frame whose 64-bit length field has its top bit set makes the reader
    allocate a negative length: [Read] panics instead of returning an error,
    on fourteen bytes of unauthenticated input. *)
Theorem ws_negative_length_panics {R} `{ReaderLaws R} (f : Ws R) (k : nat) (v : Z) (m rest : bytes) :
  lenBufRead f = 0 → (2 ^ 63 ≤ v < 2 ^ 64)%Z → length m = (if mask f then 0 else 4) →
  delivers (tx f)
    (byte_of 130 :: byte_of (127 + (if mask f then 0 else 128)) :: put_be 8 v ++ m ++ rest) →
  (Read k f).1 = Panic.
Proof.
  intros Hl Hv Hm Hd.
  destruct (ReadFull_app 2 (tx f) [byte_of 130; byte_of (127 + (if mask f then 0 else 128))] _ Hd eq_refl)
    as (t1 & R1 & Hd1 & _).
  destruct (ReadFull_app 8 t1 (put_be 8 v) _ Hd1) as (t2 & R2 & Hd2 & _);
    [by rewrite length_put_be|].
  destruct (read_mask_ok (moved f t2) (negb (mask f)) m rest) as (t3 & R3 & _);
    [by destruct (mask f) | done |].
  assert (Hneg : make_slice (int64 (get_be (put_be 8 v))) = Panic).
  { apply make_slice_negative. rewrite (get_be_put_small 8) by (cbn; lia). unfold int64. zdm. }
  unfold Read. rewrite decide_False by lia. unfold read_frame.
  unfold mbind at 1, M_bind at 1. run (ws_run_on_tx _ f _ _ R1). cbv zeta. cbn [nth_byte nth].
  change (negb (0 <? Z.land (byte_val (byte_of 130)) (Z.shiftl 1 7))%Z
          || negb (Z.land (byte_val (byte_of 130)) 15 =? 2)%Z) with false. cbn match.
  unfold moved in *. cbn [tx psk mask bufRead lenBufRead] in *.
  unfold read_size, gets, lift, mbind, M_bind in *.
  destruct (mask f); cbn [negb] in *.
  - change (Z.land (byte_val (byte_of (127 + 0))) 127) with 127%Z.
    change (0 <? Z.land (byte_val (byte_of (127 + 0))) (Z.shiftl 1 7))%Z with false.
    cbn [Z.ltb Z.eqb Z.compare Pos.compare Pos.compare_cont Pos.eqb].
    rewrite (ws_run_on_tx _ (mk_Ws t1 _ _ _ _) _ _ R2). cbn [tx psk mask bufRead lenBufRead eqb].
    unfold mret, M_ret. by rewrite Hneg.
  - change (Z.land (byte_val (byte_of (127 + 128))) 127) with 127%Z.
    change (0 <? Z.land (byte_val (byte_of (127 + 128))) (Z.shiftl 1 7))%Z with true.
    cbn [Z.ltb Z.eqb Z.compare Pos.compare Pos.compare_cont Pos.eqb].
    rewrite (ws_run_on_tx _ (mk_Ws t1 _ _ _ _) _ _ R2). cbn [tx psk mask bufRead lenBufRead eqb].
    unfold mret, M_ret. cbn [mask]. rewrite R3. by rewrite Hneg.
Qed.

Lemma ws_negative_length_panics_witness :
  (Read 10 (mk_Ws (Conn.mk_conn [[byte_of 130; byte_of 127]; put_be 8 (2 ^ 63)])
              F1.sample_key true [] 0)).1 = Panic.
Proof.
  apply (ws_negative_length_panics (mk_Ws (Conn.mk_conn _) F1.sample_key true [] 0) 10 (2 ^ 63) [] []);
    try reflexivity. split; [discriminate | reflexivity].
Defined.
End Ws.
