(* ===== verification/Packet.v ===== *)
(** The packets of package [transport/h1pool] (src/transport/h1pool/packet.go):
    several proxied connections share one transport, each chunk of data
    wrapped in a packet that names its connection. *)
From S2P Require Import Prelude GoIO Json.

Module Packet.
Definition magic : bytes := [Byte.x43; Byte.x50; Byte.x00].
Definition MAX_PACKET_SIZE : Z := 1024 * 128.
Definition MAX_META_SIZE : Z := 1024.

Definition OP_DATA : Z := 0.
Definition OP_PING : Z := 8.
Definition OP_PONG : Z := 9.
Definition OP_EOS : Z := 10.

Record Packet := mk_Packet {
  ClientId : bytes;
  Serial : Z;
  Op : Z;
  Data : bytes;
}.

#[global] Instance Packet_eq_dec : EqDecision Packet.
Proof. solve_decision. Defined.

(** The only field with a JSON name. *)
Definition meta_fields (p : Packet) : list field :=
  [mk_field (lit "client_id") false (FString (ClientId p))].

Definition set_meta (fs : list field) (p : Packet) : Packet :=
  match map f_value fs with
  | [FString cid] => mk_Packet cid (Serial p) (Op p) (Data p)
  | _ => p
  end.

Definition set_data (dat : bytes) (p : Packet) : Packet :=
  mk_Packet (ClientId p) (Serial p) (Op p) dat.

Definition known_op (op : Z) : bool := bool_decide (op ∈ [OP_DATA; OP_PING; OP_PONG; OP_EOS]).

Section read.
Context {T : Type} `{Reader T}.

(** The metadata of a packet, if it has any, decoded into it. *)
Definition read_meta (sizeMeta : Z) (p : Packet) : M T Packet :=
  if (0 <? sizeMeta)%Z then
    size ← lift (make_slice sizeMeta);
    metab ← ReadFull size;
    match Unmarshal metab (meta_fields p) with
    | Ok fs => mret (set_meta fs p)
    | Err e => throw (Wrapf (lit "json.Unmarshal: %v, (metab=%v)") e)
    | Panic => panic
    | Hang => hang
    end
  else mret p.

Definition read_data (sizeDat : Z) (p : Packet) : M T Packet :=
  if (0 <? sizeDat)%Z then
    size ← lift (make_slice sizeDat);
    dat ← ReadFull size;
    mret (set_data dat p)
  else mret p.

Definition readAnyPacket : M T Packet :=
  head ← ReadFull 16;
  if negb (bool_decide (magic = take 3 head)) then throw (Errorf (lit "illegal packet header.") [])
  else
  let op := get_be (slice 3 4 head) in
  if negb (known_op op) then throw (Errorf (lit "Invalid op.") []) else
  let serial := get_be (slice 4 8 head) in
  let sizeMeta := get_be (slice 8 12 head) in
  if (sizeMeta <? 0)%Z then throw (Errorf (lit "Invalid meta size field.") [])
  else if (MAX_META_SIZE <? sizeMeta)%Z then throw (Errorf (lit "Meta size too large.") [])
  else
  let sizeDat := get_be (slice 12 16 head) in
  if (sizeDat <? 0)%Z then throw (Errorf (lit "Invalid packet data size field.") [])
  else if (MAX_PACKET_SIZE <? sizeDat)%Z then throw (Errorf (lit "Packet data size too large.") [])
  else
  let p := mk_Packet [] serial op [] in
  p ← read_meta sizeMeta p;
  read_data sizeDat p.

(** The loop of [readPacket] returns in its first turn on both branches. *)
Definition readPacket : M T Packet := readAnyPacket.
End read.

(** The 16 bytes before the metadata. *)
Definition packet_head (p : Packet) (metab dat : bytes) : bytes :=
  let head := make_bytes 16 in
  let head := copy_at 0 magic head in
  let head := <[3 := byte_of (Op p)]> head in
  let head := copy_at 4 (put_be 4 (Serial p)) head in
  let head := copy_at 8 (put_be 4 (uint32 (len metab))) head in
  copy_at 12 (put_be 4 (uint32 (len dat))) head.

Section write.
Context {T : Type} `{Writer T}.

(** The loop of [writePacket]: at most [MAX_PACKET_SIZE] bytes per turn. *)
Fixpoint write_loop (fuel : nat) (start : Z) (p : Packet) (metab : bytes) : M T unit :=
  match fuel with
  | 0 => hang
  | S fuel =>
      let sizeDat := (len (Data p) - start)%Z in
      let sizeDat := if (MAX_PACKET_SIZE <? sizeDat)%Z then MAX_PACKET_SIZE else sizeDat in
      let dat := if (0 <? sizeDat)%Z
                 then slice (Z.to_nat start) (Z.to_nat (start + sizeDat)) (Data p) else [] in
      _ ← write (packet_head p metab dat);
      _ ← write metab;
      _ ← write dat;
      let start := (start + sizeDat)%Z in
      if (len (Data p) <=? start)%Z then mret tt else write_loop fuel start p metab
  end.

(** Each turn of the loop but the last takes at least one byte. *)
Definition writePacket (p : Packet) : M T unit :=
  metab ← (if (Op p =? OP_DATA)%Z then lift (Marshal (meta_fields p)) else mret []);
  write_loop (S (length (Data p))) 0 p metab.
End write.

(** ** Wire format *)
Definition packet_wire (p : Packet) (metab dat : bytes) : bytes :=
  magic ++ [byte_of (Op p)] ++ put_be 4 (Serial p) ++ put_be 4 (uint32 (len metab)) ++
  put_be 4 (uint32 (len dat)) ++ metab ++ dat.

(** The metadata sent with a packet. *)
Definition meta_of (p : Packet) : bytes :=
  if (Op p =? OP_DATA)%Z then
    match Marshal (meta_fields p) with Ok d => d | _ => [] end
  else [].

(** The connection id that survives the trip: control packets carry none. *)
Definition id_of (p : Packet) : bytes := if (Op p =? OP_DATA)%Z then ClientId p else [].

Definition packet_ok (p : Packet) : bool :=
  known_op (Op p) && (0 <=? Serial p)%Z && (Serial p <? 2 ^ 32)%Z &&
  utf8_valid (ClientId p) && (len (meta_of p) <=? MAX_META_SIZE)%Z.

Lemma packet_head_wire (p : Packet) (metab dat : bytes) :
  packet_head p metab dat ++ metab ++ dat = packet_wire p metab dat.
Proof. reflexivity. Qed.

Lemma known_op_byte (op : Z) : known_op op = true → get_be [byte_of op] = op.
Proof.
  unfold known_op. intros Hk. apply bool_decide_eq_true in Hk.
  repeat (apply elem_of_cons in Hk as [-> | Hk]; [reflexivity|]). by apply elem_of_nil in Hk.
Qed.

Lemma length_meta_data (p : Packet) : (Op p =? OP_DATA)%Z = true → 0 < length (meta_of p).
Proof. intros Hop. unfold meta_of. rewrite Hop. cbn [Marshal]. rewrite length_app. cbn. lia. Qed.

Section read_spec.
Context {T : Type} `{ReaderLaws T}.

Lemma read_meta_ok (p : Packet) (rest : bytes) (s : T) :
  packet_ok p = true → delivers s (meta_of p ++ rest) →
  ∃ s', read_meta (len (meta_of p)) (mk_Packet [] (Serial p) (Op p) []) s
        = (Ok (mk_Packet (id_of p) (Serial p) (Op p) []), s') ∧ delivers s' rest ∧ budget s' ≤ budget s.
Proof.
  unfold packet_ok. rewrite !andb_true_iff, Z.leb_le. intros [[[[_ _] _] Hu] Hm] Hd.
  unfold read_meta, id_of. destruct (Op p =? OP_DATA)%Z eqn:Hop.
  - pose proof (length_meta_data p Hop). pose proof (len_nonneg (meta_of p)).
    destruct (Z.ltb_spec 0 (len (meta_of p))); [|unfold len in *; lia].
    destruct (ReadFull_app (length (meta_of p)) s _ _ Hd eq_refl) as (s' & Hr & Hd' & Hb & _).
    exists s'. split; [|split; [done|lia]].
    rewrite (bind_ok _ _ _ s (length (meta_of p)))
      by (unfold lift; rewrite make_slice_ok, to_nat_len by (unfold MAX_META_SIZE, max_alloc in *; lia);
          done).
    run Hr. destruct (Unmarshal_Marshal (meta_fields p)) as (dat & HM & HU);
      [unfold meta_fields, field_ok; cbn [forallb f_name f_value value_ok]; by rewrite Hu | by apply NoDup_singleton |].
    unfold meta_of. rewrite Hop, HM.
    change (meta_fields (mk_Packet [] (Serial p) (Op p) [])) with (map zero_field (meta_fields p)).
    by rewrite HU.
  - unfold meta_of in *. rewrite Hop in *. exists s. done.
Qed.

Lemma read_data_ok (q : Packet) (dat rest : bytes) (s : T) :
  (len dat ≤ MAX_PACKET_SIZE)%Z → Data q = [] → delivers s (dat ++ rest) →
  ∃ s', read_data (len dat) q s = (Ok (set_data dat q), s') ∧ delivers s' rest ∧ budget s' ≤ budget s.
Proof.
  intros Hl Hq Hd. unfold read_data. pose proof (len_nonneg dat).
  destruct (Z.ltb_spec 0 (len dat)).
  - destruct (ReadFull_app (length dat) s _ _ Hd eq_refl) as (s' & Hr & Hd' & Hb & _).
    exists s'. split; [|split; [done|lia]].
    rewrite (bind_ok _ _ _ s (length dat))
      by (unfold lift; rewrite make_slice_ok, to_nat_len
            by (unfold MAX_PACKET_SIZE, max_alloc in *; lia); done).
    by run Hr.
  - assert (dat = []) as -> by (apply nil_length_inv; unfold len in *; lia).
    exists s. destruct q. cbn in Hq. by subst.
Qed.

(** Reading one packet off the wire. *)
Lemma readPacket_wire_budget (p : Packet) (dat rest : bytes) (s : T) :
  packet_ok p = true → (len dat ≤ MAX_PACKET_SIZE)%Z →
  delivers s (packet_wire p (meta_of p) dat ++ rest) →
  ∃ s', readPacket s = (Ok (mk_Packet (id_of p) (Serial p) (Op p) dat), s') ∧ delivers s' rest ∧
        budget s' < budget s.
Proof.
  intros Hok Hl Hd. pose proof Hok as Hok'. unfold packet_ok in Hok'.
  rewrite !andb_true_iff, !Z.leb_le, Z.ltb_lt in Hok'. destruct Hok' as [[[[Hop Hs0] Hs] Hu] Hm].
  set (h := magic ++ [byte_of (Op p)] ++ put_be 4 (Serial p) ++
            put_be 4 (uint32 (len (meta_of p))) ++ put_be 4 (uint32 (len dat))).
  replace (packet_wire p (meta_of p) dat ++ rest) with (h ++ meta_of p ++ dat ++ rest) in Hd
    by (unfold h, packet_wire; by rewrite <- !app_assoc).
  destruct (ReadFull_app 16 s _ _ Hd eq_refl) as (s1 & H1 & Hd1 & Hb1 & _).
  destruct (read_meta_ok p _ s1 Hok Hd1) as (s2 & H2 & Hd2 & Hb2).
  destruct (read_data_ok (mk_Packet (id_of p) (Serial p) (Op p) []) dat rest s2 Hl eq_refl Hd2)
    as (s3 & H3 & Hd3 & Hb3).
  exists s3. split; [|split; [done|lia]]. unfold readPacket, readAnyPacket. run H1.
  change (take 3 h) with magic. rewrite bool_decide_eq_true_2 by done. cbn [negb]. cbv zeta.
  change (slice 3 4 h) with [byte_of (Op p)]. rewrite known_op_byte, Hop by done. cbn [negb].
  change (slice 4 8 h) with (put_be 4 (Serial p)).
  change (slice 8 12 h) with (put_be 4 (uint32 (len (meta_of p)))).
  change (slice 12 16 h) with (put_be 4 (uint32 (len dat))).
  pose proof (len_nonneg dat). pose proof (len_nonneg (meta_of p)).
  unfold MAX_META_SIZE, MAX_PACKET_SIZE in *.
  rewrite !uint32_small, !(get_be_put_small 4) by (cbn; lia).
  destruct (Z.ltb_spec (len (meta_of p)) 0); [lia|].
  destruct (Z.ltb_spec 1024 (len (meta_of p))); [lia|].
  destruct (Z.ltb_spec (len dat) 0); [lia|].
  destruct (Z.ltb_spec (1024 * 128) (len dat)); [lia|].
  run H2. exact H3.
Qed.

Lemma readPacket_wire (p : Packet) (dat rest : bytes) (s : T) :
  packet_ok p = true → (len dat ≤ MAX_PACKET_SIZE)%Z →
  delivers s (packet_wire p (meta_of p) dat ++ rest) →
  ∃ s', readPacket s = (Ok (mk_Packet (id_of p) (Serial p) (Op p) dat), s') ∧ delivers s' rest.
Proof.
  intros Hok Hl Hd. destruct (readPacket_wire_budget p dat rest s Hok Hl Hd) as (s' & ? & ? & _). by exists s'.
Qed.

Lemma readPacket_end (s : T) : delivers s [] → ∃ s', readPacket s = (Err EOF, s') ∧ delivers s' [].
Proof.
  intros Hd. destruct (ReadFull_short 16 s [] Hd) as (s' & Hr & Hd' & _); [cbn; lia|].
  exists s'. split; [|done]. unfold readPacket, readAnyPacket. by run Hr.
Qed.
End read_spec.

(** *** Any input *)
Section read_safe.
Context {T : Type} `{ReaderLaws T}.

Lemma safe_read_meta (n : Z) (p : Packet) : (n ≤ MAX_META_SIZE)%Z → safe (read_meta n p).
Proof.
  intros Hn. unfold read_meta, MAX_META_SIZE in *. destruct (Z.ltb_spec 0 n); [|apply safe_ret].
  apply safe_bind; [apply safe_lift; rewrite make_slice_ok by (unfold max_alloc; lia); done|].
  intros size. apply safe_bind; [apply safe_ReadFull|]. intros metab.
  pose proof (Unmarshal_returns metab (meta_fields p)) as Hu.
  destruct (Unmarshal metab (meta_fields p)); [apply safe_ret|apply safe_throw|done|done].
Qed.

Lemma safe_read_data (n : Z) (p : Packet) : (n ≤ MAX_PACKET_SIZE)%Z → safe (read_data n p).
Proof.
  intros Hn. unfold read_data, MAX_PACKET_SIZE in *. destruct (Z.ltb_spec 0 n); [|apply safe_ret].
  apply safe_bind; [apply safe_lift; rewrite make_slice_ok by (unfold max_alloc; lia); done|].
  intros size. apply safe_bind; [apply safe_ReadFull|]. intros dat. apply safe_ret.
Qed.

Lemma safe_readPacket : safe readPacket.
Proof.
  unfold readPacket, readAnyPacket. apply safe_bind; [apply safe_ReadFull|]. intros h. cbv zeta.
  repeat first
    [ apply safe_throw
    | match goal with |- safe (if (?a <? ?b)%Z then _ else _) => destruct (Z.ltb_spec a b) end
    | match goal with |- safe (if ?b then _ else _) => destruct b end ].
  apply safe_bind; [by apply safe_read_meta|]. intros p. by apply safe_read_data.
Qed.

Lemma read_meta_keeps (n : Z) (p q : Packet) (s s' : T) :
  read_meta n p s = (Ok q, s') → Op q = Op p ∧ Serial q = Serial p ∧ Data q = Data p.
Proof.
  unfold read_meta. destruct (0 <? n)%Z.
  - intros (k & s1 & _ & E)%bind_ok_inv. apply bind_ok_inv in E as (metab & s2 & _ & E).
    destruct (Unmarshal metab (meta_fields p)); try done. injection E as <- <-.
    unfold set_meta. by repeat case_match.
  - by intros [= <- <-].
Qed.

Lemma read_data_keeps (n : Z) (p q : Packet) (s s' : T) (bs : bytes) :
  delivers s bs → Data p = [] → (n ≤ MAX_PACKET_SIZE)%Z → read_data n p s = (Ok q, s') →
  Op q = Op p ∧ Serial q = Serial p ∧ (len (Data q) ≤ MAX_PACKET_SIZE)%Z.
Proof.
  unfold read_data, MAX_PACKET_SIZE. intros Hd Hp Hn. destruct (Z.ltb_spec 0 n).
  - intros (k & s1 & E1 & E)%bind_ok_inv. apply bind_ok_inv in E as (dat & s2 & E2 & E).
    unfold lift in E1. rewrite make_slice_ok in E1 by (unfold max_alloc; lia).
    injection E1 as <- <-. destruct (ReadFull_length _ _ _ _ _ Hd E2) as [Hl _].
    injection E as <- <-. cbn. unfold len. lia.
  - intros [= <- <-]. rewrite Hp. done.
Qed.

Lemma readPacket_bounds (s s' : T) (bs : bytes) (p : Packet) :
  delivers s bs → readPacket s = (Ok p, s') →
  known_op (Op p) = true ∧ (0 ≤ Serial p < 2 ^ 32)%Z ∧ (len (Data p) ≤ MAX_PACKET_SIZE)%Z.
Proof.
  intros Hd E. unfold readPacket, readAnyPacket in E. apply bind_ok_inv in E as (h & s1 & E1 & E).
  destruct (ReadFull_length _ _ _ _ _ Hd E1) as [Hl [bs1 Hd1]]. cbv zeta in E.
  destruct (bool_decide (magic = take 3 h)); [cbn [negb] in E|done].
  destruct (known_op (get_be (slice 3 4 h))) eqn:Hop; [cbn [negb] in E|done].
  destruct (Z.ltb_spec (get_be (slice 8 12 h)) 0); [done|].
  destruct (Z.ltb_spec MAX_META_SIZE (get_be (slice 8 12 h))) as [|Hm]; [done|].
  destruct (Z.ltb_spec (get_be (slice 12 16 h)) 0); [done|].
  destruct (Z.ltb_spec MAX_PACKET_SIZE (get_be (slice 12 16 h))) as [|Hdat]; [done|].
  apply bind_ok_inv in E as (q & s2 & E2 & E).
  destruct (read_meta_keeps _ _ _ _ _ E2) as (K1 & K2 & K3). cbn [Op Serial Data] in *.
  assert (∃ bs2, delivers s2 bs2) as [bs2 Hd2].
  { pose proof (safe_read_meta _ (mk_Packet [] (get_be (slice 4 8 h)) (get_be (slice 3 4 h)) []) Hm
                  s1 bs1 Hd1) as Hs. unfold safe_at in Hs. rewrite E2 in Hs.
    destruct Hs as (bs2 & ? & _). eauto. }
  destruct (read_data_keeps _ _ _ _ _ _ Hd2 K3 Hdat E) as (D1 & D2 & D3).
  rewrite D1, D2, K1, K2. split; [done|]. split; [|done].
  pose proof (get_be_range (slice 4 8 h)) as Hr. unfold len, slice in *.
  rewrite length_take, length_drop, Hl in Hr. exact Hr.
Qed.
End read_safe.

Section write_spec.
Context {W : Type} `{WriterLaws W}.

Definition room (w : W) : Prop := write_pre w (Z.to_nat (MAX_PACKET_SIZE)).

Lemma write_part (p : Packet) (metab dat : bytes) (w : W) (k : M W unit) :
  room w → (len metab ≤ MAX_META_SIZE)%Z → (len dat ≤ MAX_PACKET_SIZE)%Z →
  ∃ w', (_ ← write (packet_head p metab dat); _ ← write metab; _ ← write dat; k) w = k w' ∧
        emitted w w' (packet_wire p metab dat) ∧ room w'.
Proof.
  unfold room, len, MAX_META_SIZE, MAX_PACKET_SIZE. intros Hp Hm Hd.
  set (n := Z.to_nat _) in *. assert (Hn : Z.of_nat n = 131072%Z) by (unfold n; lia). clearbody n.
  destruct (write_law w (packet_head p metab dat)) as (n1 & w1 & W1 & E1);
    [eapply write_pre_mono; [exact Hp|]; change (length _) with 16; lia|].
  pose proof (write_pre_emitted _ _ _ _ Hp E1) as P1.
  destruct (write_law w1 metab) as (n2 & w2 & W2 & E2); [eapply write_pre_mono; [exact P1|lia]|].
  pose proof (write_pre_emitted _ _ _ _ P1 E2) as P2.
  destruct (write_law w2 dat) as (n3 & w3 & W3 & E3); [eapply write_pre_mono; [exact P2|lia]|].
  exists w3. run W1. run W2. run W3. split; [done|]. rewrite <- packet_head_wire.
  split; [by repeat (eapply emitted_app; [eassumption|])|by eapply write_pre_emitted].
Qed.

Lemma write_loop_ok (fuel : nat) (start : Z) (p : Packet) (metab : bytes) (w : W) :
  room w → (len metab ≤ MAX_META_SIZE)%Z → (0 ≤ start ≤ len (Data p))%Z →
  (len (Data p) - start < Z.of_nat fuel)%Z →
  ∃ w' parts, write_loop fuel start p metab w = (Ok tt, w') ∧
    emitted w w' (concat (map (packet_wire p metab) parts)) ∧
    Forall (λ d, (len d ≤ MAX_PACKET_SIZE)%Z) parts ∧ parts ≠ [] ∧
    concat parts = drop (Z.to_nat start) (Data p).
Proof.
  revert start w. induction fuel as [|fuel IH]; intros start w Hp Hm Hs Hf; [lia|].
  cbn [write_loop]. set (sizeDat := if (_ <? _)%Z then _ else _).
  assert (Hsz : (0 ≤ sizeDat ≤ MAX_PACKET_SIZE)%Z ∧ (start + sizeDat ≤ len (Data p))%Z ∧
                (sizeDat = 0 → start = len (Data p))%Z).
  { unfold sizeDat, MAX_PACKET_SIZE. destruct (Z.ltb_spec (1024 * 128) (len (Data p) - start)); lia. }
  clearbody sizeDat. destruct Hsz as (Hsz & Hle & Hz).
  set (dat := if (0 <? sizeDat)%Z then _ else _).
  assert (Hdat : dat = take (Z.to_nat sizeDat) (drop (Z.to_nat start) (Data p))).
  { unfold dat, slice. destruct (Z.ltb_spec 0 sizeDat).
    - f_equal. lia.
    - by replace (Z.to_nat sizeDat) with 0 by lia. }
  clearbody dat. assert (Hdl : len dat = sizeDat).
  { rewrite Hdat. unfold len in *. rewrite length_take, length_drop. lia. }
  edestruct (write_part p metab dat w) as (w1 & -> & E1 & P1); [done|done|lia|].
  destruct (Z.leb_spec (len (Data p)) (start + sizeDat)) as [Hend|Hmore].
  - exists w1, [dat]. cbn [map concat]. rewrite !app_nil_r. repeat split; [done| |done|].
    + constructor; [lia|constructor].
    + rewrite Hdat. apply take_ge. rewrite length_drop. unfold len in *. lia.
  - destruct (IH (start + sizeDat)%Z w1) as (w2 & parts & -> & E2 & Hparts & _ & Hc); [done|done|lia|lia|].
    exists w2, (dat :: parts). cbn [map concat]. split; [done|]. split; [by eapply emitted_app|].
    split; [constructor; [lia|done]|]. split; [done|]. rewrite Hc, Hdat.
    replace (Z.to_nat (start + sizeDat)) with (Z.to_nat start + Z.to_nat sizeDat) by lia.
    by rewrite <- drop_drop, take_drop.
Qed.

(** [writePacket] emits at least one packet, all of them within the reader's
    limits, that together carry the data. *)
Lemma writePacket_wire (p : Packet) (w : W) :
  room w → (len (meta_of p) ≤ MAX_META_SIZE)%Z →
  ∃ w' parts, writePacket p w = (Ok tt, w') ∧
    emitted w w' (concat (map (packet_wire p (meta_of p)) parts)) ∧
    Forall (λ d, (len d ≤ MAX_PACKET_SIZE)%Z) parts ∧ parts ≠ [] ∧ concat parts = Data p.
Proof.
  intros Hp Hm. pose proof (len_nonneg (Data p)).
  destruct (write_loop_ok (S (length (Data p))) 0 p (meta_of p) w) as (w' & parts & Hw & Hrest);
    [done|done|lia|unfold len; lia|].
  exists w', parts. rewrite drop_0 in Hrest. split; [|done].
  unfold writePacket, meta_of, mbind, M_bind, lift in *. by destruct (Op p =? OP_DATA)%Z.
Qed.
End write_spec.

(** Reading several packets in a row. *)
Fixpoint read_packets {T} `{Reader T} (n : nat) : M T (list Packet) :=
  match n with
  | 0 => mret []
  | S n => p ← readPacket; ps ← read_packets n; mret (p :: ps)
  end.

Lemma read_packets_wire {T} `{ReaderLaws T} (p : Packet) (parts : list bytes) (rest : bytes) (s : T) :
  packet_ok p = true → Forall (λ d, (len d ≤ MAX_PACKET_SIZE)%Z) parts →
  delivers s (concat (map (packet_wire p (meta_of p)) parts) ++ rest) →
  ∃ s', read_packets (length parts) s
        = (Ok (map (mk_Packet (id_of p) (Serial p) (Op p)) parts), s') ∧ delivers s' rest.
Proof.
  intros Hok Hparts. revert s. induction Hparts as [|d parts Hd Hparts IH]; intros s Hdel.
  - by exists s.
  - cbn [map concat length read_packets] in *. rewrite <- app_assoc in Hdel.
    destruct (readPacket_wire p d _ s Hok Hd Hdel) as (s1 & H1 & Hd1).
    destruct (IH s1 Hd1) as (s2 & H2 & Hd2). exists s2. run H1. run H2. done.
Qed.

(** Control packets lose their connection: whatever connection id an
    end-of-stream (or ping, pong) packet was given, the packet the other side
    reads has an empty one, since only data packets carry metadata. *)
Lemma packet_control_anonymous {W R} `{WriterLaws W} `{ReaderLaws R} (p : Packet) (w : W) :
  known_op (Op p) = true → Op p ≠ OP_DATA → (0 ≤ Serial p < 2 ^ 32)%Z → Data p = [] → room w →
  ∃ w' wire, writePacket p w = (Ok tt, w') ∧ emitted w w' wire ∧
    ∀ (r : R) (rest : bytes), delivers r (wire ++ rest) →
    ∃ r', readPacket r = (Ok (mk_Packet [] (Serial p) (Op p) []), r') ∧ delivers r' rest.
Proof.
  intros Hop Hne Hs Hdat Hw. apply Z.eqb_neq in Hne.
  assert (Hmeta : meta_of p = []) by (unfold meta_of; by rewrite Hne).
  destruct (write_part p [] [] w (mret tt) Hw) as (w' & Hwr & He & _); [done|done|].
  exists w', (packet_wire p [] []). split; [|split; [done|]].
  - unfold writePacket. rewrite Hne. unfold mret at 1, M_ret at 1, mbind at 1, M_bind at 1.
    cbn [write_loop]. rewrite Hdat. exact Hwr.
  - intros r rest Hd. set (q := mk_Packet [] (Serial p) (Op p) []).
    assert (Hmq : meta_of q = []) by (unfold meta_of, q; cbn [Op]; by rewrite Hne).
    destruct (readPacket_wire q [] rest r) as (r' & Hr & Hd').
    + unfold packet_ok. rewrite Hmq. cbn [q Op Serial ClientId]. rewrite Hop.
      destruct (Z.leb_spec 0 (Serial p)); [|lia]. destruct (Z.ltb_spec (Serial p) (2 ^ 32)); [|lia]. done.
    + done.
    + rewrite Hmq. exact Hd.
    + exists r'. split; [|done]. rewrite Hr. unfold id_of. cbn [q Op]. by rewrite Hne.
Qed.

(** ** Properties *)

(** C30: packets survive the transport: a data packet with any amount of data
    is cut into packets within the reader's limits (128 KiB of data, 1 KiB of
    metadata); the other side reads back the same connection id, serial and
    operation in each, and their data concatenated is the data written. *)
Theorem packet_roundtrip {W R} `{WriterLaws W} `{ReaderLaws R} (p : Packet) (w : W) :
  packet_ok p = true → Op p = OP_DATA → room w →
  ∃ w' wire n, writePacket p w = (Ok tt, w') ∧ emitted w w' wire ∧ 0 < n ∧
    ∀ (r : R) (rest : bytes), delivers r (wire ++ rest) →
    ∃ r' ps, read_packets n r = (Ok ps, r') ∧ delivers r' rest ∧
      Forall (λ q, ClientId q = ClientId p ∧ Serial q = Serial p ∧ Op q = OP_DATA ∧
                   (len (Data q) ≤ MAX_PACKET_SIZE)%Z) ps ∧
      concat (map Data ps) = Data p.
Proof.
  intros Hok Hop Hw. pose proof Hok as Hm. unfold packet_ok in Hm.
  rewrite !andb_true_iff, !Z.leb_le in Hm. destruct Hm as [_ Hm].
  destruct (writePacket_wire p w Hw Hm) as (w' & parts & Hwr & He & Hparts & Hne & Hc).
  exists w', (concat (map (packet_wire p (meta_of p)) parts)), (length parts).
  split; [done|]. split; [done|]. split; [destruct parts; [done|cbn; lia]|].
  intros r rest Hd. destruct (read_packets_wire p parts rest r Hok Hparts Hd) as (r' & Hr & Hd').
  exists r', (map (mk_Packet (id_of p) (Serial p) (Op p)) parts).
  split; [done|]. split; [done|]. split.
  - apply Forall_map. eapply Forall_impl; [exact Hparts|]. intros d Hd1. cbn.
    unfold id_of. rewrite Hop. done.
  - by rewrite map_map, map_id.
Qed.

Definition sample_packet : Packet := mk_Packet (lit "c-1") 7 OP_DATA (lit "payload").

Lemma packet_roundtrip_witness :
  ∃ w' wire n, writePacket sample_packet (Buf.mk_buffer []) = (Ok tt, w') ∧
    emitted (Buf.mk_buffer []) w' wire ∧ 0 < n ∧
    ∀ (r : Conn.conn) (rest : bytes), delivers r (wire ++ rest) →
    ∃ r' ps, read_packets n r = (Ok ps, r') ∧ delivers r' rest ∧
      Forall (λ q, ClientId q = lit "c-1" ∧ Serial q = 7%Z ∧ Op q = OP_DATA ∧
                   (len (Data q) ≤ MAX_PACKET_SIZE)%Z) ps ∧
      concat (map Data ps) = lit "payload".
Proof.
  apply (packet_roundtrip sample_packet (Buf.mk_buffer [])); [vm_compute; reflexivity|reflexivity|].
  exact I.
Defined.

(** C32: the packet reader is safe on any input: it returns a packet or an
    error (no panic, no endless loop), consumes a prefix of the input, and a
    packet it returns has a known operation and at most 128 KiB of data. *)
Theorem packet_read_bounded {R} `{ReaderLaws R} (r : R) (input : bytes) :
  delivers r input →
  match readPacket r with
  | (Ok p, r') => known_op (Op p) = true ∧ (0 ≤ Serial p < 2 ^ 32)%Z ∧
      (len (Data p) ≤ MAX_PACKET_SIZE)%Z ∧ ∃ rest, delivers r' rest ∧ rest `suffix_of` input
  | (Err _, r') => ∃ rest, delivers r' rest ∧ rest `suffix_of` input
  | _ => False
  end.
Proof.
  intros Hd. pose proof (safe_readPacket r input Hd) as Hs. unfold safe_at in Hs.
  destruct (readPacket r) as [[p|e| |] r'] eqn:E; try done.
  destruct (readPacket_bounds _ _ _ _ Hd E) as (? & ? & ?). auto.
Qed.

Lemma packet_read_bounded_witness :
  match readPacket (Conn.mk_conn [magic; make_bytes 20]) with
  | (Ok p, r') => known_op (Op p) = true ∧ (0 ≤ Serial p < 2 ^ 32)%Z ∧
      (len (Data p) ≤ MAX_PACKET_SIZE)%Z ∧
      ∃ rest, delivers r' rest ∧ rest `suffix_of` (magic ++ make_bytes 20)
  | (Err _, r') => ∃ rest, delivers r' rest ∧ rest `suffix_of` (magic ++ make_bytes 20)
  | _ => False
  end.
Proof. apply (packet_read_bounded (Conn.mk_conn [magic; make_bytes 20])). reflexivity. Defined.
End Packet.
