(* ===== verification/RwBuffer.v ===== *)
(** The in-memory pipe of package [utils] (src/utils/buffer.go): its
    operations on the shared state, and the interleavings of concurrent
    [Read], [Write] and [Close] calls as a step relation. *)
From S2P Require Import Prelude GoIO Framing.

Module RwBuffer.
Definition BUF_SIZE : Z := 1024 * 4.
Definition BUF_SIZE_MAX : Z := 1024 * 1024 * 8.

(** [buf[:cap]], [bufLen] and the flag [eof]; the mutex [lck] makes each
    operation on [buf] one step, [cond.L] appears in the step relation. *)
Record ReadWriteBuffer := mk_RWB { buf : bytes; bufLen : nat; eof : bool }.

Definition NewReadWriteBuffer : ReadWriteBuffer :=
  mk_RWB (make_bytes (Z.to_nat BUF_SIZE)) 0 false.

Definition Close : M ReadWriteBuffer unit := λ f,
  (if eof f then Err (Errorf (lit "buffer was closed already.") []) else Ok tt,
   mk_RWB (buf f) (bufLen f) true).

(** At most [n] bytes; none when the buffer is empty. *)
Definition readFromBuf (n : nat) (f : ReadWriteBuffer) : bytes * ReadWriteBuffer :=
  if decide (0 < bufLen f) then
    let size := if decide (bufLen f < n) then bufLen f else n in
    let sizeRest := bufLen f - size in
    (take size (buf f),
     mk_RWB (copy_at 0 (slice size (bufLen f) (buf f)) (buf f)) sizeRest (eof f))
  else ([], f).

(** [capNew += BUF_SIZE] until the data fit. *)
Fixpoint grow (fuel : nat) (capNew sizeAfter : Z) : outcome Z :=
  match fuel with
  | 0 => Hang
  | S fuel =>
      if (capNew <? sizeAfter)%Z then
        let capNew := (capNew + BUF_SIZE)%Z in
        if (BUF_SIZE_MAX <? capNew)%Z then Err ErrShortBuffer
        else grow fuel capNew sizeAfter
      else Ok capNew
  end.

(** One turn per [BUF_SIZE] up to the limit. *)
Definition grow_fuel : nat := S (Z.to_nat (BUF_SIZE_MAX / BUF_SIZE)).

(** [Write] after its check of [eof]: everything under [lck]. *)
Definition writeBody (dat : bytes) : M ReadWriteBuffer Z := λ f,
  let sizeAfter := bufLen f + length dat in
  let put buf := (Ok (len dat), mk_RWB (copy_at (bufLen f) dat buf) sizeAfter (eof f)) in
  if decide (length (buf f) < sizeAfter) then
    match grow grow_fuel (len (buf f) + BUF_SIZE) (Z.of_nat sizeAfter) with
    | Ok capNew => put (copy_at 0 (take (bufLen f) (buf f)) (make_bytes (Z.to_nat capNew)))
    | Err e => (Err e, f)
    | Panic => (Panic, f)
    | Hang => (Hang, f)
    end
  else put (buf f).

Definition Write (dat : bytes) : M ReadWriteBuffer Z := λ f,
  if eof f then (Err EOF, f) else writeBody dat f.

(** ** The queue the buffer implements *)
Definition content (f : ReadWriteBuffer) : bytes := take (bufLen f) (buf f).
Definition sound (f : ReadWriteBuffer) : Prop := bufLen f ≤ length (buf f).

Lemma content_length (f : ReadWriteBuffer) : sound f → length (content f) = bufLen f.
Proof. unfold sound, content. rewrite length_take. lia. Qed.

Lemma new_sound : sound NewReadWriteBuffer.
Proof. unfold sound, NewReadWriteBuffer. cbn [bufLen]. lia. Qed.

Lemma readFromBuf_ok (n : nat) (f : ReadWriteBuffer) :
  sound f →
  (readFromBuf n f).1 = take n (content f) ∧
  content (readFromBuf n f).2 = drop n (content f) ∧
  sound (readFromBuf n f).2 ∧ eof (readFromBuf n f).2 = eof f.
Proof.
  intros Hs. pose proof (content_length f Hs) as Hc. unfold readFromBuf. case_decide as Hb.
  - set (size := if decide _ then _ else _). cbn [fst snd eof].
    assert (Hsz : size = n `min` bufLen f) by (unfold size; case_decide; lia).
    unfold sound, content in *. cbn [buf bufLen].
    assert (E : slice size (bufLen f) (buf f) = drop size (take (bufLen f) (buf f))).
    { unfold slice. by rewrite skipn_firstn_comm. }
    split; [by rewrite take_take, Hsz|]. split; [|split; [rewrite length_copy_at; lia|done]].
    rewrite E. unfold copy_at. rewrite take_0. cbn [app].
    rewrite take_app_le by (rewrite length_take, length_drop, Hc; lia).
    rewrite take_take, take_ge by (rewrite length_drop, Hc; lia). rewrite Hsz.
    destruct (Nat.min_spec n (bufLen f)) as [[? ->]|[? ->]]; [done|].
    by rewrite !drop_ge by lia.
  - assert (content f = []) as Hn by (apply nil_length_inv; lia).
    cbn [fst snd]. by rewrite Hn, take_nil, drop_nil.
Qed.

Lemma grow_bound (fuel : nat) (c s c' : Z) : grow fuel c s = Ok c' → (c ≤ c' ∧ s ≤ c')%Z.
Proof.
  revert c. induction fuel as [|fuel IH]; intros c; [done|]. cbn [grow].
  destruct (Z.ltb_spec c s).
  - destruct (Z.ltb_spec BUF_SIZE_MAX (c + BUF_SIZE)); [done|]. intros E%IH.
    unfold BUF_SIZE in *. lia.
  - intros [= ->]. lia.
Qed.

Lemma grow_returns (fuel : nat) (c s : Z) :
  (0 ≤ c → BUF_SIZE_MAX < c + BUF_SIZE * Z.of_nat fuel)%Z → (0 ≤ c)%Z → fuel ≠ 0 →
  returns (grow fuel c s).
Proof.
  revert c. induction fuel as [|fuel IH]; intros c Hf Hc Hne; [done|]. cbn [grow].
  destruct (Z.ltb_spec c s); [|done].
  destruct (Z.ltb_spec BUF_SIZE_MAX (c + BUF_SIZE)); [done|].
  unfold BUF_SIZE_MAX, BUF_SIZE in *. apply IH; [lia|lia|]. destruct fuel; lia.
Qed.

(** A write either appends its data to the queue or fails with
    [io.ErrShortBuffer] and leaves it alone; it always returns. *)
Lemma writeBody_ok (dat : bytes) (f : ReadWriteBuffer) :
  sound f →
  match writeBody dat f with
  | (Ok n, f') => n = len dat ∧ content f' = content f ++ dat ∧ sound f' ∧ eof f' = eof f
  | (Err e, f') => e = ErrShortBuffer ∧ f' = f
  | _ => False
  end.
Proof.
  intros Hs. pose proof Hs as Hs'. unfold sound in Hs. unfold writeBody. cbv zeta.
  assert (Hput : ∀ b, take (bufLen f) b = content f → bufLen f + length dat ≤ length b →
    let f' := mk_RWB (copy_at (bufLen f) dat b) (bufLen f + length dat) (eof f) in
    len dat = len dat ∧ content f' = content f ++ dat ∧ sound f' ∧ eof f' = eof f).
  { intros b Hb Hl. unfold content at 1, sound. cbn [buf bufLen eof].
    rewrite take_copy_at_ext, Hb, length_copy_at by lia. done. }
  case_decide as Hc.
  - assert (Hret : returns (grow grow_fuel (len (buf f) + BUF_SIZE) (Z.of_nat (bufLen f + length dat)))).
    { apply grow_returns; [|pose proof (len_nonneg (buf f)); unfold BUF_SIZE; lia|].
      - unfold grow_fuel. intros. pose proof (len_nonneg (buf f)).
        change (BUF_SIZE_MAX / BUF_SIZE)%Z with 2048%Z. unfold BUF_SIZE_MAX, BUF_SIZE in *. lia.
      - done. }
    destruct (grow _ _ _) as [c'|e| |] eqn:E; try done.
    + apply grow_bound in E. apply Hput.
      * rewrite copy_at_fit by (rewrite length_take, length_make_bytes; lia).
        rewrite take_0. cbn [app]. rewrite take_app_le by (rewrite length_take; lia).
        unfold content. by rewrite take_take, Nat.min_id.
      * rewrite length_copy_at; rewrite length_make_bytes; lia.
    + split; [|done]. clear Hret. revert E. generalize (len (buf f) + BUF_SIZE)%Z.
      generalize grow_fuel. intros fuel. induction fuel as [|fuel IH]; intros c; [done|].
      cbn [grow]. repeat case_match; try done; [congruence|apply IH].
  - apply Hput; [done|lia].
Qed.

(** When the buffer refuses to grow. *)
Lemma grow_refuses (fuel : nat) (c s : Z) (e : error) :
  grow fuel c s = Err e → (BUF_SIZE_MAX - BUF_SIZE < s ∧ c < s)%Z.
Proof.
  revert c. induction fuel as [|fuel IH]; intros c; [done|]. cbn [grow].
  destruct (Z.ltb_spec c s); [|done].
  destruct (Z.ltb_spec BUF_SIZE_MAX (c + BUF_SIZE)); [intros _; lia|].
  intros E%IH. lia.
Qed.

Lemma writeBody_refuses (dat : bytes) (f f' : ReadWriteBuffer) (e : error) :
  sound f → writeBody dat f = (Err e, f') →
  (BUF_SIZE < len dat ∧ BUF_SIZE_MAX - BUF_SIZE < len (content f) + len dat)%Z.
Proof.
  intros Hs E. unfold len at 2. rewrite (content_length f Hs). unfold sound, writeBody, len in *.
  case_decide as Hc; [|done].
  destruct (grow grow_fuel _ _) as [c'|e'| |] eqn:Eg; try done. apply grow_refuses in Eg. lia.
Qed.

(** Short writes always succeed. *)
Lemma writeBody_small (dat : bytes) (f : ReadWriteBuffer) :
  sound f → (len dat ≤ BUF_SIZE)%Z →
  ∃ f', writeBody dat f = (Ok (len dat), f') ∧ content f' = content f ++ dat ∧ sound f' ∧
        eof f' = eof f.
Proof.
  intros Hs Hd. pose proof (writeBody_ok dat f Hs) as Hw.
  destruct (writeBody dat f) as [[n|e| |] f'] eqn:E; try done.
  - destruct Hw as (-> & Hrest). eauto.
  - apply writeBody_refuses in E; [lia|done].
Qed.

(** ** Concurrent calls

    A thread is inside one call of [Read], [Write] or [Close]; its program
    counter names the next atomic step.  [R*] are the points of [Read] with
    the caller's buffer size: [RTry0] the first look at the buffer, [REof] the
    test of [eof], [RLock k] the [cond.L.Lock()] of the loop with [k] deferred
    unlocks pending, [RWait] the entry of [cond.Wait], [RSleep] waiting for a
    broadcast, [RWoken] about to lock again, [RTry] the look at the buffer. *)
Inductive pc :=
  | RTry0 (n : nat) | REof (n : nat) | RLock (n k : nat) | RWait (n k : nat)
  | RSleep (n k : nat) | RWoken (n k : nat) | RTry (n k : nat) | RRet (r : outcome bytes)
  | WCheck (d : bytes) | WBody (d : bytes) | WRet (r : outcome Z)
  | CRun | CRet (r : outcome unit).

(** [accepted] and [delivered] record what writes have put in and reads have
    taken out, in the order of those steps. *)
Record config := mk_config {
  shared : ReadWriteBuffer;
  locked : bool;
  threads : list pc;
  accepted : bytes;
  delivered : bytes;
}.

(** [cond.Broadcast()]. *)
Definition wake (p : pc) : pc := match p with RSleep n k => RWoken n k | _ => p end.

(** Returning runs the [k] deferred [cond.L.Unlock()]; unlocking an unlocked
    mutex is fatal. *)
Definition return_read (k : nat) (d : bytes) : pc :=
  match k with 0 | 1 => RRet (Ok d) | _ => RRet Panic end.

(** The next step of thread [i]; [None] when it has returned or is blocked. *)
Definition step_thread (i : nat) (c : config) : option config :=
  let 'mk_config b l ths acc del := c in
  let goto p := Some (mk_config b l (<[i := p]> ths) acc del) in
  match ths !! i with
  | Some (RTry0 n) =>
      if decide (n = 0) then goto (RRet (Ok [])) else
      let '(d, b') := readFromBuf n b in
      Some (mk_config b' l (<[i := if decide (0 < length d) then RRet (Ok d) else REof n]> ths)
              acc (del ++ d))
  | Some (REof n) => goto (if eof b then RRet (Err EOF) else RLock n 0)
  | Some (RLock n k) =>
      if l then None else Some (mk_config b true (<[i := RWait n (S k)]> ths) acc del)
  | Some (RWait n k) => Some (mk_config b false (<[i := RSleep n k]> ths) acc del)
  | Some (RWoken n k) =>
      if l then None else Some (mk_config b true (<[i := RTry n k]> ths) acc del)
  | Some (RTry n k) =>
      let '(d, b') := readFromBuf n b in
      if decide (0 < length d)
      then Some (mk_config b' false (<[i := return_read k d]> ths) acc (del ++ d))
      else Some (mk_config b' l (<[i := RLock n k]> ths) acc (del ++ d))
  | Some (WCheck d) => goto (if eof b then WRet (Err EOF) else WBody d)
  | Some (WBody d) =>
      let '(r, b') := writeBody d b in
      match r with
      | Ok _ => Some (mk_config b' l (<[i := WRet r]> (map wake ths)) (acc ++ d) del)
      | _ => Some (mk_config b' l (<[i := WRet r]> ths) acc del)
      end
  | Some CRun =>
      let '(r, b') := Close b in Some (mk_config b' l (<[i := CRet r]> ths) acc del)
  | Some (RSleep _ _) | Some (RRet _) | Some (WRet _) | Some (CRet _) | None => None
  end.

(** The first point of a call. *)
Definition is_call (p : pc) : bool :=
  match p with RTry0 _ | WCheck _ | CRun => true | _ => false end.

Inductive step : config → config → Prop :=
  | step_run i c c' : step_thread i c = Some c' → step c c'
  | step_call p c : is_call p = true →
      step c (mk_config (shared c) (locked c) (threads c ++ [p]) (accepted c) (delivered c)).

Definition initial : config := mk_config NewReadWriteBuffer false [] [] [].
Definition reachable : config → Prop := rtc step initial.

(** *** The queue is first-in first-out in every interleaving *)
Definition fifo (c : config) : Prop :=
  sound (shared c) ∧ delivered c ++ content (shared c) = accepted c.

Lemma step_fifo (c c' : config) : step c c' → fifo c → fifo c'.
Proof.
  intros Hst [Hs Hf]. destruct Hst as [i c c' Hst | p c Hp]; [|done].
  destruct c as [b l ths acc del]. unfold step_thread in Hst. unfold fifo in *.
  cbn [shared accepted delivered] in *.
  assert (Hread : ∀ n d b', readFromBuf n b = (d, b') →
    sound b' ∧ (del ++ d) ++ content b' = acc).
  { intros n d b' E. destruct (readFromBuf_ok n b Hs) as (E1 & E2 & E3 & _).
    rewrite E in *. cbn [fst snd] in *. subst d. by rewrite E2, <- app_assoc, take_drop. }
  destruct (ths !! i) as [[n|n|n k|n k|n k|n k|n k|r|d|d|r| |r]|]; try done.
  - case_decide; [by injection Hst as <-|].
    destruct (readFromBuf n b) as [d b'] eqn:E. injection Hst as <-. by apply (Hread n).
  - by injection Hst as <-.
  - destruct l; [done|]. by injection Hst as <-.
  - by injection Hst as <-.
  - destruct l; [done|]. by injection Hst as <-.
  - destruct (readFromBuf n b) as [d b'] eqn:E.
    case_decide; injection Hst as <-; by apply (Hread n).
  - by injection Hst as <-.
  - pose proof (writeBody_ok d b Hs) as Hw. destruct (writeBody d b) as [[n|e| |] b']; try done.
    + destruct Hw as (_ & Hc & Hs' & _). injection Hst as <-. split; [done|].
      cbn [shared accepted delivered]. by rewrite Hc, app_assoc, Hf.
    + destruct Hw as (_ & ->). by injection Hst as <-.
  - unfold Close in Hst. by injection Hst as <-.
Qed.

Lemma reachable_fifo (c : config) : reachable c → fifo c.
Proof.
  intros Hr. assert (Hi : fifo initial) by (split; [apply new_sound|reflexivity]).
  by apply (rtc_invariant step _ step_fifo initial).
Qed.

(** *** Threads that wait for ever *)

(** Thread [i] owns [cond.L]. *)
Definition owns (p : pc) : bool :=
  match p with RWait _ _ | RTry _ _ | RLock _ (S _) => true | _ => false end.

(** The owner of the lock is about to lock it again, and nobody else owns it. *)
Definition relocking (i n k : nat) (c : config) : Prop :=
  locked c = true ∧ threads c !! i = Some (RLock n (S k)) ∧
  ∀ j p, threads c !! j = Some p → owns p = true → j = i.

(** Buffer closed, nobody past the check of [eof] in [Write], [i] asleep. *)
Definition stranded (i n k : nat) (c : config) : Prop :=
  eof (shared c) = true ∧ threads c !! i = Some (RSleep n k) ∧
  ∀ j d, threads c !! j ≠ Some (WBody d).

Lemma wake_owns (p : pc) : owns (wake p) = owns p.
Proof. by destruct p as [| | | | | | | | | | | |]. Qed.

(** What one step of thread [j] does to the threads, the lock and [eof]. *)
Lemma step_shape (j : nat) (c c' : config) :
  step_thread j c = Some c' →
  ∃ q q' (w : bool), threads c !! j = Some q ∧
    threads c' = <[j := q']> (if w then map wake (threads c) else threads c) ∧
    (w = true → ∃ d, q = WBody d) ∧
    (locked c = true → (∀ n k, q ≠ RLock n k) ∧
                       (owns q = false → owns q' = false ∧ locked c' = true)) ∧
    (∀ n k, q ≠ RSleep n k) ∧
    (eof (shared c) = true → sound (shared c) → eof (shared c') = true ∧ ∀ d, q' ≠ WBody d).
Proof.
  destruct c as [b l ths acc del]. unfold step_thread. cbn [threads locked shared]. intros Hst.
  assert (Hr : ∀ n, sound b → eof (readFromBuf n b).2 = eof b).
  { intros n Hs. by destruct (readFromBuf_ok n b Hs) as (_ & _ & _ & ?). }
  destruct (ths !! j) as [q|] eqn:Hj; [|done]. exists q.
  destruct q as [n|n|n k|n k|n k|n k|n k|r|d|d|r| |r]; try done.
  - case_decide as Hn.
    + injection Hst as <-. exists (RRet (Ok [])), false. by cbn.
    + specialize (Hr n). destruct (readFromBuf n b) as [d b'].
      case_decide; injection Hst as <-; eexists _, false; cbn [threads locked shared snd] in *;
        repeat split; try done; by intros; rewrite Hr by done.
  - injection Hst as <-. eexists _, false. cbn. repeat split; try done; by destruct (eof b).
  - destruct l; [done|]. injection Hst as <-. by eexists _, false.
  - injection Hst as <-. by eexists _, false.
  - destruct l; [done|]. injection Hst as <-. by eexists _, false.
  - specialize (Hr n). destruct (readFromBuf n b) as [d b'].
    case_decide; injection Hst as <-; eexists _, false; cbn [threads locked shared snd] in *;
      repeat split; try done; try (by intros; rewrite Hr by done).
    intros d0. by destruct k as [|[|k]].
  - injection Hst as <-. eexists _, false. cbn. repeat split; try done; destruct (eof b); done.
  - pose proof (writeBody_ok d b) as Hw. destruct (writeBody d b) as [[m|e| |] b']; injection Hst as <-.
    + eexists _, true. cbn [threads locked shared]. repeat split; try done; [by eexists|].
      match goal with H : sound _ |- _ => destruct (Hw H) as (_ & _ & _ & ->) end. done.
    + eexists _, false. cbn [threads locked shared]. repeat split; try done.
      match goal with H : sound _ |- _ => by destruct (Hw H) as (_ & ->) end.
    + by eexists _, false.
    + by eexists _, false.
  - injection Hst as <-. eexists _, false. by cbn.
Qed.

(** Only a write changes what was accepted, and only a write that accepts its
    data wakes the readers. *)
Definition is_writing (p : pc) : bool := match p with WCheck _ | WBody _ => true | _ => false end.

Definition write_effect (q q' : pc) (w : bool) (acc acc' : bytes) : Prop :=
  match q with
  | WCheck d => w = false ∧ acc' = acc ∧ (q' = WBody d ∨ q' = WRet (Err EOF))
  | WBody d => w = true ∧ acc' = acc ++ d ∧ q' = WRet (Ok (len d)) ∨
               w = false ∧ acc' = acc ∧ ∃ e, q' = WRet (Err e)
  | _ => w = false ∧ acc' = acc ∧ is_writing q' = false
  end.

Lemma step_effect (j : nat) (c c' : config) :
  step_thread j c = Some c' → sound (shared c) →
  ∃ q q' (w : bool), threads c !! j = Some q ∧
    threads c' = <[j := q']> (if w then map wake (threads c) else threads c) ∧
    write_effect q q' w (accepted c) (accepted c').
Proof.
  destruct c as [b l ths acc del]. unfold step_thread. cbn [threads shared accepted]. intros Hst Hs.
  destruct (ths !! j) as [q|] eqn:Hj; [|done]. exists q. destruct q as [n|n|n k|n k|n k|n k|n k|r|d|d|r| |r]; try done.
  - case_decide; [by injection Hst as <-; exists (RRet (Ok [])), false|].
    destruct (readFromBuf n b) as [d b']. case_decide; injection Hst as <-; by eexists _, false.
  - injection Hst as <-. eexists _, false. split; [done|]. split; [reflexivity|]. by destruct (eof b).
  - destruct l; [done|]. injection Hst as <-. by eexists _, false.
  - injection Hst as <-. by eexists _, false.
  - destruct l; [done|]. injection Hst as <-. by eexists _, false.
  - destruct (readFromBuf n b) as [d b']. case_decide; injection Hst as <-; eexists _, false;
      (split; [done|]); (split; [reflexivity|]); [|done]. by destruct k as [|[|k]].
  - injection Hst as <-. eexists _, false. split; [done|]. split; [reflexivity|]. destruct (eof b); cbn; auto.
  - pose proof (writeBody_ok d b Hs) as Hw. destruct (writeBody d b) as [[m|e| |] b']; try done; injection Hst as <-.
    + destruct Hw as (-> & _). exists (WRet (Ok (len d))), true. cbn. split; [done|]. split; [done|]. by left.
    + exists (WRet (Err e)), false. cbn. split; [done|]. split; [done|]. right. eauto.
  - injection Hst as <-. by eexists _, false.
Qed.

Lemma lookup_after (ths : list pc) (i j : nat) (q' p : pc) (w : bool) :
  i ≠ j → ths !! i = Some p →
  (<[j := q']> (if w then map wake ths else ths) : list pc) !! i = Some (if w then wake p else p).
Proof.
  intros Hne Hi. rewrite list_lookup_insert_ne by done. destruct w; [|done].
  by rewrite list_lookup_fmap, Hi.
Qed.

Lemma lookup_after_inv (ths : list pc) (i j : nat) (q' p : pc) (w : bool) :
  (<[j := q']> (if w then map wake ths else ths) : list pc) !! i = Some p →
  (i = j ∧ p = q') ∨ i ≠ j ∧ ∃ p0, ths !! i = Some p0 ∧ p = (if w then wake p0 else p0).
Proof.
  intros E. destruct (decide (i = j)) as [->|Hne].
  - apply list_lookup_insert_Some in E as [(_ & -> & _)|[? _]]; [by left|done].
  - right. split; [done|]. rewrite list_lookup_insert_ne in E by done. destruct w; [|by eexists].
    rewrite list_lookup_fmap in E. destruct (ths !! i) as [p0|]; [|done]. injection E as <-. eauto.
Qed.

Lemma relocking_step (i n k : nat) (c c' : config) :
  step c c' → relocking i n k c → relocking i n k c'.
Proof.
  intros Hst (Hl & Hi & Huniq). destruct Hst as [j c c' Hst | p c Hp].
  - destruct (step_shape j c c' Hst) as (q & q' & w & Hj & Hths & _ & Hlk & _).
    destruct (Hlk Hl) as [Hnl Ho]. assert (i ≠ j) as Hne
      by (intros ->; rewrite Hi in Hj; injection Hj as <-; by destruct (Hnl n (S k))).
    assert (Hq : owns q = false).
    { destruct (owns q) eqn:E; [|done]. exfalso. apply Hne. symmetry. by eapply Huniq. }
    destruct (Ho Hq) as [Hq' Hl']. split; [done|]. rewrite Hths. split.
    + rewrite (lookup_after _ _ _ _ _ _ Hne Hi). by destruct w.
    + intros m p [[-> ->]|[_ (p0 & Hm & ->)]]%lookup_after_inv Hpo; [congruence|].
      apply (Huniq m p0 Hm). destruct w; [by rewrite wake_owns in Hpo|done].
  - cbn [locked threads]. split; [done|]. cbn [threads]. split.
    + by apply lookup_app_l_Some.
    + intros m q [Hm|[_ Hm]]%lookup_app_Some Hq; [by eapply Huniq|].
      apply list_lookup_singleton_Some in Hm as [_ <-]. by destruct p.
Qed.

Lemma relocking_forever (i n k : nat) (c c' : config) :
  relocking i n k c → rtc step c c' → threads c' !! i = Some (RLock n (S k)).
Proof.
  intros Hc Hr. apply (rtc_invariant step _ (relocking_step i n k) _ _ Hr Hc).
Qed.

Lemma stranded_step (i n k : nat) (c c' : config) :
  step c c' → fifo c → stranded i n k c → stranded i n k c'.
Proof.
  intros Hst [Hs _] (He & Hi & Hw). destruct Hst as [j c c' Hst | p c Hp].
  - destruct (step_shape j c c' Hst) as (q & q' & w & Hj & Hths & Hwb & _ & Hns & Heof).
    destruct (Heof He Hs) as [He' Hq']. assert (i ≠ j) as Hne
      by (intros ->; rewrite Hi in Hj; injection Hj as <-; by destruct (Hns n k)).
    assert (w = false) as ->.
    { destruct w; [|done]. destruct (Hwb eq_refl) as [d ->]. by destruct (Hw j d). }
    split; [done|]. rewrite Hths. split; [by apply (lookup_after _ _ _ _ _ false)|].
    intros m d [[-> E]|[_ (p0 & Hm & E)]]%(lookup_after_inv _ _ _ _ _ false); [by destruct (Hq' d)|].
    subst p0. by destruct (Hw m d).
  - split; [done|]. split; [by apply lookup_app_l_Some|].
    intros m d [Hm|[_ Hm]]%lookup_app_Some; [by destruct (Hw m d)|].
    apply list_lookup_singleton_Some in Hm as [_ ->]. done.
Qed.

Lemma stranded_forever (i n k : nat) (c c' : config) :
  fifo c → stranded i n k c → rtc step c c' → threads c' !! i = Some (RSleep n k).
Proof.
  intros Hf Hc Hr. apply (rtc_invariant step (λ c, fifo c ∧ stranded i n k c)) in Hr as (_ & _ & ? & _); [done| |done].
  intros c1 c2 Hst [? ?]. split; [by apply (step_fifo c1)|by apply (stranded_step i n k c1)].
Qed.

(** *** Schedules *)

(** Start the calls [ps], then let the threads take steps in the given order. *)
Definition run (c : config) (sched : list nat) : option config :=
  foldl (λ o i, c ← o; step_thread i c) (Some c) sched.

Definition calls (ps : list pc) : config := mk_config NewReadWriteBuffer false ps [] [].

Lemma run_reachable (ps : list pc) (sched : list nat) (c : config) :
  forallb is_call ps = true → run (calls ps) sched = Some c → reachable c.
Proof.
  intros Hps Hrun. unfold reachable. trans (calls ps).
  - assert (Happ : ∀ qs, forallb is_call ps = true → rtc step (calls qs) (calls (qs ++ ps))).
    { clear. induction ps as [|p ps IH]; intros qs H; [by rewrite app_nil_r|].
      cbn [forallb] in H. apply andb_true_iff in H as [Hp H].
      eapply rtc_l; [apply (step_call p); done|]. cbn [shared locked threads accepted delivered].
      specialize (IH (qs ++ [p]) H). by rewrite <- app_assoc in IH. }
    by apply (Happ []).
  - clear Hps. revert Hrun. generalize (calls ps). induction sched as [|i sched IH]; intros c0 Hrun.
    + by injection Hrun as ->.
    + unfold run in Hrun. cbn [foldl mbind option_bind] in Hrun.
      destruct (step_thread i c0) as [c1|] eqn:E.
      * eapply rtc_l; [by eapply step_run|]. by apply IH.
      * exfalso. clear -Hrun. induction sched; [done|]. by apply IHsched.
Qed.

(** ** Properties *)

(** C29: the pipe is a queue under concurrency: in every interleaving of any
    number of reads, writes and closes, the bytes handed to readers followed
    by the bytes still buffered are exactly the bytes the writers put in, in
    that order: nothing is lost, duplicated or reordered. *)
Theorem rwb_fifo (c : config) :
  reachable c → delivered c ++ content (shared c) = accepted c.
Proof. intros Hc. by apply reachable_fifo. Qed.

Definition sample_run : config :=
  default initial (run (calls [WCheck (lit "hello"); RTry0 3; CRun]) [0; 0; 1; 2]).

Lemma rwb_fifo_witness :
  lit "hel" ++ lit "lo" = accepted sample_run ∧ delivered sample_run = lit "hel".
Proof.
  split; [|vm_compute; reflexivity]. etrans; [|apply (rwb_fifo sample_run)].
  - vm_compute. reflexivity.
  - apply (run_reachable [WCheck (lit "hello"); RTry0 3; CRun] [0; 0; 1; 2]); vm_compute; reflexivity.
Defined.

(** Writing never blocks and never panics: on a closed buffer it fails
    with [io.EOF]; otherwise it appends all its data, or changes nothing and
    fails with [io.ErrShortBuffer]; the failure needs more than [BUF_SIZE]
    bytes of data and a total beyond [BUF_SIZE_MAX - BUF_SIZE]. *)
Theorem rwb_write_result (f : ReadWriteBuffer) (d : bytes) :
  sound f →
  match Write d f with
  | (Ok n, f') => eof f = false ∧ n = len d ∧ content f' = content f ++ d ∧ sound f'
  | (Err e, f') => f' = f ∧
      (eof f = true ∧ e = EOF ∨
       eof f = false ∧ e = ErrShortBuffer ∧ (BUF_SIZE < len d)%Z ∧
       (BUF_SIZE_MAX - BUF_SIZE < len (content f) + len d)%Z)
  | _ => False
  end.
Proof.
  intros Hs. unfold Write. destruct (eof f) eqn:He; [auto|].
  pose proof (writeBody_ok d f Hs) as Hw. destruct (writeBody d f) as [[n|e| |] f'] eqn:E; try done.
  - destruct Hw as (? & ? & ? & _). auto.
  - destruct Hw as (-> & ->). split; [done|]. right. apply writeBody_refuses in E; done.
Qed.

Lemma rwb_write_result_witness :
  ∃ f', Write (lit "abc") NewReadWriteBuffer = (Ok 3%Z, f') ∧ content f' = lit "abc".
Proof.
  pose proof (rwb_write_result NewReadWriteBuffer (lit "abc") new_sound) as H.
  assert (Hr : (Write (lit "abc") NewReadWriteBuffer).1 = Ok 3%Z) by (vm_compute; reflexivity).
  destruct (Write (lit "abc") NewReadWriteBuffer) as [r f']. cbn [fst] in Hr. subst r.
  destruct H as (_ & _ & Hc & _). exists f'. split; [reflexivity|]. rewrite Hc. vm_compute. reflexivity.
Defined.

(** The limit [BUF_SIZE_MAX] does not bound the buffer: writes of at most
    [BUF_SIZE] bytes always succeed, so without a reader the buffer grows to
    any size, 4 KiB at a time. *)
Theorem rwb_limit_bypassed (k : nat) :
  ∃ f ds, Forall (λ d, len d = BUF_SIZE) ds ∧ length ds = k ∧
    foldl (λ f d, (Write d f).2) NewReadWriteBuffer ds = f ∧
    len (content f) = (Z.of_nat k * BUF_SIZE)%Z.
Proof.
  set (d := make_bytes (Z.to_nat BUF_SIZE)).
  assert (Hd : len d = BUF_SIZE)
    by (unfold d, len; rewrite length_make_bytes; unfold BUF_SIZE; lia). clearbody d.
  assert (Hind : ∀ k, let f := foldl (λ f d, (Write d f).2) NewReadWriteBuffer (replicate k d) in
    sound f ∧ eof f = false ∧ len (content f) = (Z.of_nat k * BUF_SIZE)%Z).
  { clear k. induction k as [|k IH]; [split; [apply new_sound|done]|].
    rewrite replicate_S_end, foldl_app. cbn [foldl].
    destruct IH as (Hs & He & Hc). set (f := foldl _ _ _) in *.
    destruct (writeBody_small d f Hs) as (f' & Hw & Hcf & Hs' & He'); [lia|].
    unfold Write. rewrite He, Hw. cbn [snd]. split; [done|]. split; [congruence|].
    rewrite Hcf. unfold len in *. rewrite length_app. lia. }
  destruct (Hind k) as (_ & _ & Hc).
  exists (foldl (λ f d, (Write d f).2) NewReadWriteBuffer (replicate k d)), (replicate k d).
  split; [by apply Forall_replicate|]. split; [apply length_replicate|]. auto.
Qed.

(** Closing the buffer does not wake its reader: there is an interleaving
    of one read and one close after which, whatever calls follow, the reader
    stays asleep for ever instead of returning [io.EOF]. *)
Theorem rwb_close_strands_reader (n : nat) :
  ∃ c, reachable c ∧ eof (shared c) = true ∧ content (shared c) = [] ∧
    ∀ c', rtc step c c' → threads c' !! 0 = Some (RSleep (S n) 1).
Proof.
  destruct (run (calls [RTry0 (S n); CRun]) [0; 0; 0; 0; 1]) as [c|] eqn:E; [|by vm_compute in E].
  assert (Hr : reachable c) by (by eapply run_reachable; [|exact E]).
  exists c. split; [done|]. vm_compute in E. injection E as <-.
  split; [done|]. split; [done|]. intros c' Hc'.
  refine (stranded_forever 0 (S n) 1 _ c' (reachable_fifo _ Hr) _ Hc').
  split; [done|]. split; [done|]. intros [|[|j]] d; done.
Qed.

(** An empty write wedges a waiting reader: it is woken, finds nothing,
    and locks the condition's mutex it already holds; from then on it never
    returns, whatever data are written afterwards. *)
Theorem rwb_empty_write_deadlocks (n : nat) :
  ∃ c, reachable c ∧ threads c !! 1 = Some (WRet (Ok 0%Z)) ∧ accepted c = [] ∧
    ∀ c', rtc step c c' → threads c' !! 0 = Some (RLock (S n) 1).
Proof.
  destruct (run (calls [RTry0 (S n); WCheck []]) [0; 0; 0; 0; 1; 1; 0; 0]) as [c|] eqn:E;
    [|by vm_compute in E].
  assert (Hr : reachable c) by (by eapply run_reachable; [|exact E]).
  exists c. split; [done|]. vm_compute in E. injection E as <-.
  split; [done|]. split; [done|]. intros c' Hc'.
  refine (relocking_forever 0 (S n) 0 _ c' _ Hc').
  split; [done|]. split; [done|]. intros [|[|j]] p [= <-]; done.
Qed.

(** A wake-up is effective when the reader sleeps: data written then are
    returned by the reader in three further steps, if no other reader holds
    the condition's mutex. *)
Theorem rwb_wakeup_delivers (c : config) (i j n : nat) (d : bytes) :
  fifo c → locked c = false → content (shared c) = [] → 0 < n → d ≠ [] → (len d ≤ BUF_SIZE)%Z →
  i ≠ j → threads c !! i = Some (RSleep n 1) → threads c !! j = Some (WBody d) →
  ∃ c', run c [j; i; i] = Some c' ∧ threads c' !! i = Some (RRet (Ok (take n d))) ∧
        threads c' !! j = Some (WRet (Ok (len d))) ∧ content (shared c') = drop n d ∧
        locked c' = false.
Proof.
  destruct c as [b l ths acc del]. cbn [locked shared threads].
  intros [Hs _] -> Hc Hn Hd Hld Hne Hi Hj. cbn [shared] in Hs.
  destruct (writeBody_small d b Hs Hld) as (b1 & Hw & Hc1 & Hs1 & _). rewrite Hc in Hc1.
  cbn [app] in Hc1. destruct (readFromBuf n b1) as [d2 b2] eqn:Er.
  destruct (readFromBuf_ok n b1 Hs1) as (R1 & R2 & _). rewrite Er, Hc1 in R1, R2.
  cbn [fst snd] in R1, R2. subst d2.
  assert (Hpos : 0 < length (take n d)) by (rewrite length_take; destruct d; [done|cbn [length]; lia]).
  set (ths1 := <[j := WRet (Ok (len d))]> (map wake ths)).
  assert (Hi1 : ths1 !! i = Some (RWoken n 1)).
  { unfold ths1. by rewrite list_lookup_insert_ne, list_lookup_fmap, Hi by done. }
  assert (Hj1 : ths1 !! j = Some (WRet (Ok (len d)))).
  { unfold ths1. apply list_lookup_insert_eq. rewrite length_map. by eapply lookup_lt_Some. }
  exists (mk_config b2 false (<[i := RRet (Ok (take n d))]> (<[i := RTry n 1]> ths1))
            (acc ++ d) (del ++ take n d)).
  assert (Hlt : i < length ths1) by (by eapply lookup_lt_Some).
  split; [|cbn [threads locked shared]; split; [|split; [|done]]].
  - unfold run. cbn [foldl mbind option_bind step_thread]. rewrite Hj, Hw. fold ths1.
    cbn [mbind option_bind step_thread]. rewrite Hi1. cbn [mbind option_bind step_thread].
    rewrite list_lookup_insert_eq, Er by done. by rewrite decide_True by done.
  - by rewrite list_lookup_insert_eq by (by rewrite length_insert).
  - by rewrite !list_lookup_insert_ne by done.
Qed.

(** A reader of five bytes asleep, a writer past its check. *)
Definition sample_wakeup : config :=
  default initial (run (calls [RTry0 5; WCheck (lit "hello!")]) [0; 0; 0; 0; 1]).

Lemma rwb_wakeup_delivers_witness :
  ∃ c', run sample_wakeup [1; 0; 0] = Some c' ∧ threads c' !! 0 = Some (RRet (Ok (lit "hello"))) ∧
        threads c' !! 1 = Some (WRet (Ok 6%Z)) ∧ content (shared c') = lit "!" ∧ locked c' = false.
Proof.
  refine (rwb_wakeup_delivers sample_wakeup 0 1 5 (lit "hello!") _ _ _ _ _ _ _ _ _).
  - apply reachable_fifo.
    apply (run_reachable [RTry0 5; WCheck (lit "hello!")] [0; 0; 0; 0; 1]); vm_compute; reflexivity.
  - vm_compute. reflexivity.
  - vm_compute. reflexivity.
  - lia.
  - discriminate.
  - vm_compute. discriminate.
  - discriminate.
  - vm_compute. reflexivity.
  - vm_compute. reflexivity.
Defined.
End RwBuffer.
