(* ===== verification/Utils.v ===== *)
(** The helpers of package [utils]: random identifiers (src/utils/rand.go),
    the filter of proxiable addresses (ip.go) and the classification of
    errors (io.go). *)
From S2P Require Import Prelude Strconv Aes.

Module Utils.
(** ** rand.go *)

(** [byte(48 + int((float32(v)*10.0)/256.0))]: the products are below 2^24
    and the divisor is a power of two, so the float arithmetic is exact and
    the conversion truncates. *)
Definition digit_of (v : byte) : byte := byte_of (48 + byte_val v * 10 / 256).

Definition RandDigits (size : nat) : M rng bytes :=
  buff ← rand_read size; mret (map digit_of buff).

Definition ascii_of (b : byte) : byte :=
  let v := (byte_val b * 62 / 256)%Z in
  if (v <? 10)%Z then byte_of (v + 48)
  else if (v <? 10 + 26)%Z then byte_of (v + (97 - 10))
  else if (v <? 10 + 26 + 26)%Z then byte_of (v + (65 - 26 - 10))
  else byte_of v.

Definition EncodeAsASCII (buf : bytes) : bytes := map ascii_of buf.

Definition RandString (size : nat) : M rng bytes :=
  buf ← rand_read size; mret (EncodeAsASCII buf).

(** [now] is [time.Now().Unix()]. *)
Definition UniqueId (now : Z) (size : nat) : M rng bytes :=
  let tbuf := put_be 8 now in
  buf ← rand_read size;
  let buf := zip_with byte_xor (take (length tbuf) buf) (take (length buf) tbuf)
             ++ drop (length tbuf) buf in
  mret (EncodeAsASCII buf).

(** Digits and letters. *)
Definition alnum (b : byte) : bool :=
  let v := byte_val b in
  (48 <=? v)%Z && (v <=? 57)%Z || (97 <=? v)%Z && (v <=? 122)%Z || (65 <=? v)%Z && (v <=? 90)%Z.

Lemma ascii_of_alnum (b : byte) : alnum (ascii_of b) = true.
Proof. by destruct b. Qed.

Lemma UniqueId_ok (now : Z) (size : nat) (g : rng) :
  ∃ id g', UniqueId now size g = (Ok id, g') ∧ length id = size ∧ forallb alnum id = true.
Proof.
  unfold UniqueId. destruct (rand_read_ok size g) as (buf & g' & Hr & Hl). run Hr.
  do 2 eexists. split; [reflexivity|]. unfold EncodeAsASCII. split.
  - rewrite length_map, length_app, length_zip_with, !length_take, length_drop, length_put_be. lia.
  - rewrite forallb_forall. intros b (a & <- & _)%in_map_iff. apply ascii_of_alnum.
Qed.

(** Every alphanumeric character is the image of four or five byte values. *)
Lemma ascii_of_cover (c : byte) : alnum c = true → ∃ b, ascii_of b = c.
Proof.
  intros Hc. set (v := byte_val c).
  exists (byte_of (let k := if (v <=? 57)%Z then v - 48 else if (v <=? 90)%Z then v - 29 else v - 87
                   in (k * 256 + 61) / 62))%Z.
  unfold v. destruct c; try discriminate Hc; reflexivity.
Qed.

(** ** io.go *)
Definition IsIOError (err : option error) : bool :=
  match err with
  | Some EOF => true
  | Some OpError => true
  | _ => false
  end.

(** ** ip.go

    A [net.IP] is a byte slice of length 4 or 16 ([nil] otherwise), an IPv4
    address possibly in its IPv4-mapped IPv6 form; the predicates are those
    of the standard library. *)
Definition v4_prefix : bytes := make_bytes 10 ++ [Byte.xff; Byte.xff].

Definition To4 (ip : bytes) : option bytes :=
  if decide (length ip = 4) then Some ip
  else if decide (length ip = 16 ∧ take 12 ip = v4_prefix) then Some (drop 12 ip)
  else None.

(** [net.IPv4(a, b, c, d)], [ip4.To16()]. *)
Definition To16 (ip : bytes) : option bytes :=
  if decide (length ip = 4) then Some (v4_prefix ++ ip)
  else if decide (length ip = 16) then Some ip
  else None.

Definition octet (ip : bytes) (i : nat) : Z := byte_val (nth_byte ip i).

Definition is_v6 (ip : bytes) : bool := bool_decide (length ip = 16).

Definition IsLoopback (ip : bytes) : bool :=
  match To4 ip with
  | Some ip4 => (octet ip4 0 =? 127)%Z
  | None => bool_decide (ip = make_bytes 15 ++ [Byte.x01])
  end.

Definition IsUnspecified (ip : bytes) : bool :=
  match To4 ip with
  | Some ip4 => bool_decide (ip4 = make_bytes 4)
  | None => bool_decide (ip = make_bytes 16)
  end.

Definition IsPrivate (ip : bytes) : bool :=
  match To4 ip with
  | Some ip4 =>
      (octet ip4 0 =? 10)%Z ||
      (octet ip4 0 =? 172)%Z && (Z.land (octet ip4 1) 240 =? 16)%Z ||
      (octet ip4 0 =? 192)%Z && (octet ip4 1 =? 168)%Z
  | None => is_v6 ip && (Z.land (octet ip 0) 254 =? 252)%Z
  end.

Definition IsMulticast (ip : bytes) : bool :=
  match To4 ip with
  | Some ip4 => (Z.land (octet ip4 0) 240 =? 224)%Z
  | None => is_v6 ip && (octet ip 0 =? 255)%Z
  end.

Definition IsLinkLocalMulticast (ip : bytes) : bool :=
  match To4 ip with
  | Some ip4 => (octet ip4 0 =? 224)%Z && (octet ip4 1 =? 0)%Z && (octet ip4 2 =? 0)%Z
  | None => is_v6 ip && (octet ip 0 =? 255)%Z && (Z.land (octet ip 1) 15 =? 2)%Z
  end.

Definition IsLinkLocalUnicast (ip : bytes) : bool :=
  match To4 ip with
  | Some ip4 => (octet ip4 0 =? 169)%Z && (octet ip4 1 =? 254)%Z
  | None => is_v6 ip && (octet ip 0 =? 254)%Z && (Z.land (octet ip 1) 192 =? 128)%Z
  end.

(** [nil] is [None]. *)
Definition IsLegitProxiableIP (ip : option bytes) : bool :=
  match ip with
  | None => false
  | Some ip =>
      if IsLinkLocalUnicast ip then false
      else if IsLinkLocalMulticast ip then false
      else if IsLoopback ip then false
      else if IsPrivate ip then false
      else if IsMulticast ip then false
      else if IsUnspecified ip then false
      else true
  end.

(** The IPv4 ranges the proxy refuses to reach. *)
Definition reserved_v4 (a b c d : Z) : bool :=
  (a =? 127)%Z || (a =? 10)%Z || (a =? 172)%Z && (16 <=? b)%Z && (b <=? 31)%Z ||
  (a =? 192)%Z && (b =? 168)%Z || (a =? 169)%Z && (b =? 254)%Z ||
  (224 <=? a)%Z && (a <=? 239)%Z || (a =? 0)%Z && (b =? 0)%Z && (c =? 0)%Z && (d =? 0)%Z.

Lemma land_high4 (b : byte) (k : Z) :
  (k = 16 ∨ k = 224)%Z →
  (Z.land (byte_val b) 240 =? k)%Z = (k <=? byte_val b)%Z && (byte_val b <=? k + 15)%Z.
Proof. intros [-> | ->]; destruct b; reflexivity. Qed.

Lemma guard_negb (b c : bool) : (if b then false else c) = negb b && c.
Proof. by destruct b. Qed.

Lemma byte_val_zero (b : byte) : bool_decide (b = Byte.x00) = (byte_val b =? 0)%Z.
Proof. by destruct b. Qed.

Lemma To4_mapped (ip : bytes) : length ip = 4 → To4 (v4_prefix ++ ip) = Some ip.
Proof.
  intros Hl. unfold To4. rewrite decide_False by (rewrite length_app; cbn [length v4_prefix]; cbn; lia).
  rewrite decide_True; [done|]. split; [|done]. rewrite length_app, Hl. done.
Qed.

(** ** Properties *)

(** C33: the address filter: an IPv4 address is proxiable exactly when it is
    outside the loopback, private, link-local, multicast and unspecified
    ranges, whether it is given in its 4-byte or in its IPv4-mapped 16-byte
    form (so a mapped address cannot bypass the filter). *)
Theorem legit_ipv4 (a b c d : byte) :
  let ip := [a; b; c; d] in
  IsLegitProxiableIP (Some ip) = negb (reserved_v4 (byte_val a) (byte_val b) (byte_val c) (byte_val d)) ∧
  IsLegitProxiableIP (Some (v4_prefix ++ ip)) = IsLegitProxiableIP (Some ip).
Proof.
  cbv zeta. set (ip := [a; b; c; d]).
  assert (H4 : To4 ip = Some ip) by reflexivity.
  assert (H16 : To4 (v4_prefix ++ ip) = Some ip) by (by apply To4_mapped).
  unfold IsLegitProxiableIP, IsLinkLocalUnicast, IsLinkLocalMulticast, IsLoopback, IsPrivate,
    IsMulticast, IsUnspecified. rewrite H4, H16. split; [|done].
  unfold octet, ip. cbn [nth_byte nth]. rewrite !land_high4 by auto.
  assert (Hz : bool_decide ([a; b; c; d] = make_bytes 4) =
     (byte_val a =? 0)%Z && (byte_val b =? 0)%Z && (byte_val c =? 0)%Z && (byte_val d =? 0)%Z).
  { rewrite <- !byte_val_zero, <- !bool_decide_and. apply bool_decide_ext.
    cbn. split; [intros [= -> -> -> ->]; auto|]. intros [[[-> ->] ->] ->]. done. }
  rewrite Hz. unfold reserved_v4.
  pose proof (byte_val_range a). pose proof (byte_val_range b).
  generalize dependent (byte_val a). intros x Hx. generalize dependent (byte_val b). intros y Hy.
  generalize (byte_val c) (byte_val d). intros z w.
  rewrite !guard_negb.
  assert (Hcase : ∀ k, x = k ∨ (x =? k)%Z = false) by (intros k; destruct (Z.eqb_spec x k); auto).
  destruct (Hcase 0%Z) as [->|E0]; [cbn; by destruct (y =? 0)%Z, (z =? 0)%Z, (w =? 0)%Z|].
  destruct (Hcase 10%Z) as [->|E1]; [done|].
  destruct (Hcase 127%Z) as [->|E2]; [done|].
  destruct (Hcase 169%Z) as [->|E3]; [cbn; by destruct (y =? 254)%Z|].
  destruct (Hcase 172%Z) as [->|E4].
  { cbn [Z.eqb Pos.eqb andb orb negb Z.leb Z.compare Pos.compare Pos.compare_cont].
    change (16 + 15)%Z with 31%Z. by destruct ((16 <=? y)%Z && (y <=? 31)%Z). }
  destruct (Hcase 192%Z) as [->|E5]; [cbn; by destruct (y =? 168)%Z|].
  rewrite E0, E1, E2, E3, E4, E5. cbn [andb orb negb].
  destruct (Hcase 224%Z) as [->|E6]; [by cbn; destruct ((y =? 0)%Z && (z =? 0)%Z)|].
  rewrite E6. change (224 + 15)%Z with 239%Z. by destruct ((224 <=? x)%Z && (x <=? 239)%Z).
Qed.

(** Identifiers are unpredictable strings of digits and letters: every
    requested length is honoured, every character is one of the 62, and each
    of the 62 is the image of some random byte. *)
Theorem unique_id_alnum (now : Z) (size : nat) (g : rng) :
  (∃ id g', UniqueId now size g = (Ok id, g') ∧ length id = size ∧ forallb alnum id = true) ∧
  (∀ c, alnum c = true → ∃ b, EncodeAsASCII [b] = [c]).
Proof.
  split; [apply UniqueId_ok|]. intros c Hc. destruct (ascii_of_cover c Hc) as [b Hb].
  exists b. unfold EncodeAsASCII. cbn. by rewrite Hb.
Qed.
End Utils.
