(* ===== verification/Proxy.v ===== *)
(** The relay of package [utils] (src/utils/proxy.go): [Proxy] as the step
    relation of its four goroutines over their channels. *)
From S2P Require Import Prelude GoIO Conf.

(** ** [Proxy] *)
Module Proxy.

(** A goroutine that reads a connection: in [Read], sending the chunk, sending
    its error, gone. *)
Inductive reading := Reading | Sending (chunk : bytes) | RFailing (err : error) | RExited.

(** A goroutine that writes a connection: in its [select], in [Write], sending
    its error, gone. *)
Inductive writing := Selecting | Writing (chunk : bytes) | WFailing (err : error) | WExited.

(** One direction: its reading goroutine and its channel ([chUp] or [chDown]),
    with what was read on one side and written on the other. *)
Record flow := mk_flow { rd : reading; queue : list bytes; taken : bytes; given : bytes }.

(** [main] is the last loop of [Proxy], which writes the down-link; it is gone
    when [Proxy] has returned.  [cancelled]: [x] is done. *)
Record proxy := mk_proxy {
  up : flow;
  down : flow;
  writer : writing;
  main : writing;
  chErr : list error;
  cancelled : bool;
}.

Definition start : proxy :=
  mk_proxy (mk_flow Reading [] [] []) (mk_flow Reading [] [] []) Selecting Selecting [] false.

Definition cap_chErr : nat := 4.
Definition cap_chunks : nat := 8.

Definition set_up f s := mk_proxy f (down s) (writer s) (main s) (chErr s) (cancelled s).
Definition set_down f s := mk_proxy (up s) f (writer s) (main s) (chErr s) (cancelled s).
Definition set_writer w s := mk_proxy (up s) (down s) w (main s) (chErr s) (cancelled s).
Definition send_err e s := mk_proxy (up s) (down s) (writer s) (main s) (chErr s ++ [e]) (cancelled s).

(** Returning runs the deferred [cancel()]. *)
Definition set_main m s := mk_proxy (up s) (down s) (writer s) m (chErr s) (cancelled s).
Definition return_ s := mk_proxy (up s) (down s) (writer s) WExited (chErr s) true.

(** The reading goroutine's [Read] returns a chunk, or fails. *)
Definition read_chunk (d : bytes) (f : flow) : option flow :=
  match rd f with
  | Reading => if (len d <=? Conf.DEFAULT_BUFFER_SIZE)%Z
               then Some (mk_flow (Sending d) (queue f) (taken f ++ d) (given f)) else None
  | _ => None
  end.
Definition read_fails (e : error) (f : flow) : option flow :=
  match rd f with Reading => Some (mk_flow (RFailing e) (queue f) (taken f) (given f)) | _ => None end.

(** It sends the chunk; the channel has room for eight. *)
Definition push (f : flow) : option flow :=
  match rd f with
  | Sending d => if decide (length (queue f) < cap_chunks)
                 then Some (mk_flow Reading (queue f ++ [d]) (taken f) (given f)) else None
  | _ => None
  end.

(** It sends its error and ends. *)
Definition reader_exits (f : flow) : option (error * flow) :=
  match rd f with RFailing e => Some (e, mk_flow RExited (queue f) (taken f) (given f)) | _ => None end.

(** Receiving a chunk: an empty one is not written. *)
Definition take_chunk (f : flow) : option (writing * flow) :=
  match queue f with
  | d :: q => Some (if (0 <? len d)%Z then Writing d else Selecting, mk_flow (rd f) q (taken f) (given f))
  | [] => None
  end.

Definition give (d : bytes) (f : flow) : flow := mk_flow (rd f) (queue f) (taken f) (given f ++ d).

Inductive side := Up | Down.

(** What happens next: the environment's part is what [Read] and [Write]
    return (a failing [Write] may have written some of its chunk), and which
    ready goroutine and [select] case goes first. *)
Inductive action :=
  | ARead (i : side) (d : bytes) | AReadFails (i : side) (e : error) | APush (i : side) | AReaderExits (i : side)
  | ATakeUp | AWriteUp | AWriteUpFails (k : nat) (e : error) | AWriterFails | AWriterDone
  | ATakeErr | ATakeDown | AWriteDown | AWriteDownFails (k : nat) (e : error).

Definition flow_of (i : side) (s : proxy) : flow := match i with Up => up s | Down => down s end.
Definition put_flow (i : side) (s : proxy) (f : flow) : proxy := match i with Up => set_up f s | Down => set_down f s end.

Definition has_room (s : proxy) : bool := bool_decide (length (chErr s) < cap_chErr).

Definition exec (a : action) (s : proxy) : option proxy :=
  match a with
  | ARead i d => f ← read_chunk d (flow_of i s); Some (put_flow i s f)
  | AReadFails i e => f ← read_fails e (flow_of i s); Some (put_flow i s f)
  | APush i => f ← push (flow_of i s); Some (put_flow i s f)
  | AReaderExits i =>
      '(e, f) ← reader_exits (flow_of i s); if has_room s then Some (send_err e (put_flow i s f)) else None
  | ATakeUp =>
      match writer s with
      | Selecting => '(w, f) ← take_chunk (up s); Some (set_writer w (set_up f s))
      | _ => None
      end
  | AWriteUp =>
      match writer s with Writing d => Some (set_writer Selecting (set_up (give d (up s)) s)) | _ => None end
  | AWriteUpFails k e =>
      match writer s with
      | Writing d => Some (set_writer (WFailing e) (set_up (give (take k d) (up s)) s))
      | _ => None
      end
  | AWriterFails =>
      match writer s with
      | WFailing e => if has_room s then Some (send_err e (set_writer WExited s)) else None
      | _ => None
      end
  | AWriterDone =>
      match writer s with Selecting => if cancelled s then Some (set_writer WExited s) else None | _ => None end
  | ATakeErr =>
      match main s, chErr s with
      | Selecting, _ :: es => Some (return_ (mk_proxy (up s) (down s) (writer s) (main s) es (cancelled s)))
      | _, _ => None
      end
  | ATakeDown =>
      match main s with
      | Selecting => '(w, f) ← take_chunk (down s); Some (set_main w (set_down f s))
      | _ => None
      end
  | AWriteDown =>
      match main s with Writing d => Some (set_main Selecting (set_down (give d (down s)) s)) | _ => None end
  | AWriteDownFails k e =>
      match main s with Writing d => Some (return_ (set_down (give (take k d) (down s)) s)) | _ => None end
  end.

Definition step : relation proxy := acts exec.

(** ** What every interleaving keeps *)

(** The chunk a goroutine holds. *)
Definition in_hand (r : reading) : bytes := match r with Sending d => d | _ => [] end.
Definition in_write (w : writing) : bytes := match w with Writing d => d | _ => [] end.

(** What was read but not written is in the writer's hand, in the channel and
    in the reader's hand, in this order. *)
Definition accounted (w : writing) (f : flow) : Prop :=
  given f ++ in_write w ++ concat (queue f) ++ in_hand (rd f) = taken f.

Definition small (d : bytes) : Prop := (len d <= Conf.DEFAULT_BUFFER_SIZE)%Z.

Definition bounded (w : writing) (f : flow) : Prop :=
  length (queue f) ≤ cap_chunks ∧ Forall small (queue f) ∧ small (in_hand (rd f)) ∧ small (in_write w).

(** Until its writer is gone a direction loses nothing; and never reorders or
    makes up anything. *)
Definition direction_ok (w : writing) (f : flow) : Prop :=
  given f `prefix_of` taken f ∧ bounded w f ∧
  match w with Selecting | Writing _ => accounted w f | _ => True end.

(** Each goroutine sends at most one error. *)
Definition owes_reader (r : reading) : nat := match r with RExited => 0 | _ => 1 end.
Definition owes_writer (w : writing) : nat := match w with WExited => 0 | _ => 1 end.
Definition errors_ok (s : proxy) : Prop :=
  length (chErr s) + owes_reader (rd (up s)) + owes_reader (rd (down s)) + owes_writer (writer s) ≤ 3.

Definition proxy_ok (s : proxy) : Prop :=
  direction_ok (writer s) (up s) ∧ direction_ok (main s) (down s) ∧ errors_ok s.

Lemma small_nil : small [].
Proof. unfold small, Conf.DEFAULT_BUFFER_SIZE, len. cbn. lia. Qed.

Lemma read_chunk_ok (w : writing) (d : bytes) (f f' : flow) :
  read_chunk d f = Some f' → direction_ok w f →
  direction_ok w f' ∧ owes_reader (rd f') = owes_reader (rd f).
Proof.
  unfold read_chunk. destruct f as [r q t g]. cbn [rd queue taken given]. destruct r; try done.
  destruct (Z.leb_spec (len d) Conf.DEFAULT_BUFFER_SIZE) as [Hd|]; [|done]. intros [= <-].
  intros (Hp & (B1 & B2 & B3 & B4) & Ha). split; [|done]. split; [by apply prefix_grow|]. split; [done|].
  destruct w; try done; unfold accounted in *; cbn in *; rewrite app_nil_r in Ha; by rewrite <- Ha, <- ?app_assoc.
Qed.

Lemma read_fails_ok (w : writing) (e : error) (f f' : flow) :
  read_fails e f = Some f' → direction_ok w f →
  direction_ok w f' ∧ owes_reader (rd f') = owes_reader (rd f).
Proof.
  unfold read_fails. destruct f as [r q t g]. cbn [rd queue taken given]. destruct r; try done. by intros [= <-].
Qed.

Lemma push_ok (w : writing) (f f' : flow) :
  push f = Some f' → direction_ok w f →
  direction_ok w f' ∧ owes_reader (rd f') = owes_reader (rd f).
Proof.
  unfold push. destruct f as [r q t g]. cbn [rd queue taken given]. destruct r as [|d| |]; try done.
  case_decide as Hq; [|done]. intros [= <-]. intros (Hp & (B1 & B2 & B3 & B4) & Ha). cbn in B3.
  split; [|done]. split; [done|]. split.
  - split; [cbn [queue]; rewrite length_app; cbn; lia|]. split; [cbn [queue]; apply Forall_app; split; [done|by constructor]|].
    split; [apply small_nil|done].
  - destruct w; try done; unfold accounted in *; cbn in *;
      by rewrite concat_app; cbn [concat]; rewrite !app_nil_r.
Qed.

Lemma reader_exits_ok (w : writing) (e : error) (f f' : flow) :
  reader_exits f = Some (e, f') → direction_ok w f →
  direction_ok w f' ∧ owes_reader (rd f) = 1 ∧ owes_reader (rd f') = 0.
Proof.
  unfold reader_exits. destruct f as [r q t g]. cbn [rd queue taken given]. destruct r; try done. by intros [= _ <-].
Qed.

Lemma take_chunk_ok (w : writing) (f f' : flow) :
  take_chunk f = Some (w, f') → direction_ok Selecting f →
  direction_ok w f' ∧ owes_writer w = 1 ∧ owes_reader (rd f') = owes_reader (rd f).
Proof.
  unfold take_chunk. destruct f as [r q t g]. cbn [rd queue taken given]. destruct q as [|d q]; [done|].
  intros [= <- <-] (Hp & (B1 & B2 & B3 & B4) & Ha). cbn [queue] in *. inversion B2 as [|? ? B2d B2q]; subst.
  cbn [length] in B1. unfold accounted in Ha. cbn [given queue rd taken in_write concat app] in Ha.
  destruct (Z.ltb_spec 0 (len d)) as [Hd|Hd].
  - split; [|done]. split; [done|]. split; [do 3 (split; [cbn [queue rd]; done || lia|]); exact B2d|].
    unfold accounted. cbn [given queue rd taken in_write]. by rewrite <- Ha, <- !app_assoc.
  - assert (d = []) as -> by (apply nil_length_inv; unfold len in Hd; lia).
    split; [|done]. split; [done|]. split; [do 3 (split; [cbn [queue rd]; done || lia|]); exact B4|].
    exact Ha.
Qed.

Lemma give_ok (d : bytes) (f : flow) :
  direction_ok (Writing d) f → direction_ok Selecting (give d f).
Proof.
  intros (Hp & (B1 & B2 & B3 & B4) & Ha). unfold accounted in Ha. cbn [in_write] in Ha. split; [|split].
  - exists (concat (queue f) ++ in_hand (rd f)). cbn [give given taken]. by rewrite <- Ha, <- app_assoc.
  - do 3 (split; [done|]). apply small_nil.
  - unfold accounted. cbn [give given taken queue rd in_write app]. by rewrite <- app_assoc.
Qed.

Definition gone (w : writing) : bool := match w with Selecting | Writing _ => false | _ => true end.

Lemma give_fails_ok (k : nat) (d : bytes) (w : writing) (f : flow) :
  direction_ok (Writing d) f → gone w = true → direction_ok w (give (take k d) f).
Proof.
  intros (Hp & (B1 & B2 & B3 & B4) & Ha) Hw. unfold accounted in Ha. cbn [in_write] in Ha. split; [|split].
  - exists (drop k d ++ concat (queue f) ++ in_hand (rd f)). cbn [give given taken].
    rewrite <- Ha, <- app_assoc. f_equal. by rewrite (app_assoc (take k d)), take_drop.
  - do 3 (split; [done|]). destruct w; [done|done|apply small_nil|apply small_nil].
  - by destruct w.
Qed.

Lemma exited_ok (w : writing) (f : flow) : direction_ok w f → in_write w = [] → direction_ok WExited f.
Proof.
  intros (Hp & (B1 & B2 & B3 & B4) & Ha) Hw. split; [done|]. split; [|done]. do 3 (split; [done|]). apply small_nil.
Qed.
Lemma bind_some {A B} (o : option A) (k : A → option B) (b : B) :
  (o ≫= k) = Some b → ∃ a, o = Some a ∧ k a = Some b.
Proof. destruct o; [eauto|done]. Qed.

Ltac open_bind H :=
  let f := fresh "f" in let E := fresh "E" in apply bind_some in H as (f & E & H).

(** A step of one of the reading goroutines. *)
Lemma put_flow_ok (i : side) (s : proxy) (f : flow) :
  proxy_ok s → (∀ w, direction_ok w (flow_of i s) → direction_ok w f) →
  owes_reader (rd f) = owes_reader (rd (flow_of i s)) → proxy_ok (put_flow i s f).
Proof.
  intros (Hu & Hd & He) Hf Ho. unfold errors_ok in He. destruct i; cbn [flow_of put_flow] in *; (split; [|split]).
  - apply Hf, Hu.
  - done.
  - unfold errors_ok. cbn [set_up chErr up down writer]. by rewrite Ho.
  - done.
  - apply Hf, Hd.
  - unfold errors_ok. cbn [set_down chErr up down writer]. by rewrite Ho.
Qed.

Lemma proxy_exec_ok (a : action) (s s' : proxy) : exec a s = Some s' → proxy_ok s → proxy_ok s'.
Proof.
  intros Hx Hok. destruct a as [i d|i e|i|i| | |k e| | | | | |k e]; cbn [exec] in Hx.
  - open_bind Hx. injection Hx as <-. apply put_flow_ok; [done|intros w Hw; by eapply read_chunk_ok|].
    destruct Hok as (Hu & Hd & _). destruct i; by eapply read_chunk_ok.
  - open_bind Hx. injection Hx as <-. apply put_flow_ok; [done|intros w Hw; by eapply read_fails_ok|].
    destruct Hok as (Hu & Hd & _). destruct i; by eapply read_fails_ok.
  - open_bind Hx. injection Hx as <-. apply put_flow_ok; [done|intros w Hw; by eapply push_ok|].
    destruct Hok as (Hu & Hd & _). destruct i; by eapply push_ok.
  - open_bind Hx. destruct f as [e f]. destruct (has_room s); [|done]. injection Hx as <-.
    destruct Hok as (Hu & Hd & He). unfold errors_ok in He. destruct i; cbn [flow_of put_flow] in *.
    + destruct (reader_exits_ok _ _ _ _ E Hu) as (K1 & K2 & K3). split; [done|]. split; [done|].
      unfold errors_ok. cbn [send_err set_up chErr up down writer]. rewrite length_app, K3. cbn [length]. lia.
    + destruct (reader_exits_ok _ _ _ _ E Hd) as (K1 & K2 & K3). split; [done|]. split; [done|].
      unfold errors_ok. cbn [send_err set_down chErr up down writer]. rewrite length_app, K3. cbn [length]. lia.
  - destruct (writer s) eqn:Ew; try done. open_bind Hx. destruct f as [w f]. injection Hx as <-.
    destruct Hok as (Hu & Hd & He). unfold errors_ok in He. rewrite Ew in *.
    destruct (take_chunk_ok _ _ _ E Hu) as (K1 & K2 & K3). split; [done|]. split; [done|].
    unfold errors_ok. cbn [set_writer set_up chErr up down writer] in *. by rewrite K2, K3.
  - destruct (writer s) as [|d| |] eqn:Ew; try done. injection Hx as <-.
    destruct Hok as (Hu & Hd & He). unfold errors_ok in He. rewrite Ew in *. split; [by apply give_ok|]. by split.
  - destruct (writer s) as [|d| |] eqn:Ew; try done. injection Hx as <-.
    destruct Hok as (Hu & Hd & He). unfold errors_ok in He. rewrite Ew in *.
    split; [by apply give_fails_ok|]. by split.
  - destruct (writer s) as [| |e|] eqn:Ew; try done. destruct (has_room s); [|done]. injection Hx as <-.
    destruct Hok as (Hu & Hd & He). unfold errors_ok in He. rewrite Ew in *. split; [by eapply exited_ok|].
    split; [done|]. unfold errors_ok. cbn [send_err set_writer chErr up down writer owes_writer] in *.
    rewrite length_app. cbn [length]. lia.
  - destruct (writer s) eqn:Ew; try done. destruct (cancelled s); [|done]. injection Hx as <-.
    destruct Hok as (Hu & Hd & He). unfold errors_ok in He. rewrite Ew in *. split; [by eapply exited_ok|].
    split; [done|]. unfold errors_ok. cbn [set_writer chErr up down writer owes_writer] in *. lia.
  - destruct (main s) eqn:Em; try done. destruct (chErr s) as [|e es] eqn:Ee; [done|]. injection Hx as <-.
    destruct Hok as (Hu & Hd & He). unfold errors_ok in He. rewrite Ee in He. rewrite Em in *. split; [done|].
    split; [by eapply exited_ok|]. unfold errors_ok. cbn [return_ chErr up down writer length] in *. lia.
  - destruct (main s) eqn:Em; try done. open_bind Hx. destruct f as [w f]. injection Hx as <-.
    destruct Hok as (Hu & Hd & He). unfold errors_ok in He. rewrite Em in *.
    destruct (take_chunk_ok _ _ _ E Hd) as (K1 & K2 & K3). split; [done|]. split; [done|].
    unfold errors_ok. cbn [set_main set_down chErr up down writer] in *. by rewrite K3.
  - destruct (main s) as [|d| |] eqn:Em; try done. injection Hx as <-.
    destruct Hok as (Hu & Hd & He). rewrite Em in *. split; [done|]. split; [by apply give_ok|done].
  - destruct (main s) as [|d| |] eqn:Em; try done. injection Hx as <-.
    destruct Hok as (Hu & Hd & He). rewrite Em in *. split; [done|]. split; [by apply give_fails_ok|done].
Qed.

Lemma proxy_start_ok : proxy_ok start.
Proof.
  assert (Hd : direction_ok Selecting (mk_flow Reading [] [] [])).
  { split; [done|]. split; [|done]. split; [cbn; lia|]. split; [constructor|]. split; apply small_nil. }
  split; [done|]. split; [done|]. unfold errors_ok. cbn. lia.
Qed.

Lemma proxy_reachable (s : proxy) : rtc step start s → proxy_ok s.
Proof. intros Hr. by apply (acts_invariant exec proxy_ok proxy_exec_ok start), proxy_start_ok. Qed.

Lemma len_concat (q : list bytes) : Forall small q → (len (concat q) <= Conf.DEFAULT_BUFFER_SIZE * len q)%Z.
Proof.
  induction 1 as [|d q Hd _ IH]; [done|]. unfold small, len in *. cbn [concat length].
  rewrite length_app. unfold Conf.DEFAULT_BUFFER_SIZE in *. lia.
Qed.

(** Buffers a writing goroutine may hold. *)
Definition buffers (w : writing) : Z := match w with Writing _ => 1 | _ => 0 end.

(** What a direction lacks while its writer runs: the chunk in the writer's
    hand, eight in the channel, one in the reader's hand. *)
Lemma in_flight (w : writing) (f : flow) :
  direction_ok w f → accounted w f →
  (len (taken f) <= len (given f) + (buffers w + 9) * Conf.DEFAULT_BUFFER_SIZE)%Z.
Proof.
  intros (_ & (B1 & B2%len_concat & B3 & B4) & _) Hacc. unfold accounted in Hacc. rewrite <- Hacc.
  unfold small, cap_chunks, len, buffers in *. rewrite !length_app. unfold Conf.DEFAULT_BUFFER_SIZE in *.
  destruct w; cbn [in_write length] in *; lia.
Qed.

(** A direction with its writer at [w]: what it has not given is bounded, and
    there is nothing when its channel and its hands are empty. *)
Definition carries (w : writing) (f : flow) : Prop :=
  match w with
  | Selecting => (len (taken f) <= len (given f) + 9 * Conf.DEFAULT_BUFFER_SIZE)%Z ∧
                 (queue f = [] → in_hand (rd f) = [] → given f = taken f)
  | Writing d => (len (taken f) <= len (given f) + 10 * Conf.DEFAULT_BUFFER_SIZE)%Z ∧
                 (given f ++ d) `prefix_of` taken f ∧
                 (queue f = [] → in_hand (rd f) = [] → given f ++ d = taken f)
  | _ => True
  end.

Lemma direction_carries (w : writing) (f : flow) : direction_ok w f → carries w f.
Proof.
  intros Hd. destruct w as [|d| |]; try done; pose proof Hd as (_ & _ & Ha);
    pose proof (in_flight _ _ Hd Ha) as Hb; unfold accounted in Ha; cbn [in_write buffers app] in Ha, Hb.
  - split; [exact Hb|]. intros Hq Hh. rewrite Hq, Hh in Ha. cbn [concat app] in Ha. by rewrite app_nil_r in Ha.
  - split; [exact Hb|]. split; [exists (concat (queue f) ++ in_hand (rd f)); by rewrite <- Ha, <- app_assoc|].
    intros Hq Hh. rewrite Hq, Hh in Ha. cbn [concat app] in Ha. by rewrite app_nil_r in Ha.
Qed.

(** *** A reading goroutine that stays behind *)

(** [Proxy] has returned, the up-link's writer is gone, and the local reader
    waits to send to the full channel. *)
Definition stuck (d : bytes) (s : proxy) : Prop :=
  main s = WExited ∧ writer s = WExited ∧ rd (up s) = Sending d ∧ length (queue (up s)) = cap_chunks.

Lemma exec_stuck (d : bytes) (a : action) (s s' : proxy) : exec a s = Some s' → stuck d s → stuck d s'.
Proof.
  intros Hx (Hm & Hw & Hr & Hq).
  destruct a as [[|] d'|[|] e|[|]|[|]| | |k e| | | | | |k e]; cbn [exec flow_of put_flow] in Hx;
    rewrite ?Hm, ?Hw in Hx; try done.
  - unfold read_chunk in Hx. by rewrite Hr in Hx.
  - open_bind Hx. by injection Hx as <-.
  - unfold read_fails in Hx. by rewrite Hr in Hx.
  - open_bind Hx. by injection Hx as <-.
  - unfold push in Hx. rewrite Hr in Hx. rewrite decide_False in Hx by (rewrite Hq; lia). done.
  - open_bind Hx. by injection Hx as <-.
  - unfold reader_exits in Hx. by rewrite Hr in Hx.
  - open_bind Hx. destruct f as [e f]. destruct (has_room s); [|done]. by injection Hx as <-.
Qed.

Lemma stuck_forever (d : bytes) (s s' : proxy) : stuck d s → rtc step s s' → stuck d s'.
Proof. intros Hs Hr. by apply (acts_invariant exec (stuck d) (exec_stuck d) s). Qed.

Lemma read_chunk_small (d : bytes) (f : flow) :
  small d → rd f = Reading → read_chunk d f = Some (mk_flow (Sending d) (queue f) (taken f ++ d) (given f)).
Proof. unfold read_chunk, small. intros Hd%Z.leb_le ->. by rewrite Hd. Qed.

Lemma repeat_snoc (d : bytes) (n : nat) : concat (repeat d (S n)) = concat (repeat d n) ++ d.
Proof. rewrite <- Nat.add_1_r, repeat_app, concat_app. cbn [repeat concat]. by rewrite app_nil_r. Qed.

(** The local reader fills its channel. *)
Definition filled (d : bytes) (n : nat) : proxy :=
  mk_proxy (mk_flow Reading (repeat d n) (concat (repeat d n)) []) (mk_flow Reading [] [] []) Selecting Selecting [] false.

Lemma fill_queue (d : bytes) (n : nat) : small d → n ≤ 8 → rtc step start (filled d n).
Proof.
  intros Hd. induction n as [|n IH]; intros Hn; [apply rtc_refl|]. etrans; [apply IH; lia|].
  eapply rtc_l; [exists (ARead Up d); cbn [exec]; by rewrite read_chunk_small|].
  eapply rtc_l; [|apply rtc_refl]. exists (APush Up). cbn [exec flow_of put_flow set_up set_down filled up down].
  unfold push. cbn [rd queue taken given].
  rewrite decide_True by (rewrite repeat_length; unfold cap_chunks; lia).
  unfold filled. rewrite repeat_snoc, <- repeat_cons. reflexivity.
Qed.

(** Nothing more is written once [Proxy] has returned. *)
Lemma exec_silent (a : action) (s s' : proxy) :
  exec a s = Some s' → main s = WExited → given (down s) = [] → main s' = WExited ∧ given (down s') = [].
Proof.
  intros Hx Hm Hg. destruct s as [u [r q t g] w m e c]. cbn [main down given] in *. subst m g.
  destruct a as [[|] d|[|] er|[|]|[|]| | |k er| | | | | |k er]; cbn [exec flow_of put_flow up down writer main] in Hx; try done.
  all: try (open_bind Hx).
  - by injection Hx as <-.
  - unfold read_chunk in E. repeat case_match; try done. by injection E as <-; injection Hx as <-.
  - by injection Hx as <-.
  - unfold read_fails in E. cbn [rd] in E. destruct r; try done. by injection E as <-; injection Hx as <-.
  - by injection Hx as <-.
  - unfold push in E. repeat case_match; try done. by injection E as <-; injection Hx as <-.
  - destruct f. case_match; [|done]. by injection Hx as <-.
  - destruct f as [e0 f]. unfold reader_exits in E. cbn [rd] in E. destruct r; try done. injection E as <- <-.
    case_match; [|done]. by injection Hx as <-.
  - destruct w; try done. open_bind Hx. destruct f. by injection Hx as <-.
  - destruct w; try done. by injection Hx as <-.
  - destruct w; try done. by injection Hx as <-.
  - destruct w; try done. case_match; [|done]. by injection Hx as <-.
  - destruct w; try done. case_match; [|done]. by injection Hx as <-.
Qed.

(** ** Properties *)

(** C15: the relay is faithful in every interleaving of its goroutines: in both
    directions the bytes written are a prefix of the bytes read; as long as a
    direction's writer runs, what is missing is in the relay: at most nine
    buffers while the writer waits in its [select], at most ten while it is in
    [Write] (whose chunk comes next), and nothing when the channel and the
    reader's hand are empty; and the error channel never blocks its senders. *)
Theorem proxy_faithful (s : proxy) :
  rtc step start s →
  given (up s) `prefix_of` taken (up s) ∧ given (down s) `prefix_of` taken (down s) ∧
  (writer s = Selecting →
     (len (taken (up s)) <= len (given (up s)) + 9 * Conf.DEFAULT_BUFFER_SIZE)%Z ∧
     (queue (up s) = [] → in_hand (rd (up s)) = [] → given (up s) = taken (up s))) ∧
  (∀ d, writer s = Writing d →
     (len (taken (up s)) <= len (given (up s)) + 10 * Conf.DEFAULT_BUFFER_SIZE)%Z ∧
     (given (up s) ++ d) `prefix_of` taken (up s) ∧
     (queue (up s) = [] → in_hand (rd (up s)) = [] → given (up s) ++ d = taken (up s))) ∧
  (main s = Selecting →
     (len (taken (down s)) <= len (given (down s)) + 9 * Conf.DEFAULT_BUFFER_SIZE)%Z ∧
     (queue (down s) = [] → in_hand (rd (down s)) = [] → given (down s) = taken (down s))) ∧
  (∀ d, main s = Writing d →
     (len (taken (down s)) <= len (given (down s)) + 10 * Conf.DEFAULT_BUFFER_SIZE)%Z ∧
     (given (down s) ++ d) `prefix_of` taken (down s) ∧
     (queue (down s) = [] → in_hand (rd (down s)) = [] → given (down s) ++ d = taken (down s))) ∧
  has_room s = true.
Proof.
  intros (Hu & Hd & He)%proxy_reachable. split; [apply Hu|]. split; [apply Hd|].
  apply direction_carries in Hu. apply direction_carries in Hd.
  split; [by intros E; rewrite E in Hu|]. split; [by intros d E; rewrite E in Hu|].
  split; [by intros E; rewrite E in Hd|]. split; [by intros d E; rewrite E in Hd|].
  unfold has_room, errors_ok, cap_chErr in *. apply bool_decide_eq_true. lia.
Qed.

(** The bounds are reached: nine chunks wait while the writer selects, and a
    tenth while it writes. *)
Theorem proxy_bound_reached (d : bytes) :
  (0 < len d <= Conf.DEFAULT_BUFFER_SIZE)%Z →
  ∃ s s', rtc step start s ∧ writer s = Selecting ∧ given (up s) = [] ∧ len (taken (up s)) = (9 * len d)%Z ∧
    rtc step s s' ∧ writer s' = Writing d ∧ given (up s') = [] ∧ len (taken (up s')) = (10 * len d)%Z.
Proof.
  intros [Hd0 Hd]. assert (Hlen : ∀ n, len (concat (repeat d n)) = (Z.of_nat n * len d)%Z).
  { intros n. unfold len. induction n as [|n IH]; [done|]. cbn [repeat concat]. rewrite length_app. lia. }
  assert (Hp : ∀ q g, push (mk_flow (Sending d) (repeat d 7) q g) = Some (mk_flow Reading (repeat d 8) q g)) by done.
  set (t := concat (repeat d 8)). set (f0 := mk_flow Reading [] [] []).
  exists (mk_proxy (mk_flow (Sending d) (repeat d 8) (t ++ d) []) f0 Selecting Selecting [] false),
         (mk_proxy (mk_flow (Sending d) (repeat d 8) ((t ++ d) ++ d) []) f0 (Writing d) Selecting [] false).
  split; [|do 2 (split; [done|])].
  { etrans; [exact (fill_queue d 8 Hd ltac:(lia))|].
    eapply rtc_l; [exists (ARead Up d); cbn [exec]; by rewrite read_chunk_small|]. apply rtc_refl. }
  split; [cbn [up taken]; unfold t; by rewrite <- (repeat_snoc d 8), Hlen|]. split.
  - eapply rtc_l; [exists ATakeUp; cbn [exec writer up]; unfold take_chunk; cbn [queue repeat];
                   rewrite (proj2 (Z.ltb_lt 0 (len d)) Hd0); reflexivity|].
    eapply rtc_l; [exists (APush Up); cbn [exec flow_of up set_up set_writer rd queue taken given]; by rewrite Hp|].
    eapply rtc_l; [exists (ARead Up d); cbn [exec]; by rewrite read_chunk_small|]. apply rtc_refl.
  - do 2 (split; [done|]). cbn [up taken]. unfold t. by rewrite <- (repeat_snoc d 8), <- (repeat_snoc d 9), Hlen.
Qed.

Lemma proxy_bound_reached_witness :
  ∃ s, rtc step start s ∧ len (taken (up s)) = 27%Z ∧ writer s = Selecting ∧ given (up s) = [].
Proof.
  destruct (proxy_bound_reached (lit "GET")) as (s & s' & H1 & H2 & H3 & H4 & _); [vm_compute; done|].
  exists s. done.
Defined.

(** Two chunks read upwards, the first of them in [Write]; one answer. *)
Definition sample_actions : list action :=
  [ARead Up (lit "GET"); APush Up; ATakeUp; ARead Down (lit "200"); APush Down; ATakeDown; AWriteDown;
   ARead Up (lit " /")].
Definition sample_state : proxy := default start (run_actions exec sample_actions start).

Lemma proxy_faithful_witness :
  (given (up sample_state) ++ lit "GET") `prefix_of` taken (up sample_state) ∧
  taken (up sample_state) = lit "GET /" ∧
  (len (taken (up sample_state)) <= len (given (up sample_state)) + 10 * Conf.DEFAULT_BUFFER_SIZE)%Z ∧
  given (down sample_state) = taken (down sample_state) ∧ taken (down sample_state) = lit "200".
Proof.
  destruct (proxy_faithful sample_state) as (_ & _ & _ & Hw & Hm & _).
  - apply (run_actions_rtc exec sample_actions). vm_compute. reflexivity.
  - destruct (Hw (lit "GET")) as (H1 & H2 & _); [vm_compute; reflexivity|].
    destruct Hm as [_ Hm]; [vm_compute; reflexivity|].
    split; [exact H2|]. split; [vm_compute; reflexivity|]. split; [exact H1|].
    split; [apply Hm; vm_compute; reflexivity|vm_compute; reflexivity].
Defined.

(** The relay may drop the end of a response: when the up-link sends its
    last bytes and closes, [Proxy] can take the error before the chunk, and
    return with no write failed and those bytes never written. *)
Theorem proxy_drops_tail (d : bytes) :
  (0 < len d <= Conf.DEFAULT_BUFFER_SIZE)%Z →
  ∃ s, rtc step start s ∧ main s = WExited ∧ rd (down s) = RExited ∧ taken (down s) = d ∧ given (down s) = [] ∧
    ∀ s', rtc step s s' → given (down s') = [].
Proof.
  intros [Hd0 Hd]. set (s := mk_proxy (mk_flow Reading [] [] []) (mk_flow RExited [d] d []) Selecting WExited [] true).
  exists s. split.
  - eapply rtc_l; [exists (ARead Down d); cbn [exec]; by rewrite read_chunk_small|].
    eapply rtc_l; [by exists (APush Down)|]. eapply rtc_l; [by exists (AReadFails Down EOF)|].
    eapply rtc_l; [by exists (AReaderExits Down)|]. eapply rtc_l; [by exists ATakeErr|]. apply rtc_refl.
  - do 4 (split; [done|]). intros s' Hr.
    apply (acts_invariant exec (λ s, main s = WExited ∧ given (down s) = [])) in Hr; [by destruct Hr| |done].
    intros a s1 s2 Ha [? ?]. by apply (exec_silent a s1).
Qed.

Lemma proxy_drops_tail_witness :
  ∃ s, rtc step start s ∧ main s = WExited ∧ taken (down s) = lit "the end" ∧ given (down s) = [].
Proof.
  destruct (proxy_drops_tail (lit "the end")) as (s & H1 & H2 & _ & H3 & H4 & _); [vm_compute; done|].
  exists s. done.
Defined.

(** The relay may leave a goroutine behind: with nine chunks read from the
    local side and not yet written, an end of the up-link makes [Proxy] return
    and the writer leave; the local reader then waits for ever to send its
    chunk. *)
Theorem proxy_leaks_reader (d : bytes) :
  (0 < len d <= Conf.DEFAULT_BUFFER_SIZE)%Z →
  ∃ s, rtc step start s ∧ main s = WExited ∧
    ∀ s', rtc step s s' → rd (up s') = Sending d ∧ ∀ a s'', exec a s' = Some s'' → rd (up s'') = Sending d.
Proof.
  intros [Hd0 Hd].
  set (s := mk_proxy (mk_flow (Sending d) (repeat d 8) (concat (repeat d 9)) []) (mk_flow RExited [] [] [])
              WExited WExited [] true).
  assert (Hs : stuck d s) by done. exists s. split.
  - etrans; [exact (fill_queue d 8 Hd ltac:(lia))|].
    eapply rtc_l; [exists (ARead Up d); cbn [exec]; by rewrite read_chunk_small|].
    eapply rtc_l; [by exists (AReadFails Down EOF)|]. eapply rtc_l; [by exists (AReaderExits Down)|].
    eapply rtc_l; [by exists ATakeErr|]. eapply rtc_l; [by exists AWriterDone|].
    unfold s. rewrite (repeat_snoc d 8). apply rtc_refl.
  - split; [done|]. intros s' Hr. pose proof (stuck_forever d s s' Hs Hr) as Hs'. split; [apply Hs'|].
    intros a s'' Ha. by destruct (exec_stuck d a s' s'' Ha Hs') as (_ & _ & ? & _).
Qed.

Lemma proxy_leaks_reader_witness :
  ∃ s, rtc step start s ∧ main s = WExited ∧ rd (up s) = Sending (lit "x").
Proof.
  destruct (proxy_leaks_reader (lit "x")) as (s & H1 & H2 & H3); [vm_compute; done|].
  exists s. split; [done|]. split; [done|]. by apply H3.
Defined.
End Proxy.

(** ** [ProxyIOCopy] *)
Module IOCopy.

Definition copy_size : nat := Z.to_nat 32768.
Definition invalid_write : error := LibError (lit "io: invalid write result").
Definition short_write : error := LibError (lit "io: short write").

Section copy.
Context {R W : Type} `{Reader R} `{Writer W}.

(** [io.Copy]: the bytes written; the end of the source is not an error, a
    count other than the chunk's size is. *)
Fixpoint copy_loop (fuel : nat) (written : Z) (r : R) (w : W) : outcome Z * (R * W) :=
  match fuel with
  | 0 => (Hang, (r, w))
  | S fuel =>
      match read copy_size r with
      | (Ok d, r) =>
          if decide (length d = 0) then copy_loop fuel written r w else
          match write d w with
          | (Ok nw, w) =>
              if (nw <? 0)%Z || (len d <? nw)%Z then (Err invalid_write, (r, w))
              else if (len d =? nw)%Z then copy_loop fuel (written + nw)%Z r w
              else (Err short_write, (r, w))
          | (Err e, w) => (Err e, (r, w))
          | (Panic, w) => (Panic, (r, w))
          | (Hang, w) => (Hang, (r, w))
          end
      | (Err e, r) => (if decide (e = EOF) then Ok written else Err e, (r, w))
      | (Panic, r) => (Panic, (r, w))
      | (Hang, r) => (Hang, (r, w))
      end
  end.
Definition Copy (r : R) (w : W) : outcome Z * (R * W) := copy_loop (S (budget r)) 0 r w.
End copy.

(** The two goroutines use different halves of the connections; both are waited
    for and their errors dropped. *)
Definition ProxyIOCopy {R W} `{Reader R} `{Writer W} (conn upConn : Duplex.duplex R W) :
    Duplex.duplex R W * Duplex.duplex R W :=
  let '(_, (up_rx, conn_wx)) := Copy (Duplex.rx upConn) (Duplex.wx conn) in
  let '(_, (conn_rx, up_wx)) := Copy (Duplex.rx conn) (Duplex.wx upConn) in
  (Duplex.mk_duplex conn_rx conn_wx, Duplex.mk_duplex up_rx up_wx).

(** A writer that reports the bytes it took, as [io.Writer] asks. *)
Definition honest (W : Type) `{Writer W} : Prop :=
  ∀ (d : bytes) (w w' : W) n, write d w = (Ok n, w') → n = len d.

Lemma copy_loop_all {R W} `{ReaderLaws R} `{WriterLaws W} (fuel : nat) (written : Z) (r : R) (w : W) (bs : bytes) :
  honest W → budget r < fuel → delivers r bs → write_pre w copy_size →
  ∃ r' w', copy_loop fuel written r w = (Ok (written + len bs)%Z, (r', w')) ∧ emitted w w' bs ∧ delivers r' [].
Proof.
  intros Hh. revert written r w bs. induction fuel as [|fuel IH]; intros written r w bs Hf Hd Hw; [lia|].
  cbn [copy_loop]. pose proof (read_law r bs copy_size Hd ltac:(unfold copy_size; lia)) as Hr. unfold read_post in Hr.
  destruct (read copy_size r) as [[d|e| |] r1]; try done.
  - destruct Hr as (bs' & -> & Hl & Hd' & _ & Hb). case_decide as Hz.
    + destruct d; [|done]. apply (IH written r1 w bs'); [lia|done|done].
    + destruct (write_law w d) as (n & w1 & Hwr & He); [by eapply write_pre_mono|].
      rewrite Hwr. rewrite (Hh d w w1 n Hwr).
      destruct (Z.ltb_spec (len d) 0); [unfold len in *; lia|]. rewrite Z.ltb_irrefl, Z.eqb_refl. cbn [orb].
      destruct (IH (written + len d)%Z r1 w1 bs') as (r2 & w2 & Hc & He2 & Hd2); [lia|done|by eapply write_pre_emitted|].
      exists r2, w2. split; [|split; [by eapply emitted_app|done]].
      rewrite Hc. do 2 f_equal. unfold len. rewrite length_app. lia.
  - destruct Hr as (-> & -> & Hd' & _). rewrite decide_True by done. exists r1, w.
    split; [by rewrite Z.add_0_r|]. by split; [apply emitted_nil|].
Qed.

(** Copied by [io.Copy], both streams arrive completely, however they are cut,
    whichever ends first: what the relay [Proxy] does not promise. *)
Theorem iocopy_complete {R W} `{ReaderLaws R} `{WriterLaws W} (conn upConn : Duplex.duplex R W) (up down : bytes) :
  honest W → delivers conn up → delivers upConn down → write_pre conn copy_size → write_pre upConn copy_size →
  let '(conn', upConn') := ProxyIOCopy conn upConn in
  emitted conn conn' down ∧ emitted upConn upConn' up ∧ delivers conn' [] ∧ delivers upConn' [].
Proof.
  destruct conn as [cr cw], upConn as [ur uw]. cbn. intros Hh Hc Hu Hcw Huw. unfold ProxyIOCopy. cbn [Duplex.rx Duplex.wx].
  destruct (copy_loop_all (S (budget ur)) 0 ur cw down Hh ltac:(lia) Hu Hcw) as (ur' & cw' & E1 & ? & ?).
  destruct (copy_loop_all (S (budget cr)) 0 cr uw up Hh ltac:(lia) Hc Huw) as (cr' & uw' & E2 & ? & ?).
  unfold Copy. by rewrite E1, E2.
Qed.

Lemma iocopy_complete_witness :
  let '(conn', upConn') := ProxyIOCopy (Duplex.mk_duplex (Conn.mk_conn [lit "GE"; lit "T"]) (Buf.mk_buffer []))
                                       (Duplex.mk_duplex (Conn.mk_conn [lit "200"]) (Buf.mk_buffer [])) in
  emitted (Duplex.mk_duplex (Conn.mk_conn [lit "GE"; lit "T"]) (Buf.mk_buffer [])) conn' (lit "200") ∧
  emitted (Duplex.mk_duplex (Conn.mk_conn [lit "200"]) (Buf.mk_buffer [])) upConn' (lit "GET") ∧
  delivers conn' [] ∧ delivers upConn' [].
Proof.
  apply (iocopy_complete (Duplex.mk_duplex (Conn.mk_conn [lit "GE"; lit "T"]) (Buf.mk_buffer []))
                         (Duplex.mk_duplex (Conn.mk_conn [lit "200"]) (Buf.mk_buffer [])) (lit "GET") (lit "200"));
    [|reflexivity|reflexivity|exact I|exact I].
  intros d w w' n. by intros [= <- _].
Defined.
End IOCopy.
