(* ===== verification/Lru.v ===== *)
(** Package [lru] (src/lru/ts_cache.go): the time-sensitive cache behind the
    DNS caches of the two proxy halves, and package [transport]'s registry of
    transports (src/transport/transport.go). *)
From S2P Require Import Prelude Conf.

Module Lru.
(** Times are in nanoseconds. *)
Record item (A : Type) := mk_item { lastUsedAt : Z; entry : A }.
Arguments mk_item {A} lastUsedAt entry.
Arguments lastUsedAt {A}.
Arguments entry {A}.

Record TSCache (A : Type) := mk_TSCache { items : gmap bytes (item A); EntryMaxTTL : Z }.
Arguments mk_TSCache {A} items EntryMaxTTL.
Arguments items {A}.
Arguments EntryMaxTTL {A}.

Section cache.
Context {A : Type}.
Implicit Types (t : TSCache A) (now : Z) (key : bytes).

Definition NewTSCache (ttl : Z) : TSCache A := mk_TSCache ∅ ttl.

Definition Put now key (e : A) t : TSCache A :=
  mk_TSCache (<[key := mk_item now e]> (items t)) (EntryMaxTTL t).

(** A hit refreshes the entry's time. *)
Definition Get now key t : option A * TSCache A :=
  match items t !! key with
  | Some i => (Some (entry i), mk_TSCache (<[key := mk_item now (entry i)]> (items t)) (EntryMaxTTL t))
  | None => (None, t)
  end.

(** [item.lastUsedAt.Add(maxTTL).Before(now)]. *)
Definition outdated now t (i : item A) : bool := (lastUsedAt i + EntryMaxTTL t <? now)%Z.

(** The first loop of [removeOutdatedItems]: the keys to delete. *)
Definition outdated_keys now t : list bytes :=
  map fst (filter (λ ki, outdated now t ki.2) (map_to_list (items t))).

(** The second loop. *)
Definition delete_keys (keys : list bytes) t : TSCache A :=
  mk_TSCache (foldl (λ m k, delete k m) (items t) keys) (EntryMaxTTL t).

Definition removeOutdatedItems now t : TSCache A := delete_keys (outdated_keys now t) t.

Lemma lookup_delete_keys (keys : list bytes) (m : gmap bytes (item A)) (k : bytes) :
  foldl (λ m k, delete k m) m keys !! k = if decide (k ∈ keys) then None else m !! k.
Proof.
  revert m. induction keys as [|k' keys IH]; intros m; [done|]. cbn [foldl]. rewrite IH.
  destruct (decide (k ∈ keys)) as [Hin|Hni].
  - by rewrite decide_True by (by right).
  - destruct (decide (k = k')) as [->|Hne].
    + rewrite decide_True by left. by rewrite lookup_delete_eq.
    + rewrite decide_False by (rewrite elem_of_cons; tauto). by rewrite lookup_delete_ne.
Qed.

Lemma elem_of_outdated (now : Z) t (k : bytes) :
  k ∈ outdated_keys now t ↔ ∃ i, items t !! k = Some i ∧ outdated now t i = true.
Proof.
  unfold outdated_keys. rewrite list_elem_of_fmap. split.
  - intros ([k' i] & -> & Hin). apply list_elem_of_filter in Hin as [Ho Hin].
    apply elem_of_map_to_list in Hin. exists i. split; [done|]. by apply Is_true_true in Ho.
  - intros (i & Hi & Ho). exists (k, i). split; [done|]. apply list_elem_of_filter.
    split; [by apply Is_true_true|]. by apply elem_of_map_to_list.
Qed.

(** What the cleaner leaves: exactly the entries used within the time to live. *)
Lemma lookup_removeOutdated now t key :
  items (removeOutdatedItems now t) !! key =
  match items t !! key with
  | Some i => if outdated now t i then None else Some i
  | None => None
  end.
Proof.
  unfold removeOutdatedItems, delete_keys. cbn [items]. rewrite lookup_delete_keys. case_decide as Hin.
  - apply elem_of_outdated in Hin as (i & -> & ->). done.
  - destruct (items t !! key) as [i|] eqn:E; [|done]. destruct (outdated now t i) eqn:Ho; [|done].
    destruct Hin. apply elem_of_outdated. eauto.
Qed.

(** *** Operations of concurrent callers between two cleanings *)
Inductive op := OpPut (now : Z) (key : bytes) (e : A) | OpGet (now : Z) (key : bytes).

Definition apply_op t (o : op) : TSCache A :=
  match o with OpPut now key e => Put now key e t | OpGet now key => (Get now key t).2 end.

Definition op_time (o : op) : Z := match o with OpPut now _ _ | OpGet now _ => now end.
Definition op_key (o : op) : bytes := match o with OpPut _ k _ | OpGet _ k => k end.

Lemma apply_other t (o : op) key : op_key o ≠ key → items (apply_op t o) !! key = items t !! key.
Proof.
  intros Hne. destruct o as [now k e|now k]; cbn in *; [by rewrite lookup_insert_ne|].
  unfold Get. destruct (items t !! k); [|done]. cbn. by rewrite lookup_insert_ne.
Qed.

Lemma apply_ttl t (o : op) : EntryMaxTTL (apply_op t o) = EntryMaxTTL t.
Proof. destruct o; cbn; [done|]. unfold Get. by destruct (items t !! key). Qed.

(** An entry used recently enough is never removed by a cleaning. *)
Lemma recent_survives now key t i :
  items t !! key = Some i → (now ≤ lastUsedAt i + EntryMaxTTL t)%Z →
  items (removeOutdatedItems now t) !! key = Some i.
Proof.
  intros Hi Hr. rewrite lookup_removeOutdated, Hi. unfold outdated.
  by destruct (Z.ltb_spec (lastUsedAt i + EntryMaxTTL t) now); [lia|].
Qed.

Lemma keys_size (keys : list bytes) : size (list_to_set keys : gset bytes) ≤ length keys.
Proof.
  induction keys as [|k keys IH]; [done|]. cbn [list_to_set length]. rewrite size_union_alt, size_singleton.
  etrans; [apply Nat.add_le_mono_l, (subseteq_size _ (list_to_set keys : gset bytes)); set_solver|lia].
Qed.

(** *** The worker among the callers

    A cleaning lists the outdated keys and deletes them afterwards; in between
    and around it the callers go on. *)
Inductive event := ECall (o : op) | EList (now : Z) | EDelete.

(** The cache and the keys the cleaning has listed. *)
Definition on_event (s : TSCache A * list bytes) (e : event) : TSCache A * list bytes :=
  match e with
  | ECall o => (apply_op s.1 o, s.2)
  | EList now => (s.1, outdated_keys now s.1)
  | EDelete => (delete_keys s.2 s.1, [])
  end.

Definition run (ttl : Z) (es : list event) : TSCache A * list bytes := foldl on_event (NewTSCache ttl, []) es.

(** [Worker]: a cleaning at each tick of its timer, every 15 seconds, until its
    context is done. *)
Definition Worker (ticks : list Z) : list event := flat_map (λ now, [EList now; EDelete]) ticks.

Definition calls (es : list event) : list op := omap (λ e, match e with ECall o => Some o | _ => None end) es.

Lemma calls_app (es es' : list event) : calls (es ++ es') = calls es ++ calls es'.
Proof. apply omap_app. Qed.

(** Every entry was used by a call, at the time it carries. *)
Definition accounted (ops : list op) (s : TSCache A * list bytes) : Prop :=
  ∀ key i, items s.1 !! key = Some i → ∃ o, o ∈ ops ∧ op_key o = key ∧ op_time o = lastUsedAt i.

Lemma apply_op_lookup t (o : op) key i :
  items (apply_op t o) !! key = Some i → (op_key o = key ∧ lastUsedAt i = op_time o) ∨ items t !! key = Some i.
Proof.
  destruct (decide (op_key o = key)) as [<-|Hne]; [|rewrite apply_other by done; by right].
  destruct o as [now k e|now k]; cbn [apply_op op_key op_time].
  - unfold Put. cbn. rewrite lookup_insert_eq. intros [= <-]. by left.
  - unfold Get. destruct (items t !! k) as [j|] eqn:E; cbn; [|rewrite E; by right].
    rewrite lookup_insert_eq. intros [= <-]. by left.
Qed.

Lemma lookup_deleted (keys : list bytes) t key i :
  items (delete_keys keys t) !! key = Some i → (key ∉ keys) ∧ items t !! key = Some i.
Proof. unfold delete_keys. cbn. rewrite lookup_delete_keys. by case_decide. Qed.

Lemma run_ttl (es : list event) (s : TSCache A * list bytes) : EntryMaxTTL (foldl on_event s es).1 = EntryMaxTTL s.1.
Proof.
  revert s. induction es as [|e es IH]; intros s; [done|]. cbn [foldl]. rewrite IH.
  destruct e; cbn; [apply apply_ttl|done|done].
Qed.

Lemma run_accounted (es : list event) (s : TSCache A * list bytes) (ops : list op) :
  accounted ops s → accounted (ops ++ calls es) (foldl on_event s es).
Proof.
  revert s ops. induction es as [|e es IH]; intros s ops Hs; [by rewrite app_nil_r|]. cbn [foldl].
  destruct e as [o|now|].
  - change (calls (ECall o :: es)) with ([o] ++ calls es). rewrite app_assoc. apply IH.
    intros key i [[Hk Ht]|Hi]%apply_op_lookup.
    + exists o. split; [apply elem_of_app; right; by left|done].
    + destruct (Hs key i Hi) as (o' & Ho & ?). exists o'. split; [apply elem_of_app; by left|done].
  - by apply IH.
  - apply IH. intros key i [_ Hi]%lookup_deleted. by apply Hs.
Qed.

(** No entry was last used before [bound]. *)
Definition used_since (bound : Z) (s : TSCache A * list bytes) : Prop :=
  ∀ key i, items s.1 !! key = Some i → (bound <= lastUsedAt i)%Z.

Lemma used_since_run (bound : Z) (es : list event) (s : TSCache A * list bytes) :
  Forall (λ o, (bound <= op_time o)%Z) (calls es) → used_since bound s → used_since bound (foldl on_event s es).
Proof.
  revert s. induction es as [|e es IH]; intros s Hes Hs; [done|]. cbn [foldl].
  destruct e as [o|now|]; [apply Forall_cons in Hes as [Ho Hes]| |]; (apply IH; [done|]).
  - intros key i [[_ ->]|Hi]%apply_op_lookup; [done|by apply Hs in Hi].
  - done.
  - intros key i [_ Hi]%lookup_deleted. by apply Hs in Hi.
Qed.

(** What a cleaning that listed at [now] leaves, with calls in between. *)
Lemma cleaning_bound (now : Z) (mid : list op) (s : TSCache A * list bytes) :
  (0 <= EntryMaxTTL s.1)%Z → Forall (λ o, (now <= op_time o)%Z) mid →
  used_since (now - EntryMaxTTL s.1) (foldl on_event s (EList now :: map ECall mid ++ [EDelete])).
Proof.
  intros Httl Hmid. cbn [foldl on_event]. rewrite foldl_app. cbn [foldl on_event].
  set (keys := outdated_keys now s.1).
  assert (Hinv : ∀ u, u.2 = keys → (∀ key i, items u.1 !! key = Some i → (key ∈ keys) ∨ (now - EntryMaxTTL s.1 <= lastUsedAt i)%Z) →
    let u' := foldl on_event u (map ECall mid) in
    u'.2 = keys ∧ ∀ key i, items u'.1 !! key = Some i → (key ∈ keys) ∨ (now - EntryMaxTTL s.1 <= lastUsedAt i)%Z).
  { clear -Hmid Httl. induction Hmid as [|o mid Ho _ IH]; intros u Hu Hi; [done|]. cbn [map foldl]. apply IH; [done|].
    intros key i [[_ ->]|Hk]%apply_op_lookup; [right; lia|by apply Hi]. }
  destruct (Hinv (s.1, keys)) as [Hk Hlast]; [done| |].
  - intros key i Hi. cbn in Hi. destruct (decide (key ∈ keys)) as [|Hn]; [by left|right].
    destruct (Z.leb_spec (now - EntryMaxTTL s.1) (lastUsedAt i)); [done|]. destruct Hn. apply elem_of_outdated.
    exists i. split; [done|]. unfold outdated. apply Z.ltb_lt. lia.
  - intros key i [Hn Hi]%lookup_deleted. rewrite Hk in Hn. by destruct (Hlast key i Hi).
Qed.
End cache.

(** ** Properties *)

(** The cache: a lookup returns the last value stored under its key and
    nothing else; a cleaning removes exactly the entries that were neither
    stored nor looked up within the time to live, so an entry that is used
    again in time survives any number of cleanings. *)
Theorem cache_lookup {A} (t : TSCache A) (now now' : Z) (key key' : bytes) (e : A) :
  (Get now' key (Put now key e t)).1 = Some e ∧
  (key ≠ key' → (Get now' key' (Put now key e t)).1 = (Get now' key' t).1) ∧
  (Get now' key (removeOutdatedItems now t)).1 =
    (i ← items t !! key; if outdated now t i then None else Some (entry i)) ∧
  ((now' ≤ now + EntryMaxTTL t)%Z → (Get now key t).1 = Some e →
   (Get now' key (removeOutdatedItems now' (Get now key t).2)).1 = Some e).
Proof.
  split; [|split; [|split]].
  - unfold Get, Put. cbn [items]. by rewrite lookup_insert_eq.
  - intros Hne. unfold Get, Put. cbn [items]. rewrite lookup_insert_ne by done.
    by destruct (items t !! key').
  - unfold Get. rewrite lookup_removeOutdated. destruct (items t !! key) as [i|]; [|done]. cbn.
    by destruct (outdated now t i).
  - intros Hle. unfold Get at 1. destruct (items t !! key) as [i|] eqn:E; [|done].
    intros [= <-]. unfold Get. rewrite E. cbn [snd].
    erewrite recent_survives; [|cbn [items]; apply lookup_insert_eq|done]. done.
Qed.

(** The cache stays bounded: whatever calls run before, during and after a
    cleaning that lists the outdated keys at [now], as long as the clock does
    not run back, every entry left was used no earlier than the time to live
    before [now], and there are at most as many entries as calls made since
    then; so with a cleaning every 15 seconds nothing unused outlives the time
    to live by more than that. *)
Theorem cache_bounded {A} (ttl now : Z) (before : list (event (A := A))) (mid : list op) (after : list event) :
  (0 <= ttl)%Z → Forall (λ o, (now <= op_time o)%Z) (mid ++ calls after) →
  let es := before ++ [EList now] ++ map ECall mid ++ [EDelete] ++ after in
  (∀ key i, items (run ttl es).1 !! key = Some i → (now - ttl <= lastUsedAt i)%Z) ∧
  (Z.of_nat (size (dom (items (run ttl es).1))) <= len (filter (λ o, now - ttl <= op_time o)%Z (calls es)))%Z.
Proof.
  intros Httl [Hmid Hafter]%Forall_app es.
  assert (Hsince : used_since (now - ttl) (run ttl es)).
  { unfold run, es. rewrite foldl_app. set (s := foldl on_event _ before).
    assert (Hs : EntryMaxTTL s.1 = ttl) by apply run_ttl.
    replace ([EList now] ++ map ECall mid ++ [EDelete] ++ after)
      with ((EList now :: map ECall mid ++ [EDelete]) ++ after) by (cbn; by rewrite <- app_assoc).
    rewrite foldl_app. apply used_since_run; [eapply Forall_impl; [exact Hafter|cbn; lia]|].
    rewrite <- Hs. apply cleaning_bound; [lia|done]. }
  split; [exact Hsince|].
  assert (Hacc : accounted (calls es) (run ttl es)).
  { apply (run_accounted es (NewTSCache ttl, []) []). intros key i Hi. cbn in Hi. by rewrite lookup_empty in Hi. }
  unfold len. apply inj_le. rewrite <- (length_map op_key).
  set (keys := map op_key _). trans (size (list_to_set keys : gset bytes)).
  - apply subseteq_size. intros key Hkey. apply elem_of_dom in Hkey as [i Hi].
    destruct (Hacc key i Hi) as (o & Ho & <- & Ht). apply elem_of_list_to_set, list_elem_of_fmap_2, list_elem_of_filter.
    split; [|done]. rewrite Ht. by eapply Hsince.
  - apply keys_size.
Qed.

Lemma cache_bounded_witness :
  let es : list (event (A := nat)) := Worker [15%Z] ++ [ECall (OpPut 16 (lit "a") 1)] ++
             [EList 30] ++ map ECall [OpGet 31 (lit "a")] ++ [EDelete] ++ [ECall (OpPut 33 (lit "b") 2)] in
  (∀ key i, items (run 5 es).1 !! key = Some i → (25 <= lastUsedAt i)%Z) ∧
  (Z.of_nat (size (dom (items (run 5 es).1))) <= 2)%Z.
Proof.
  apply (cache_bounded 5 30 (Worker [15%Z] ++ [ECall (OpPut 16 (lit "a") 1)]) [OpGet 31 (lit "a")] [ECall (OpPut 33 (lit "b") 2)]);
    [lia|]. repeat constructor; cbn; lia.
Defined.

(** Cleaning is not atomic: an entry that is refreshed (or stored anew)
    after the cleaner has listed the outdated keys, and before it deletes
    them, is lost although it was just used. *)
Theorem cache_cleanup_race {A} (t : TSCache A) (now : Z) (key : bytes) (e : A) :
  key ∈ outdated_keys now t →
  let t' := delete_keys (outdated_keys now t) (Put now key e t) in
  (Get now key t').1 = None.
Proof.
  intros Hin. cbv zeta. unfold Get, delete_keys. cbn [items].
  rewrite lookup_delete_keys, decide_True by done. done.
Qed.

Definition sample_cache : TSCache nat := Put 5 (lit "a") 1 (NewTSCache 10).

Lemma cache_cleanup_race_witness :
  (Get 100 (lit "a") (delete_keys (outdated_keys 100 sample_cache) (Put 100 (lit "a") 2 sample_cache))).1
  = None.
Proof.
  apply (cache_cleanup_race sample_cache 100 (lit "a") 2).
  apply elem_of_outdated. exists (mk_item 5 1). split; vm_compute; reflexivity.
Defined.
End Lru.

(** ** Package [transport] *)
Module Transport.
(** What a kind of transport offers; [T] is its connection type. *)
Record TransportSuit (T : Type) := mk_Suit {
  Name : bytes;
  Enabled : bool;
  Server : Conf.Values → option error;
  Client : Conf.Values → bytes → outcome T;
}.
Arguments Name {T}.
Arguments Enabled {T}.
Arguments Server {T}.
Arguments Client {T}.
Arguments mk_Suit {T} Name Enabled Server Client.

Abbreviation registry T := (gmap bytes (TransportSuit T)).

Definition Register {T} (suit : TransportSuit T) (reg : registry T) : registry T :=
  <[Name suit := suit]> reg.

Definition GetSuit {T} (name : bytes) (reg : registry T) : option (TransportSuit T) := reg !! name.

(** After the packages' [init] functions have run, in whatever order, a
    transport is found under its own name, the last one registered winning. *)
Lemma GetSuit_Register {T} (suits : list (TransportSuit T)) (name : bytes) :
  GetSuit name (foldl (λ r s, Register s r) ∅ suits)
  = last (filter (λ s, Name s = name) suits).
Proof.
  induction suits as [|s suits IH] using rev_ind; [done|].
  rewrite foldl_app. cbn [foldl]. unfold GetSuit, Register in *. rewrite filter_app.
  destruct (decide (Name s = name)) as [<-|Hne].
  - rewrite lookup_insert_eq, filter_cons_True, filter_nil by done. by rewrite last_snoc.
  - rewrite lookup_insert_ne, filter_cons_False, filter_nil by done. by rewrite app_nil_r.
Qed.
End Transport.
