(* ===== verification/Sha1.v ===== *)
(** [crypto/sha1] (FIPS 180-4), which the WebSocket handshake of the [h1]
    server uses. *)
From S2P Require Import Prelude.

Definition rotl32 (n x : Z) : Z := uint32 (Z.lor (Z.shiftl x n) (Z.shiftr x (32 - n))).

(** The message, a one bit, zeros, and the message's length in bits. *)
Definition sha1_pad (msg : bytes) : bytes :=
  let n := length msg in
  msg ++ [byte_of 128] ++ make_bytes ((119 - n `mod` 64) `mod` 64) ++ put_be 8 (8 * len msg).

(** The message schedule, latest word first. *)
Fixpoint schedule (n : nat) (w : list Z) : list Z :=
  match n with
  | 0 => w
  | S n => let at_ i := nth i w 0%Z in
           schedule n (rotl32 1 (Z.lxor (Z.lxor (at_ 2) (at_ 7)) (Z.lxor (at_ 13) (at_ 15))) :: w)
  end.

Definition block_words (block : bytes) : list Z :=
  rev (schedule 64 (rev (map (λ i, get_be (slice (4 * i) (4 * i + 4) block)) (seq 0 16)))).

Definition sha1_f (t : nat) (b c d : Z) : Z :=
  if decide (t < 20) then Z.lor (Z.land b c) (Z.land (Z.lxor b 0xFFFFFFFF) d)
  else if decide (t < 40) then Z.lxor b (Z.lxor c d)
  else if decide (t < 60) then Z.lor (Z.land b c) (Z.lor (Z.land b d) (Z.land c d))
  else Z.lxor b (Z.lxor c d).

Definition sha1_k (t : nat) : Z :=
  if decide (t < 20) then 0x5A827999 else if decide (t < 40) then 0x6ED9EBA1
  else if decide (t < 60) then 0x8F1BBCDC else 0xCA62C1D6.

Record sha1_state := mk_sha1 { sa : Z; sb : Z; sc : Z; sd : Z; se : Z }.

Definition sha1_round (s : sha1_state) (tw : nat * Z) : sha1_state :=
  let temp := uint32 (rotl32 5 (sa s) + sha1_f tw.1 (sb s) (sc s) (sd s) + se s + tw.2 + sha1_k tw.1) in
  mk_sha1 temp (sa s) (rotl32 30 (sb s)) (sc s) (sd s).

Definition sha1_block (h : sha1_state) (block : bytes) : sha1_state :=
  let s := foldl sha1_round h (zip (seq 0 80) (block_words block)) in
  mk_sha1 (uint32 (sa h + sa s)) (uint32 (sb h + sb s)) (uint32 (sc h + sc s))
    (uint32 (sd h + sd s)) (uint32 (se h + se s)).

Definition sha1_init : sha1_state := mk_sha1 0x67452301 0xEFCDAB89 0x98BADCFE 0x10325476 0xC3D2E1F0.

Definition sha1_digest (s : sha1_state) : bytes :=
  put_be 4 (sa s) ++ put_be 4 (sb s) ++ put_be 4 (sc s) ++ put_be 4 (sd s) ++ put_be 4 (se s).

(** [sha1.Sum(dat)]. *)
Definition sha1_Sum (dat : bytes) : bytes :=
  let p := sha1_pad dat in
  sha1_digest (foldl sha1_block sha1_init
    (map (λ i, slice (64 * i) (64 * i + 64) p) (seq 0 (length p `div` 64)))).

Lemma sha1_Sum_length (dat : bytes) : length (sha1_Sum dat) = 20.
Proof. unfold sha1_Sum, sha1_digest. by rewrite !length_app, !length_put_be. Qed.

(** The padded message is a whole number of blocks. *)
Lemma sha1_pad_blocks (msg : bytes) : length (sha1_pad msg) `mod` 64 = 0.
Proof.
  unfold sha1_pad. rewrite !length_app, length_make_bytes, length_put_be. cbn [length].
  pose proof (Nat.mod_upper_bound (length msg) 64 ltac:(lia)) as Hm.
  pose proof (Nat.div_mod (length msg) 64 ltac:(lia)) as Hd.
  set (q := length msg `div` 64) in *. set (r := length msg `mod` 64) in *. clearbody q r. rewrite Hd.
  destruct (decide (r < 56)) as [Hr|Hr].
    replace (119 - r) with (55 - r + 1 * 64) by lia. rewrite Nat.Div0.mod_add, (Nat.mod_small (55 - r)) by lia.
    replace (64 * q + r + (1 + (55 - r + 8))) with ((q + 1) * 64) by lia. apply Nat.Div0.mod_mul.
  - rewrite (Nat.mod_small (119 - r)) by lia.
    replace (64 * q + r + (1 + (119 - r + 8))) with ((q + 2) * 64) by lia. apply Nat.Div0.mod_mul.
Qed.

(** FIPS 180 examples. *)
Example sha1_abc : get_be (sha1_Sum (lit "abc")) = 0xa9993e364706816aba3e25717850c26c9cd0d89d%Z.
Proof. vm_compute. reflexivity. Qed.
Example sha1_two_blocks :
  get_be (sha1_Sum (lit "abcdbcdecdefdefgefghfghighijhijkijkljklmklmnlmnomnopnopq"))
  = 0x84983e441c3bd26ebaae4aa1f95129e5e54670f1%Z.
Proof. vm_compute. reflexivity. Qed.
