(* ===== verification/Http.v ===== *)
(** Package [http] (src/http/http.go, header.go, response.go): reading a
    request header from a connection, parsing and printing headers, reading a
    response; with what it uses of [bytes], [net/http.Header] and [net/url]. *)
From S2P Require Import Prelude GoIO Strconv Json.

Module Http.
(** ** [bytes.Index], [bytes.Split], [bytes.SplitN] *)
Definition match_at (s sep : bytes) (i : nat) : bool :=
  bool_decide (take (length sep) (drop i s) = sep).

Fixpoint Index (s sep : bytes) : option nat :=
  if match_at s sep 0 then Some 0
  else match s with
       | [] => None
       | _ :: s => S <$> Index s sep
       end.

(** What is before and after the first separator. *)
Definition cut (s sep : bytes) : option (bytes * bytes) :=
  p ← Index s sep; Some (take p s, drop (p + length sep) s).

Fixpoint split (fuel : nat) (s sep : bytes) : list bytes :=
  match fuel with
  | 0 => [s]
  | S fuel => match cut s sep with
              | Some (a, s) => a :: split fuel s sep
              | None => [s]
              end
  end.

(** At most [n - 1] separators are used; [n] is at least 1. *)
Definition SplitN (s sep : bytes) (n : nat) : list bytes := split (n - 1) s sep.
(** A piece is at least as long as the separator. *)
Definition Split (s sep : bytes) : list bytes := split (length s) s sep.

Definition crlf : bytes := [Byte.x0d; Byte.x0a].
Definition sp : bytes := lit " ".

(** [strings.TrimRight(s, ": ")]. *)
Definition drop_while_end (p : byte → bool) (s : bytes) : bytes :=
  foldr (λ b t, if decide (t = []) then (if p b then [] else [b]) else b :: t) [] s.
Definition TrimRight_colon (s : bytes) : bytes :=
  drop_while_end (λ b, bool_decide (b = Byte.x3a ∨ b = Byte.x20)) s.

(** [strings.TrimSpace] (the space characters of ASCII). *)
Definition is_ascii_space (b : byte) : bool :=
  let v := byte_val b in (v =? 32)%Z || (9 <=? v)%Z && (v <=? 13)%Z.
Fixpoint drop_while (p : byte → bool) (s : bytes) : bytes :=
  match s with b :: t => if p b then drop_while p t else s | [] => [] end.
Definition TrimSpace (s : bytes) : bytes := drop_while_end is_ascii_space (drop_while is_ascii_space s).

(** ** [net/http.Header]

    Only [Set] adds to a header here, so each name has one value. *)
Abbreviation header_map := (gmap bytes bytes).

Definition token_byte (b : byte) : bool :=
  let v := byte_val b in
  (48 <=? v)%Z && (v <=? 57)%Z || (65 <=? v)%Z && (v <=? 90)%Z || (97 <=? v)%Z && (v <=? 122)%Z ||
  bool_decide (b ∈ lit "!#$%&'*+-.^_`|~").

Fixpoint canonical_from (up : bool) (s : bytes) : bytes :=
  match s with
  | [] => []
  | b :: s => (if up then upper b else lower b) :: canonical_from (bool_decide (b = Byte.x2d)) s
  end.

(** [textproto.CanonicalMIMEHeaderKey]. *)
Definition CanonicalKey (s : bytes) : bytes :=
  if forallb token_byte s then canonical_from true s else s.

Definition HSet (name value : bytes) (h : header_map) : header_map := <[CanonicalKey name := value]> h.
Definition HGet (name : bytes) (h : header_map) : bytes := default [] (h !! CanonicalKey name).

(** ** [net/url] *)

(** A URL without user information, opaque part or fragment. *)
Record URL := mk_URL { Scheme : bytes; URLHost : bytes; Path : bytes; RawQuery : bytes }.

Definition unreserved (b : byte) : bool :=
  let v := byte_val b in
  (48 <=? v)%Z && (v <=? 57)%Z || (65 <=? v)%Z && (v <=? 90)%Z || (97 <=? v)%Z && (v <=? 122)%Z ||
  bool_decide (b ∈ lit "-_.~").

Definition upper_hex (d : Z) : byte := if (d <? 10)%Z then byte_of (48 + d) else byte_of (55 + d).
Definition percent (b : byte) : bytes :=
  [Byte.x25; upper_hex (byte_val b / 16); upper_hex (byte_val b mod 16)].

Definition QueryEscape (s : bytes) : bytes :=
  flat_map (λ b, if unreserved b then [b]
                 else if decide (b = Byte.x20) then [Byte.x2b] else percent b) s.

(** [unescape]; [plus]: a plus sign stands for a space (query components). *)
Fixpoint unescape (plus : bool) (s : bytes) : option bytes :=
  match s with
  | [] => Some []
  | b :: t =>
      if decide (b = Byte.x25) then
        match t with
        | a :: c :: t => x ← hex_val a; y ← hex_val c;
                         r ← unescape plus t; Some (byte_of (x * 16 + y) :: r)
        | _ => None
        end
      else r ← unescape plus t; Some ((if plus && bool_decide (b = Byte.x2b) then Byte.x20 else b) :: r)
  end.

Definition QueryUnescape : bytes → option bytes := unescape true.

(** [q.Encode()] for the one parameter [name]. *)
Definition Encode1 (name value : bytes) : bytes := QueryEscape name ++ lit "=" ++ QueryEscape value.

(** One [key=value] piece of a query; ill-formed pieces are skipped. *)
Definition parse_pair (piece : bytes) : option (bytes * bytes) :=
  if bool_decide (Byte.x3b ∈ piece) then None
  else if decide (piece = []) then None
  else let '(k, v) := default (piece, []) (cut piece (lit "=")) in
       k ← QueryUnescape k; v ← QueryUnescape v; Some (k, v).

Definition ParseQuery (q : bytes) : list (bytes * bytes) := omap parse_pair (Split q (lit "&")).

Fixpoint first_value (name : bytes) (kvs : list (bytes * bytes)) : bytes :=
  match kvs with
  | [] => []
  | (k, v) :: kvs => if decide (k = name) then v else first_value name kvs
  end.

(** [u.Query().Get(name)]. *)
Definition QueryGet (name : bytes) (u : URL) : bytes := first_value name (ParseQuery (RawQuery u)).

(** ** Request headers (header.go) *)

(** [RequestURI] of a URL without an escaped original path. *)
Definition path_byte (b : byte) : bool := unreserved b || bool_decide (b ∈ lit "$&+,/:;=@").
Definition EscapedPath (p : bytes) : bytes :=
  if decide (p = lit "*") then p else flat_map (λ b, if path_byte b then [b] else percent b) p.
Definition RequestURI (u : URL) : bytes :=
  let result := EscapedPath (Path u) in
  let result := if decide (result = []) then lit "/" else result in
  if decide (RawQuery u = []) then result else result ++ lit "?" ++ RawQuery u.

Definition is_ctl (b : byte) : bool := (byte_val b <? 32)%Z || (byte_val b =? 127)%Z.
Definition uri_error : error := LibError (lit "net/url").

(** [url.ParseRequestURI].  What does not start with a slash (an absolute URI)
    is left to [ParseAbsolute]. *)
Section parse.
Context (ParseAbsolute : bytes → outcome URL).

Definition ParseRequestURI (s : bytes) : outcome URL :=
  if existsb is_ctl s then Err uri_error
  else match s with
       | [] => Err uri_error
       | b :: _ =>
           if decide (b = Byte.x2f) then
             let '(rest, query) := default (s, []) (cut s (lit "?")) in
             match unescape false rest with
             | Some p => Ok (mk_URL [] [] p query)
             | None => Err uri_error
             end
           else ParseAbsolute s
       end.

Record Header := mk_Header {
  Method : bytes;
  Proto : bytes;
  Host : bytes;
  HURL : URL;
  Values : header_map;
}.

Definition set_host (host : bytes) (u : URL) : URL := mk_URL (Scheme u) host (Path u) (RawQuery u).

(** One header line; a line without a space is skipped. *)
Definition parse_line (hv : bytes * header_map) (lineb : bytes) : bytes * header_map :=
  match SplitN lineb sp 2 with
  | [a; value] =>
      let name := TrimRight_colon a in
      (if EqualFold name (lit "host") then value else hv.1, HSet name value hv.2)
  | _ => hv
  end.

Definition parseHeader (dat : bytes) : outcome Header :=
  match Split dat crlf with
  | [] => Err (Errorf (lit "Invalid http header.") [])
  | line :: lines =>
      match SplitN line sp 3 with
      | [m; urlStr; proto] =>
          match ParseRequestURI urlStr with
          | Ok uri =>
              let '(host, vs) := foldl parse_line ([], ∅) lines in
              let uri := if decide (length (URLHost uri) ≤ 0 ∧ 0 < length host)
                         then set_host host uri else uri in
              Ok (mk_Header (ToUpper m) (ToUpper proto) host uri vs)
          | Err _ => Err (Errorf (lit "Invalid request uri.") [])
          | Panic => Panic
          | Hang => Hang
          end
      | _ => Err (Errorf (lit "Invalid http request.") [])
      end
  end.
End parse.

(** [WriteTo]; [entries] is the header map in the order of its iteration. *)
Definition header_line (nv : bytes * bytes) : bytes := nv.1 ++ lit ": " ++ nv.2 ++ crlf.
Definition WriteTo (h : Header) (entries : list (bytes * bytes)) : bytes :=
  let hostSet := existsb (λ nv, EqualFold nv.1 (lit "host")) entries in
  ToUpper (Method h) ++ sp ++ RequestURI (HURL h) ++ sp ++ Proto h ++ crlf ++
  concat (map header_line entries) ++
  (if negb hostSet && bool_decide (0 < length (URLHost (HURL h)))
   then header_line (lit "Host", URLHost (HURL h)) else []) ++ crlf.

(** ** Reading a request header (http.go) *)
Definition DefaultBufferSize : Z := 1024 * 4.
Definition ExtendingSize : Z := 1024 * 2.
Definition MaxBufferSize : Z := 1024 * 16.

Record HeaderReader (T : Type) := mk_HeaderReader { hr_r : T; hr_buff : bytes; hr_end : nat }.
Arguments mk_HeaderReader {T} hr_r hr_buff hr_end.
Arguments hr_r {T}.
Arguments hr_buff {T}.
Arguments hr_end {T}.

Definition NewHeaderReader {T} (r : T) : HeaderReader T :=
  mk_HeaderReader r (make_bytes (Z.to_nat DefaultBufferSize)) 0.

(** The loop that makes room for [readingSize] bytes: the buffer, or that it
    would grow beyond [MaxBufferSize].  Each turn adds [ExtendingSize] bytes,
    so [extend_fuel] turns are enough. *)
Fixpoint extend (fuel : nat) (end_ : nat) (buff : bytes) : outcome bytes :=
  if (len buff - Z.of_nat end_ <? ExtendingSize)%Z then
    if (MaxBufferSize <? len buff + ExtendingSize)%Z then Err ErrShortBuffer
    else match fuel with
         | 0 => Hang
         | S fuel =>
             extend fuel end_ (copy_at 0 (take end_ buff) (make_bytes (length buff + Z.to_nat ExtendingSize)))
         end
  else Ok buff.
Definition extend_fuel : nat := 8.

Definition sep : bytes := crlf ++ crlf.

Section reader.
Context {T : Type} `{Reader T}.

(** The buffer the loop leaves is kept also when it then fails. *)
Definition readMore : M (HeaderReader T) nat := λ h,
  match extend extend_fuel (hr_end h) (hr_buff h) with
  | Ok buff =>
      match read (length buff - hr_end h) (hr_r h) with
      | (Ok d, r) => (Ok (length d), mk_HeaderReader r (copy_at (hr_end h) d buff) (hr_end h + length d))
      | (Err e, r) => (Err e, mk_HeaderReader r buff (hr_end h))
      | (Panic, r) => (Panic, mk_HeaderReader r buff (hr_end h))
      | (Hang, r) => (Hang, mk_HeaderReader r buff (hr_end h))
      end
  | Err e => (Err e, h)
  | Panic => (Panic, h)
  | Hang => (Hang, h)
  end.

(** The separator is looked for in the whole buffer, [r.buff], beyond
    [r.end] too. *)
Fixpoint peek_loop (fuel : nat) : M (HeaderReader T) bytes := λ h,
  match Index (hr_buff h) sep with
  | Some p => (Ok (take p (hr_buff h)), h)
  | None =>
      match fuel with
      | 0 => (Hang, h)
      | S fuel =>
          (size ← readMore;
           if decide (size ≤ 0) then throw EOF else peek_loop fuel) h
      end
  end.

Definition PeekHeader (ParseAbsolute : bytes → outcome URL) : M (HeaderReader T) Header :=
  headerb ← (λ h, peek_loop (S (budget (hr_r h))) h);
  try (lift (parseHeader ParseAbsolute headerb)) (λ err, throw (Wrapf (lit "parseHeader: %v") err)).

Definition HReader_Read (n : nat) : M (HeaderReader T) bytes := λ h,
  if decide (hr_end h ≤ 0) then
    let '(o, r) := read n (hr_r h) in (o, mk_HeaderReader r (hr_buff h) (hr_end h))
  else
    let size := if decide (n < hr_end h) then n else hr_end h in
    let newEnd := hr_end h - size in
    (Ok (take size (hr_buff h)),
     mk_HeaderReader (hr_r h) (copy_at 0 (slice size (hr_end h) (hr_buff h)) (hr_buff h)) newEnd).
End reader.

(** ** Responses (response.go) *)
Record Response := mk_Response { StatusCode : Z; RHeader : header_map }.

Definition parseResponseLine (line : bytes) : outcome (Z * bytes * bytes) :=
  match SplitN line sp 3 with
  | [proto; codeStr; statusText] => code ← Atoi codeStr; Ok (code, statusText, proto)
  | _ => Err (Errorf (lit "invalid response line.") [])
  end.

Definition parseHeaderLine (line : bytes) : outcome (bytes * bytes) :=
  match cut line (lit ":") with
  | None => Err (Errorf (lit "invalid header line.") [])
  | Some (name, value) => Ok (TrimSpace name, TrimSpace value)
  end.

(** One complete line; [lineIndex] counts the non-empty ones. *)
Definition response_line (lineIndex : nat) (line : bytes) (rs : Response) : outcome Response :=
  if decide (lineIndex = 0) then
    c ← parseResponseLine line; Ok (mk_Response c.1.1 (RHeader rs))
  else
    kv ← parseHeaderLine line; Ok (mk_Response (StatusCode rs) (HSet kv.1 kv.2 (RHeader rs))).

(** The inner loop: complete lines are taken off [bufHeader[:i]]; [inl] is the
    finished response.  Each turn removes at least the separator. *)
Fixpoint response_lines (fuel : nat) (buf : bytes) (lineIndex : nat) (rs : Response) :
    outcome (Response + (bytes * nat * Response)) :=
  match cut buf crlf with
  | None => Ok (inr (buf, lineIndex, rs))
  | Some (line, buf) =>
      match fuel with
      | 0 => Hang
      | S fuel =>
          if decide (0 < length line) then
            rs ← response_line lineIndex line rs; response_lines fuel buf (S lineIndex) rs
          else Ok (inl rs)
      end
  end.

Definition max_header : Z := 1024 * 16.

Section response.
Context {T : Type} `{Reader T}.

Fixpoint response_loop (fuel : nat) (buf : bytes) (lineIndex : nat) (rs : Response) : M T Response :=
  match fuel with
  | 0 => hang
  | S fuel =>
      d ← read (Z.to_nat 1024);
      if (max_header <? len buf + len d)%Z then throw ErrShortBuffer else
      st ← lift (response_lines (length (buf ++ d)) (buf ++ d) lineIndex rs);
      match st with
      | inl rs => mret rs
      | inr (buf, lineIndex, rs) => response_loop fuel buf lineIndex rs
      end
  end.

(** What a read takes beyond the empty line is dropped with the buffer. *)
Definition ReadResponse : M T Response := λ s, response_loop (S (budget s)) [] 0 (mk_Response 0 ∅) s.
End response.

(** ** Searching *)
Lemma match_at_prefix (s sp : bytes) (q : nat) : match_at s sp q = true ↔ sp `prefix_of` drop q s.
Proof.
  unfold match_at. rewrite bool_decide_eq_true. split.
  - intros E. exists (drop (length sp) (drop q s)). by rewrite <- E at 1; rewrite take_drop.
  - intros [k ->]. by rewrite take_app_length.
Qed.

Lemma match_at_app (a b sp : bytes) (q : nat) :
  q + length sp ≤ length a → match_at (a ++ b) sp q = match_at a sp q.
Proof.
  intros Hq. unfold match_at. apply bool_decide_ext. rewrite drop_app_le by lia.
  by rewrite take_app_le by (rewrite length_drop; lia).
Qed.

Lemma match_at_bound (s sp : bytes) (q : nat) : sp ≠ [] → match_at s sp q = true → q + length sp ≤ length s.
Proof.
  intros Hne Hm%match_at_prefix. apply prefix_length in Hm. rewrite length_drop in Hm.
  destruct sp; [done|]. cbn [length] in *. lia.
Qed.

Lemma match_at_cons (b : byte) (s sp : bytes) (q : nat) : match_at (b :: s) sp (S q) = match_at s sp q.
Proof. done. Qed.

Lemma Index_Some (s sp : bytes) (p : nat) :
  Index s sp = Some p ↔ match_at s sp p = true ∧ (p ≤ length s) ∧ ∀ q, q < p → match_at s sp q = false.
Proof.
  revert p. induction s as [|b s IH]; intros p; cbn [Index];
    (destruct (match_at _ sp 0) eqn:E; [split|]).
  - intros [= <-]. repeat split; [done|lia|lia].
  - intros (_ & Hl & _). cbn in Hl. by replace p with 0 by lia.
  - split; [done|]. intros (Hm & Hl & _). cbn in Hl. replace p with 0 in Hm by lia. congruence.
  - intros [= <-]. repeat split; [done|cbn; lia|lia].
  - intros (_ & _ & Hq). destruct p; [done|]. specialize (Hq 0 ltac:(lia)). congruence.
  - rewrite fmap_Some. split.
    + intros (p' & (Hm & Hl & Hq)%IH & ->). split; [done|]. split; [cbn; lia|].
      intros [|q] Hlt; [done|]. rewrite match_at_cons. apply Hq. lia.
    + intros (Hm & Hl & Hq). destruct p as [|p]; [congruence|]. exists p. split; [|done].
      apply IH. split; [done|]. split; [cbn in Hl; lia|]. intros q Hlt. apply (Hq (S q)). lia.
Qed.

Lemma Index_None (s sp : bytes) : Index s sp = None ↔ ∀ q, q ≤ length s → match_at s sp q = false.
Proof.
  split.
  - revert s. induction s as [|b s IH]; cbn [Index]; destruct (match_at _ sp 0) eqn:E; try done.
    + intros _ q Hq. cbn in Hq. by replace q with 0 by lia.
    + intros Hn%fmap_None [|q] Hq; [done|]. rewrite match_at_cons. apply IH; [done|cbn in Hq; lia].
  - intros Hq. destruct (Index s sp) as [p|] eqn:E; [|done]. apply Index_Some in E as (Hm & Hl & _).
    rewrite Hq in Hm by done. done.
Qed.

Lemma Index_skip (b : byte) (s sp : bytes) : hd_error sp ≠ Some b → sp ≠ [] → Index (b :: s) sp = S <$> Index s sp.
Proof.
  intros Hb Hne. cbn [Index]. destruct (match_at (b :: s) sp 0) eqn:E; [|done].
  apply match_at_prefix in E as [k Hk]. destruct sp; [done|]. by injection Hk as -> _.
Qed.

Lemma Index_skip_all (a s sp : bytes) (x : byte) (r : bytes) :
  sp = x :: r → (x ∉ a) → Index (a ++ s) sp = (λ p, length a + p) <$> Index s sp.
Proof.
  intros ->. induction a as [|b a IH]; intros Hx; cbn [app length].
  - by destruct (Index s _).
  - rewrite Index_skip by (cbn; set_solver). rewrite IH by set_solver. by destruct (Index s _).
Qed.

Lemma Index_here (s t : bytes) : Index (s ++ t) s = Some 0.
Proof.
  apply Index_Some. split; [|split; [lia|lia]]. apply match_at_prefix. rewrite drop_0. by exists t.
Qed.

(** A prefix of a text has the separator exactly if it reaches that far. *)
Lemma Index_prefix (a b sp : bytes) (p : nat) :
  sp ≠ [] → Index (a ++ b) sp = Some p →
  Index a sp = if decide (p + length sp ≤ length a) then Some p else None.
Proof.
  intros Hne (Hm & Hl & Hq)%Index_Some. case_decide as Hd.
  - apply Index_Some. rewrite match_at_app in Hm by done. split; [done|]. split; [lia|].
    intros q Hlt. by rewrite <- (match_at_app a b) by lia; apply Hq.
  - apply Index_None. intros q Hle. destruct (match_at a sp q) eqn:E; [|done].
    pose proof (match_at_bound _ _ _ Hne E) as Hb.
    assert (Hq' : q < p) by lia. apply Hq in Hq'. rewrite match_at_app in Hq' by done. congruence.
Qed.

(** Zeros after a text add no occurrence of a separator that ends otherwise. *)
Lemma Index_zeros (a sp : bytes) (n : nat) (x : byte) :
  x ≠ Byte.x00 → Index (a ++ make_bytes n) (sp ++ [x]) = Index a (sp ++ [x]).
Proof.
  intros Hx. assert (Hne : sp ++ [x] ≠ []) by (by destruct sp).
  assert (Hb : ∀ q, match_at (a ++ make_bytes n) (sp ++ [x]) q = match_at a (sp ++ [x]) q).
  { intros q. destruct (decide (q + length (sp ++ [x]) ≤ length a)) as [Hq|Hq]; [by apply match_at_app|].
    destruct (match_at a (sp ++ [x]) q) eqn:E; [by apply match_at_bound in E; [|done]|].
    apply not_true_iff_false. intros [k Hk]%match_at_prefix.
    assert (Hl : (drop q (a ++ make_bytes n)) !! length sp = Some x).
    { rewrite Hk, <- app_assoc, lookup_app_r by lia. by rewrite Nat.sub_diag. }
    rewrite length_app in Hq. cbn [length] in Hq.
    rewrite lookup_drop, lookup_app_r in Hl by lia. unfold make_bytes in Hl.
    apply lookup_replicate in Hl as [? _]. done. }
  destruct (Index a (sp ++ [x])) as [p|] eqn:E.
  - apply Index_Some in E as (Hm & Hl & Hq). apply Index_Some.
    rewrite Hb. split; [done|]. split; [rewrite length_app; lia|]. intros q Hlt. rewrite Hb. by apply Hq.
  - apply Index_None. intros q _. rewrite Hb. destruct (match_at a (sp ++ [x]) q) eqn:E'; [|done].
    pose proof (match_at_bound _ _ _ Hne E') as Hbd. rewrite (proj1 (Index_None _ _) E q) in E' by lia. done.
Qed.

(** ** Peeking *)

(** What has been read, and the rest of the buffer. *)
Record peeked {T} (h : HeaderReader T) (taken : bytes) : Prop := {
  peeked_buff : ∃ k, hr_buff h = taken ++ make_bytes k;
  peeked_end : hr_end h = length taken;
  peeked_size : (len (hr_buff h) <= MaxBufferSize)%Z;
  peeked_step : (len (hr_buff h) mod ExtendingSize = 0)%Z;
}.

Lemma new_peeked {T} (r : T) : peeked (NewHeaderReader r) [].
Proof.
  split; cbn [hr_buff hr_end NewHeaderReader]; unfold len; rewrite ?length_make_bytes; [eauto|done|..];
    vm_compute; [discriminate|reflexivity].
Qed.

Lemma copy_at_front (a : bytes) (n : nat) :
  length a ≤ n → copy_at 0 a (make_bytes n) = a ++ make_bytes (n - length a).
Proof.
  intros Hl. rewrite copy_at_fit by (rewrite length_make_bytes; lia). rewrite take_0. cbn [app Nat.add].
  f_equal. unfold make_bytes. by rewrite drop_replicate.
Qed.

(** [extend] fails only for a buffer at its maximum; otherwise it makes room. *)
Lemma extend_spec {T} (h : HeaderReader T) (taken : bytes) :
  peeked h taken →
  match extend extend_fuel (hr_end h) (hr_buff h) with
  | Ok buff => ∀ r : T, peeked (mk_HeaderReader r buff (hr_end h)) taken ∧
                    (ExtendingSize <= len buff - Z.of_nat (hr_end h))%Z
  | Err e => e = ErrShortBuffer ∧ (14336 < len taken)%Z
  | _ => False
  end.
Proof.
  intros [[k Hb] He Hm Hs]. rewrite He, Hb in *. clear Hb He.
  assert (∃ f, extend_fuel = S (S f)) as [f ->] by (by exists 6). cbn [extend].
  unfold ExtendingSize, MaxBufferSize, len in *. rewrite length_app, length_make_bytes in *.
  destruct (Z.ltb_spec (Z.of_nat (length taken + k) - Z.of_nat (length taken)) (1024 * 2)).
  2: { intros r. split; [|rewrite length_app, length_make_bytes; lia]. split; cbn [hr_buff hr_end]; [eauto|done|..];
         unfold len; rewrite length_app, length_make_bytes; done. }
  destruct (Z.ltb_spec (1024 * 16) (Z.of_nat (length taken + k) + 1024 * 2)).
  { split; [done|]. zdm. }
  rewrite take_app_length, copy_at_front by lia.
  set (k' := length taken + k + Z.to_nat (1024 * 2) - length taken).
  assert (Hk' : Z.of_nat k' = (Z.of_nat k + 2048)%Z) by (unfold k'; lia).
  unfold len. rewrite length_app, length_make_bytes.
  destruct (Z.ltb_spec (Z.of_nat (length taken + k') - Z.of_nat (length taken)) (1024 * 2)); [lia|].
  intros r. split; [|rewrite length_app, length_make_bytes; lia].
  split; cbn [hr_buff hr_end]; [eauto|done|..]; unfold len; rewrite length_app, length_make_bytes.
  { unfold MaxBufferSize. lia. }
  unfold ExtendingSize.
  rewrite Nat2Z.inj_add, Hk'. rewrite Nat2Z.inj_add in Hs.
  replace (Z.of_nat (length taken) + (Z.of_nat k + 2048))%Z
    with (Z.of_nat (length taken) + Z.of_nat k + 1 * (1024 * 2))%Z by lia.
  by rewrite Z.mod_add by lia.
Qed.

Lemma peeked_read {T} (r : T) (buff d : bytes) (end_ : nat) (taken : bytes) :
  (∀ r : T, peeked (mk_HeaderReader r buff end_) taken) → (len d <= len buff - Z.of_nat end_)%Z →
  peeked (mk_HeaderReader r (copy_at end_ d buff) (end_ + length d)) (taken ++ d).
Proof.
  intros Hp Hd. destruct (Hp r) as [[k Hb] He Hm Hs]. cbn [hr_buff hr_end] in *. subst end_.
  unfold len in *. rewrite Hb, length_app, length_make_bytes in *.
  assert (Hc : copy_at (length taken) d (taken ++ make_bytes k) = (taken ++ d) ++ make_bytes (k - length d)).
  { rewrite copy_at_app by done. rewrite copy_at_front by lia. by rewrite app_assoc. }
  split; cbn [hr_buff hr_end]; rewrite ?Hc; [eauto|by rewrite length_app|..];
    unfold len; rewrite !length_app, length_make_bytes;
    by replace (length taken + length d + (k - length d)) with (length taken + k) by lia.
Qed.

Section peeking.
Context {T : Type} `{ReaderLaws T}.

Definition peek_sep : bytes := [Byte.x0d; Byte.x0a; Byte.x0d].

Lemma peeked_index (h : HeaderReader T) (taken : bytes) :
  peeked h taken → Index (hr_buff h) sep = Index taken sep.
Proof. intros [[k ->] _ _ _]. by apply (Index_zeros taken peek_sep). Qed.

(** One more read: an error, or more of the stream. *)
Lemma readMore_spec (h : HeaderReader T) (taken left : bytes) :
  peeked h taken → delivers (hr_r h) left →
  match readMore h with
  | (Ok n, h') => ∃ d left', n = length d ∧ left = d ++ left' ∧ peeked h' (taken ++ d) ∧
                  delivers (hr_r h') left' ∧ budget (hr_r h') < budget (hr_r h)
  | (Err e, h') => peeked h' taken ∧ (e = EOF ∧ left = [] ∨ e = ErrShortBuffer ∧ (14336 < len taken)%Z)
  | _ => False
  end.
Proof.
  intros Hp Hd. unfold readMore. pose proof (extend_spec h taken Hp) as He.
  destruct (extend _ _ _) as [buff|e| |]; try done.
  - destruct (He (hr_r h)) as [_ Hroom]. unfold len, ExtendingSize in Hroom.
    pose proof (read_law (hr_r h) left (length buff - hr_end h) Hd ltac:(lia)) as Hr. unfold read_post in Hr.
    destruct (read _ (hr_r h)) as [[d|e| |] r']; try done.
    + destruct Hr as (left' & -> & Hl & Hd' & _ & Hb). exists d, left'. do 2 (split; [done|]). split; [|done].
      apply peeked_read; [intros r; by apply He|]. unfold len. lia.
    + destruct Hr as (-> & -> & _). split; [by apply He|]. by left.
  - destruct He as [-> ?]. split; [done|]. by right.
Qed.

(** The same of any source that always has a next byte until the header ends. *)
Lemma readMore_fed (P : T → bytes → Prop) (h : HeaderReader T) (taken left : bytes) :
  feeding true P → peeked h taken → P (hr_r h) left → left ≠ [] →
  match readMore h with
  | (Ok n, h') => ∃ d left', n = length d ∧ 0 < n ∧ left = d ++ left' ∧ peeked h' (taken ++ d) ∧
                  P (hr_r h') left' ∧ budget (hr_r h') < budget (hr_r h)
  | (Err e, h') => e = ErrShortBuffer ∧ (14336 < len taken)%Z
  | _ => False
  end.
Proof.
  intros HP Hp Hd Hne. unfold readMore. pose proof (extend_spec h taken Hp) as He.
  destruct (extend _ _ _) as [buff|e| |]; try done.
  destruct (He (hr_r h)) as [_ Hroom]. unfold len, ExtendingSize in Hroom.
  destruct (HP (hr_r h) left (length buff - hr_end h) Hd Hne ltac:(lia)) as (d & s' & left' & -> & Hnd & Hl & -> & Hd' & Hb).
  exists d, left'. split; [done|]. split; [destruct d; [by destruct (Hnd eq_refl)|cbn; lia]|]. split; [done|]. split; [|done].
  apply peeked_read; [intros r; by apply He|]. unfold len. lia.
Qed.

(** Whatever arrives, the loop returns and the buffer stays within bounds. *)
Lemma peek_loop_returns (fuel : nat) (h : HeaderReader T) (taken left : bytes) :
  peeked h taken → delivers (hr_r h) left → budget (hr_r h) < fuel →
  returns (peek_loop fuel h).1 ∧ ∃ taken' left', peeked (peek_loop fuel h).2 taken' ∧
    taken ++ left = taken' ++ left'.
Proof.
  revert h taken left. induction fuel as [|fuel IH]; intros h taken left Hp Hd Hb; [lia|].
  cbn [peek_loop]. destruct (Index (hr_buff h) sep); [split; [done|]; by exists taken, left|].
  pose proof (readMore_spec h taken left Hp Hd) as Hm.
  destruct (readMore h) as [[n|e| |] h'] eqn:E; try done.
  - destruct Hm as (d & left' & -> & -> & Hp' & Hd' & Hb'). run E. rewrite app_assoc. case_decide.
    + split; [done|]. by exists (taken ++ d), left'.
    + apply IH; [done|done|lia].
  - destruct Hm as [Hm _]. run E. split; [done|]. by exists taken, left.
Qed.

Lemma peek_loop_header (P : T → bytes → Prop) (fuel : nat) (h : HeaderReader T) (taken left : bytes) (p : nat) :
  feeding true P → peeked h taken → P (hr_r h) left → budget (hr_r h) < fuel →
  Index (taken ++ left) sep = Some p → (Z.of_nat p + 4 <= 14336)%Z →
  ∃ h' taken' left', peek_loop fuel h = (Ok (take p (taken ++ left)), h') ∧ peeked h' taken' ∧
    taken' ++ left' = taken ++ left ∧ P (hr_r h') left' ∧ p + 4 ≤ length taken'.
Proof.
  intros HP. revert h taken left. induction fuel as [|fuel IH]; intros h taken left Hp Hd Hb Hi Hsz; [lia|].
  cbn [peek_loop]. rewrite (peeked_index h taken Hp).
  rewrite (Index_prefix taken left sep p ltac:(done) Hi). change (length sep) with 4. case_decide as Hc.
  - exists h, taken, left. split; [|done]. destruct Hp as [[k ->] _ _ _]. by rewrite !take_app_le by lia.
  - assert (Hne : left ≠ []).
    { intros ->. rewrite app_nil_r in Hi. apply Index_Some in Hi as (Hm & _ & _).
      apply match_at_bound in Hm; [|done]. change (length sep) with 4 in Hm. lia. }
    pose proof (readMore_fed P h taken left HP Hp Hd Hne) as Hm.
    destruct (readMore h) as [[n|e| |] h'] eqn:E; try done.
    + destruct Hm as (d & left' & -> & Hpos & -> & Hp' & Hd' & Hb'). run E. rewrite decide_False by lia.
      destruct (IH h' (taken ++ d) left') as (h2 & t2 & l2 & Hr & Hp2 & Hs2 & Hd2 & Hb2);
        [done|done|lia|by rewrite <- app_assoc|done|].
      rewrite <- app_assoc in Hr, Hs2. by exists h2, t2, l2.
    + destruct Hm as [_ Hl]. unfold len in Hl. lia.
Qed.
End peeking.

(** ** Lines *)
Definition peek_sep_tail : bytes := [Byte.x0a; Byte.x0d; Byte.x0a].

Lemma cut_app (x : byte) (r a s : bytes) : (x ∉ a) → cut (a ++ (x :: r) ++ s) (x :: r) = Some (a, s).
Proof.
  intros Hx. unfold cut. rewrite (Index_skip_all a _ _ x r) by done. rewrite Index_here.
  cbn [fmap option_fmap option_map mbind option_bind]. rewrite Nat.add_0_r, take_app_length.
  rewrite <- drop_drop, drop_app_length. by rewrite drop_app_length.
Qed.

Lemma cut_none (x : byte) (r s : bytes) : (x ∉ s) → cut s (x :: r) = None.
Proof.
  intros Hx. unfold cut. rewrite <- (app_nil_r s), (Index_skip_all s [] _ x r) by done. done.
Qed.

Fixpoint joined (lines : list bytes) : bytes :=
  match lines with
  | [] => []
  | [l] => l
  | l :: ls => l ++ crlf ++ joined ls
  end.

Definition line_ok (l : bytes) : Prop := l ≠ [] ∧ (Byte.x0d ∉ l).

Lemma text_joined (lines : list bytes) :
  lines ≠ [] → concat (map (λ l, l ++ crlf) lines) = joined lines ++ crlf.
Proof.
  induction lines as [|l [|l' ls] IH]; [done|intros _; cbn; by rewrite app_nil_r|intros _].
  cbn [map concat joined]. cbn [map concat joined] in IH. rewrite IH by done. by rewrite <- !app_assoc.
Qed.

Lemma Split_joined (lines : list bytes) :
  lines ≠ [] → Forall line_ok lines → Split (joined lines) crlf = lines.
Proof.
  intros Hne Hok. unfold Split.
  assert (Hf : length lines ≤ S (length (joined lines))).
  { clear Hne. induction Hok as [|l ls [Hl _] _ IH]; [cbn; lia|].
    destruct ls as [|l' ls']; [cbn; lia|].
    change (joined (l :: l' :: ls')) with (l ++ crlf ++ joined (l' :: ls')).
    rewrite !length_app. change (length crlf) with 2. cbn [length] in *. lia. }
  revert Hf. generalize (length (joined lines)) as fuel. intros fuel. revert fuel Hne.
  induction Hok as [|l ls [_ Hl] _ IH]; intros fuel Hne Hf; [done|]. destruct ls as [|l' ls'].
  - cbn [joined]. destruct fuel; cbn [split]; [done|]. unfold crlf. by rewrite cut_none.
  - change (joined (l :: l' :: ls')) with (l ++ crlf ++ joined (l' :: ls')).
    destruct fuel as [|fuel]; [cbn in Hf; lia|]. cbn [split].
    change crlf with (Byte.x0d :: [Byte.x0a]). rewrite cut_app by done. f_equal.
    apply IH; [done|]. cbn [length] in *. lia.
Qed.

(** The first empty line of a text is where its lines end. *)
Lemma Index_joined (lines : list bytes) (rest : bytes) :
  lines ≠ [] → Forall line_ok lines →
  Index (joined lines ++ sep ++ rest) sep = Some (length (joined lines)).
Proof.
  intros Hne Hok. revert Hne. induction Hok as [|l ls [_ Hl] Hls IH]; intros Hne; [done|].
  destruct ls as [|l' ls'].
  - cbn [joined]. rewrite (Index_skip_all l _ sep Byte.x0d peek_sep_tail) by done. rewrite Index_here.
    cbn. f_equal. lia.
  - change (joined (l :: l' :: ls')) with (l ++ crlf ++ joined (l' :: ls')). rewrite <- !app_assoc.
    rewrite (Index_skip_all l _ sep Byte.x0d peek_sep_tail) by done.
    specialize (IH ltac:(done)). set (t := joined (l' :: ls') ++ sep ++ rest) in *.
    assert (Ht : ∃ b t', t = b :: t' ∧ b ≠ Byte.x0d).
    { apply Forall_inv in Hls as [Hne' Hl']. destruct l' as [|b l']; [done|].
      assert (b ≠ Byte.x0d) by set_solver. unfold t. cbn [joined].
      destruct ls'; cbn [app]; eauto. }
    destruct Ht as (b & t' & Ht & Hb).
    assert (Hi : Index (crlf ++ t) sep = (λ p, S (S p)) <$> Index t sep).
    { cbn [crlf app Index]. replace (match_at (Byte.x0d :: Byte.x0a :: t) sep 0) with false.
      - cbn [match_at]. destruct (Index t sep); done.
      - symmetry. apply not_true_iff_false. intros [k Hk]%match_at_prefix. rewrite Ht in Hk.
        cbn in Hk. by injection Hk as -> _. }
    rewrite Hi, IH. cbn. f_equal. rewrite length_app. cbn. lia.
Qed.

(** ** Escaping *)
Definition visible (b : byte) : bool := (33 <=? byte_val b)%Z && negb (byte_val b =? 127)%Z.

Lemma visible_not_in (s : bytes) (c : byte) : forallb visible s = true → visible c = false → (c ∉ s).
Proof.
  intros Hs Hc Hin. rewrite forallb_forall in Hs. specialize (Hs c ltac:(by apply list_elem_of_In)). congruence.
Qed.

Lemma visible_ctl (b : byte) : visible b = true → is_ctl b = false.
Proof. by destruct b. Qed.

Lemma forallb_flat_map (p : byte → bool) (f : byte → bytes) (s : bytes) :
  (∀ b, forallb p (f b) = true) → forallb p (flat_map f s) = true.
Proof. intros Hf. induction s as [|b s IH]; cbn; [done|]. by rewrite forallb_app, Hf, IH. Qed.

Lemma QueryUnescape_Escape (s : bytes) : QueryUnescape (QueryEscape s) = Some s.
Proof.
  unfold QueryUnescape, QueryEscape. induction s as [|b s IH]; [done|]. cbn [flat_map].
  set (t := flat_map _ s) in *. clearbody t.
  transitivity (r ← unescape true t; Some (b :: r)); [by destruct b|]. by rewrite IH.
Qed.

Lemma QueryEscape_visible (s : bytes) : forallb visible (QueryEscape s) = true.
Proof. apply forallb_flat_map. by intros []. Qed.

(** The characters that separate parameters do not occur in an escaped one. *)
Definition separator (b : byte) : bool := bool_decide (b ∈ lit "&=;?").
Lemma QueryEscape_plain (s : bytes) : forallb (λ b, negb (separator b)) (QueryEscape s) = true.
Proof. apply forallb_flat_map. by intros []. Qed.

Lemma QueryEscape_no (s : bytes) (c : byte) : separator c = true → (c ∉ QueryEscape s).
Proof.
  intros Hc Hin. pose proof (QueryEscape_plain s) as Hp. rewrite forallb_forall in Hp.
  specialize (Hp c ltac:(by apply list_elem_of_In)). by rewrite Hc in Hp.
Qed.

(** A parameter survives the query string. *)
Lemma QueryGet_Encode1 (name value : bytes) (u : URL) :
  name ≠ [] → RawQuery u = Encode1 name value → QueryGet name u = value.
Proof.
  intros Hname Hq. unfold QueryGet, ParseQuery. rewrite Hq. unfold Encode1, Split.
  set (q := QueryEscape name ++ lit "=" ++ QueryEscape value).
  assert (Hamp : Byte.x26 ∉ q).
  { unfold q. rewrite !not_elem_of_app. split; [by apply QueryEscape_no|]. split; [|by apply QueryEscape_no].
    by vm_compute; intros [?|[]%elem_of_nil]%elem_of_cons. }
  assert (Hs : split (length q) q (lit "&") = [q]).
  { destruct (length q); cbn [split]; [done|]. change (lit "&") with [Byte.x26]. by rewrite cut_none. }
  rewrite Hs. cbn [omap list_omap].
  assert (Hp : parse_pair q = Some (name, value)).
  { unfold parse_pair. rewrite bool_decide_eq_false_2.
    - rewrite decide_False.
      + unfold q. change (lit "=") with [Byte.x3d]. rewrite cut_app by (by apply QueryEscape_no).
        cbn [default from_option id]. by rewrite !QueryUnescape_Escape.
      + unfold q. by destruct (QueryEscape name).
    - unfold q. rewrite !elem_of_app. intros [Hin|[Hin|Hin]].
      + by eapply QueryEscape_no in Hin.
      + by vm_compute in Hin; apply elem_of_cons in Hin as [?|[]%elem_of_nil].
      + by eapply QueryEscape_no in Hin. }
  rewrite Hp. cbn [first_value]. by rewrite decide_True.
Qed.

Definition escape_path (p : bytes) : bytes := flat_map (λ b, if path_byte b then [b] else percent b) p.

Lemma unescape_path (p : bytes) : unescape false (escape_path p) = Some p.
Proof.
  unfold escape_path. induction p as [|b p IH]; [done|]. cbn [flat_map].
  set (t := flat_map _ p) in *. clearbody t.
  transitivity (r ← unescape false t; Some (b :: r)); [by destruct b|]. by rewrite IH.
Qed.

Lemma escape_path_visible (p : bytes) : forallb visible (escape_path p) = true.
Proof. apply forallb_flat_map. by intros []. Qed.

Lemma escape_path_no_query (p : bytes) : Byte.x3f ∉ escape_path p.
Proof.
  intros Hin. assert (Hp : forallb (λ b, negb (bool_decide (b = Byte.x3f))) (escape_path p) = true)
    by (apply forallb_flat_map; by intros []).
  rewrite forallb_forall in Hp. by specialize (Hp _ ltac:(by apply list_elem_of_In)).
Qed.

(** A URL with an absolute path and a visible query, as the client builds. *)
Definition url_ok (u : URL) : Prop :=
  (∃ p, Path u = Byte.x2f :: p) ∧ forallb visible (RawQuery u) = true.

Lemma RequestURI_eq (u : URL) :
  url_ok u → RequestURI u = escape_path (Path u) ++
    (if decide (RawQuery u = []) then [] else lit "?" ++ RawQuery u).
Proof.
  intros [[p Hp] _]. unfold RequestURI. rewrite Hp.
  assert (He : EscapedPath (Byte.x2f :: p) = escape_path (Byte.x2f :: p)) by done.
  rewrite He, (decide_False (P := escape_path _ = [])) by done.
  case_decide; [by rewrite app_nil_r|done].
Qed.

Lemma RequestURI_visible (u : URL) : url_ok u → forallb visible (RequestURI u) = true.
Proof.
  intros Hu. rewrite (RequestURI_eq u Hu). destruct Hu as [_ Hq].
  rewrite forallb_app, escape_path_visible. cbn [andb]. case_decide; [done|]. by rewrite forallb_app, Hq.
Qed.

Lemma ParseRequestURI_RequestURI (ParseAbsolute : bytes → outcome URL) (u : URL) :
  url_ok u → ParseRequestURI ParseAbsolute (RequestURI u) = Ok (mk_URL [] [] (Path u) (RawQuery u)).
Proof.
  intros Hu. pose proof (RequestURI_visible u Hu) as Hv. unfold ParseRequestURI.
  assert (Hctl : existsb is_ctl (RequestURI u) = false).
  { apply not_true_iff_false. intros (b & Hin & Hb)%existsb_exists. rewrite forallb_forall in Hv.
    specialize (Hv b Hin). apply visible_ctl in Hv. congruence. }
  rewrite Hctl, (RequestURI_eq u Hu). destruct Hu as [[p Hp] _]. rewrite Hp.
  set (tail := if decide _ then _ else _).
  assert (Hh : ∃ t, escape_path (Byte.x2f :: p) ++ tail = Byte.x2f :: t) by (by eexists).
  assert (Hc : default (escape_path (Byte.x2f :: p) ++ tail, []) (cut (escape_path (Byte.x2f :: p) ++ tail) (lit "?"))
    = (escape_path (Byte.x2f :: p), RawQuery u)).
  { unfold tail. change (lit "?") with [Byte.x3f]. case_decide as Hq.
    - rewrite app_nil_r, cut_none by apply escape_path_no_query. by rewrite Hq.
    - by rewrite cut_app by apply escape_path_no_query. }
  destruct Hh as [t Ht]. rewrite Ht in *. rewrite decide_True by done. rewrite Hc.
  by rewrite unescape_path.
Qed.

(** ** Printed headers *)
Definition name_ok (n : bytes) : bool :=
  bool_decide (n ≠ []) && forallb token_byte n && bool_decide (CanonicalKey n = n).
Definition entry_ok (nv : bytes * bytes) : bool :=
  name_ok nv.1 && negb (EqualFold nv.1 (lit "host")) && bool_decide (Byte.x0d ∉ nv.2).

Definition header_ok (h : Header) (entries : list (bytes * bytes)) : Prop :=
  entries ≡ₚ map_to_list (Values h) ∧ forallb entry_ok entries = true ∧
  forallb visible (Method h) = true ∧ (Byte.x0d ∉ Proto h) ∧
  URLHost (HURL h) ≠ [] ∧ (Byte.x0d ∉ URLHost (HURL h)) ∧ url_ok (HURL h).

Definition line_of (nv : bytes * bytes) : bytes := nv.1 ++ lit ": " ++ nv.2.
Definition request_line (h : Header) : bytes :=
  ToUpper (Method h) ++ sp ++ RequestURI (HURL h) ++ sp ++ Proto h.
Definition header_lines (h : Header) (entries : list (bytes * bytes)) : list bytes :=
  request_line h :: map line_of (entries ++ [(lit "Host", URLHost (HURL h))]).

Lemma header_line_eq (nv : bytes * bytes) : header_line nv = line_of nv ++ crlf.
Proof. unfold header_line, line_of. by rewrite <- !app_assoc. Qed.

Lemma ToUpper_visible (s : bytes) : forallb visible s = true → forallb visible (ToUpper s) = true.
Proof.
  unfold ToUpper. rewrite !forallb_forall. intros Hs b Hin. apply in_map_iff in Hin as (a & <- & Hin).
  specialize (Hs a Hin). by destruct a.
Qed.

Lemma token_byte_not (n : bytes) (c : byte) : forallb token_byte n = true → token_byte c = false → (c ∉ n).
Proof.
  rewrite forallb_forall. intros Hn Hc Hin. specialize (Hn c ltac:(by apply list_elem_of_In)). congruence.
Qed.

Lemma name_ok_inv (n : bytes) : name_ok n = true → n ≠ [] ∧ forallb token_byte n = true ∧ CanonicalKey n = n.
Proof. unfold name_ok. rewrite !andb_true_iff, !bool_decide_eq_true. tauto. Qed.

Lemma TrimRight_name (n : bytes) : forallb token_byte n = true → TrimRight_colon (n ++ lit ":") = n.
Proof.
  unfold TrimRight_colon, drop_while_end. rewrite foldr_app.
  intros Hn. change (foldr _ [] (lit ":")) with (@nil byte).
  induction n as [|b n IH]; [done|]. cbn [forallb] in Hn. apply andb_true_iff in Hn as [Hb Hn].
  cbn [foldr]. rewrite IH by done. case_decide as Hd; [|done]. subst n.
  by destruct b.
Qed.

Lemma parse_line_of (hv : bytes * header_map) (n v : bytes) :
  name_ok n = true →
  parse_line hv (line_of (n, v)) = (if EqualFold n (lit "host") then v else hv.1, <[n := v]> hv.2).
Proof.
  intros (Hne & Ht & Hc)%name_ok_inv. unfold parse_line, line_of, SplitN. cbn [fst snd Nat.sub split].
  change (n ++ lit ": " ++ v) with (n ++ [Byte.x3a] ++ [Byte.x20] ++ v). rewrite app_assoc.
  change sp with [Byte.x20]. rewrite cut_app.
  - change [Byte.x3a] with (lit ":"). rewrite TrimRight_name by done. unfold HSet. by rewrite Hc.
  - rewrite not_elem_of_app. split; [by eapply token_byte_not|]. by intros [?|[]%elem_of_nil]%elem_of_cons.
Qed.

Lemma parse_entries (entries : list (bytes * bytes)) (hv : bytes * header_map) :
  forallb entry_ok entries = true →
  foldl parse_line hv (map line_of entries)
  = (hv.1, foldl (λ m nv, <[nv.1 := nv.2]> m) hv.2 entries).
Proof.
  revert hv. induction entries as [|[n v] es IH]; intros hv Hok; [by destruct hv|].
  cbn [forallb] in Hok. apply andb_true_iff in Hok as [Hnv Hok]. unfold entry_ok in Hnv. cbn [fst snd] in Hnv.
  rewrite !andb_true_iff, negb_true_iff in Hnv. destruct Hnv as [[Hn Hh] _].
  cbn [map foldl]. rewrite parse_line_of by done. rewrite Hh, IH by done. done.
Qed.

Lemma foldl_insert_map (m : header_map) (entries : list (bytes * bytes)) :
  entries ≡ₚ map_to_list m → foldl (λ m nv, <[nv.1 := nv.2]> m) ∅ entries = m.
Proof.
  intros Hp. assert (E : foldl (λ (m : header_map) nv, <[nv.1 := nv.2]> m) ∅ entries = list_to_map (reverse entries)).
  { clear Hp. induction entries as [|[k v] l IH] using rev_ind; [done|].
    rewrite foldl_app, reverse_snoc, IH. done. }
  rewrite E. rewrite <- (list_to_map_to_list m) at 1. apply list_to_map_proper.
  - rewrite reverse_Permutation, Hp. apply NoDup_fst_map_to_list.
  - by rewrite reverse_Permutation.
Qed.

Lemma entries_no_host (entries : list (bytes * bytes)) :
  forallb entry_ok entries = true → existsb (λ nv, EqualFold nv.1 (lit "host")) entries = false.
Proof.
  intros Hok. apply not_true_iff_false. intros (nv & Hin & He)%existsb_exists.
  rewrite forallb_forall in Hok. specialize (Hok nv Hin). unfold entry_ok in Hok.
  rewrite He in Hok. by rewrite andb_false_r in Hok.
Qed.

Lemma header_lines_ok (h : Header) (entries : list (bytes * bytes)) :
  header_ok h entries → Forall line_ok (header_lines h entries).
Proof.
  intros (_ & He & Hm & Hp & _ & Hh & Hu). apply Forall_cons. split.
  - unfold line_ok, request_line. split; [by destruct (ToUpper (Method h))|].
    rewrite !not_elem_of_app. assert (Hsp : Byte.x0d ∉ sp) by (by intros [?|[]%elem_of_nil]%elem_of_cons).
    split; [by apply visible_not_in, eq_refl; apply ToUpper_visible|]. split; [done|].
    split; [by apply visible_not_in, eq_refl; apply RequestURI_visible|]. done.
  - rewrite Forall_forall. intros l Hl. apply list_elem_of_fmap in Hl as ([n v] & -> & Hin).
    unfold line_of, line_ok. cbn [fst snd]. split; [by destruct n|]. rewrite !not_elem_of_app.
    assert (Hsp : Byte.x0d ∉ lit ": ") by (by intros [?|[?|[]%elem_of_nil]%elem_of_cons]%elem_of_cons).
    apply elem_of_app in Hin as [Hin|Hin%list_elem_of_singleton].
    + rewrite forallb_forall in He. specialize (He (n, v) ltac:(by apply list_elem_of_In)).
      unfold entry_ok in He. cbn [fst snd] in He. rewrite !andb_true_iff, bool_decide_eq_true in He.
      destruct He as [[(_ & Ht & _)%name_ok_inv _] Hv]. split; [|done]. by eapply token_byte_not.
    + injection Hin as -> ->. split; [|done]. refine (bool_decide_unpack _ _). by vm_compute.
Qed.

Lemma WriteTo_lines (h : Header) (entries : list (bytes * bytes)) :
  header_ok h entries → WriteTo h entries = joined (header_lines h entries) ++ sep.
Proof.
  intros (_ & He & _ & _ & Hne & _). unfold WriteTo. rewrite entries_no_host by done.
  rewrite bool_decide_eq_true_2 by (destruct (URLHost (HURL h)); [done|cbn; lia]). cbn [negb andb].
  change sep with (crlf ++ crlf). rewrite (app_assoc (joined _)), <- (text_joined (header_lines h entries)) by done.
  unfold header_lines. cbn [map concat]. unfold request_line. rewrite map_map, map_app, concat_app.
  assert (Hm : ∀ es, map (λ nv, line_of nv ++ crlf) es = map header_line es).
  { intros es. apply map_ext. intros nv. by rewrite header_line_eq. }
  rewrite !Hm. cbn [map concat]. rewrite !app_nil_r. by rewrite <- !app_assoc.
Qed.

Definition received_header (h : Header) : Header :=
  mk_Header (ToUpper (Method h)) (ToUpper (Proto h)) (URLHost (HURL h))
    (mk_URL [] (URLHost (HURL h)) (Path (HURL h)) (RawQuery (HURL h)))
    (<[lit "Host" := URLHost (HURL h)]> (Values h)).

(** A printed header is parsed back, whatever the order its map was iterated in. *)
Lemma parseHeader_lines (ParseAbsolute : bytes → outcome URL) (h : Header) (entries : list (bytes * bytes)) :
  header_ok h entries →
  parseHeader ParseAbsolute (joined (header_lines h entries)) = Ok (received_header h).
Proof.
  intros Hok. pose proof (header_lines_ok h entries Hok) as Hl.
  destruct Hok as (Hperm & He & Hm & Hp & Hne & Hh & Hu).
  unfold parseHeader. rewrite Split_joined by done. unfold header_lines.
  assert (Hs : SplitN (request_line h) sp 3 = [ToUpper (Method h); RequestURI (HURL h); Proto h]).
  { unfold request_line, SplitN. cbn [Nat.sub split]. change sp with [Byte.x20].
    rewrite cut_app by (by apply visible_not_in, eq_refl; apply ToUpper_visible).
    by rewrite cut_app by (by apply visible_not_in, eq_refl; apply RequestURI_visible). }
  rewrite Hs, ParseRequestURI_RequestURI by done. rewrite map_app, foldl_app, (parse_entries entries) by done.
  cbn [fst snd map foldl]. rewrite parse_line_of by done.
  replace (EqualFold (lit "Host") (lit "host")) with true by (vm_compute; reflexivity).
  cbn [fst snd URLHost]. rewrite (foldl_insert_map (Values h)) by done.
  rewrite decide_True by (destruct (URLHost (HURL h)); [done|cbn; lia]).
  unfold received_header, set_host. cbn [Scheme Path RawQuery]. do 2 f_equal.
  unfold ToUpper. rewrite map_map. apply map_ext. by intros [].
Qed.

(** ** Received responses *)

(** The response a list of complete lines makes. *)
Fixpoint respond (lineIndex : nat) (lines : list bytes) (rs : Response) : outcome Response :=
  match lines with
  | [] => Ok rs
  | l :: ls => rs ← response_line lineIndex l rs; respond (S lineIndex) ls rs
  end.

Definition text (lines : list bytes) : bytes := concat (map (λ l, l ++ crlf) lines) ++ crlf.

(** What the inner loop leaves of a partly received text. *)
Definition response_post (st : Response + (bytes * nat * Response)) (left rest : bytes)
    (bound : nat) (final : Response) : Prop :=
  match st with
  | inl rs => rs = final ∧ length left ≤ length rest
  | inr (b, idx, rs) => ∃ ls, Forall line_ok ls ∧ b ++ left = text ls ++ rest ∧ cut b crlf = None ∧
      length b ≤ length (text ls) ∧ length (text ls) ≤ bound ∧ respond idx ls rs = Ok final
  end.

Lemma cut_split (b left l t : bytes) :
  (Byte.x0d ∉ l) → b ++ left = l ++ crlf ++ t →
  (∃ b', b = l ++ crlf ++ b' ∧ b' ++ left = t ∧ cut b crlf = Some (l, b')) ∨
  (length b < length l + 2 ∧ cut b crlf = None).
Proof.
  intros Hl Heq. assert (Hi : Index (b ++ left) crlf = Some (length l)).
  { rewrite Heq, (Index_skip_all l _ crlf Byte.x0d [Byte.x0a]) by done. rewrite Index_here. cbn. f_equal. lia. }
  pose proof (Index_prefix b left crlf _ ltac:(done) Hi) as Hp. change (length crlf) with 2 in Hp.
  case_decide as Hd.
  - left. exists (drop (length l + 2) b).
    assert (Hb : b = l ++ crlf ++ drop (length l + 2) b).
    { rewrite <- (take_drop (length l + 2) b) at 1. rewrite app_assoc. f_equal.
      assert (Ht : take (length l + 2) (b ++ left) = take (length l + 2) (l ++ crlf ++ t)) by (by rewrite Heq).
      rewrite take_app_le in Ht by lia. rewrite Ht, app_assoc.
      by rewrite take_app_length' by (rewrite length_app; done). }
    split; [done|]. split.
    + rewrite Hb, <- !app_assoc in Heq. by apply app_inv_head, app_inv_head in Heq.
    + rewrite Hb at 1. by apply (cut_app Byte.x0d [Byte.x0a]).
  - right. split; [lia|]. unfold cut. by rewrite Hp.
Qed.

Lemma response_lines_spec (ls : list bytes) (fuel : nat) (b left rest : bytes) (idx : nat) (rs final : Response) :
  Forall line_ok ls → b ++ left = text ls ++ rest → length b ≤ fuel → respond idx ls rs = Ok final →
  ∃ st, response_lines fuel b idx rs = Ok st ∧ response_post st left rest (length (text ls)) final.
Proof.
  intros Hok. revert fuel b idx rs. induction Hok as [|l ls [Hne Hl] Hls IH]; intros fuel b idx rs Heq Hf Hr.
  - cbn in Hr. injection Hr as <-.
    destruct (cut_split b left [] rest) as [(b' & -> & Hrest & Hc)|[Hlt Hc]]; [apply not_elem_of_nil|done|..].
    + exists (inl rs). split; [|split; [done|rewrite <- Hrest, length_app; lia]].
      destruct fuel as [|fuel]; [cbn in Hf; lia|]. cbn [response_lines]. by rewrite Hc.
    + exists (inr (b, idx, rs)). split; [by destruct fuel; cbn [response_lines]; rewrite Hc|].
      exists []. change (length (text [])) with 2. cbn [length] in Hlt. repeat split; [constructor|done|done|lia|lia].
  - assert (Ht : text (l :: ls) = l ++ crlf ++ text ls) by (unfold text; cbn; by rewrite <- !app_assoc).
    cbn [respond] in Hr. rewrite Ht, <- !app_assoc in Heq.
    destruct (cut_split b left l (text ls ++ rest) Hl Heq) as [(b' & -> & Heq' & Hc)|[Hlt Hc]].
    + rewrite !length_app in Hf. change (length crlf) with 2 in Hf.
      destruct fuel as [|fuel]; [lia|]. cbn [response_lines]. rewrite Hc.
      rewrite decide_True by (destruct l; [done|cbn; lia]).
      destruct (response_line idx l rs) as [rs'|e| |]; cbn [mbind outcome_bind] in *; try done.
      destruct (IH fuel b' (S idx) rs' Heq' ltac:(lia) Hr) as (st & Hst & Hpost). exists st. split; [done|].
      destruct st as [?|[[b2 idx2] rs2]]; [done|]. destruct Hpost as (ls2 & ? & ? & ? & ? & ? & ?).
      exists ls2. rewrite Ht, !length_app. repeat split; try done. lia.
    + exists (inr (b, idx, rs)). split; [by destruct fuel; cbn [response_lines]; rewrite Hc|].
      exists (l :: ls). rewrite Ht, !length_app, <- !app_assoc. change (length crlf) with 2.
      repeat split; [by constructor|done|done|lia|lia|done].
Qed.

Section receiving.
Context {T : Type} `{ReaderLaws T}.

Lemma response_loop_spec (P : T → bytes → Prop) (fuel : nat) (s : T) (ls : list bytes) (b left rest : bytes) (idx : nat)
    (rs final : Response) :
  feeding false P → budget s < fuel → P s left → Forall line_ok ls → b ++ left = text ls ++ rest → cut b crlf = None →
  length b ≤ length (text ls) → (len (text ls) <= 15360)%Z → respond idx ls rs = Ok final →
  ∃ s' left', response_loop fuel b idx rs s = (Ok final, s') ∧ P s' left' ∧ length left' ≤ length rest.
Proof.
  intros HP. revert s ls b left idx rs. induction fuel as [|fuel IH]; intros s ls b left idx rs Hb Hd Hok Heq Hc Hlb Hsz Hr; [lia|].
  assert (Hne : left ≠ []).
  { intros ->. rewrite app_nil_r in Heq. subst b. revert Hc.
    assert (Hcut : ∃ l t, (Byte.x0d ∉ l) ∧ text ls ++ rest = l ++ crlf ++ t).
    { destruct Hok as [|l ls' [_ Hl] _]; [exists [], rest; split; [apply not_elem_of_nil|done]|].
      exists l, (text ls' ++ rest). split; [done|]. unfold text. cbn. by rewrite <- !app_assoc. }
    destruct Hcut as (l & t & Hl & ->). by rewrite (cut_app Byte.x0d [Byte.x0a]). }
  cbn [response_loop]. destruct (HP s left (Z.to_nat 1024) Hd Hne ltac:(lia)) as (d & s1 & left' & E & _ & Hdl & -> & Hd' & Hb').
  run E. unfold max_header, len in *.
  destruct (Z.ltb_spec (1024 * 16) (Z.of_nat (length b) + Z.of_nat (length d))); [lia|].
  rewrite app_assoc in Heq.
  destruct (response_lines_spec ls (length (b ++ d)) (b ++ d) left' rest idx rs final Hok Heq ltac:(lia) Hr)
    as (st & Hst & Hpost).
  rewrite (bind_ok _ _ _ s1 st) by (unfold lift; by rewrite Hst).
  destruct st as [rs'|[[b2 idx2] rs2]]; cbn in Hpost; [destruct Hpost as [-> Hl]; by exists s1, left'|].
  destruct Hpost as (ls2 & ? & ? & ? & ? & ? & ?). by apply (IH s1 ls2 b2 left' idx2 rs2); try done; lia.
Qed.

(** A response of complete lines is received whatever the chunking. *)
Lemma ReadResponse_spec (P : T → bytes → Prop) (s : T) (ls : list bytes) (rest : bytes) (final : Response) :
  feeding false P → P s (text ls ++ rest) → Forall line_ok ls → (len (text ls) <= 15360)%Z →
  respond 0 ls (mk_Response 0 ∅) = Ok final →
  ∃ s' left', ReadResponse s = (Ok final, s') ∧ P s' left' ∧ length left' ≤ length rest.
Proof.
  intros HP Hd Hok Hsz Hr. unfold ReadResponse.
  by apply (response_loop_spec P _ s ls [] (text ls ++ rest) rest); [done|lia|..|cbn; lia|done|].
Qed.

(** If what follows is only sent later, none of it is lost. *)
Lemma ReadResponse_in_turn (s : T) (ls : list bytes) (next : bytes) (final : Response) :
  in_turn s (text ls) next → Forall line_ok ls → (len (text ls) <= 15360)%Z →
  respond 0 ls (mk_Response 0 ∅) = Ok final →
  ∃ s', ReadResponse s = (Ok final, s') ∧ delivers s' next.
Proof.
  intros Hd Hok Hsz Hr. rewrite <- (app_nil_r (text ls)) in Hd.
  destruct (ReadResponse_spec _ s ls [] final (feeding_weaken _ (feeding_in_turn next)) Hd Hok Hsz Hr)
    as (s' & [|? ?] & Hrr & Hin & Hl); [|cbn in Hl; lia].
  exists s'. split; [done|]. by apply in_turn_end.
Qed.
End receiving.

Lemma parseHeaderLine_of (n v : bytes) :
  forallb token_byte n = true → parseHeaderLine (line_of (n, v)) = Ok (n, TrimSpace (lit " " ++ v)).
Proof.
  intros Hn. unfold parseHeaderLine, line_of. cbn [fst snd].
  change (n ++ lit ": " ++ v) with (n ++ [Byte.x3a] ++ (lit " " ++ v)). change (lit ":") with [Byte.x3a].
  rewrite cut_app by (by eapply token_byte_not). do 2 f_equal. unfold TrimSpace.
  assert (Hid : ∀ m, forallb token_byte m = true → drop_while_end is_ascii_space m = m).
  { induction m as [|b m IH]; [done|]. cbn [forallb]. intros [Hb Hm]%andb_true_iff. cbn. 
    fold (drop_while_end is_ascii_space m). rewrite IH by done. case_decide as Hd; [|done]. subst m. by destruct b. }
  destruct n as [|b n]; [done|]. cbn [forallb] in Hn. pose proof Hn as [Hb _]%andb_true_iff.
  assert (Hs : is_ascii_space b = false) by (by destruct b). cbn [drop_while]. rewrite Hs. by apply Hid.
Qed.

(** ** Any input *)
Lemma parseHeader_returns (ParseAbsolute : bytes → outcome URL) (dat : bytes) :
  (∀ s, returns (ParseAbsolute s)) → returns (parseHeader ParseAbsolute dat).
Proof.
  intros Ha. unfold parseHeader. destruct (Split dat crlf); [done|].
  destruct (SplitN _ sp 3) as [|m [|u [|p []]]]; try done.
  assert (Hu : returns (ParseRequestURI ParseAbsolute u)).
  { unfold ParseRequestURI. destruct (existsb is_ctl u); [done|]. destruct u; [done|].
    case_decide; [|apply Ha]. destruct (default _ _) as [r q]. by destruct (unescape false r). }
  destruct (ParseRequestURI _ u); try done. by destruct (foldl _ _ _).
Qed.

Lemma response_line_returns (idx : nat) (line : bytes) (rs : Response) : returns (response_line idx line rs).
Proof.
  unfold response_line. case_decide; (apply returns_bind; [|done]).
  - unfold parseResponseLine. destruct (SplitN _ sp 3) as [|? [|c [|? []]]]; try done.
    apply returns_bind; [|done]. apply ParseInt_returns.
  - unfold parseHeaderLine. by destruct (cut line (lit ":")) as [[]|].
Qed.

Lemma cut_length (s sp a b : bytes) : sp ≠ [] → cut s sp = Some (a, b) → length b < length s.
Proof.
  intros Hne. unfold cut. destruct (Index s sp) as [p|] eqn:E; [|done]. intros [= _ <-].
  apply Index_Some in E as (Hm & _). apply match_at_bound in Hm; [|done]. rewrite length_drop.
  destruct sp; [done|]. cbn [length] in *. lia.
Qed.

Lemma response_lines_returns (fuel : nat) (buf : bytes) (idx : nat) (rs : Response) :
  length buf ≤ fuel → returns (response_lines fuel buf idx rs).
Proof.
  revert buf idx rs. induction fuel as [|fuel IH]; intros buf idx rs Hl; cbn [response_lines];
    destruct (cut buf crlf) as [[line b]|] eqn:E; try done; apply cut_length in E; try done; [lia|].
  case_decide; [|done]. apply returns_bind; [apply response_line_returns|]. intros rs'. apply IH. lia.
Qed.

Lemma response_loop_returns {T} `{ReaderLaws T} (fuel : nat) (s : T) (bs buf : bytes) (idx : nat) (rs : Response) :
  delivers s bs → budget s < fuel → returns (response_loop fuel buf idx rs s).1.
Proof.
  revert s bs buf idx rs. induction fuel as [|fuel IH]; intros s bs buf idx rs Hd Hb; [lia|].
  cbn [response_loop]. pose proof (read_law s bs (Z.to_nat 1024) Hd ltac:(lia)) as Hread.
  destruct (read (Z.to_nat 1024) s) as [[d|e| |] s1] eqn:E; unfold read_post in Hread; try done.
  - destruct Hread as (bs' & -> & _ & Hd' & _ & Hb'). run E. destruct (_ <? _)%Z; [done|].
    pose proof (response_lines_returns (length (buf ++ d)) (buf ++ d) idx rs ltac:(lia)) as Hr.
    unfold lift, mbind, M_bind. destruct (response_lines _ _ _ _) as [[rs'|[[b2 idx2] rs2]]|e| |]; try done.
    apply (IH s1 bs'); [done|lia].
  - by run E.
Qed.

(** ** The header reader as a reader *)
Definition hr_holds {T} `{ReaderLaws T} (h : HeaderReader T) (bs : bytes) : Prop :=
  ∃ taken z left, hr_buff h = taken ++ z ∧ hr_end h = length taken ∧ delivers (hr_r h) left ∧ bs = taken ++ left.

#[global] Instance header_Reader {T} `{Reader T} : Reader (HeaderReader T) :=
  { read := HReader_Read; budget := λ h, hr_end h + budget (hr_r h) }.

#[global] Program Instance header_laws {T} `{ReaderLaws T} : ReaderLaws (HeaderReader T) :=
  { delivers := hr_holds }.
Next Obligation.
  intros T ?? [r buff end_] bs n (taken & z & left & Hb & He & Hd & ->) Hn. cbn [hr_r hr_buff hr_end] in *.
  subst buff end_. cbn [read header_Reader]. unfold HReader_Read. cbn [hr_r hr_buff hr_end].
  case_decide as Hz.
  - destruct taken; [|cbn in Hz; lia]. pose proof (read_law r left n Hd Hn) as Hr. unfold read_post in *.
    cbn [budget header_Reader hr_end hr_r app length].
    destruct (read n r) as [[d|e| |] r']; try done.
    + destruct Hr as (bs' & -> & ? & ? & ? & ?). exists bs'. cbn [budget header_Reader hr_end hr_r].
      repeat split; [done| |lia|lia]. by exists [], z, bs'.
    + destruct Hr as (-> & -> & ? & ?). cbn [budget header_Reader hr_end hr_r].
      repeat split; [|lia]. by exists [], z, [].
  - set (size := if decide _ then _ else _). assert (Hs : 0 < size ∧ size ≤ n ∧ size ≤ length taken)
      by (unfold size; case_decide; lia).
    unfold read_post. exists (drop size taken ++ left). rewrite take_app_le, app_assoc, take_drop by lia.
    cbn [budget header_Reader hr_end hr_r]. rewrite length_take.
    split; [done|]. split; [lia|]. split; [|lia].
    exists (drop size taken), (drop (length taken - size) (taken ++ z)), left. cbn [hr_buff hr_end hr_r].
    unfold slice. rewrite drop_app_le, take_app_le, take_ge by (rewrite ?length_drop; lia).
    rewrite copy_at_fit by (rewrite length_app, length_drop; lia).
    rewrite take_0, length_drop. done.
Qed.

Lemma peeked_holds {T} `{ReaderLaws T} (h : HeaderReader T) (taken left : bytes) :
  peeked h taken → delivers (hr_r h) left → delivers h (taken ++ left).
Proof. intros [[k Hb] He _ _] Hd. by exists taken, (make_bytes k), left. Qed.

Lemma PeekHeader_fed {T} `{ReaderLaws T} (P : T → bytes → Prop) (ParseAbsolute : bytes → outcome URL) (h : Header)
    (entries : list (bytes * bytes)) (s : T) (rest : bytes) :
  feeding true P → header_ok h entries → (len (WriteTo h entries) <= 14336)%Z → P s (WriteTo h entries ++ rest) →
  ∃ hr taken left, PeekHeader ParseAbsolute (NewHeaderReader s) = (Ok (received_header h), hr) ∧
    peeked hr taken ∧ P (hr_r hr) left ∧ taken ++ left = WriteTo h entries ++ rest ∧ length left ≤ length rest.
Proof.
  intros HP Hok Hsz Hd. rewrite (WriteTo_lines h entries Hok) in *.
  unfold len in Hsz. rewrite length_app in Hsz. change (length sep) with 4 in Hsz. rewrite <- app_assoc in *.
  destruct (peek_loop_header P (S (budget s)) (NewHeaderReader s) [] (joined (header_lines h entries) ++ sep ++ rest)
              (length (joined (header_lines h entries))) HP (new_peeked s) Hd)
    as (h' & taken & left & Hr & Hp & Hs & Hd' & Hl);
    [cbn; lia|apply Index_joined; [done|by apply header_lines_ok]|lia|].
  exists h', taken, left. split; [|do 3 (split; [done|])].
  - unfold PeekHeader. change (budget (hr_r (NewHeaderReader s))) with (budget s).
    rewrite (bind_ok _ _ _ h' (joined (header_lines h entries))).
    + unfold try, lift. by rewrite parseHeader_lines.
    + cbn [hr_r NewHeaderReader]. rewrite Hr. cbn [app]. by rewrite take_app_length.
  - apply (f_equal length) in Hs. cbn [app] in Hs. rewrite !length_app in Hs. change (length sep) with 4 in Hs. lia.
Qed.

Lemma PeekHeader_WriteTo {T} `{PromptReader T} (ParseAbsolute : bytes → outcome URL) (h : Header)
    (entries : list (bytes * bytes)) (s : T) (rest : bytes) :
  header_ok h entries → (len (WriteTo h entries) <= 14336)%Z → delivers s (WriteTo h entries ++ rest) →
  ∃ hr, PeekHeader ParseAbsolute (NewHeaderReader s) = (Ok (received_header h), hr) ∧
        delivers hr (WriteTo h entries ++ rest).
Proof.
  intros Hok Hsz Hd.
  destruct (PeekHeader_fed delivers ParseAbsolute h entries s rest feeding_prompt Hok Hsz Hd) as (hr & taken & left & Hr & Hp & Hl & <- & _).
  exists hr. split; [done|]. by apply peeked_holds.
Qed.

(** If what follows is only sent later, the connection still delivers it. *)
Lemma PeekHeader_in_turn {T} `{ReaderLaws T} (ParseAbsolute : bytes → outcome URL) (h : Header)
    (entries : list (bytes * bytes)) (s : T) (next : bytes) :
  header_ok h entries → (len (WriteTo h entries) <= 14336)%Z → in_turn s (WriteTo h entries) next →
  ∃ hr, PeekHeader ParseAbsolute (NewHeaderReader s) = (Ok (received_header h), hr) ∧ delivers (hr_r hr) next.
Proof.
  intros Hok Hsz Hd. rewrite <- (app_nil_r (WriteTo h entries)) in Hd.
  destruct (PeekHeader_fed _ ParseAbsolute h entries s [] (feeding_in_turn next) Hok Hsz Hd)
    as (hr & taken & [|? ?] & Hr & _ & Hin & _ & Hl); [|cbn in Hl; lia].
  exists hr. split; [done|]. by apply in_turn_end.
Qed.

(** What reading leaves alone, peeking and receiving leave alone. *)
Section keeps.
Context {T A : Type} `{Reader T} (f : T → A) (Hf : ∀ n s, f (read n s).2 = f s).

Lemma peek_loop_keeps (fuel : nat) (h : HeaderReader T) : f (hr_r (peek_loop fuel h).2) = f (hr_r h).
Proof.
  revert h. induction fuel as [|fuel IH]; intros h; cbn [peek_loop]; destruct (Index _ sep); try done.
  assert (Hm : f (hr_r (readMore h).2) = f (hr_r h)).
  { unfold readMore. destruct (extend _ _ _) as [buff|e| |]; try done.
    specialize (Hf (length buff - hr_end h) (hr_r h)). by destruct (read _ (hr_r h)) as [[]]. }
  unfold mbind, M_bind. destruct (readMore h) as [[n|e| |] h']; cbn [snd] in *; try done.
  case_decide; [done|]. by rewrite IH.
Qed.

Lemma PeekHeader_keeps (ParseAbsolute : bytes → outcome URL) (h : HeaderReader T) :
  f (hr_r (PeekHeader ParseAbsolute h).2) = f (hr_r h).
Proof.
  unfold PeekHeader, mbind, M_bind. pose proof (peek_loop_keeps (S (budget (hr_r h))) h) as Hk.
  destruct (peek_loop _ h) as [[b|e| |] h']; cbn [snd] in *; try done.
  unfold try, lift. by destruct (parseHeader ParseAbsolute b).
Qed.

Lemma ReadResponse_keeps (s : T) : f (ReadResponse s).2 = f s.
Proof.
  unfold ReadResponse. generalize (S (budget s)) as fuel, (@nil byte) as buf, 0 as idx, (mk_Response 0 ∅) as rs.
  intros fuel. revert s. induction fuel as [|fuel IH]; intros s buf idx rs; cbn [response_loop]; [done|].
  unfold mbind, M_bind. specialize (Hf (Z.to_nat 1024) s).
  destruct (read (Z.to_nat 1024) s) as [[d|e| |] s1]; cbn [snd] in *; try done.
  destruct (_ <? _)%Z; [done|]. unfold lift.
  destruct (response_lines _ _ _ _) as [[rs'|[[b2 i2] r2]]|e| |]; try done. by rewrite IH.
Qed.
End keeps.

(** ** Properties *)

(** C19: a request header survives the connection: what [WriteTo] prints, in
    whatever order the header map is iterated and however the connection cuts
    it up, [PeekHeader] reads back (method and protocol in upper case, the URL
    with its host, and every header value plus the [Host] line); and peeking
    consumes nothing: the header reader still delivers the whole stream. *)
Theorem http_request_roundtrip {T} `{PromptReader T} (ParseAbsolute : bytes → outcome URL) (h : Header)
    (entries : list (bytes * bytes)) (s : T) (rest : bytes) :
  header_ok h entries → (len (WriteTo h entries) <= 14336)%Z → delivers s (WriteTo h entries ++ rest) →
  ∃ hr, PeekHeader ParseAbsolute (NewHeaderReader s) = (Ok (received_header h), hr) ∧
        delivers hr (WriteTo h entries ++ rest).
Proof. apply PeekHeader_WriteTo. Qed.

(** C20: hostile input is contained: on any finite stream [PeekHeader] returns
    a header or an error, with a buffer of at most 16 KiB, and [ReadResponse]
    returns; neither panics nor loops. *)
Theorem http_read_bounded {T} `{ReaderLaws T} (ParseAbsolute : bytes → outcome URL) (s : T) (bs : bytes) :
  (∀ u, returns (ParseAbsolute u)) → delivers s bs →
  returns (PeekHeader ParseAbsolute (NewHeaderReader s)).1 ∧
  (len (hr_buff (PeekHeader ParseAbsolute (NewHeaderReader s)).2) <= MaxBufferSize)%Z ∧
  returns (ReadResponse s).1.
Proof.
  intros Ha Hd.
  destruct (peek_loop_returns (S (budget s)) (NewHeaderReader s) [] bs (new_peeked s) Hd)
    as (Hr & taken & left & [_ _ Hsz _] & _); [cbn; lia|].
  assert (Hresp : returns (ReadResponse s).1) by (by apply (response_loop_returns _ s bs); [|lia]).
  unfold PeekHeader, mbind, M_bind. change (budget (hr_r (NewHeaderReader s))) with (budget s).
  destruct (peek_loop _ _) as [[b|e| |] h']; cbn [fst snd] in *; try done.
  unfold try, lift. pose proof (parseHeader_returns ParseAbsolute b Ha) as Hb.
  by destruct (parseHeader ParseAbsolute b).
Qed.

Definition no_absolute (s : bytes) : outcome URL := Err uri_error.

Definition sample_header : Header :=
  mk_Header (lit "post") (lit "HTTP/1.1") [] (mk_URL (lit "http") (lit "example.com") (lit "/api/cv2") (lit "c=k7"))
    {[ lit "Content-Type" := lit "image/png" ]}.

Lemma http_request_roundtrip_witness :
  ∃ hr, PeekHeader no_absolute (NewHeaderReader (Buf.mk_reader
           (WriteTo sample_header [(lit "Content-Type", lit "image/png")] ++ lit "more")))
        = (Ok (received_header sample_header), hr) ∧
        delivers hr (WriteTo sample_header [(lit "Content-Type", lit "image/png")] ++ lit "more").
Proof.
  apply (http_request_roundtrip no_absolute sample_header [(lit "Content-Type", lit "image/png")]).
  - split; [|split; [vm_compute; reflexivity|]].
    { unfold sample_header. cbn [Values]. by rewrite map_to_list_singleton. }
    split; [vm_compute; reflexivity|]. split; [refine (bool_decide_unpack _ _); vm_compute; exact I|].
    split; [done|]. split; [refine (bool_decide_unpack _ _); vm_compute; exact I|].
    split; [by eexists|vm_compute; reflexivity].
  - vm_compute. discriminate.
  - reflexivity.
Defined.

Lemma http_read_bounded_witness :
  returns (PeekHeader no_absolute (NewHeaderReader (Conn.mk_conn [lit "GET /"; lit " x"]))).1 ∧
  (len (hr_buff (PeekHeader no_absolute (NewHeaderReader (Conn.mk_conn [lit "GET /"; lit " x"]))).2) <= MaxBufferSize)%Z ∧
  returns (ReadResponse (Conn.mk_conn [lit "GET /"; lit " x"])).1.
Proof. apply (http_read_bounded no_absolute _ (lit "GET / x")); [done|reflexivity]. Defined.

(** Seen again: what lies beyond [r.end] is searched too, so a header that has
    been read completely is found once more, with nothing read. *)
Lemma http_peek_stale :
  let '(o1, h1) := PeekHeader no_absolute (NewHeaderReader (Buf.mk_reader (lit "GET / X" ++ sep))) in
  let '(o2, h2) := HReader_Read 64 h1 in
  let '(o3, h3) := PeekHeader no_absolute h2 in
  o2 = Ok (lit "GET / X" ++ sep) ∧ hr_end h2 = 0 ∧ o3 = o1 ∧ returns o3 ∧ hr_r h3 = Buf.mk_reader [].
Proof. vm_compute. done. Qed.
End Http.
