(* ===== verification/H1.v ===== *)
(** Package [transport/h1] (src/transport/h1/client.go, server.go): the
    authenticated key exchange over an HTTP-like request and response, by
    which a client's and a server's connection become framed channels. *)
From S2P Require Import Prelude GoIO Strconv Base64 Conf Aes Sha1 FramerF1 FramerWs Http.

Module H1.
Import Http.

(** The framer put on a connection of type [C]. *)
Inductive framed (C : Type) := TxF1 (f : F1.F1 C) | TxWs (f : Ws.Ws C).
Arguments TxF1 {C} f.
Arguments TxWs {C} f.

(** ** The client (client.go) *)

Record Client := mk_Client {
  cfg : Conf.Values;
  id : bytes;
  serverUrl : bytes;
  closed : bool;
  connected : bool;
}.

Definition Connected (c : Client) : bool := connected c && negb (closed c).
Definition set_connected (c : Client) : Client := mk_Client (cfg c) (id c) (serverUrl c) (closed c) true.

Definition NewClient (cfg : Conf.Values) (clientId : bytes) : outcome Client :=
  if decide (length clientId ≤ 0) then Err (Errorf (lit "empty client_id.") []) else
  let serverUrl := Conf.Get Conf.SERVER_URL cfg in
  if decide (length serverUrl ≤ 0) then Err (Errorf (lit "invalid server_url.") []) else
  Ok (mk_Client cfg clientId serverUrl false false).

(** [uri.Hostname()] and [uri.Port()]. *)
Definition all_digits (s : bytes) : bool := forallb (λ b, bool_decide (is_Some (digit_val b))) s.
Fixpoint last_colon (s : bytes) : option (bytes * bytes) :=
  match s with
  | [] => None
  | b :: t => match last_colon t with
              | Some (h, p) => Some (b :: h, p)
              | None => if decide (b = Byte.x3a) then Some ([], t) else None
              end
  end.
Definition splitHostPort (hostPort : bytes) : bytes * bytes :=
  let '(host, port) := match last_colon hostPort with
                       | Some (h, p) => if all_digits p then (h, p) else (hostPort, [])
                       | None => (hostPort, [])
                       end in
  match host with
  | b :: t => if decide (b = Byte.x5b ∧ last t = Some Byte.x5d)
              then (take (length t - 1) t, port) else (host, port)
  | [] => (host, port)
  end.

(** What the server's URL asks for: TLS, WebSocket framing, the address. *)
Record target := mk_target { useTLS : bool; useWS : bool; addr : bytes }.

Definition target_of (uri : URL) : target :=
  let scheme := ToLower (Scheme uri) in
  let '(host, port) := splitHostPort (URLHost uri) in
  let useTLS := bool_decide (scheme = lit "https" ∨ scheme = lit "wss") in
  let useWS := bool_decide (scheme = lit "ws" ∨ scheme = lit "wss") in
  let port := if decide (length port ≤ 0) then
                if decide (scheme = lit "http" ∨ scheme = lit "ws") then lit "80"
                else if decide (scheme = lit "https" ∨ scheme = lit "wss") then lit "443" else port
              else port in
  mk_target useTLS useWS (host ++ lit ":" ++ port).

(** The request of [Connect]: the URL is the server's with the client's path
    and query. *)
Definition request_url (uri : URL) (id : bytes) : URL :=
  mk_URL (Scheme uri) (URLHost uri) (lit "/api/cv2") (Encode1 (lit "c") id).

Definition request_values (wsKey : option bytes) (authStr : bytes) : header_map :=
  let h := match wsKey with
           | Some wsKey => HSet (lit "Sec-WebSocket-Key") wsKey
                             (HSet (lit "Upgrade") (lit "websocket") (HSet (lit "Connection") (lit "upgrade") ∅))
           | None => HSet (lit "Content-Type") (lit "image/png") ∅
           end in
  HSet (lit "Authentication") authStr h.

Definition request (uri : URL) (id : bytes) (wsKey : option bytes) (authStr : bytes) : Header :=
  mk_Header (match wsKey with Some _ => lit "GET" | None => lit "POST" end) (lit "HTTP/1.1") []
    (request_url uri id) (request_values wsKey authStr).

Section client.
(** [url.Parse]; the clock ([time.Now().Unix()]); the order in which a map is
    iterated; what dialling an address comes to. *)
Context (url_Parse : bytes → outcome URL) (now : Z)
  (iterate : header_map → list (bytes * bytes)) (dial : bool → bytes → outcome unit).
Context {C : Type} `{Reader C} `{Writer C}.
Abbreviation state := (C * rng)%type.

(** [fmt.Errorf("...: %v", err)] for an error of [m]. *)
Definition wrapped {S A} (format : bytes) (m : M S A) : M S A := try m (λ err, throw (Wrapf format err)).

(** The time stamp and 16 random bytes. *)
Definition auth_bytes : M state bytes :=
  authBytes ← on_snd (rand_read (8 + Crypt.KeySize));
  mret (copy_at 0 (put_be 8 now) authBytes).

Definition auth_string (pskb authBytes : bytes) : M state bytes :=
  try (dat ← on_snd (Crypt.Encrypt pskb authBytes); mret (EncodeToString dat)) (λ _, mret []).

Definition ws_key (useWS : bool) : M state (option bytes) :=
  if useWS then wsKeyb ← on_snd (rand_read 4); mret (Some (EncodeToString wsKeyb)) else mret None.

(** The key the response's token carries, combined with the client's random
    bytes. *)
Definition new_key (pskb authBytes keyNewStr : bytes) : M state bytes :=
  if decide (length keyNewStr ≤ 0) then throw (Errorf (lit "Empty key received.") []) else
  let keyNewEnc := match DecodeString keyNewStr with Ok dat => dat | _ => [] end in
  if decide (0 < length keyNewEnc) then
    keyNewRaw ← wrapped (lit "Decrypt: %v") (lift (Crypt.Decrypt pskb keyNewEnc));
    mret (Crypt.Xor keyNewRaw (drop 8 authBytes))
  else throw (Errorf (lit "Empty key.") []).

Definition framer_config (cfg : Conf.Values) (role keyNew : bytes) (ts : Z) : Conf.Values :=
  Conf.Set_ Conf.FRAMER_ROLE role
    (Conf.Set_ Conf.FRAMER_TIMESTAMP (format_int ts)
       (Conf.Set_ Conf.FRAMER_PSK (EncodeToString keyNew) (Conf.Clone cfg))).

Definition put_framer (useWS : bool) (framerCfg : Conf.Values) : M state (framed C) :=
  conn ← gets fst;
  if useWS then tx ← lift (Ws.Framer conn framerCfg); mret (TxWs tx)
  else tx ← lift (F1.Framer conn framerCfg); mret (TxF1 tx).

(** [Connect]; on success the state's connection is the one dialled. *)
Definition Connect (c : Client) : M state (Client * framed C) :=
  if closed c then throw (Errorf (lit "Client already closed.") []) else
  pskb ← wrapped (lit "unable to base64 decode psk: %v") (lift (DecodeString (Conf.Get Conf.FRAMER_PSK (cfg c))));
  uri ← wrapped (lit "url.Parse(%s): %v") (lift (url_Parse (serverUrl c)));
  let t := target_of uri in
  _ ← wrapped (lit "<cid:%s> net.Dial(%s): %v") (lift (dial (useTLS t) (addr t)));
  authBytes ← auth_bytes;
  authStr ← auth_string pskb authBytes;
  wsKey ← ws_key (useWS t);
  let h := request uri (id c) wsKey authStr in
  _ ← wrapped (lit "<cid:%s> h.WriteTo: %v") (on_fst (write (WriteTo h (iterate (Values h)))));
  rs ← wrapped (lit "<cid:%s> ReadResponse: %v") (on_fst ReadResponse);
  keyNew ← new_key pskb authBytes (HGet (lit "X-Token") (RHeader rs));
  tx ← put_framer (useWS t) (framer_config (cfg c) (lit "client") keyNew now);
  mret (set_connected c, tx).
End client.

(** ** The server (server.go) *)

Definition wsGUID : bytes := lit "258EAFA5-E914-47DA-95CA-C5AB0DC85B11".

(** [Handler]: whether there is one. *)
Record ServerOptions := mk_ServerOptions { Port : Z; ProtocolParams : Conf.Values; Handler : bool }.

Definition abort_reply (proto body : bytes) : bytes :=
  proto ++ lit " 403 DENIED" ++ crlf ++ lit "Connection: close" ++ crlf ++
  lit "Content-Type: text/plain" ++ crlf ++ lit "Content-Length: " ++ format_int (len body) ++ crlf ++
  crlf ++ body.

Definition response_lines_of (h : Header) (keyNewEncStr : bytes) : list bytes :=
  if EqualFold (HGet (lit "Upgrade") (Values h)) (lit "websocket") then
    let wsKey := HGet (lit "Sec-WebSocket-Key") (Values h) in
    let wsAccept := if decide (0 < length wsKey) then EncodeToString (sha1_Sum (wsKey ++ wsGUID)) else [] in
    let wsProto := HGet (lit "Sec-WebSocket-Protocol") (Values h) in
    [Proto h ++ lit " 101 Switching Protocols"; lit "Connection: Upgrade"; lit "Upgrade: websocket";
     lit "Sec-WebSocket-Accept: " ++ wsAccept] ++
    (if decide (0 < length wsProto) then [lit "Sec-WebSocket-Protocol: " ++ wsProto] else []) ++
    [lit "Sec-WebSocket-Version: 7"; lit "X-Token: " ++ keyNewEncStr]
  else
    [Proto h ++ lit " 200 OK"; lit "Connection: close"; lit "Content-Type: image/png,stream=1";
     lit "Content-Transfer-Encoding: custom"; lit "X-Token: " ++ keyNewEncStr].

(** The response, each line ended by CR LF, and the empty line. *)
Definition response_bytes (h : Header) (keyNewEncStr : bytes) : bytes :=
  text (response_lines_of h keyNewEncStr).

Section server.
Context (ParseAbsolute : bytes → outcome URL) (now : Z).
Context {C : Type} `{Reader C} `{Writer C}.
Abbreviation state := (C * rng)%type.

Definition abort (h : Header) (reason : bytes) : M state unit :=
  try (_ ← on_fst (write (abort_reply (Proto h) reason)); mret tt) (λ _, mret tt).

Definition denied {A} (h : Header) : M state (option A) := _ ← abort h (lit "denied"); mret None.

(** The request header; the header reader is dropped, its connection kept. *)
Definition peek_header : M state Header := λ s,
  let '(o, hr) := PeekHeader ParseAbsolute (NewHeaderReader s.1) in (o, (hr_r hr, s.2)).

(** The authentication of a request: its time stamp and bytes; [None] when it
    is denied.  [Decrypt] may panic. *)
Definition authenticate (pskb : bytes) (h : Header) : outcome (option (Z * bytes)) :=
  let authStr := HGet (lit "Authentication") (Values h) in
  if decide (128 < length authStr ∨ length authStr ≤ 0) then Ok None else
  match DecodeString authStr with
  | Ok authBytesEnc =>
      match Crypt.Decrypt pskb authBytesEnc with
      | Ok authb =>
          if decide (length authb < 8 + Crypt.KeySize) then Ok None else
          let ts := int64 (get_be (take 8 authb)) in
          if (120 <? int64 (ts - now))%Z || (int64 (ts - now) <? -120)%Z then Ok None
          else Ok (Some (ts, authb))
      | Err _ => Ok None
      | Panic => Panic
      | Hang => Hang
      end
  | _ => Ok None
  end.

(** [handleServerConn] up to the call of the handler, which gets the client's
    id and the framed connection; [None] when the connection is closed. *)
Definition handleServerConn (options : ServerOptions) : M state (option (bytes * framed C)) :=
  ho ← try (h ← peek_header; mret (Some h)) (λ _, mret None);
  match ho with
  | None => mret None
  | Some h =>
      let clientId := QueryGet (lit "c") (HURL h) in
      if decide (length clientId ≤ 0) then denied h else
      match DecodeString (Conf.Get Conf.FRAMER_PSK (ProtocolParams options)) with
      | Ok pskb =>
          auth ← lift (authenticate pskb h);
          match auth with
          | None => denied h
          | Some (ts, authBytes) =>
              keyNewRaw ← on_snd Crypt.NewKey;
              enc ← try (e ← on_snd (Crypt.Encrypt pskb keyNewRaw); mret (Some e)) (λ _, mret None);
              match enc with
              | None => denied h
              | Some keyNewEnc =>
                  sent ← try (_ ← on_fst (write (response_bytes h (EncodeToString keyNewEnc))); mret true)
                             (λ _, mret false);
                  if negb sent then mret None else
                  let keyNew := Crypt.Xor keyNewRaw (drop 8 authBytes) in
                  if Handler options then
                    let isWs := EqualFold (HGet (lit "Upgrade") (Values h)) (lit "websocket") in
                    tx ← put_framer isWs (framer_config (ProtocolParams options) (lit "server") keyNew ts);
                    mret (Some (clientId, tx))
                  else mret None
              end
          end
      | _ => denied h
      end
  end.
End server.

(** ** The request on the wire *)

(** The entries of the request's header map, in some order. *)
Definition request_entries (wsKey : option bytes) (authStr : bytes) : list (bytes * bytes) :=
  match wsKey with
  | Some k => [(lit "Sec-Websocket-Key", k); (lit "Connection", lit "upgrade");
               (lit "Authentication", authStr); (lit "Upgrade", lit "websocket")]
  | None => [(lit "Authentication", authStr); (lit "Content-Type", lit "image/png")]
  end.

Lemma request_entries_eq (wsKey : option bytes) (authStr : bytes) :
  map_to_list (request_values wsKey authStr) = request_entries wsKey authStr.
Proof. destruct wsKey; vm_compute; reflexivity. Qed.

(** Text without CR or LF. *)
Definition plain_text (s : bytes) : Prop := Forall (λ c, is_newline c = false) s.

Lemma plain_no_cr (s : bytes) : plain_text s → (Byte.x0d ∉ s).
Proof. intros Hs Hin. unfold plain_text in Hs. rewrite Forall_forall in Hs. by specialize (Hs _ Hin). Qed.

Lemma forallb_perm {A} (p : A → bool) (l k : list A) : l ≡ₚ k → forallb p l = forallb p k.
Proof.
  induction 1 as [|x l k _ IH|x y l|l k m _ IH1 _ IH2]; cbn; [done|by rewrite IH| |by rewrite IH1].
  by destruct (p x), (p y).
Qed.

Lemma length_concat_perm {A B} (f : A → list B) (l k : list A) :
  l ≡ₚ k → length (concat (map f l)) = length (concat (map f k)).
Proof.
  induction 1 as [|x l k _ IH|x y l|l k m _ IH1 _ IH2]; cbn; [done| | |by rewrite IH1];
    rewrite ?length_app; lia.
Qed.

Lemma QueryEscape_length (s : bytes) : length (QueryEscape s) ≤ 3 * length s.
Proof.
  unfold QueryEscape. induction s as [|b s IH]; [done|]. cbn [flat_map length]. rewrite length_app.
  destruct (unreserved b); [cbn; lia|]. case_decide; cbn; lia.
Qed.

Section request.
Context (uri : URL) (id authStr : bytes) (wsKey : option bytes) (entries : list (bytes * bytes)).
Context (Hhost : URLHost uri ≠ []) (Hcr : Byte.x0d ∉ URLHost uri) (Hauth : plain_text authStr)
  (Hkey : match wsKey with Some k => plain_text k | None => True end)
  (Hperm : entries ≡ₚ map_to_list (request_values wsKey authStr)).

Lemma request_url_ok : url_ok (request_url uri id).
Proof.
  split; [by eexists|]. unfold request_url, Encode1. cbn [RawQuery].
  by rewrite !forallb_app, !QueryEscape_visible.
Qed.

Lemma request_ok : header_ok (request uri id wsKey authStr) entries.
Proof.
  assert (Hcrs : bool_decide (Byte.x0d ∉ authStr) = true) by (by apply bool_decide_eq_true, plain_no_cr).
  split; [done|]. split; [|split; [by destruct wsKey|]].
  - rewrite (forallb_perm _ _ _ Hperm), request_entries_eq. unfold request_entries.
    destruct wsKey as [k|]; cbn [forallb]; unfold entry_ok at 1 2; cbn [fst snd]; rewrite ?Hcrs.
    + assert (Hk : bool_decide (Byte.x0d ∉ k) = true) by (by apply bool_decide_eq_true, plain_no_cr).
      rewrite Hk. unfold entry_ok. cbn [fst snd]. rewrite Hcrs. vm_compute. reflexivity.
    + vm_compute. reflexivity.
  - split; [refine (bool_decide_unpack _ _); vm_compute; exact I|]. split; [done|]. split; [done|].
    apply request_url_ok.
Qed.

Lemma request_length :
  length (WriteTo (request uri id wsKey authStr) entries)
  ≤ 200 + 3 * length id + length (URLHost uri) + length authStr + match wsKey with Some k => length k | None => 0 end.
Proof.
  unfold WriteTo. rewrite !length_app.
  rewrite (length_concat_perm _ _ _ Hperm), request_entries_eq.
  assert (Hu : length (RequestURI (HURL (request uri id wsKey authStr))) ≤ 11 + 3 * length id).
  { rewrite RequestURI_eq by apply request_url_ok. cbn [HURL request]. unfold request_url, Encode1.
    cbn [Path RawQuery]. rewrite length_app. change (length (escape_path (lit "/api/cv2"))) with 8.
    pose proof (QueryEscape_length id). case_decide; [cbn; lia|].
    rewrite !length_app. change (length (QueryEscape (lit "c"))) with 1. cbn [length]. 
    change (length (lit "?")) with 1. change (length (lit "=")) with 1. lia. }
  assert (Hm : length (ToUpper (Method (request uri id wsKey authStr))) ≤ 4) by (destruct wsKey; vm_compute; lia).
  change (length (Proto (request uri id wsKey authStr))) with 8. change (length sp) with 1. change (length crlf) with 2.
  assert (He : length (concat (map header_line (request_entries wsKey authStr)))
               ≤ 100 + length authStr + match wsKey with Some k => length k | None => 0 end).
  { unfold request_entries, header_line. destruct wsKey; cbn [map concat fst snd];
      rewrite !length_app; cbn; lia. }
  assert (Hh : length (if negb (existsb (λ nv, EqualFold nv.1 (lit "host")) entries) &&
      bool_decide (0 < length (URLHost (HURL (request uri id wsKey authStr))))
      then header_line (lit "Host", URLHost (HURL (request uri id wsKey authStr))) else [])
      ≤ 8 + length (URLHost uri)).
  { destruct (_ && _); [|cbn; lia]. unfold header_line. cbn [fst snd HURL request request_url URLHost].
    rewrite !length_app. cbn. lia. }
  lia.
Qed.
End request.

(** ** The keys *)

(** The random part of the client's authentication and the key derived from
    it and the server's. *)
Definition shared_key (keyNewRaw authBytes : bytes) : bytes := Crypt.Xor keyNewRaw (drop 8 authBytes).

Lemma shared_key_length (a b : bytes) : length a = 16 → length b = 24 → length (shared_key a b) = 16.
Proof.
  intros Ha Hb. unfold shared_key. rewrite Crypt.Xor_spec, length_drop, Ha, Hb. cbn [Nat.sub].
  rewrite decide_False by lia. rewrite length_app, length_zip_with, length_take, !length_drop. lia.
Qed.

Lemma framer_config_get (c : Conf.Values) (role keyNew : bytes) (ts : Z) :
  Conf.Get Conf.FRAMER_PSK (framer_config c role keyNew ts) = EncodeToString keyNew ∧
  Conf.Get Conf.FRAMER_TIMESTAMP (framer_config c role keyNew ts) = format_int ts ∧
  Conf.Get Conf.FRAMER_ROLE (framer_config c role keyNew ts) = role.
Proof.
  unfold framer_config. split; [|split].
  - rewrite !Conf.Get_Set_ne by (vm_compute; congruence). apply Conf.Get_Set.
  - rewrite Conf.Get_Set_ne by (vm_compute; congruence). apply Conf.Get_Set.
  - apply Conf.Get_Set.
Qed.

(** The framer of one side: no data yet, and the session's key. *)
Definition session_psk (keyNew : bytes) (ts : Z) : bytes :=
  zip_with byte_xor (take 8 keyNew) (put_be 8 ts) ++ drop 8 keyNew.

Definition side {C : Type} (useWS client : bool) (key : bytes) (conn : C) : framed C :=
  let buf := make_bytes (Z.to_nat Conf.DEFAULT_BUFFER_SIZE) in
  if useWS then TxWs (Ws.mk_Ws conn key client buf 0) else TxF1 (F1.mk_F1 conn key buf 0).

Lemma derive_session_key (keyNew : bytes) (ts : Z) :
  length keyNew = 16 → (- 2 ^ 63 ≤ ts < 2 ^ 63)%Z →
  F1.derive_key (EncodeToString keyNew) (format_int ts) = Ok (session_psk keyNew ts).
Proof.
  intros Hk Ht. unfold F1.derive_key. rewrite ParseInt_format, DecodeString_EncodeToString by done.
  unfold Crypt.KeySize, BlockSize. rewrite !decide_False by lia. by rewrite length_put_be.
Qed.

Lemma put_framer_run {C : Type} (useWS client : bool) (c : Conf.Values) (role keyNew : bytes) (ts : Z) (conn : C) (g : rng) :
  length keyNew = 16 → (- 2 ^ 63 ≤ ts < 2 ^ 63)%Z → EqualFold role (lit "client") = client →
  put_framer useWS (framer_config c role keyNew ts) (conn, g)
  = (Ok (side useWS client (session_psk keyNew ts) conn), (conn, g)).
Proof.
  intros Hk Ht Hr. destruct (framer_config_get c role keyNew ts) as (G1 & G2 & G3).
  unfold put_framer, mbind, M_bind, gets, lift. cbn [fst].
  destruct useWS; unfold Ws.Framer, F1.Framer; rewrite G1, G2, ?G3, derive_session_key by done;
    cbn [mbind outcome_bind]; by rewrite ?Hr.
Qed.

(** ** The client's steps *)
Section steps.
Context {C : Type}.

Lemma auth_bytes_run (now : Z) (g : rng) :
  ∃ ab g', (∀ conn : C, auth_bytes now (conn, g) = (Ok ab, (conn, g'))) ∧
           length ab = 24 ∧ take 8 ab = put_be 8 now.
Proof.
  destruct (rand_read_ok (8 + Crypt.KeySize) g) as (d & g' & Hr & Hl).
  change (8 + Crypt.KeySize) with 24 in Hl.
  exists (copy_at 0 (put_be 8 now) d), g'. split; [|split].
  - intros conn. unfold auth_bytes. by run (run_snd _ conn _ _ _ Hr).
  - by rewrite length_copy_at by lia.
  - rewrite copy_at_fit by (rewrite length_put_be; lia). rewrite take_0. cbn [app].
    by rewrite take_app_length' by (by rewrite length_put_be).
Qed.

Lemma auth_string_run (pskb ab : bytes) (g : rng) :
  key_size_ok pskb = true → length ab = 24 →
  ∃ ct g', (∀ conn : C, auth_string pskb ab (conn, g) = (Ok (EncodeToString ct), (conn, g'))) ∧
           length ct = 40 ∧ Crypt.Decrypt pskb ct = Ok ab.
Proof.
  intros Hk Hl. destruct (Crypt.Encrypt_ok pskb ab g Hk) as (ct & g' & He & Hc & Hd).
  exists ct, g'. split; [|split; [rewrite Hc, Hl; done|done]].
  intros conn. unfold auth_string, try. by run (run_snd _ conn _ _ _ He).
Qed.

(** The key of the WebSocket upgrade: absent, or four bytes in base64. *)
Definition key_of (useWS : bool) (wsKey : option bytes) : Prop :=
  if useWS then ∃ d, wsKey = Some (EncodeToString d) ∧ length d = 4 else wsKey = None.

Lemma ws_key_run (useWS : bool) (g : rng) :
  ∃ wsKey g', (∀ conn : C, ws_key useWS (conn, g) = (Ok wsKey, (conn, g'))) ∧ key_of useWS wsKey.
Proof.
  unfold ws_key, key_of. destruct useWS; [|by eexists _, g].
  destruct (rand_read_ok 4 g) as (d & g' & Hr & Hl). exists (Some (EncodeToString d)), g'.
  split; [|eauto]. intros conn. by run (run_snd _ conn _ _ _ Hr).
Qed.

Lemma new_key_run (pskb ab enc raw : bytes) (conn : C) (g : rng) :
  Crypt.Decrypt pskb enc = Ok raw → enc ≠ [] →
  new_key pskb ab (EncodeToString enc) (conn, g) = (Ok (shared_key raw ab), (conn, g)).
Proof.
  intros Hd Hne. unfold new_key. rewrite DecodeString_EncodeToString.
  assert (Hl : 0 < length enc) by (destruct enc; [done|cbn; lia]).
  rewrite decide_False.
  2: { rewrite EncodeToString_length. pose proof (Nat.div_le_lower_bound (length enc + 2) 3 1). lia. }
  rewrite decide_True by done. unfold wrapped, try, mbind, M_bind, lift. by rewrite Hd.
Qed.
End steps.

(** ** The response on the wire *)
Lemma b64_visible (s : bytes) : forallb visible (EncodeToString s) = true.
Proof. by apply EncodeToString_forallb. Qed.

Lemma visible_space (b : byte) : visible b = true → is_ascii_space b = false.
Proof. by destruct b. Qed.

Lemma TrimSpace_visible (s : bytes) : forallb visible s = true → TrimSpace (lit " " ++ s) = s.
Proof.
  intros Hs. unfold TrimSpace. change (drop_while is_ascii_space (lit " " ++ s)) with (drop_while is_ascii_space s).
  assert (Hd : drop_while is_ascii_space s = s).
  { destruct s as [|b s]; [done|]. cbn [forallb] in Hs. apply andb_true_iff in Hs as [Hb _].
    cbn [drop_while]. by rewrite visible_space. }
  rewrite Hd. clear Hd. unfold drop_while_end. induction s as [|b s IH]; [done|].
  cbn [forallb] in Hs. apply andb_true_iff in Hs as [Hb Hs]. cbn [foldr]. rewrite IH by done.
  case_decide as Hn; [|done]. subst s. by rewrite visible_space.
Qed.

Definition status_line (useWS : bool) : bytes :=
  if useWS then lit "HTTP/1.1 101 Switching Protocols" else lit "HTTP/1.1 200 OK".
Definition response_fields (useWS : bool) (wsAccept : bytes) : list (bytes * bytes) :=
  if useWS then [(lit "Connection", lit "Upgrade"); (lit "Upgrade", lit "websocket");
                 (lit "Sec-WebSocket-Accept", wsAccept); (lit "Sec-WebSocket-Version", lit "7")]
  else [(lit "Connection", lit "close"); (lit "Content-Type", lit "image/png,stream=1");
        (lit "Content-Transfer-Encoding", lit "custom")].
Definition reply_lines (useWS : bool) (wsAccept token : bytes) : list bytes :=
  status_line useWS :: map line_of (response_fields useWS wsAccept ++ [(lit "X-Token", token)]).

Lemma respond_fields (kvs : list (bytes * bytes)) (idx : nat) (rs : Response) :
  forallb (λ kv, forallb token_byte kv.1) kvs = true →
  respond (S idx) (map line_of kvs) rs
  = Ok (mk_Response (StatusCode rs)
          (foldl (λ h kv, HSet kv.1 (TrimSpace (lit " " ++ kv.2)) h) (RHeader rs) kvs)).
Proof.
  revert idx rs. induction kvs as [|[k v] kvs IH]; intros idx rs Hok; [by destruct rs|].
  cbn [forallb fst] in Hok. apply andb_true_iff in Hok as [Hk Hok].
  cbn [map respond]. unfold response_line. rewrite decide_False by done.
  rewrite parseHeaderLine_of by done. cbn [mbind outcome_bind fst snd]. by rewrite IH.
Qed.

Lemma reply_received (useWS : bool) (wsAccept token : bytes) :
  forallb visible token = true →
  ∃ rs, respond 0 (reply_lines useWS wsAccept token) (mk_Response 0 ∅) = Ok rs ∧
        HGet (lit "X-Token") (RHeader rs) = token.
Proof.
  intros Ht. unfold reply_lines. cbn [respond].
  assert (Hs : ∃ code, response_line 0 (status_line useWS) (mk_Response 0 ∅) = Ok (mk_Response code ∅))
    by (destruct useWS; eexists; vm_compute; reflexivity).
  destruct Hs as [code ->]. cbn [mbind outcome_bind]. rewrite respond_fields by (by destruct useWS).
  eexists. split; [reflexivity|]. cbn [RHeader]. rewrite foldl_app. cbn [foldl fst snd].
  unfold HGet, HSet. rewrite lookup_insert_eq. cbn [default from_option id]. by apply TrimSpace_visible.
Qed.

Lemma line_of_ok (n v : bytes) : n ≠ [] → (Byte.x0d ∉ n) → (Byte.x0d ∉ v) → line_ok (line_of (n, v)).
Proof.
  intros Hne Hn Hv. unfold line_ok, line_of. cbn [fst snd]. split; [by destruct n|].
  rewrite !not_elem_of_app. split; [done|]. split; [|done].
  by intros [?|[?|[]%elem_of_nil]%elem_of_cons]%elem_of_cons.
Qed.

Lemma reply_lines_ok (useWS : bool) (wsAccept token : bytes) :
  (Byte.x0d ∉ wsAccept) → (Byte.x0d ∉ token) → Forall line_ok (reply_lines useWS wsAccept token).
Proof.
  intros Ha Ht. assert (Hc : ∀ s : bytes, bool_decide (Byte.x0d ∉ s) = true → (Byte.x0d ∉ s))
    by (intros s; apply bool_decide_eq_true).
  unfold reply_lines. apply Forall_cons. split; [split; [by destruct useWS|by apply Hc; destruct useWS]|].
  destruct useWS; cbn [response_fields map app];
    repeat (apply Forall_cons; split; [apply line_of_ok; [done|by apply Hc|first [done|by apply Hc]]|]); constructor.
Qed.

Lemma reply_length (useWS : bool) (wsAccept token : bytes) :
  length (text (reply_lines useWS wsAccept token)) ≤ 200 + length wsAccept + length token.
Proof.
  unfold text, reply_lines, line_of. destruct useWS; cbn [response_fields map app concat fst snd status_line];
    rewrite !length_app; cbn; lia.
Qed.

(** ** The two sides *)
Lemma wrapped_ok {S A} (format : bytes) (m : M S A) (s s' : S) (a : A) :
  m s = (Ok a, s') → wrapped format m s = (Ok a, s').
Proof. intros Hm. unfold wrapped, try. by rewrite Hm. Qed.

Lemma key_of_plain (useWS : bool) (wsKey : option bytes) :
  key_of useWS wsKey →
  match wsKey with Some k => plain_text k ∧ length k = 8 | None => True end.
Proof.
  unfold key_of. destruct useWS; [|by intros ->]. intros (d & -> & Hd).
  split; [apply EncodeToString_plain|]. by rewrite EncodeToString_length, Hd.
Qed.

(** The fixed sizes of the exchange, as the server's limits see them. *)
Section limits.
Context (uri : URL) (id : bytes) (useWS : bool) (wsKey : option bytes) (ct : bytes) (entries : list (bytes * bytes)).
Context (Hhost : URLHost uri ≠ []) (Hcr : Byte.x0d ∉ URLHost uri) (Hhl : length (URLHost uri) ≤ 1000)
  (Hid : length id ≤ 1000) (Hkey : key_of useWS wsKey) (Hct : length ct = 40)
  (Hperm : entries ≡ₚ map_to_list (request_values wsKey (EncodeToString ct))).

Lemma handshake_request_ok : header_ok (request uri id wsKey (EncodeToString ct)) entries.
Proof.
  apply request_ok; [done|done|apply EncodeToString_plain| |done].
  pose proof (key_of_plain _ _ Hkey). destruct wsKey; tauto.
Qed.

Lemma handshake_request_length :
  (len (WriteTo (request uri id wsKey (EncodeToString ct)) entries) <= 14336)%Z.
Proof.
  assert (Hk : match wsKey with Some k => plain_text k | None => True end)
    by (pose proof (key_of_plain _ _ Hkey); destruct wsKey; tauto).
  pose proof (request_length uri id (EncodeToString ct) wsKey entries Hk Hperm) as Hl.
  assert (He : length (EncodeToString ct) = 56) by (by rewrite EncodeToString_length, Hct).
  pose proof (key_of_plain _ _ Hkey) as Hp. unfold len. rewrite He in Hl. destruct wsKey as [k|]; [|lia].
  destruct Hp as [_ Hkl]. rewrite Hkl in Hl. lia.
Qed.
End limits.

Section client_run.
Context {R W : Type} `{ReaderLaws R} `{WriterLaws W}.
Context (url_Parse : bytes → outcome URL) (now : Z) (iterate : header_map → list (bytes * bytes))
  (dial : bool → bytes → outcome unit).
Context (Hnow : (0 ≤ now < 2 ^ 62)%Z) (Hiter : ∀ m, iterate m ≡ₚ map_to_list m).

Lemma Connect_run (c : Client) (pskb : bytes) (uri : URL) (g : rng) :
  closed c = false → DecodeString (Conf.Get Conf.FRAMER_PSK (cfg c)) = Ok pskb → key_size_ok pskb = true →
  url_Parse (serverUrl c) = Ok uri → dial (useTLS (target_of uri)) (addr (target_of uri)) = Ok tt →
  URLHost uri ≠ [] → (Byte.x0d ∉ URLHost uri) → length (URLHost uri) ≤ 1000 → length (id c) ≤ 1000 →
  let ws := useWS (target_of uri) in
  ∃ ab ct wsKey g', length ab = 24 ∧ take 8 ab = put_be 8 now ∧ length ct = 40 ∧
    Crypt.Decrypt pskb ct = Ok ab ∧ key_of ws wsKey ∧
    ∀ (P : R → bytes → Prop) (r : R) (w : W) (wsAccept enc raw down : bytes),
      feeding false P → P r (text (reply_lines ws wsAccept (EncodeToString enc)) ++ down) →
      (Byte.x0d ∉ wsAccept) → length wsAccept ≤ 100 → Crypt.Decrypt pskb enc = Ok raw → length raw = 16 →
      write_pre w (Z.to_nat 14336) →
      ∃ r' w' left, Connect url_Parse now iterate dial c (Duplex.mk_duplex r w, g)
        = (Ok (set_connected c, side ws true (session_psk (shared_key raw ab) now) (Duplex.mk_duplex r' w')),
           (Duplex.mk_duplex r' w', g')) ∧
        P r' left ∧ length left ≤ length down ∧
        emitted w w' (let h := request uri (id c) wsKey (EncodeToString ct) in WriteTo h (iterate (Values h))).
Proof.
  intros Hcl Hpsk Hks Huri Hdial Hhost Hcr Hhl Hid ws.
  destruct (auth_bytes_run (C := Duplex.duplex R W) now g) as (ab & g1 & Ra & Hab & Hts).
  destruct (auth_string_run (C := Duplex.duplex R W) pskb ab g1 Hks Hab) as (ct & g2 & Rs & Hct & Hdec).
  destruct (ws_key_run (C := Duplex.duplex R W) ws g2) as (wsKey & g3 & Rk & Hkey).
  exists ab, ct, wsKey, g3. do 5 (split; [done|]).
  intros P r w wsAccept enc raw down HP Hd Hacc Hal Henc Hraw Hw. cbv zeta.
  set (h := request uri (id c) wsKey (EncodeToString ct)).
  assert (Hl : length (WriteTo h (iterate (Values h))) ≤ Z.to_nat 14336).
  { assert (Hlen : (len (WriteTo h (iterate (Values h))) <= 14336)%Z)
      by (apply (handshake_request_length uri (id c) ws wsKey ct); done).
    unfold len in Hlen. lia. }
  destruct (write_law w (WriteTo h (iterate (Values h)))) as (n & w1 & Hwr & Hem); [by eapply write_pre_mono|].
  assert (Hlenc : length enc = 32) by (apply Crypt.Decrypt_length in Henc; rewrite Hraw in Henc; done).
  destruct (reply_received ws wsAccept (EncodeToString enc) (b64_visible enc)) as (rs & Hrs & Htok).
  assert (Htl : length (EncodeToString enc) = 44) by (by rewrite EncodeToString_length, Hlenc).
  destruct (ReadResponse_spec (λ c bs, P (Duplex.rx c) bs) (Duplex.mk_duplex r w1) _ down rs (feeding_duplex _ _ HP) Hd)
    as ([r2 w2] & left & Rr & Hleft & Hll); [|..|done|].
  { apply reply_lines_ok; [done|]. by apply plain_no_cr, EncodeToString_plain. }
  { pose proof (reply_length ws wsAccept (EncodeToString enc)). unfold len. lia. }
  assert (Hw2 : w2 = w1).
  { pose proof (ReadResponse_keeps Duplex.wx ltac:(by intros ? [? ?]; cbn; unfold Duplex.on_rx; cbn;
      destruct (read _ _) as [[]]) (Duplex.mk_duplex r w1)) as Hk. rewrite Rr in Hk. done. }
  subst w2. exists r2, w1, left. split; [|done].
  unfold Connect. rewrite Hcl.
  rewrite (bind_ok _ _ _ (Duplex.mk_duplex r w, g) pskb) by (apply wrapped_ok; unfold lift; by rewrite Hpsk).
  rewrite (bind_ok _ _ _ (Duplex.mk_duplex r w, g) uri) by (apply wrapped_ok; unfold lift; by rewrite Huri).
  cbv zeta. fold ws.
  rewrite (bind_ok _ _ _ (Duplex.mk_duplex r w, g) tt) by (apply wrapped_ok; unfold lift; by rewrite Hdial).
  run (Ra (Duplex.mk_duplex r w)). run (Rs (Duplex.mk_duplex r w)). run (Rk (Duplex.mk_duplex r w)). fold h.
  rewrite (bind_ok _ _ _ (Duplex.mk_duplex r w1, g3) n)
    by (apply wrapped_ok, run_fst; by apply Duplex.duplex_write).
  rewrite (bind_ok _ _ _ (Duplex.mk_duplex r2 w1, g3) rs) by (apply wrapped_ok, run_fst; done).
  rewrite Htok. run (new_key_run pskb ab enc raw (Duplex.mk_duplex r2 w1) g3 Henc ltac:(by destruct enc)).
  rewrite (bind_ok _ _ _ _ _ (put_framer_run ws true (cfg c) (lit "client") (shared_key raw ab) now
             (Duplex.mk_duplex r2 w1) g3 ltac:(by apply shared_key_length) ltac:(lia) ltac:(done))).
  done.
Qed.
End client_run.

(** What the server finds in the received header. *)
Lemma received_fields (uri : URL) (id authStr : bytes) (useWS : bool) (wsKey : option bytes) :
  key_of useWS wsKey →
  let h := received_header (request uri id wsKey authStr) in
  Proto h = lit "HTTP/1.1" ∧ HGet (lit "Authentication") (Values h) = authStr ∧
  EqualFold (HGet (lit "Upgrade") (Values h)) (lit "websocket") = useWS ∧
  (useWS = true → HGet (lit "Sec-WebSocket-Protocol") (Values h) = []).
Proof.
  unfold key_of. intros Hk. destruct useWS; [destruct Hk as (d & -> & _)|subst wsKey];
    (split; [reflexivity|]); (split; [vm_compute; reflexivity|]); (split; [vm_compute; reflexivity|]); [|done].
  intros _. vm_compute. reflexivity.
Qed.

Lemma response_lines_eq (h : Header) (useWS : bool) (token : bytes) :
  Proto h = lit "HTTP/1.1" → EqualFold (HGet (lit "Upgrade") (Values h)) (lit "websocket") = useWS →
  (useWS = true → HGet (lit "Sec-WebSocket-Protocol") (Values h) = []) →
  ∃ wsAccept, response_lines_of h token = reply_lines useWS wsAccept token ∧
    (Byte.x0d ∉ wsAccept) ∧ length wsAccept ≤ 100.
Proof.
  intros Hp Hu Hs. unfold response_lines_of. rewrite Hu. destruct useWS.
  - rewrite Hs by done.
    exists (let wsKey := HGet (lit "Sec-WebSocket-Key") (Values h) in
      if decide (0 < length wsKey) then EncodeToString (sha1_Sum (wsKey ++ wsGUID)) else []). cbv zeta.
    split; [by rewrite Hp|]. case_decide; [|split; [apply not_elem_of_nil|cbn; lia]].
    split; [by apply plain_no_cr, EncodeToString_plain|].
    rewrite EncodeToString_length, sha1_Sum_length. cbn. lia.
  - exists []. split; [by rewrite Hp|]. split; [apply not_elem_of_nil|cbn; lia].
Qed.

(** The authentication of a client whose clock is within two minutes. *)
Lemma authenticate_ok (now ts : Z) (pskb ct ab : bytes) (h : Header) :
  HGet (lit "Authentication") (Values h) = EncodeToString ct → length ct = 40 →
  Crypt.Decrypt pskb ct = Ok ab → length ab = 24 → take 8 ab = put_be 8 ts →
  (0 ≤ ts < 2 ^ 62)%Z → (0 ≤ now < 2 ^ 62)%Z → (-120 ≤ ts - now ≤ 120)%Z →
  authenticate now pskb h = Ok (Some (ts, ab)).
Proof.
  intros Ha Hct Hd Hab Hts Ht Hn Hdiff. unfold authenticate. rewrite Ha.
  assert (He : length (EncodeToString ct) = 56) by (by rewrite EncodeToString_length, Hct).
  rewrite decide_False by lia. rewrite DecodeString_EncodeToString, Hd.
  rewrite decide_False by (unfold Crypt.KeySize, BlockSize; lia).
  rewrite Hts, get_be_put. change (256 ^ Z.of_nat 8)%Z with (2 ^ 64)%Z.
  rewrite (Z.mod_small ts) by lia. rewrite (int64_small ts) by lia.
  assert (Hi : int64 (ts - now) = (ts - now)%Z) by (unfold int64; rewrite Z.mod_small; lia).
  rewrite Hi. destruct (Z.ltb_spec 120 (ts - now)); [lia|]. destruct (Z.ltb_spec (ts - now) (-120)); [lia|]. done.
Qed.

Lemma request_client_id (uri : URL) (id authStr : bytes) (wsKey : option bytes) :
  QueryGet (lit "c") (HURL (received_header (request uri id wsKey authStr))) = id.
Proof. by apply QueryGet_Encode1. Qed.

Section server_run.
Context {S V : Type} `{ReaderLaws S} `{WriterLaws V}.
Context (ParseAbsolute : bytes → outcome URL) (now : Z) (Hnow : (0 ≤ now < 2 ^ 62)%Z).

Lemma peek_header_run (P : S → bytes → Prop) (h : Header) (entries : list (bytes * bytes)) (s : S) (v : V) (g : rng) (rest : bytes) :
  feeding true P → header_ok h entries → (len (WriteTo h entries) <= 14336)%Z → P s (WriteTo h entries ++ rest) →
  ∃ s' left, peek_header ParseAbsolute (Duplex.mk_duplex s v, g)
        = (Ok (received_header h), (Duplex.mk_duplex s' v, g)) ∧ P s' left ∧ length left ≤ length rest.
Proof.
  intros HP Hok Hl Hd.
  destruct (PeekHeader_fed (λ c bs, P (Duplex.rx c) bs) ParseAbsolute h entries (Duplex.mk_duplex s v) rest
              (feeding_duplex _ _ HP) Hok Hl Hd) as (hr & taken & left & Hr & _ & Hleft & _ & Hll).
  pose proof (PeekHeader_keeps Duplex.wx ltac:(by intros ? [? ?]; cbn; unfold Duplex.on_rx; cbn;
    destruct (read _ _) as [[]]) ParseAbsolute (NewHeaderReader (Duplex.mk_duplex s v))) as Hk.
  rewrite Hr in Hk. cbn in Hk. unfold peek_header. cbn [fst snd]. rewrite Hr.
  destruct hr as [[s' v'] buff e]. cbn in *. subst v'. by exists s', left.
Qed.

Lemma handleServerConn_run (options : ServerOptions) (pskb : bytes) (uri : URL) (id : bytes) (useWS : bool)
    (wsKey : option bytes) (ct ab : bytes) (ts : Z) (entries : list (bytes * bytes)) (g : rng) :
  DecodeString (Conf.Get Conf.FRAMER_PSK (ProtocolParams options)) = Ok pskb → key_size_ok pskb = true →
  Handler options = true → id ≠ [] → length id ≤ 1000 →
  URLHost uri ≠ [] → (Byte.x0d ∉ URLHost uri) → length (URLHost uri) ≤ 1000 →
  length ab = 24 → take 8 ab = put_be 8 ts → length ct = 40 → Crypt.Decrypt pskb ct = Ok ab →
  key_of useWS wsKey → (0 ≤ ts < 2 ^ 62)%Z → (-120 ≤ ts - now ≤ 120)%Z →
  entries ≡ₚ map_to_list (request_values wsKey (EncodeToString ct)) →
  ∃ raw enc wsAccept g', length raw = 16 ∧ Crypt.Decrypt pskb enc = Ok raw ∧ (Byte.x0d ∉ wsAccept) ∧
    length wsAccept ≤ 100 ∧
    ∀ (P : S → bytes → Prop) (s : S) (v : V) (rest : bytes),
      feeding true P → P s (WriteTo (request uri id wsKey (EncodeToString ct)) entries ++ rest) →
      write_pre v (Z.to_nat 1024) →
      ∃ s' v' left, handleServerConn ParseAbsolute now options (Duplex.mk_duplex s v, g)
        = (Ok (Some (id, side useWS false (session_psk (shared_key raw ab) ts) (Duplex.mk_duplex s' v'))),
           (Duplex.mk_duplex s' v', g')) ∧
        P s' left ∧ length left ≤ length rest ∧
        emitted v v' (text (reply_lines useWS wsAccept (EncodeToString enc))).
Proof.
  intros Hpsk Hks Hh Hid Hidl Hhost Hcr Hhl Hab Hts Hct Hdec Hkey Ht Hdiff Hperm.
  set (h := request uri id wsKey (EncodeToString ct)).
  destruct (received_fields uri id (EncodeToString ct) useWS wsKey Hkey) as (F1 & F2 & F3 & F4). fold h in F1, F2, F3, F4.
  destruct (rand_read_ok BlockSize g) as (raw & g1 & Rr & Hraw).
  destruct (Crypt.Encrypt_ok pskb raw g1 Hks) as (enc & g2 & Re & Henl & Hend).
  destruct (response_lines_eq (received_header h) useWS (EncodeToString enc) F1 F3 F4) as (wsAccept & Hlines & Ha & Hal).
  exists raw, enc, wsAccept, g2. do 4 (split; [done|]). intros P s v rest HP Hd Hv.
  assert (Hok : header_ok h entries) by (apply (handshake_request_ok uri id useWS wsKey ct entries); done).
  assert (Hlen : (len (WriteTo h entries) <= 14336)%Z)
    by (apply (handshake_request_length uri id useWS wsKey ct entries); done).
  destruct (peek_header_run P h entries s v g rest HP Hok Hlen Hd) as (s' & left & Rp & Hleft & Hll).
  assert (Hel : length (EncodeToString enc) = 44) by (rewrite EncodeToString_length, Henl, Hraw; done).
  pose proof (reply_length useWS wsAccept (EncodeToString enc)) as Hrl.
  destruct (write_law v (text (reply_lines useWS wsAccept (EncodeToString enc)))) as (n & v' & Hw & Hem);
    [eapply write_pre_mono; [exact Hv|lia]|].
  exists s', v', left. split; [|done]. unfold handleServerConn.
  rewrite (bind_ok _ _ _ (Duplex.mk_duplex s' v, g) (Some (received_header h))) by (unfold try; by run Rp).
  assert (Hcid : QueryGet (lit "c") (HURL (received_header h)) = id) by apply request_client_id.
  cbv zeta. rewrite Hcid. rewrite decide_False by (destruct id; [done|cbn; lia]). rewrite Hpsk.
  rewrite (bind_ok _ _ _ (Duplex.mk_duplex s' v, g) (Some (ts, ab)))
    by (unfold lift; by rewrite (authenticate_ok now ts pskb ct ab)).
  cbv beta iota. rewrite (bind_ok _ _ _ (Duplex.mk_duplex s' v, g1) raw) by (apply run_snd; exact Rr).
  rewrite (bind_ok _ _ _ (Duplex.mk_duplex s' v, g2) (Some enc))
    by (unfold try; by run (run_snd _ (Duplex.mk_duplex s' v) _ _ _ Re)).
  cbv beta iota. unfold response_bytes. rewrite Hlines.
  rewrite (bind_ok _ _ _ (Duplex.mk_duplex s' v', g2) true).
  2: { unfold try. by run (run_fst _ _ _ g2 _ (Duplex.duplex_write s' v v' _ _ Hw)). }
  cbn [negb]. rewrite Hh, F3.
  rewrite (bind_ok _ _ _ _ _ (put_framer_run useWS false (ProtocolParams options) (lit "server") (shared_key raw ab) ts
             (Duplex.mk_duplex s' v') g2 ltac:(by apply shared_key_length) ltac:(lia) ltac:(by vm_compute))).
  done.
Qed.
End server_run.

Lemma session_psk_length (k : bytes) (ts : Z) : length k = 16 → length (session_psk k ts) = 16.
Proof.
  intros Hk. unfold session_psk. rewrite length_app, length_zip_with, length_put_be, length_take, length_drop. lia.
Qed.

(** Wrap-around of the difference of time stamps lets nothing pass. *)
Lemma recent_exact (ts now : Z) :
  (- 2 ^ 63 ≤ ts < 2 ^ 63)%Z → (0 ≤ now < 2 ^ 62)%Z →
  ((120 <? int64 (ts - now))%Z || (int64 (ts - now) <? -120)%Z) = false → (-120 ≤ ts - now ≤ 120)%Z.
Proof.
  intros Ht Hn [H1%Z.ltb_ge H2%Z.ltb_ge]%orb_false_iff. unfold int64 in *.
  destruct (decide (- 2 ^ 63 ≤ ts - now)%Z) as [Hlo|Hlo].
  - rewrite Z.mod_small in * by lia. lia.
  - rewrite <- (Z.mod_add (ts - now + 2 ^ 63) 1 (2 ^ 64)) in H1, H2 by lia.
    rewrite Z.mod_small in * by lia. lia.
Qed.

Lemma authenticate_inv (now ts : Z) (pskb ab : bytes) (h : Header) :
  (0 ≤ now < 2 ^ 62)%Z → authenticate now pskb h = Ok (Some (ts, ab)) →
  ∃ enc, DecodeString (HGet (lit "Authentication") (Values h)) = Ok enc ∧ Crypt.Decrypt pskb enc = Ok ab ∧
    24 ≤ length ab ∧ ts = int64 (get_be (take 8 ab)) ∧ (-120 ≤ ts - now ≤ 120)%Z.
Proof.
  intros Hn. unfold authenticate. case_decide; [done|].
  destruct (DecodeString _) as [enc|e| |] eqn:Ed; try done.
  destruct (Crypt.Decrypt pskb enc) as [ab'|e| |] eqn:Ec; try done.
  case_decide as Hl; [done|]. destruct (_ || _) eqn:Er; [done|]. intros [= <- <-].
  change (8 + Crypt.KeySize) with 24 in Hl. exists enc. do 2 (split; [done|]). split; [lia|]. split; [done|].
  apply recent_exact; [|done|done]. unfold int64. pose proof (Z.mod_pos_bound (get_be (take 8 ab') + 2 ^ 63) (2 ^ 64)). lia.
Qed.

Lemma denied_not_some {T A} `{Writer T} (h : Header) (s s' : T * rng) (a : A) :
  denied h s ≠ (Ok (Some a), s').
Proof. intros Hd. apply bind_ok_inv in Hd as (u & s1 & _ & Hd). discriminate Hd. Qed.

(** ** Properties *)

(** C17: key agreement: a client and a server that share a pre-shared key and
    whose clocks differ by at most two minutes complete the exchange, whatever
    randomness they draw, whatever order header maps are iterated in and
    however the connection cuts the bytes up: the client's request makes the
    server hand its handler the client's id and a framer, the server's
    response makes [Connect] return a framer, and the two framers (F1 or
    WebSocket, as the URL's scheme says) have the same 16-byte key, empty
    buffers and opposite roles. *)
Theorem h1_key_agreement {R W S V} `{ReaderLaws R} `{WriterLaws W} `{PromptReader S} `{WriterLaws V}
    (url_Parse ParseAbsolute : bytes → outcome URL) (iterate : header_map → list (bytes * bytes))
    (dial : bool → bytes → outcome unit) (nowc nows : Z) (gc gs : rng)
    (c : Client) (options : ServerOptions) (pskb : bytes) (uri : URL) :
  (∀ m, iterate m ≡ₚ map_to_list m) →
  (0 ≤ nowc < 2 ^ 62)%Z → (0 ≤ nows < 2 ^ 62)%Z → (-120 ≤ nowc - nows ≤ 120)%Z →
  closed c = false → Handler options = true →
  DecodeString (Conf.Get Conf.FRAMER_PSK (cfg c)) = Ok pskb →
  DecodeString (Conf.Get Conf.FRAMER_PSK (ProtocolParams options)) = Ok pskb → key_size_ok pskb = true →
  url_Parse (serverUrl c) = Ok uri → dial (useTLS (target_of uri)) (addr (target_of uri)) = Ok tt →
  URLHost uri ≠ [] → (Byte.x0d ∉ URLHost uri) → length (URLHost uri) ≤ 1000 →
  id c ≠ [] → length (id c) ≤ 1000 →
  let ws := useWS (target_of uri) in
  ∃ req resp key, length key = 16 ∧
    (∀ (r : R) (w : W) (down : bytes), delivers r (resp ++ down) → write_pre w (Z.to_nat 14336) →
     ∃ r' w' g', Connect url_Parse nowc iterate dial c (Duplex.mk_duplex r w, gc)
        = (Ok (set_connected c, side ws true key (Duplex.mk_duplex r' w')), (Duplex.mk_duplex r' w', g')) ∧
       emitted w w' req) ∧
    (∀ (s : S) (v : V) (rest : bytes), delivers s (req ++ rest) → write_pre v (Z.to_nat 1024) →
     ∃ s' v' g', handleServerConn ParseAbsolute nows options (Duplex.mk_duplex s v, gs)
        = (Ok (Some (id c, side ws false key (Duplex.mk_duplex s' v'))), (Duplex.mk_duplex s' v', g')) ∧
       emitted v v' resp).
Proof.
  intros Hit Hnc Hns Hdiff Hcl Hh Hpc Hps Hks Huri Hdial Hhost Hcr Hhl Hid Hidl ws.
  destruct (Connect_run (R := R) (W := W) url_Parse nowc iterate dial Hnc Hit c pskb uri gc
              Hcl Hpc Hks Huri Hdial Hhost Hcr Hhl Hidl)
    as (ab & ct & wsKey & gc' & Hab & Hts & Hct & Hdec & Hkey & Hrun).
  destruct (handleServerConn_run (S := S) (V := V) ParseAbsolute nows Hns options pskb uri (id c) ws wsKey ct ab nowc
              (iterate (request_values wsKey (EncodeToString ct))) gs
              Hps Hks Hh Hid Hidl Hhost Hcr Hhl Hab Hts Hct Hdec Hkey Hnc Hdiff (Hit _))
    as (raw & enc & wsAccept & gs' & Hraw & Hend & Hacc & Hal & Hsrv).
  exists (WriteTo (request uri (id c) wsKey (EncodeToString ct)) (iterate (request_values wsKey (EncodeToString ct)))),
    (text (reply_lines ws wsAccept (EncodeToString enc))), (session_psk (shared_key raw ab) nowc).
  split; [by apply session_psk_length, shared_key_length|]. split.
  - intros r w down Hd Hw. destruct (Hrun delivers r w wsAccept enc raw down feeding_delivers Hd Hacc Hal Hend Hraw Hw)
      as (r' & w' & _ & Hc & _ & _ & He).
    eauto.
  - intros s v rest Hd Hv. destruct (Hsrv delivers s v rest feeding_prompt Hd Hv) as (s' & v' & _ & Hc & _ & _ & He). eauto.
Qed.

(** C18: the handler only ever sees authenticated clients: if the server, on any
    input whatever, gets as far as its handler, then the request carried an
    [Authentication] that decrypts under the pre-shared key to at least 24
    bytes, the first eight of which are a time stamp within 120 seconds of the
    server's clock (as integers: the 64-bit subtraction cannot be tricked by
    wrap-around), and a client id. *)
Theorem h1_authenticated {T} `{Reader T} `{Writer T} (ParseAbsolute : bytes → outcome URL) (now : Z)
    (options : ServerOptions) (s s' : T * rng) (clientId : bytes) (tx : framed T) :
  (0 ≤ now < 2 ^ 62)%Z →
  handleServerConn ParseAbsolute now options s = (Ok (Some (clientId, tx)), s') →
  ∃ h pskb enc ab, (peek_header ParseAbsolute s).1 = Ok h ∧ clientId = QueryGet (lit "c") (HURL h) ∧ clientId ≠ [] ∧
    DecodeString (Conf.Get Conf.FRAMER_PSK (ProtocolParams options)) = Ok pskb ∧
    DecodeString (HGet (lit "Authentication") (Values h)) = Ok enc ∧ Crypt.Decrypt pskb enc = Ok ab ∧
    24 ≤ length ab ∧ (-120 ≤ int64 (get_be (take 8 ab)) - now ≤ 120)%Z.
Proof.
  intros Hn Hrun. unfold handleServerConn in Hrun.
  apply bind_ok_inv in Hrun as (ho & s1 & Hp & Hrun). destruct ho as [h|]; [|done].
  assert (Hh : (peek_header ParseAbsolute s).1 = Ok h).
  { unfold try, mbind, M_bind in Hp. destruct (peek_header ParseAbsolute s) as [[h'|e| |] sx]; try done.
    by injection Hp as -> _. }
  cbv zeta in Hrun. case_decide as Hid.
  { exfalso; eapply denied_not_some; exact Hrun. }
  destruct (DecodeString (Conf.Get Conf.FRAMER_PSK (ProtocolParams options))) as [pskb|e| |] eqn:Epsk;
    [|exfalso; eapply denied_not_some; exact Hrun..].
  apply bind_ok_inv in Hrun as (auth & s2 & Ha & Hrun). destruct auth as [[ts ab]|].
  2: { exfalso; eapply denied_not_some; exact Hrun. }
  injection Ha as Ha _. destruct (authenticate_inv now ts pskb ab h Hn Ha) as (enc & He & Hd & Hl & -> & Hr).
  apply bind_ok_inv in Hrun as (raw & s3 & _ & Hrun). apply bind_ok_inv in Hrun as (e & s4 & _ & Hrun).
  destruct e as [keyNewEnc|]; [|exfalso; eapply denied_not_some; exact Hrun].
  apply bind_ok_inv in Hrun as (sent & s5 & _ & Hrun). destruct sent; [|discriminate Hrun]. cbn [negb] in Hrun.
  destruct (Handler options); [|discriminate Hrun]. apply bind_ok_inv in Hrun as (tx' & s6 & _ & Hrun).
  injection Hrun as <- _ _. exists h, pskb, enc, ab.
  assert (Hne : QueryGet (lit "c") (HURL h) ≠ []) by (intros E; rewrite E in Hid; cbn in Hid; lia).
  exact (conj Hh (conj eq_refl (conj Hne (conj eq_refl (conj He (conj Hd (conj Hl Hr))))))).
Qed.

(** C35: an unauthenticated client can crash the server: an [Authentication]
    header that is base64 of fewer than 16 bytes makes [f1.Decrypt] slice
    beyond its input, which panics in [handleServerConn] (nothing recovers),
    whatever the pre-shared key. *)
Theorem h1_short_auth_panics {S V} `{PromptReader S} `{WriterLaws V} (ParseAbsolute : bytes → outcome URL)
    (now : Z) (options : ServerOptions) (pskb short id : bytes) (uri : URL) (s : S) (v : V) (g : rng) (rest : bytes) :
  DecodeString (Conf.Get Conf.FRAMER_PSK (ProtocolParams options)) = Ok pskb → key_size_ok pskb = true →
  0 < length short < 16 → id ≠ [] → length id ≤ 1000 →
  URLHost uri ≠ [] → (Byte.x0d ∉ URLHost uri) → length (URLHost uri) ≤ 1000 →
  delivers s (WriteTo (request uri id None (EncodeToString short)) (request_entries None (EncodeToString short)) ++ rest) →
  (handleServerConn ParseAbsolute now options (Duplex.mk_duplex s v, g)).1 = Panic.
Proof.
  intros Hpsk Hks Hshort Hid Hidl Hhost Hcr Hhl Hd.
  set (h := request uri id None (EncodeToString short)) in *. set (entries := request_entries None (EncodeToString short)) in *.
  assert (Hperm : entries ≡ₚ map_to_list (request_values None (EncodeToString short)))
    by (by rewrite request_entries_eq).
  assert (Hok : header_ok h entries) by (apply request_ok; [done|done|apply EncodeToString_plain|done|done]).
  assert (Hel : 0 < length (EncodeToString short) ≤ 24).
  { rewrite EncodeToString_length.
    assert (1 ≤ (length short + 2) `div` 3) by (apply Nat.div_le_lower_bound; lia).
    assert ((length short + 2) `div` 3 < 6) by (apply Nat.Div0.div_lt_upper_bound; lia). lia. }
  assert (Hlen : (len (WriteTo h entries) <= 14336)%Z).
  { pose proof (request_length uri id (EncodeToString short) None entries I Hperm) as Hl. fold h in Hl.
    cbv beta iota in Hl. unfold len. lia. }
  destruct (peek_header_run ParseAbsolute delivers h entries s v g rest feeding_prompt Hok Hlen Hd) as (s' & left & Rp & _).
  assert (Hcid : QueryGet (lit "c") (HURL (received_header h)) = id) by apply request_client_id.
  destruct (received_fields uri id (EncodeToString short) false None eq_refl) as (_ & Hauth & _). fold h in Hauth.
  assert (Hpanic : authenticate now pskb (received_header h) = Panic).
  { unfold authenticate. rewrite Hauth, decide_False by lia. rewrite DecodeString_EncodeToString.
    unfold Crypt.Decrypt, NewCipher. rewrite Hks. cbn [mbind outcome_bind].
    by rewrite decide_True by (unfold BlockSize; lia). }
  unfold handleServerConn.
  rewrite (bind_ok _ _ _ (Duplex.mk_duplex s' v, g) (Some (received_header h))) by (unfold try; by run Rp).
  cbv zeta. rewrite Hcid. rewrite decide_False by (destruct id; [done|cbn; lia]). rewrite Hpsk.
  unfold mbind, M_bind, lift. by rewrite Hpanic.
Qed.

(** ** Concrete inputs *)
Definition sample_psk : bytes := EncodeToString F1.sample_key.
Definition sample_uri : URL := mk_URL (lit "ws") (lit "example.com:8080") [] [].
Definition sample_client : Client :=
  mk_Client {[ Conf.FRAMER_PSK := sample_psk ]} (lit "client 7") (lit "ws://example.com:8080") false false.
Definition sample_options : ServerOptions := mk_ServerOptions 8080 {[ Conf.FRAMER_PSK := sample_psk ]} true.

Lemma h1_key_agreement_witness :
  ∃ req resp key, length key = 16 ∧
    (∀ (r : Net.conn) (w : Buf.buffer) (down : bytes), delivers r (resp ++ down) → write_pre w (Z.to_nat 14336) →
     ∃ r' w' g', Connect (λ _, Ok sample_uri) 1700000000 map_to_list (λ _ _, Ok tt) sample_client
         (Duplex.mk_duplex r w, F1.sample_bytes)
        = (Ok (set_connected sample_client, side true true key (Duplex.mk_duplex r' w')), (Duplex.mk_duplex r' w', g')) ∧
       emitted w w' req) ∧
    (∀ (s : Net.conn) (v : Buf.buffer) (rest : bytes), delivers s (req ++ rest) → write_pre v (Z.to_nat 1024) →
     ∃ s' v' g', handleServerConn no_absolute 1700000100 sample_options (Duplex.mk_duplex s v, F1.sample_bytes)
        = (Ok (Some (lit "client 7", side true false key (Duplex.mk_duplex s' v'))), (Duplex.mk_duplex s' v', g')) ∧
       emitted v v' resp).
Proof.
  apply (h1_key_agreement (λ _, Ok sample_uri) no_absolute map_to_list (λ _ _, Ok tt) 1700000000 1700000100
           F1.sample_bytes F1.sample_bytes sample_client sample_options F1.sample_key sample_uri);
    try lia; try reflexivity; try (vm_compute; reflexivity).
  - done.
  - refine (bool_decide_unpack _ _). vm_compute. exact I.
  - cbn. lia.
  - done.
  - cbn. lia.
Defined.

(** A client's authentication bytes and their encryption. *)
Definition sample_auth : bytes := put_be 8 1700000000 ++ make_bytes 16.
Definition sample_token : bytes :=
  Eval vm_compute in match Crypt.Encrypt F1.sample_key sample_auth F1.sample_bytes with (Ok ct, _) => ct | _ => [] end.
Definition sample_request : bytes :=
  WriteTo (request sample_uri (lit "c1") None (EncodeToString sample_token))
    (request_entries None (EncodeToString sample_token)).

Lemma h1_authenticated_witness :
  ∃ h pskb enc ab,
    (peek_header no_absolute (Duplex.mk_duplex (Buf.mk_reader sample_request) (Buf.mk_buffer []), F1.sample_bytes)).1 = Ok h ∧
    lit "c1" = QueryGet (lit "c") (HURL h) ∧ lit "c1" ≠ [] ∧
    DecodeString (Conf.Get Conf.FRAMER_PSK (ProtocolParams sample_options)) = Ok pskb ∧
    DecodeString (HGet (lit "Authentication") (Values h)) = Ok enc ∧ Crypt.Decrypt pskb enc = Ok ab ∧
    24 ≤ length ab ∧ (-120 ≤ int64 (get_be (take 8 ab)) - 1700000060 ≤ 120)%Z.
Proof.
  assert (Hrun : ∃ tx s', handleServerConn no_absolute 1700000060 sample_options
      (Duplex.mk_duplex (Buf.mk_reader sample_request) (Buf.mk_buffer []), F1.sample_bytes)
      = (Ok (Some (lit "c1", tx)), s')).
  { destruct (handleServerConn_run (S := Buf.reader) (V := Buf.buffer) no_absolute 1700000060 ltac:(lia) sample_options F1.sample_key sample_uri (lit "c1")
      false None sample_token sample_auth 1700000000 (request_entries None (EncodeToString sample_token)) F1.sample_bytes)
      as (raw & enc & acc & g' & _ & _ & _ & _ & Hrun).
    - vm_compute. reflexivity.
    - reflexivity.
    - reflexivity.
    - done.
    - cbn. lia.
    - done.
    - refine (bool_decide_unpack _ _). vm_compute. exact I.
    - cbn. lia.
    - reflexivity.
    - reflexivity.
    - reflexivity.
    - vm_compute. reflexivity.
    - reflexivity.
    - lia.
    - lia.
    - by rewrite request_entries_eq.
    - destruct (Hrun delivers (Buf.mk_reader sample_request) (Buf.mk_buffer []) [] feeding_prompt) as (s' & v' & ? & Hr & _);
        [by rewrite app_nil_r|exact I|]. eauto. }
  destruct Hrun as (tx & s' & Hrun).
  exact (h1_authenticated no_absolute 1700000060 sample_options _ s' (lit "c1") tx ltac:(lia) Hrun).
Defined.

Lemma h1_short_auth_panics_witness :
  (handleServerConn no_absolute 0 sample_options
     (Duplex.mk_duplex (Buf.mk_reader (WriteTo (request sample_uri (lit "x") None (EncodeToString (lit "abc")))
        (request_entries None (EncodeToString (lit "abc"))) ++ [])) (Buf.mk_buffer []), F1.sample_bytes)).1 = Panic.
Proof.
  apply (h1_short_auth_panics no_absolute 0 sample_options F1.sample_key (lit "abc") (lit "x") sample_uri
           (Buf.mk_reader _) (Buf.mk_buffer []) F1.sample_bytes []);
    try reflexivity; try (vm_compute; reflexivity); try done; try (cbn; lia).
  refine (bool_decide_unpack _ _). vm_compute. exact I.
Defined.
End H1.
