(* ===== verification/H1Relay.v ===== *)
(** The life of an h1 client after its exchange (src/transport/h1/client.go:
    [RelayTraffic], [Read], [Write], [Close]): the goroutines of the relay, the
    calls of the client's users, and the pipe [bufRead] between them, whose own
    interleavings are those of the file RwBuffer. *)
From S2P Require Import Prelude GoIO Conf RwBuffer Utils.

Module H1Relay.
Import RwBuffer.

(** The goroutine that reads [tx]: not started, in [tx.Read], in its [bufRead.Write] (thread
    [i] of the pipe), sending an error, gone. *)
Inductive reading := RIdle | Reading | Storing (d : bytes) (i : nat) | RFailing (err : error) | RExited.

(** [RelayTraffic] itself: not called yet, in its [select], in [tx.Write],
    returned. *)
Inductive relaying := MIdle | MSelect | MWrite (chunk : bytes) | MReturned (err : option error).

(** [senders] are the chunks of [Write] calls that wait on the unbuffered
    [chW]; [closers] the [Close] calls about to send on [chClose], which has
    room for two; [chErr] has room for two.  [from_tx], [handed], [to_tx]
    record what was read from [tx], taken from [chW] and written to [tx]. *)
Record client := mk_client {
  closed : bool;
  pipe : config;
  rd : reading;
  main : relaying;
  chErr : list error;
  chClose : nat;
  senders : list bytes;
  closers : nat;
  from_tx : bytes;
  handed : bytes;
  to_tx : bytes;
}.

Definition start : client := mk_client false initial RIdle MIdle [] 0 [] 0 [] [] [].

Definition set_pipe p c := mk_client (closed c) p (rd c) (main c) (chErr c) (chClose c) (senders c) (closers c)
  (from_tx c) (handed c) (to_tx c).
Definition set_rd r c := mk_client (closed c) (pipe c) r (main c) (chErr c) (chClose c) (senders c) (closers c)
  (from_tx c) (handed c) (to_tx c).

(** Returning runs the deferred [c.closed.Store(true)]. *)
Definition return_ e c := mk_client true (pipe c) (rd c) (MReturned e) (chErr c) (chClose c) (senders c) (closers c)
  (from_tx c) (handed c) (to_tx c).

(** A new call on the pipe. *)
Definition call (p : pc) (b : config) : config :=
  mk_config (shared b) (locked b) (threads b ++ [p]) (accepted b) (delivered b).

Inductive action :=
  | ARelay                              (** [RelayTraffic] is called *)
  | ATxRead (d : bytes) | ATxFails (e : error)  (** [tx.Read] returns *)
  | AStored                             (** [bufRead.Write] has returned *)
  | AReaderFails                        (** the reading goroutine sends its error *)
  | APipe (i : nat)                     (** a thread of the pipe takes a step *)
  | AHandOver (k : nat)                 (** [chunk := <-c.chW] meets a sender *)
  | ATxWrite | ATxWriteFails (k : nat) (e : error)  (** [tx.Write] returns *)
  | ATakeErr | ATakeClose               (** the other cases of the [select] *)
  | ARead (n : nat) | AWrite (d : bytes) | AClose  (** a user's call *)
  | ASendClose.                         (** [c.chClose <- 1] *)

(** The error [RelayTraffic] returns when [tx.Write] fails, none for the usual
    ends of a connection; and the one sent when [tx.Read] fails. *)
Definition write_error (e : error) : option error :=
  if Utils.IsIOError (Some e) then None else Some (Wrapf (lit "tx.Write(%d bytes): %v") e).
Definition read_error (e : error) : error :=
  if Utils.IsIOError (Some e) then e else Wrapf (lit "<cid:%s> tx.Read: %v") e.

Definition exec (a : action) (c : client) : option client :=
  match a with
  | ARelay =>
      match main c, rd c with
      | MIdle, RIdle =>
          if closed c
          then Some (mk_client true (pipe c) (rd c) (MReturned (Some (Errorf (lit "Client already closed.") []))) (chErr c)
                       (chClose c) (senders c) (closers c) (from_tx c) (handed c) (to_tx c))
          else Some (mk_client false (pipe c) Reading MSelect (chErr c)
                       (chClose c) (senders c) (closers c) (from_tx c) (handed c) (to_tx c))
      | _, _ => None
      end
  | ATxRead d =>
      match rd c with
      | Reading =>
          if (len d <=? Conf.DEFAULT_BUFFER_SIZE)%Z then
            Some (mk_client (closed c) (call (WCheck d) (pipe c)) (Storing d (length (threads (pipe c)))) (main c) (chErr c)
                    (chClose c) (senders c) (closers c) (from_tx c ++ d) (handed c) (to_tx c))
          else None
      | _ => None
      end
  | ATxFails e => match rd c with Reading => Some (set_rd (RFailing (read_error e)) c) | _ => None end
  | AStored =>
      match rd c with
      | Storing d i =>
          match threads (pipe c) !! i with
          | Some (WRet (Ok _)) => Some (set_rd Reading c)
          | Some (WRet (Err e)) => Some (set_rd (RFailing (Wrapf (lit "c.bufRead.Write: %v") e)) c)
          | _ => None
          end
      | _ => None
      end
  | AReaderFails =>
      match rd c with
      | RFailing e =>
          if decide (length (chErr c) < 2) then
            Some (mk_client (closed c) (pipe c) RExited (main c) (chErr c ++ [e]) (chClose c) (senders c) (closers c)
                    (from_tx c) (handed c) (to_tx c))
          else None
      | _ => None
      end
  | APipe i => match step_thread i (pipe c) with Some p => Some (set_pipe p c) | None => None end
  | AHandOver k =>
      match main c, senders c !! k with
      | MSelect, Some d =>
          Some (mk_client (closed c) (pipe c) (rd c) (if (0 <? len d)%Z then MWrite d else MSelect) (chErr c) (chClose c)
                  (delete k (senders c)) (closers c) (from_tx c) (handed c ++ d) (to_tx c))
      | _, _ => None
      end
  | ATxWrite =>
      match main c with
      | MWrite d => Some (mk_client (closed c) (pipe c) (rd c) MSelect (chErr c) (chClose c) (senders c) (closers c)
                            (from_tx c) (handed c) (to_tx c ++ d))
      | _ => None
      end
  | ATxWriteFails k e =>
      match main c with
      | MWrite d => Some (mk_client true (pipe c) (rd c) (MReturned (write_error e)) (chErr c) (chClose c)
                            (senders c) (closers c) (from_tx c) (handed c) (to_tx c ++ take k d))
      | _ => None
      end
  | ATakeErr =>
      match main c, chErr c with
      | MSelect, e :: es => Some (return_ (Some e) (mk_client (closed c) (pipe c) (rd c) (main c) es (chClose c) (senders c)
                                    (closers c) (from_tx c) (handed c) (to_tx c)))
      | _, _ => None
      end
  | ATakeClose =>
      match main c, chClose c with
      | MSelect, S n => Some (return_ None (mk_client (closed c) (pipe c) (rd c) (main c) (chErr c) n (senders c)
                                (closers c) (from_tx c) (handed c) (to_tx c)))
      | _, _ => None
      end
  | ARead n => if closed c then Some c else Some (set_pipe (call (RTry0 n) (pipe c)) c)
  | AWrite d =>
      if closed c then Some c
      else Some (mk_client (closed c) (pipe c) (rd c) (main c) (chErr c) (chClose c) (senders c ++ [d]) (closers c)
                   (from_tx c) (handed c) (to_tx c))
  | AClose =>
      Some (mk_client true (pipe c) (rd c) (main c) (chErr c) (chClose c) (senders c)
              (if closed c then closers c else S (closers c)) (from_tx c) (handed c) (to_tx c))
  | ASendClose =>
      match closers c with
      | S n => if decide (chClose c < 2) then
                 Some (mk_client (closed c) (pipe c) (rd c) (main c) (chErr c) (S (chClose c)) (senders c) n
                         (from_tx c) (handed c) (to_tx c))
               else None
      | 0 => None
      end
  end.

Definition step : relation client := acts exec.

(** ** What every interleaving keeps *)

(** The write of the reading goroutine is the only one of the pipe; until it
    has taken effect the chunk is missing from what the pipe accepted. *)
Definition inflow (c : client) : Prop :=
  match rd c with
  | Storing d i =>
      (∀ j p, threads (pipe c) !! j = Some p → is_writing p = true → j = i) ∧
      match threads (pipe c) !! i with
      | Some (WCheck d') | Some (WBody d') => d' = d ∧ accepted (pipe c) ++ d = from_tx c
      | Some (WRet (Ok _)) => accepted (pipe c) = from_tx c
      | Some (WRet (Err _)) => accepted (pipe c) `prefix_of` from_tx c
      | _ => False
      end
  | RIdle | Reading =>
      (∀ j p, threads (pipe c) !! j = Some p → is_writing p = false) ∧ accepted (pipe c) = from_tx c
  | RFailing _ | RExited =>
      (∀ j p, threads (pipe c) !! j = Some p → is_writing p = false) ∧ accepted (pipe c) `prefix_of` from_tx c
  end.

Definition outflow (c : client) : Prop :=
  match main c with
  | MIdle | MSelect => to_tx c = handed c
  | MWrite d => to_tx c ++ d = handed c
  | MReturned _ => to_tx c `prefix_of` handed c
  end.

(** At most one [Close] sends. *)
Definition closing (c : client) : Prop :=
  closers c + chClose c ≤ 1 ∧ (closed c = false → closers c + chClose c = 0).

Definition client_ok (c : client) : Prop := fifo (pipe c) ∧ inflow c ∧ outflow c ∧ closing c.

Lemma relay_start_ok : client_ok start.
Proof.
  split; [split; [apply new_sound|reflexivity]|]. split; [|split; [done|split; [cbn; lia|done]]].
  split; [by intros j p|done].
Qed.

Lemma wake_writing (p : pc) : is_writing (wake p) = is_writing p.
Proof. by destruct p. Qed.

Lemma returned_stays (i : nat) (b : config) (r : outcome Z) :
  threads b !! i = Some (WRet r) → step_thread i b = None.
Proof. destruct b. cbn [threads]. intros Hi. unfold step_thread. by rewrite Hi. Qed.

(** What a step of the pipe leaves of the other threads. *)
Lemma others_writing (ths : list pc) (j m : nat) (q' p : pc) (w : bool) :
  (<[j := q']> (if w then map wake ths else ths) : list pc) !! m = Some p →
  is_writing p = true → (m = j ∧ p = q') ∨ ∃ p0, ths !! m = Some p0 ∧ is_writing p0 = true.
Proof.
  intros [[-> ->]|[_ (p0 & Hm & ->)]]%lookup_after_inv Hp; [by left|]. right. exists p0. split; [done|].
  destruct w; [by rewrite wake_writing in Hp|done].
Qed.

Lemma pipe_inflow (i : nat) (c : client) (p : config) :
  sound (shared (pipe c)) → step_thread i (pipe c) = Some p → inflow c → inflow (set_pipe p c).
Proof.
  intros Hs Hst. destruct (step_effect i _ _ Hst Hs) as (q & q' & w & Hq & Hths & He).
  assert (Hlen : i < length (threads (pipe c))) by (by apply lookup_lt_Some in Hq).
  assert (Hnone : is_writing q = false → accepted p = accepted (pipe c) ∧ is_writing q' = false ∧ w = false).
  { intros Hw. destruct q; cbn in He, Hw; try done; by destruct He as (? & ? & ?). }
  unfold inflow. cbn [set_pipe rd pipe from_tx].
  assert (Hidle : (∀ j p, threads (pipe c) !! j = Some p → is_writing p = false) →
    accepted p = accepted (pipe c) ∧ ∀ j p0, threads p !! j = Some p0 → is_writing p0 = false).
  { intros Hall. destruct (Hnone (Hall _ _ Hq)) as (Ha & Hq' & _). split; [done|].
    intros j p0 Hj. destruct (is_writing p0) eqn:Hw; [|done]. rewrite Hths in Hj.
    destruct (others_writing _ _ _ _ _ _ Hj Hw) as [[-> ->]|(p1 & Hp1 & Hw1)]; [congruence|].
    by rewrite (Hall _ _ Hp1) in Hw1. }
  destruct (rd c) as [| |d k| |].
  - intros [Hall Ha]. destruct (Hidle Hall) as [-> ?]. done.
  - intros [Hall Ha]. destruct (Hidle Hall) as [-> ?]. done.
  - intros [Huniq Hk]. destruct (decide (i = k)) as [->|Hne].
    + rewrite Hq in Hk. assert (Hk' : threads p !! k = Some q').
      { rewrite Hths. apply list_lookup_insert_eq. destruct w; [by rewrite length_map|done]. }
      split.
      * intros j p0 Hj Hw. rewrite Hths in Hj.
        destruct (others_writing _ _ _ _ _ _ Hj Hw) as [[-> _]|(p1 & Hp1 & Hw1)]; [done|by eapply Huniq].
      * rewrite Hk'. destruct q; cbn in He, Hk; try done.
        -- destruct He as (_ & -> & [->| ->]); [done|]. destruct Hk as [_ <-]. by apply prefix_app_r.
        -- destruct He as [(_ & -> & ->)|(_ & -> & e & ->)]; [by destruct Hk as [-> ?]|].
           destruct Hk as [_ <-]. by apply prefix_app_r.
        -- by rewrite (returned_stays k _ _ Hq) in Hst.
    + assert (Hnw : is_writing q = false).
      { destruct (is_writing q) eqn:E; [|done]. exfalso. by apply Hne, (Huniq i q). }
      destruct (Hnone Hnw) as (-> & Hq' & ->). split.
      * intros j p0 Hj Hw. rewrite Hths in Hj.
        destruct (others_writing _ _ _ _ _ false Hj Hw) as [[-> ->]|(p1 & Hp1 & Hw1)]; [congruence|by eapply Huniq].
      * rewrite Hths, list_lookup_insert_ne by done. exact Hk.
  - intros [Hall Ha]. destruct (Hidle Hall) as [-> ?]. done.
  - intros [Hall Ha]. destruct (Hidle Hall) as [-> ?]. done.
Qed.
(** A user's read joins the pipe. *)
Lemma read_inflow (n : nat) (c : client) : inflow c → inflow (set_pipe (call (RTry0 n) (pipe c)) c).
Proof.
  assert (Hnew : ∀ j p, (threads (pipe c) ++ [RTry0 n]) !! j = Some p → is_writing p = true →
                        threads (pipe c) !! j = Some p).
  { intros j p [Hj|[_ Hj]]%lookup_app_Some Hw; [done|]. apply list_lookup_singleton_Some in Hj as [_ <-]. done. }
  assert (Hall : (∀ j p, threads (pipe c) !! j = Some p → is_writing p = false) →
                 ∀ j p, (threads (pipe c) ++ [RTry0 n]) !! j = Some p → is_writing p = false).
  { intros H j p Hj. destruct (is_writing p) eqn:Hw; [|done]. by rewrite <- Hw, (H j p (Hnew j p Hj Hw)). }
  unfold inflow. cbn [set_pipe rd pipe from_tx call threads accepted]. destruct (rd c) as [| |d k| |].
  - intros [H1 H2]. by split; [apply Hall|].
  - intros [H1 H2]. by split; [apply Hall|].
  - intros [H1 H2]. split; [intros j p Hj Hw; apply (H1 j p); auto|].
    destruct (threads (pipe c) !! k) as [q|] eqn:Hk; [|done]. by rewrite (lookup_app_l_Some _ _ _ _ Hk).
  - intros [H1 H2]. by split; [apply Hall|].
  - intros [H1 H2]. by split; [apply Hall|].
Qed.

(** The reading goroutine's write joins the pipe. *)
Lemma store_inflow (d : bytes) (c : client) :
  rd c = Reading → inflow c →
  inflow (mk_client (closed c) (call (WCheck d) (pipe c)) (Storing d (length (threads (pipe c)))) (main c) (chErr c)
            (chClose c) (senders c) (closers c) (from_tx c ++ d) (handed c) (to_tx c)).
Proof.
  unfold inflow. intros ->. intros [H1 H2]. cbn [rd pipe from_tx call threads accepted]. split.
  - intros j p [Hj|[Hl Hj]]%lookup_app_Some Hw; [by rewrite (H1 j p Hj) in Hw|].
    apply list_lookup_singleton_Some in Hj as [Hj _]. lia.
  - rewrite list_lookup_middle by done. by rewrite H2.
Qed.

(** Once the write has returned no other is under way. *)
Lemma stored_inflow (d : bytes) (i : nat) (c : client) (r : outcome Z) :
  rd c = Storing d i → threads (pipe c) !! i = Some (WRet r) → inflow c →
  (∀ j p, threads (pipe c) !! j = Some p → is_writing p = false) ∧
  match r with Ok _ => accepted (pipe c) = from_tx c | Err _ => accepted (pipe c) `prefix_of` from_tx c | _ => False end.
Proof.
  unfold inflow. intros -> Hi. rewrite Hi. intros [Huniq Hk]. split; [|done].
  intros j p Hj. destruct (is_writing p) eqn:Hw; [|done]. rewrite (Huniq j p Hj Hw), Hi in Hj. by injection Hj as <-.
Qed.

Lemma prefix_of_eq (a b : bytes) : a = b → a `prefix_of` b.
Proof. by intros ->. Qed.

Lemma relay_exec_ok (a : action) (c c' : client) : exec a c = Some c' → client_ok c → client_ok c'.
Proof.
  intros Hx (Hf & Hi & Ho & Hc). pose proof Hc as [Hc1 Hc2].
  destruct a as [|d|e| | |i|k| |k e| | |n|d| |]; cbn [exec] in Hx.
  - unfold outflow in Ho. destruct (main c) eqn:Em; try done. destruct (rd c) eqn:Er; try done.
    unfold inflow in Hi. rewrite Er in Hi. destruct (closed c) eqn:Ec; injection Hx as <-.
    + split; [done|]. split; [exact Hi|].
      split; [by apply prefix_of_eq|]. by split.
    + split; [done|]. split; [done|]. split; [done|]. by split.
  - destruct (rd c) eqn:Er; try done. destruct (_ <=? _)%Z; [|done]. injection Hx as <-.
    split; [done|]. split; [by apply store_inflow|]. by split.
  - unfold inflow in Hi. destruct (rd c) eqn:Er; try done. injection Hx as <-.
    split; [done|]. split; [|by split]. unfold inflow. cbn [set_rd rd pipe from_tx].
    split; [apply Hi|by apply prefix_of_eq, Hi].
  - destruct (rd c) as [| |d i| |] eqn:Er; try done.
    destruct (threads (pipe c) !! i) as [p|] eqn:Ht; [|done]. destruct p as [| | | | | | | | | |r| |]; try done.
    pose proof (stored_inflow d i c r Er Ht Hi) as Hs. destruct r as [z|e| |]; try done; injection Hx as <-.
    + split; [done|]. split; [exact Hs|by split].
    + split; [done|]. split; [exact Hs|by split].
  - unfold inflow in Hi. destruct (rd c) eqn:Er; try done. destruct (decide _); [|done]. injection Hx as <-.
    split; [done|]. split; [exact Hi|]. by split.
  - destruct (step_thread i (pipe c)) as [p|] eqn:Hst; [|done]. injection Hx as <-.
    split; [by apply (step_fifo (pipe c)); [by eapply step_run|]|].
    split; [apply (pipe_inflow i); [apply Hf|done|done]|]. by split.
  - unfold outflow in Ho. destruct (main c) eqn:Em; try done. destruct (senders c !! k) as [d|]; [|done].
    injection Hx as <-. split; [done|]. split; [done|]. split; [|by split]. unfold outflow. cbn [main to_tx handed].
    destruct (Z.ltb_spec 0 (len d)) as [|Hd]; [by rewrite Ho|].
    assert (d = []) as -> by (apply nil_length_inv; unfold len in Hd; lia). by rewrite app_nil_r.
  - unfold outflow in Ho. destruct (main c) eqn:Em; try done. injection Hx as <-. by split.
  - unfold outflow in Ho. destruct (main c) as [| |d|] eqn:Em; try done. injection Hx as <-.
    split; [done|]. split; [done|]. split; [|by split]. unfold outflow. cbn [main to_tx handed]. rewrite <- Ho.
    apply prefix_app, prefix_take.
  - unfold outflow in Ho. destruct (main c) eqn:Em; try done. destruct (chErr c); [done|]. injection Hx as <-.
    split; [done|]. split; [done|]. split; [by apply prefix_of_eq|]. by split.
  - unfold outflow in Ho. destruct (main c) eqn:Em; try done. destruct (chClose c) as [|n] eqn:Ech; [done|].
    injection Hx as <-. split; [done|]. split; [done|]. split; [by apply prefix_of_eq|].
    split; [cbn [return_ closers chClose]; lia|done].
  - destruct (closed c) eqn:Ec; injection Hx as <-; [done|].
    split; [exact Hf|]. split; [by apply read_inflow|]. split; [done|]. done.
  - destruct (closed c) eqn:Ec; injection Hx as <-; [done|]. by split.
  - injection Hx as <-. split; [done|]. split; [done|]. split; [done|]. split; [|done]. cbn [closers chClose].
    destruct (closed c); [done|]. specialize (Hc2 eq_refl). lia.
  - destruct (closers c) as [|n] eqn:En; [done|]. destruct (decide _); [|done]. injection Hx as <-.
    split; [done|]. split; [done|]. split; [done|]. split; [cbn [closers chClose]; lia|].
    cbn [closed closers chClose]. intros Hcl. specialize (Hc2 Hcl). lia.
Qed.

Lemma relay_reachable (c : client) : rtc step start c → client_ok c.
Proof. intros Hr. by apply (acts_invariant exec client_ok relay_exec_ok start), relay_start_ok. Qed.

(** *** Calls that are left behind *)

(** The relay is gone, the first thread of the pipe sleeps in a read, and a
    [Write] of [d] waits. *)
Definition left_behind (n k : nat) (d : bytes) (c : client) : Prop :=
  (∃ e, main c = MReturned e) ∧ rd c = RExited ∧ closed c = true ∧ fifo (pipe c) ∧
  threads (pipe c) !! 0 = Some (RSleep n k) ∧
  (∀ j p, threads (pipe c) !! j = Some p → is_writing p = false) ∧ senders c !! 0 = Some d.

Lemma sleeper_stays (i n k : nat) (b b' : config) :
  fifo b → threads b !! 0 = Some (RSleep n k) →
  (∀ j p, threads b !! j = Some p → is_writing p = false) → step_thread i b = Some b' →
  fifo b' ∧ threads b' !! 0 = Some (RSleep n k) ∧
  ∀ j p, threads b' !! j = Some p → is_writing p = false.
Proof.
  intros Hs H0 Hall Hst. destruct (step_effect i _ _ Hst (proj1 Hs)) as (q & q' & w & Hq & Hths & He).
  assert (Hw : w = false ∧ is_writing q' = false).
  { specialize (Hall i q Hq). destruct q; cbn in He, Hall; try done; by destruct He as (? & _ & ?). }
  destruct Hw as [-> Hq']. split; [|rewrite Hths; split].
  - apply (step_fifo b); [by eapply step_run|done].
  - destruct (decide (i = 0)) as [->|]; [|by rewrite list_lookup_insert_ne].
    exfalso. destruct b. cbn [threads] in *. unfold step_thread in Hst. by rewrite H0 in Hst.
  - intros j p [[-> ->]|[_ (p0 & Hm & ->)]]%(lookup_after_inv _ _ _ _ _ false); [done|by apply (Hall j)].
Qed.

Lemma exec_left_behind (n k : nat) (d : bytes) (a : action) (c c' : client) :
  exec a c = Some c' → left_behind n k d c → left_behind n k d c'.
Proof.
  intros Hx ([e He] & Hr & Hc & Hs & H0 & Hall & Hd).
  destruct a as [|d0|e0| | |i|j| |j e0| | |m|d0| |]; cbn [exec] in Hx; rewrite ?He, ?Hr, ?Hc in Hx; try done.
  - destruct (step_thread i (pipe c)) as [b|] eqn:Hst; [|done]. injection Hx as <-.
    destruct (sleeper_stays i n k _ _ Hs H0 Hall Hst) as (? & ? & ?).
    do 3 (split; [by eauto || done|]). split; [done|]. split; [done|]. by split.
  - injection Hx as <-. do 3 (split; [by eauto || done|]). by do 3 (split; [done|]).
  - injection Hx as <-. do 3 (split; [by eauto || done|]). by do 3 (split; [done|]).
  - injection Hx as <-. do 3 (split; [by eauto || done|]). by do 3 (split; [done|]).
  - destruct (closers c); [done|]. destruct (decide _); [|done]. injection Hx as <-.
    do 3 (split; [by eauto || done|]). by do 3 (split; [done|]).
Qed.

Lemma left_behind_forever (n k : nat) (d : bytes) (c c' : client) :
  left_behind n k d c → rtc step c c' → left_behind n k d c'.
Proof. intros Hl Hr. by apply (acts_invariant exec (left_behind n k d) (exec_left_behind n k d) c). Qed.

(** ** Properties *)

(** C16: an h1 client is a faithful two-way pipe in every interleaving of its
    relay and of its users' calls: what is written to the transport is a prefix
    of what [Write] handed over, all of it while the relay waits for more; what
    [Read] has delivered, followed by what it still can, is a prefix of what
    came from the transport, all of it while the relay reads; and [Close] never
    blocks. *)
Theorem h1_relay_faithful (c : client) :
  rtc step start c →
  to_tx c `prefix_of` handed c ∧ (main c = MSelect → to_tx c = handed c) ∧
  delivered (pipe c) ++ content (shared (pipe c)) `prefix_of` from_tx c ∧
  (rd c = Reading → delivered (pipe c) ++ content (shared (pipe c)) = from_tx c) ∧
  (0 < closers c → ∃ c', exec ASendClose c = Some c').
Proof.
  intros ([_ Hf] & Hi & Ho & Hc & _)%relay_reachable. rewrite Hf. unfold outflow, inflow in *.
  split; [|split; [|split; [|split]]].
  - destruct (main c) as [| |d|]; [by apply prefix_of_eq..| |done]. by exists d.
  - by intros Hm; rewrite Hm in Ho.
  - destruct (rd c) as [| |d i| |]; [by apply prefix_of_eq, Hi|by apply prefix_of_eq, Hi| |apply Hi|apply Hi].
    destruct Hi as [_ Hi]. destruct (threads (pipe c) !! i) as [[| | | | | | | |d'|d'|[z|e| |]| |]|]; try done.
    + destruct Hi as [_ <-]. by apply prefix_app_r.
    + destruct Hi as [_ <-]. by apply prefix_app_r.
    + by apply prefix_of_eq.
  - intros Hr. rewrite Hr in Hi. apply Hi.
  - intros Hn. cbn [exec]. destruct (closers c) as [|n]; [lia|]. rewrite decide_True by lia. eauto.
Qed.

(** C36: the end of an h1 transport leaves calls behind: there are runs in which
    the far end closes, [RelayTraffic] returns, and a [Read] and a [Write] that
    had begun before never return; and after a user's [Close] the transport is
    not closed: its reading goroutine goes on. *)
Theorem h1_relay_strands (n : nat) (d : bytes) :
  0 < n →
  (∃ c, rtc step start c ∧ main c = MReturned (Some EOF) ∧
     ∀ c', rtc step c c' → threads (pipe c') !! 0 = Some (RSleep n 1) ∧ senders c' !! 0 = Some d) ∧
  (∃ c, rtc step start c ∧ closed c = true ∧ main c = MReturned None ∧ closers c = 0 ∧
     ∀ chunk, (len chunk <= Conf.DEFAULT_BUFFER_SIZE)%Z →
     ∃ c' i, exec (ATxRead chunk) c = Some c' ∧ rd c' = Storing chunk i).
Proof.
  intros Hn. split.
  - set (b := mk_config NewReadWriteBuffer false [RSleep n 1] [] []).
    set (c := mk_client true b RExited (MReturned (Some EOF)) [] 0 [d] 0 [] [] []). exists c.
    assert (Hl : left_behind n 1 d c).
    { split; [by eexists|]. do 2 (split; [done|]). split; [split; [apply new_sound|reflexivity]|]. split; [done|]. split; [|done].
      intros [|j] p Hj; [by injection Hj as <-|done]. }
    split; [|split; [done|intros c' Hr; by destruct (left_behind_forever n 1 d c c' Hl Hr) as (_ & _ & _ & _ & ? & _ & ?)]].
    apply (run_actions_rtc exec [ARelay; ARead n; APipe 0; APipe 0; APipe 0; APipe 0; AWrite d; ATxFails EOF; AReaderFails; ATakeErr]).
    unfold run_actions, start, call. cbn [foldl exec mbind option_bind].
    cbn -[NewReadWriteBuffer decide readFromBuf]. rewrite decide_False by lia. reflexivity.
  - eexists. split; [apply (run_actions_rtc exec [ARelay; AClose; ASendClose; ATakeClose]); reflexivity|].
    do 3 (split; [reflexivity|]). intros chunk Hc%Z.leb_le. eexists _, _. cbn [exec rd]. rewrite Hc. by split.
Qed.

(** ** Witnesses *)
Definition sample_actions : list action :=
  [ARelay; AWrite (lit "abc"); ATxRead (lit "xy"); APipe 0; AHandOver 0; APipe 0; ATxWrite; AStored; ARead 1; APipe 1].
Definition sample_client : client := default start (run_actions exec sample_actions start).

Lemma h1_relay_faithful_witness :
  lit "x" ++ lit "y" = from_tx sample_client ∧ to_tx sample_client = lit "abc" ∧ rd sample_client = Reading.
Proof.
  destruct (h1_relay_faithful sample_client) as (_ & _ & _ & H & _).
  - apply (run_actions_rtc exec sample_actions). vm_compute. reflexivity.
  - split; [|split; vm_compute; reflexivity]. etrans; [|apply H]; vm_compute; reflexivity.
Defined.

Lemma h1_relay_strands_witness :
  ∃ c, rtc step start c ∧ main c = MReturned (Some EOF) ∧ senders c !! 0 = Some (lit "late").
Proof.
  destruct (h1_relay_strands 16 (lit "late")) as [(c & H1 & H2 & H3) _]; [lia|].
  exists c. split; [exact H1|]. split; [exact H2|]. by apply H3.
Defined.
End H1Relay.
