(* ===== verification/Pool.v ===== *)
(** Package [transport/h1pool] (src/transport/h1pool/client.go, server.go):
    many client connections multiplexed over few shared [h1] transports.  The
    Module [Client] is the client's side (shared transports, the divided
    clients on top of them), the Module [Server] the server's (the instances
    and their reply channels). *)
From S2P Require Import Prelude GoIO Strconv Json Conf Packet RwBuffer Http H1.

(** [sync.Map.Range] visits the entries in no particular order: a visited map
    is the list of its values in the order of the visit. *)

(** ** Choosing by age

    The loops of [queryClientInfo], [getAvailableSharedClient] and
    [getReplyChannel] keep the best time seen so far, 0 standing for none. *)
Section newest.
Context {A : Type} (time : A → Z) (eligible : A → bool).

(** One visit of a loop that keeps the newest eligible entry. *)
Definition keep_newest (st : Z * option A) (a : A) : Z * option A :=
  if eligible a then
    if (st.1 =? 0)%Z || (st.1 <? time a)%Z then (time a, Some a) else st
  else st.

Lemma keep_newest_spec (l : list A) (st : Z * option A) :
  (∀ a, a ∈ l → (0 < time a)%Z) →
  (st.1 = 0%Z ∧ st.2 = None ∨ ∃ a, st.2 = Some a ∧ st.1 = time a ∧ (0 < st.1)%Z ∧ eligible a = true) →
  let st' := foldl keep_newest st l in
  (st'.2 = None → st.2 = None ∧ ∀ a, a ∈ l → eligible a = false) ∧
  (∀ b, st'.2 = Some b → eligible b = true ∧ (b ∈ l ∨ st.2 = Some b) ∧ st'.1 = time b ∧
     (st.1 <= time b)%Z ∧ ∀ a, a ∈ l → eligible a = true → (time a <= time b)%Z).
Proof.
  revert st. induction l as [|x l IH]; intros st Hpos Hst; cbn [foldl].
  { split; [by intros ->; split; [|by intros ? ?%elem_of_nil]|].
    intros b Hb. destruct Hst as [[_ E]|(a & E & Ht & _ & He)]; [congruence|].
    assert (a = b) as -> by congruence. split; [done|]. split; [by right|]. split; [done|]. split; [lia|].
    by intros ? ?%elem_of_nil. }
  assert (Hx : (0 < time x)%Z) by (apply Hpos; left).
  assert (Hl : ∀ a, a ∈ l → (0 < time a)%Z) by (intros a Ha; apply Hpos; by right).
  unfold keep_newest at 2 4 6. destruct (eligible x) eqn:Ex.
  - destruct ((st.1 =? 0)%Z || (st.1 <? time x)%Z) eqn:Ec.
    + destruct (IH (time x, Some x) Hl) as [IH1 IH2]; [right; exists x; cbn; auto|]. split.
      * intros Hn. by apply IH1 in Hn as [? _].
      * intros b Hb. destruct (IH2 b Hb) as (Hb1 & Hb2 & Hb3 & Hb4 & Hb5). cbn [fst snd] in *.
        split; [done|]. split; [|split; [done|split]].
        -- destruct Hb2 as [?|[= ->]]; [left; by right|left; by left].
        -- destruct Hst as [[-> _]|(a & _ & _ & Hp & _)]; [lia|].
           apply orb_true_iff in Ec as [->%Z.eqb_eq| ?%Z.ltb_lt]; lia.
        -- intros a [->|Ha]%elem_of_cons He; [lia|by apply Hb5].
    + apply orb_false_iff in Ec as [E0%Z.eqb_neq E1%Z.ltb_ge].
      destruct Hst as [[? _]|(a0 & E & Ht & Hp & He)]; [done|].
      destruct (IH st Hl) as [IH1 IH2]; [right; eauto|]. split.
      * intros Hn. apply IH1 in Hn as [? _]. congruence.
      * intros b Hb. destruct (IH2 b Hb) as (Hb1 & Hb2 & Hb3 & Hb4 & Hb5).
        split; [done|]. split; [destruct Hb2; [left; by right|by right]|]. split; [done|]. split; [done|].
        intros a [->|Ha]%elem_of_cons He'; [lia|by apply Hb5].
  - destruct (IH st Hl Hst) as [IH1 IH2]. split.
    + intros Hn. destruct (IH1 Hn) as [? Hall]. split; [done|]. by intros a [->|Ha]%elem_of_cons; [|apply Hall].
    + intros b Hb. destruct (IH2 b Hb) as (Hb1 & Hb2 & Hb3 & Hb4 & Hb5).
      split; [done|]. split; [destruct Hb2; [left; by right|by right]|]. split; [done|]. split; [done|].
      intros a [->|Ha]%elem_of_cons He'; [congruence|by apply Hb5].
Qed.

Lemma keep_newest_none (l : list A) (st : Z * option A) :
  (∀ a, a ∈ l → eligible a = false) → foldl keep_newest st l = st.
Proof.
  intros Hl. induction l as [|x l IH]; [done|]. cbn [foldl]. unfold keep_newest at 2.
  rewrite Hl by left. apply IH. intros a Ha. apply Hl. by right.
Qed.
End newest.

(** ** The client's side (client.go) *)
Module Client.

(** A shared transport; [connected] is [tx.Connected()]. *)
Record client := mk_client {
  id : bytes;
  connected : bool;
  exited : bool;
  lastPongUnix : Z;
  lastPingUnix : Z;
  lastDataUnix : Z;
  createdAt : Z;
  bytesRecv : Z;
  bytesSent : Z;
}.

Definition uint64 (z : Z) : Z := (z mod 2 ^ 64)%Z.

Definition newClient (id : bytes) (now : Z) : client := mk_client id false false 0 0 0 now 0 0.

Definition set_pong now c := mk_client (id c) (connected c) (exited c) now (lastPingUnix c) (lastDataUnix c)
  (createdAt c) (bytesRecv c) (bytesSent c).
Definition set_ping now c := mk_client (id c) (connected c) (exited c) (lastPongUnix c) now (lastDataUnix c)
  (createdAt c) (bytesRecv c) (bytesSent c).
Definition received now n c := mk_client (id c) (connected c) (exited c) (lastPongUnix c) (lastPingUnix c)
  now (createdAt c) (uint64 (bytesRecv c + n)) (bytesSent c).
Definition count_recv n c := mk_client (id c) (connected c) (exited c) (lastPongUnix c) (lastPingUnix c)
  (lastDataUnix c) (createdAt c) (uint64 (bytesRecv c + n)) (bytesSent c).
Definition data_sent now n c := mk_client (id c) (connected c) (exited c) (lastPongUnix c) (lastPingUnix c)
  now (createdAt c) (bytesRecv c) (uint64 (bytesSent c + n)).

(** [queryClientInfo]: whether [id] is the oldest of the shared clients, and
    how many there are. *)
Definition visit_oldest (st : Z * Z * bytes) (sc : client) : Z * Z * bytes :=
  let '(total, oldest, oldestId) := st in
  let total := (total + 1)%Z in
  if (oldest =? 0)%Z || (createdAt sc <? oldest)%Z then (total, createdAt sc, id sc)
  else (total, oldest, oldestId).

Definition queryClientInfo (cid : bytes) (range : list client) : bool * Z :=
  let '(total, _, oldestId) := foldl visit_oldest (0%Z, 0%Z, []) range in
  (bool_decide (oldestId = cid), total).

(** *** A shared client's timer (every five seconds)

    [None]: the client leaves. *)
Definition stalled (c : client) : bool :=
  (createdAt c <? lastPingUnix c)%Z && (lastPongUnix c + 15 <? lastPingUnix c)%Z.

Definition decommission (now : Z) (range : list client) (c : client) : bool :=
  if (createdAt c + 120 <? now)%Z then
    let idle := (lastDataUnix c + 30 <? now)%Z in
    let idleTooLong := (lastDataUnix c + 60 <? now)%Z in
    let '(oldest, total) := queryClientInfo (id c) range in
    oldest && (((1 <? total)%Z && idle) || idleTooLong)
  else false.

Section shared.
Context {W : Type} `{Writer W}.

(** [client.writePacket] on its transport. *)
Definition writePacket (now : Z) (p : Packet.Packet) : M (W * client) unit :=
  _ ← on_fst (Packet.writePacket p);
  if (Packet.Op p =? Packet.OP_DATA)%Z then on_snd (modify (data_sent now (len (Packet.Data p)))) else mret tt.

Definition ping : Packet.Packet := Packet.mk_Packet [] 0 Packet.OP_PING [].

(** One firing of the timer: whether the client stays. *)
Definition on_timer (now : Z) (serial : Z) (range : list client) : M (W * client) bool :=
  c ← gets snd;
  if stalled c then mret false
  else if decommission now range c then mret false
  else if (serial mod 2 =? 0)%Z then
    try (_ ← writePacket now ping; _ ← on_snd (modify (set_ping now)); mret true) (λ _, mret false)
  else mret true.
End shared.

(** *** Divided clients *)

(** [registered]: whether the package's [clients] still holds it. *)
Record dividedClient := mk_divided {
  clientId : bytes;
  buf : RwBuffer.ReadWriteBuffer;
  serial : Z;
  registered : bool;
}.

Definition newDividedClient (clientId : bytes) : dividedClient :=
  mk_divided clientId RwBuffer.NewReadWriteBuffer 0 true.

Abbreviation divided := (gmap bytes dividedClient).

(** [clients.Load]. *)
Definition load (cid : bytes) (clients : divided) : option dividedClient :=
  match clients !! cid with
  | Some cl => if registered cl then Some cl else None
  | None => None
  end.

(** [c.serial.Add(1) - 1], and the serial after it. *)
Definition next_serial (c : dividedClient) : Z * dividedClient :=
  (serial c, mk_divided (clientId c) (buf c) (uint32 (serial c + 1)) (registered c)).

(** The packet of [dividedClient.Write]. *)
Definition data_packet (dat : bytes) (c : dividedClient) : Packet.Packet * dividedClient :=
  let '(s, c) := next_serial c in (Packet.mk_Packet (clientId c) s Packet.OP_DATA dat, c).

(** [dividedClient.Close], up to sending the packet it returns. *)
Definition close_packet (c : dividedClient) : Packet.Packet * dividedClient :=
  let buf := (RwBuffer.Close (buf c)).2 in
  let '(s, c) := next_serial (mk_divided (clientId c) buf (serial c) false) in
  (Packet.mk_Packet (clientId c) s Packet.OP_EOS [], c).

Definition writeBuf (dat : bytes) (c : dividedClient) : dividedClient :=
  mk_divided (clientId c) (RwBuffer.Write dat (buf c)).2 (serial c) (registered c).

(** The reading goroutine of a shared client with a packet: the packet a
    closed client sends is returned. *)
Definition on_packet (now : Z) (p : Packet.Packet) (st : client * divided) :
    client * divided * option Packet.Packet :=
  let '(c, clients) := st in
  let n := len (Packet.Data p) in
  if (Packet.Op p =? Packet.OP_DATA)%Z then
    (received now n c,
     match load (Packet.ClientId p) clients with
     | Some cl => <[Packet.ClientId p := writeBuf (Packet.Data p) cl]> clients
     | None => clients
     end, None)
  else if (Packet.Op p =? Packet.OP_PONG)%Z then (set_pong now (count_recv n c), clients, None)
  else if (Packet.Op p =? Packet.OP_EOS)%Z then
    match load (Packet.ClientId p) clients with
    | Some cl => let '(q, cl) := close_packet cl in
                 (count_recv n c, <[Packet.ClientId p := cl]> clients, Some q)
    | None => (count_recv n c, clients, None)
    end
  else (count_recv n c, clients, None).

(** *** Choosing a shared client *)
Definition visit_available (st : option client * option client * Z) (c : client) :
    option client * option client * Z :=
  let '(_, sc, latest) := st in
  if (latest =? 0)%Z || (latest <? createdAt c)%Z then
    if connected c then (Some c, Some c, createdAt c)
    else match sc with
         | None => (Some c, Some c, latest)
         | Some _ => (Some c, sc, latest)
         end
  else (Some c, sc, latest).

Definition getAvailableSharedClient (range : list client) : option client :=
  let '(scAny, sc, _) := foldl visit_available (None, None, 0%Z) range in
  match sc with Some c => Some c | None => scAny end.

(** [dividedClient.client]: at once, then every two seconds for half a minute.
    [snap k] is what the [k]-th look sees; sixteen turns are enough. *)
Fixpoint wait_client (fuel : nat) (snap : nat → list client) (k : nat) (dur : Z) : outcome (option client) :=
  match fuel with
  | 0 => Hang
  | S fuel =>
      match getAvailableSharedClient (snap k) with
      | Some sc => Ok (Some sc)
      | None => let dur := (dur + 2)%Z in
                if (30 <? dur)%Z then Ok None else wait_client fuel snap (S k) dur
      end
  end.

Definition dclient (snap : nat → list client) : outcome (option client) :=
  match getAvailableSharedClient (snap 0) with
  | Some sc => Ok (Some sc)
  | None => wait_client 16 snap 1 0
  end.

(** [Write]: the divided client after it, and the result.  One step: the serial
    number is taken before the shared client's lock, so of two writers on one
    divided client the second could overtake the first; a divided client has
    one writer at a time. *)
Definition DWrite {W} `{Writer W} (now : Z) (sc : option client) (dat : bytes) :
    M (W * client * dividedClient) Z :=
  match sc with
  | None => throw (Errorf (lit "no alive transport.") [])
  | Some _ => λ s,
      let '(p, c) := data_packet dat s.2 in
      (_ ← on_fst (writePacket now p); mret (len dat)) (s.1, c)
  end.

(** [Read]: without a transport an error; otherwise what is buffered, [io.EOF]
    at the end. With nothing buffered it waits, as [RwBuffer]'s threads do. *)
Definition DRead (sc : option client) (n : nat) : M dividedClient bytes := λ c,
  match sc with
  | None => (Err (Errorf (lit "no alive transport.") []), c)
  | Some _ =>
      if decide (n = 0) then (Ok [], c) else
      let '(d, b) := RwBuffer.readFromBuf n (buf c) in
      (if decide (0 < length d) then Ok d else if RwBuffer.eof (buf c) then Err EOF else Hang,
       mk_divided (clientId c) b (serial c) (registered c))
  end.

(** *** Adding shared clients *)
Definition visit_count (now : Z) (st : Z * Z) (sc : client) : Z * Z :=
  ((st.1 + 1)%Z, if (now - 300 <? createdAt sc)%Z then (st.2 + 1)%Z else st.2).

(** The new client, if there is to be one; [fresh] is [utils.UniqueId(8)]. *)
Definition tryAddNewSharedClient (cfg : Conf.Values) (prefix fresh : bytes) (now : Z) (range : list client) :
    outcome (option client) :=
  let '(total, healthyCount) := foldl (visit_count now) (0%Z, 0%Z) range in
  if (total <? 5)%Z && (healthyCount =? 0)%Z then
    let trunkClientId := prefix ++ lit ":" ++ fresh in
    _ ← H1.NewClient cfg trunkClientId;
    Ok (Some (newClient trunkClientId now))
  else Ok None.

(** One turn of [clientsWorker]: clients without any transport get one. *)
Definition hasClients (clients : divided) : bool :=
  existsb (λ kv, registered kv.2) (map_to_list clients).

Definition worker_turn (cfg : Conf.Values) (prefix fresh : bytes) (now : Z) (clients : divided) (range : list client) :
    outcome (option client) :=
  if hasClients clients && bool_decide (range = []) then tryAddNewSharedClient cfg prefix fresh now range
  else Ok None.

(** [getClient]: the shared client that was added, and the clients with the
    new one. *)
Definition getClient (cfg : Conf.Values) (prefix fresh clientId : bytes) (now : Z) (clients : divided)
    (range : list client) : outcome (option client * divided) :=
  added ← tryAddNewSharedClient cfg prefix fresh now range;
  Ok (added, <[clientId := newDividedClient clientId]> clients).

(** The shared clients over time, with the clock: under the package's lock one
    may be added (its id is new); a client's counters change; one leaves. *)
Inductive pool_step : Z * list client → Z * list client → Prop :=
  | pool_tick now now' pool : (now <= now')%Z → pool_step (now, pool) (now', pool)
  | pool_add cfg prefix fresh now range pool added :
      range ≡ₚ pool → (prefix ++ lit ":" ++ fresh ∉ map id pool) →
      tryAddNewSharedClient cfg prefix fresh now range = Ok added →
      pool_step (now, pool) (now, match added with Some c => c :: pool | None => pool end)
  | pool_change now pool1 c c' pool2 :
      createdAt c' = createdAt c → id c' = id c →
      pool_step (now, pool1 ++ c :: pool2) (now, pool1 ++ c' :: pool2)
  | pool_leave now pool1 c pool2 : pool_step (now, pool1 ++ c :: pool2) (now, pool1 ++ pool2).
End Client.

(** ** The server's side (server.go) *)
Module Server.

Record replyChannel := mk_reply { trunkPrefix : bytes; ch : list Packet.Packet; createdAt : Z; lastActiveUnix : Z }.

Record instance := mk_instance {
  iTrunkPrefix : bytes;
  iClientId : bytes;
  ibuf : RwBuffer.ReadWriteBuffer;
  iexited : bool;
}.

Definition newInstance (trunkPrefix clientId : bytes) : instance :=
  mk_instance trunkPrefix clientId RwBuffer.NewReadWriteBuffer false.

(** [getReplyChannel]: the newest channel of the instance's trunk. *)
Definition getReplyChannel (prefix : bytes) (range : list replyChannel) : option replyChannel :=
  (foldl (keep_newest createdAt (λ c, bool_decide (trunkPrefix c = prefix))) (0%Z, None) range).2.

(** [writePacket]: the result of the buffer's [Write] is ignored. *)
Definition iwritePacket (p : Packet.Packet) (t : instance) : instance :=
  mk_instance (iTrunkPrefix t) (iClientId t) (RwBuffer.Write (Packet.Data p) (ibuf t)).2 (iexited t).

(** [instance.Read]: what is buffered.  With nothing buffered it waits, as
    [RwBuffer]'s threads do. *)
Definition iRead (n : nat) : M instance bytes := λ t,
  if decide (n = 0) then (Ok [], t) else
  let '(d, b) := RwBuffer.readFromBuf n (ibuf t) in
  (if decide (0 < length d) then Ok d else if RwBuffer.eof (ibuf t) then Err EOF else Hang,
   mk_instance (iTrunkPrefix t) (iClientId t) b (iexited t)).

(** [instance.Write]: the packet for the reply channel. *)
Definition reply_packet (dat : bytes) (t : instance) : Packet.Packet :=
  Packet.mk_Packet (iClientId t) 0 Packet.OP_DATA dat.
Definition iWrite (dat : bytes) (t : instance) (range : list replyChannel) : outcome (replyChannel * Packet.Packet) :=
  match getReplyChannel (iTrunkPrefix t) range with
  | None => Err EOF
  | Some r => Ok (r, reply_packet dat t)
  end.

(** The packet an instance's [start] sends when its session ends. *)
Definition eos_packet (t : instance) : Packet.Packet := Packet.mk_Packet (iClientId t) 0 Packet.OP_EOS [].

(** [instance.Close]: its buffer is closed. *)
Definition iClose (t : instance) : instance :=
  mk_instance (iTrunkPrefix t) (iClientId t) (RwBuffer.Close (ibuf t)).2 (iexited t).

(** What the reading goroutine of [pooledServerHandler] works on: the
    package's instances, the packets it queued for its own reply channel, and
    the instances it started. *)
Record trunk := mk_trunk { instances : gmap bytes instance; outbox : list Packet.Packet; started : list bytes }.

Definition set_instance cid i (t : trunk) : trunk := mk_trunk (<[cid := i]> (instances t)) (outbox t) (started t).

Definition handle_packet (prefix : bytes) (p : Packet.Packet) (t : trunk) : trunk :=
  if (Packet.Op p =? Packet.OP_PING)%Z then
    mk_trunk (instances t) (outbox t ++ [Packet.mk_Packet [] 0 Packet.OP_PONG []]) (started t)
  else
  let cid := Packet.ClientId p in
  if decide (length cid = 0) then t else
  if (Packet.Op p =? Packet.OP_EOS)%Z then
    match instances t !! cid with
    | Some inst => set_instance cid (iClose inst) t
    | None => t
    end
  else
  match instances t !! cid with
  | Some inst => set_instance cid (iwritePacket p inst) t
  | None =>
      if (Packet.Serial p =? 0)%Z then
        mk_trunk (<[cid := iwritePacket p (newInstance prefix cid)]> (instances t)) (outbox t) (started t ++ [cid])
      else t
  end.

Section serve.
Context {T : Type} `{Reader T}.

(** The loop of the reading goroutine, until [readPacket] fails. *)
Fixpoint serve_loop (fuel : nat) (prefix : bytes) : M (T * trunk) unit :=
  match fuel with
  | 0 => hang
  | S fuel =>
      r ← try (p ← on_fst Packet.readPacket; mret (Some p)) (λ _, mret None);
      match r with
      | None => mret tt
      | Some p => _ ← on_snd (modify (handle_packet prefix p)); serve_loop fuel prefix
      end
  end.

(** The fuel is the reader's own bound: a packet takes at least one read. *)
Definition serve (prefix : bytes) : M (T * trunk) unit := λ s, serve_loop (S (budget s.1)) prefix s.
End serve.

(** The prefix of a trunk's id, up to its colon; a trunk without one has its
    transport closed and the empty prefix. *)
Definition trunk_prefix (trunkClientId : bytes) : bytes :=
  match Http.Index trunkClientId (lit ":") with
  | Some p => if decide (p <= 0) then [] else take p trunkClientId
  | None => []
  end.

(** One turn of [instancesCleaner]. *)
Definition clean (insts : gmap bytes instance) : gmap bytes instance :=
  let removingKeys := map fst (filter (λ kv, iexited kv.2) (map_to_list insts)) in
  foldl (λ m k, delete k m) insts removingKeys.
End Server.

(** ** What choosing finds *)
Import Client.

Lemma getReplyChannel_newest (prefix : bytes) (range : list Server.replyChannel) :
  (∀ r, r ∈ range → (0 < Server.createdAt r)%Z) →
  match Server.getReplyChannel prefix range with
  | Some r => r ∈ range ∧ Server.trunkPrefix r = prefix ∧
      ∀ r', r' ∈ range → Server.trunkPrefix r' = prefix → (Server.createdAt r' <= Server.createdAt r)%Z
  | None => ∀ r, r ∈ range → Server.trunkPrefix r ≠ prefix
  end.
Proof.
  intros Hpos. unfold Server.getReplyChannel.
  destruct (keep_newest_spec Server.createdAt (λ c, bool_decide (Server.trunkPrefix c = prefix)) range (0%Z, None) Hpos)
    as [Hn Hs]; [by left|].
  destruct (foldl _ _ range).2 as [r|].
  - destruct (Hs r eq_refl) as (He & Hin & _ & _ & Hmax). apply bool_decide_eq_true in He.
    split; [by destruct Hin|]. split; [done|]. intros r' Hr' Hp'. apply Hmax; [done|]. by apply bool_decide_eq_true.
  - intros r Hr. destruct (Hn eq_refl) as [_ Hall]. specialize (Hall r Hr). by apply bool_decide_eq_false in Hall.
Qed.

(** The visit of [getAvailableSharedClient] keeps the newest connected client;
    before the first connected one it keeps the first client of all. *)
Lemma visit_available_spec (l : list client) (st : option client * option client * Z) :
  (∀ c, c ∈ l → (0 < createdAt c)%Z) →
  let '(any, sc, latest) := st in
  let '(any', sc', latest') := foldl visit_available st l in
  (latest = 0%Z ∨ (0 < latest)%Z ∧ ∃ c, sc = Some c ∧ connected c = true ∧ createdAt c = latest) →
  (latest', if (latest' =? 0)%Z then None else sc')
    = foldl (keep_newest createdAt connected) (latest, if (latest =? 0)%Z then None else sc) l ∧
  (latest' = 0%Z → sc' = match sc with Some _ => sc | None => head l end).
Proof.
  revert st. induction l as [|x l IH]; intros [[any sc] latest] Hpos; cbn [foldl].
  { intros _. split; [done|]. by destruct sc. }
  assert (Hx : (0 < createdAt x)%Z) by (apply Hpos; left).
  assert (Hl : ∀ a, a ∈ l → (0 < createdAt a)%Z) by (intros a Ha; apply Hpos; by right).
  specialize (IH (visit_available (any, sc, latest) x) Hl).
  destruct (visit_available (any, sc, latest) x) as [[any1 sc1] latest1] eqn:E1.
  destruct (foldl visit_available (any1, sc1, latest1) l) as [[any' sc'] latest'] eqn:E2.
  intros Hst. unfold visit_available in E1. unfold keep_newest at 2.
  destruct (connected x) eqn:Ex; cbn [fst snd].
  - destruct ((latest =? 0)%Z || (latest <? createdAt x)%Z) eqn:Ec.
    + injection E1 as <- <- <-. destruct IH as [IH1 IH2]; [right; split; [done|]; eauto|].
      destruct (Z.eqb_spec (createdAt x) 0); [lia|]. split; [done|].
      intros Hz. exfalso. rewrite Hz in IH1. cbn in IH1.
      destruct (keep_newest_spec createdAt connected l (createdAt x, Some x) Hl) as [Hn _]; [right; exists x; cbn; auto|].
      rewrite <- IH1 in Hn. by destruct (Hn eq_refl).
    + injection E1 as <- <- <-. apply orb_false_iff in Ec as [E0%Z.eqb_neq _].
      destruct Hst as [?|Hst]; [done|]. destruct IH as [IH1 IH2]; [by right|]. split; [done|].
      intros Hz. rewrite (IH2 Hz). destruct Hst as (_ & c & -> & _). done.
  - assert (Hl1 : latest1 = latest ∧ (latest = 0%Z → sc1 = match sc with Some _ => sc | None => Some x end) ∧
                  (latest ≠ 0%Z → (∃ c, sc = Some c) → sc1 = sc)).
    { destruct ((latest =? 0)%Z || (latest <? createdAt x)%Z) eqn:Ec.
      - destruct sc; injection E1 as <- <- <-; (split; [done|]); (split; [done|]); [done|].
        intros _ [? ?]. done.
      - injection E1 as <- <- <-. apply orb_false_iff in Ec as [E0%Z.eqb_neq _]. done. }
    destruct Hl1 as (-> & Hs1 & Hs2). destruct IH as [IH1 IH2].
    { destruct Hst as [?|[? (c & -> & Hc)]]; [by left|]. right. split; [done|]. exists c.
      rewrite Hs2 by (lia || eauto). done. }
    split.
    + rewrite IH1. f_equal. f_equal. destruct (Z.eqb_spec latest 0); [done|].
      destruct Hst as [?|[? (c & -> & Hc)]]; [done|]. by rewrite Hs2 by eauto.
    + intros Hz. rewrite (IH2 Hz). destruct (decide (latest = 0%Z)) as [H0|H0].
      * rewrite (Hs1 H0). by destruct sc.
      * destruct Hst as [?|[? (c & -> & Hc)]]; [done|]. by rewrite Hs2 by eauto.
Qed.

Lemma getAvailable_newest (range : list client) :
  (∀ c, c ∈ range → (0 < createdAt c)%Z) →
  match getAvailableSharedClient range with
  | None => range = []
  | Some c => c ∈ range ∧
      (∀ c', c' ∈ range → connected c' = true → connected c = true ∧ (createdAt c' <= createdAt c)%Z)
  end.
Proof.
  intros Hpos. destruct range as [|x0 l0] eqn:Er; [done|]. rewrite <- Er in *.
  assert (Hx0 : head range = Some x0) by (by rewrite Er). unfold getAvailableSharedClient.
  pose proof (visit_available_spec range (None, None, 0%Z) Hpos) as Hv. cbn beta iota in Hv.
  destruct (foldl visit_available (None, None, 0%Z) range) as [[any sc] latest].
  destruct Hv as [Hf Hz]; [by left|]. cbn in Hf.
  destruct (keep_newest_spec createdAt connected range (0%Z, None) Hpos) as [Hn Hs]; [by left|].
  destruct (Z.eqb_spec latest 0) as [H0|H0].
  - rewrite <- Hf in Hn. destruct (Hn eq_refl) as [_ Hall]. rewrite (Hz H0).
    rewrite Hx0. split; [rewrite Er; left|]. intros c' Hc' Hc. by rewrite (Hall c' Hc') in Hc.
  - rewrite <- Hf in Hs. cbn [snd fst] in Hs. destruct sc as [c|].
    + destruct (Hs c eq_refl) as (He & Hin & _ & _ & Hmax). split; [by destruct Hin|].
      intros c' Hc' Hc. split; [done|]. by apply Hmax.
    + rewrite <- Hf in Hn. destruct (Hn eq_refl) as [_ Hall].
      rewrite keep_newest_none in Hf by done. by injection Hf.
Qed.

(** ** The number of shared clients *)
Lemma count_spec (now : Z) (range : list client) (st : Z * Z) :
  (0 ≤ st.2)%Z →
  let st' := foldl (visit_count now) st range in
  (st'.1 = st.1 + len range)%Z ∧ (st.2 ≤ st'.2)%Z ∧
  (st'.2 = st.2 → ∀ c, c ∈ range → (createdAt c <= now - 300)%Z).
Proof.
  revert st. induction range as [|x l IH]; intros st Hst; cbn [foldl].
  { split; [unfold len; cbn; lia|]. split; [lia|]. by intros _ ? ?%elem_of_nil. }
  assert (E1 : (visit_count now st x).1 = (st.1 + 1)%Z) by done.
  assert (E2 : (visit_count now st x).2 = if (now - 300 <? createdAt x)%Z then (st.2 + 1)%Z else st.2) by done.
  generalize dependent (visit_count now st x). intros st1 E1 E2.
  destruct (IH st1) as (IH1 & IH2 & IH3); [rewrite E2; destruct (_ <? _)%Z; lia|].
  unfold len in *. cbn [length]. rewrite E2 in *.
  split; [lia|]. destruct (Z.ltb_spec (now - 300) (createdAt x)) as [Hx|Hx]; (split; [lia|]).
  - intros. lia.
  - intros Heq c [->|Hc]%elem_of_cons; [lia|by apply IH3].
Qed.

Lemma tryAdd_inv (cfg : Conf.Values) (prefix fresh : bytes) (now : Z) (range : list client) (added : option client) :
  tryAddNewSharedClient cfg prefix fresh now range = Ok added →
  match added with
  | Some c => (len range < 5)%Z ∧ (∀ c', c' ∈ range → (createdAt c' <= now - 300)%Z) ∧
              c = newClient (prefix ++ lit ":" ++ fresh) now
  | None => (5 <= len range)%Z ∨ ∃ c', c' ∈ range ∧ (now - 300 < createdAt c')%Z
  end.
Proof.
  unfold tryAddNewSharedClient. pose proof (count_spec now range (0%Z, 0%Z) ltac:(done)) as (Ht & Hge & Hh).
  destruct (foldl (visit_count now) (0%Z, 0%Z) range) as [total healthy] eqn:Ef. cbn [fst snd] in *.
  destruct (Z.ltb_spec total 5) as [Hlt|Hge5]; cbn [andb].
  2: { intros [= <-]. left. lia. }
  destruct (Z.eqb_spec healthy 0) as [->|Hne].
  - destruct (H1.NewClient _ _) as [?|?| |]; cbn [mbind outcome_bind]; try done. intros [= <-].
    split; [lia|]. split; [by apply Hh|done].
  - intros [= <-]. right.
    destruct (decide (Exists (λ c', (now - 300 < createdAt c')%Z) range)) as [He|Hno];
      [by apply Exists_exists in He|]. exfalso. apply Hne.
    assert (Hall : ∀ c, c ∈ range → (now - 300 <? createdAt c)%Z = false).
    { intros c Hc. apply Z.ltb_ge. destruct (decide (createdAt c <= now - 300)%Z); [done|]. exfalso. apply Hno.
      apply Exists_exists. exists c. split; [done|lia]. }
    assert (Hk : ∀ l (st : Z * Z), (∀ c, c ∈ l → (now - 300 <? createdAt c)%Z = false) →
        (foldl (visit_count now) st l).2 = st.2).
    { intros l. induction l as [|x l IHl]; intros st Hl; [done|]. cbn [foldl]. rewrite IHl.
      - unfold visit_count. cbn [snd]. by rewrite Hl by left.
      - intros c Hc. apply Hl. by right. }
    specialize (Hk range (0%Z, 0%Z) Hall). by rewrite Ef in Hk.
Qed.

Definition spaced (c c' : client) : Prop := (300 <= Z.abs (createdAt c - createdAt c'))%Z.

(** At most five, of different ids, created at least 300 seconds apart. *)
Definition pool_ok (st : Z * list client) : Prop :=
  (0 < st.1)%Z ∧ (len st.2 <= 5)%Z ∧ (∀ c, c ∈ st.2 → (0 < createdAt c <= st.1)%Z) ∧
  NoDup (map id st.2) ∧ ForallOrdPairs spaced st.2.

Lemma ordpairs_app {A} (R : A → A → Prop) (l k : list A) :
  ForallOrdPairs R (l ++ k) ↔ ForallOrdPairs R l ∧ ForallOrdPairs R k ∧ ∀ x y, x ∈ l → y ∈ k → R x y.
Proof.
  induction l as [|a l IH]; cbn [app].
  - split; [intros; split; [constructor|split; [done|by intros ? ? ?%elem_of_nil]]|by intros (_ & ? & _)].
  - split.
    + inversion 1 as [|? ? Ha Hl]; subst. apply IH in Hl as (H1 & H2 & H3). rewrite Forall_app in Ha.
      destruct Ha as [Ha1 Ha2]. split; [by constructor|]. split; [done|].
      intros x y [->|Hx]%elem_of_cons Hy; [|by apply H3]. rewrite Forall_forall in Ha2. by apply Ha2.
    + intros (H1 & H2 & H3). inversion H1 as [|? ? Ha Hl]; subst. constructor.
      * apply Forall_app. split; [done|]. apply Forall_forall. intros y Hy. apply H3; [left|done].
      * apply IH. split; [done|]. split; [done|]. intros x y Hx Hy. apply H3; [by right|done].
Qed.

Lemma pool_step_ok (st st' : Z * list client) : pool_step st st' → pool_ok st → pool_ok st'.
Proof.
  intros Hst (H0 & Hn & Ht & Hid & Hsp). destruct Hst as [now now' pool Hle|cfg prefix fresh now range pool added Hp Hf Ha
    |now pool1 c c' pool2 Hc Hi|now pool1 c pool2]; cbn [fst snd] in *.
  - split; [cbn; lia|]. split; [done|]. split; [|done]. intros c Hc. cbn in *. specialize (Ht c Hc). lia.
  - apply tryAdd_inv in Ha. destruct added as [c|]; [|done]. destruct Ha as (Hlt & Hold & ->).
    assert (Hlen : len range = len pool) by (unfold len; by rewrite Hp).
    assert (Hold' : ∀ c', c' ∈ pool → (createdAt c' <= now - 300)%Z) by (intros c' Hc'; apply Hold; by rewrite Hp).
    split; [done|]. split; [unfold len in *; cbn [snd length]; lia|]. cbn [fst snd].
    split; [intros c [->|Hc]%elem_of_cons; [cbn; lia|by apply Ht]|].
    split; [cbn [map newClient id]; by constructor|]. constructor; [|done].
    apply Forall_forall. intros c' Hc'. unfold spaced. cbn [newClient createdAt]. specialize (Hold' c' Hc'). lia.
  - split; [done|]. split; [unfold len in *; cbn [snd] in *; rewrite !length_app in *; cbn [length] in *; lia|].
    split; [|split].
    + intros x Hx. cbn in *. apply elem_of_app in Hx as [Hx|[->|Hx]%elem_of_cons].
      * apply Ht, elem_of_app. by left.
      * rewrite Hc. apply Ht, elem_of_app. right. left.
      * apply Ht, elem_of_app. right. by right.
    + cbn in *. rewrite map_app in *. cbn [map] in *. by rewrite Hi.
    + cbn in *. apply ordpairs_app in Hsp as (H1 & H2 & H3). inversion H2 as [|? ? Ha Hl]; subst.
      apply ordpairs_app. split; [done|]. split.
      * constructor; [|done]. eapply Forall_impl; [exact Ha|]. unfold spaced. by rewrite Hc.
      * intros x y Hx [->|Hy]%elem_of_cons.
        -- unfold spaced. rewrite Hc. apply H3; [done|left].
        -- apply H3; [done|by right].
  - split; [done|]. split; [unfold len in *; cbn [snd] in *; rewrite !length_app in *; cbn [length] in *; lia|].
    split; [|split].
    + intros x Hx. apply Ht. cbn in *. apply elem_of_app in Hx as [Hx|Hx]; apply elem_of_app; [by left|right; by right].
    + cbn in *. rewrite map_app in *. cbn [map] in *. apply NoDup_app in Hid as (N1 & N2 & N3).
      apply NoDup_cons in N3 as [_ N3]. apply NoDup_app. split; [done|]. split; [|done].
      intros x Hx Hx'. apply (N2 x Hx). by right.
    + cbn in *. apply ordpairs_app in Hsp as (H1 & H2 & H3). inversion H2; subst. apply ordpairs_app.
      split; [done|]. split; [done|]. intros x y Hx Hy. apply H3; [done|by right].
Qed.

(** Who is the oldest does not depend on the order of the visit. *)
Lemma visit_oldest_spec (range : list client) (st : Z * Z * bytes) :
  (∀ c, c ∈ range → (0 < createdAt c)%Z) →
  let '(t, o, oid) := st in
  let '(t', o', oid') := foldl visit_oldest st range in
  (0 ≤ o)%Z →
  (t' = t + len range)%Z ∧ (0 ≤ o')%Z ∧
  (o' = o ∧ oid' = oid ∨ ∃ c, c ∈ range ∧ id c = oid' ∧ createdAt c = o') ∧
  (range ≠ [] → ∀ c, c ∈ range → (0 < o' <= createdAt c)%Z) ∧ (o ≠ 0 → (0 < o' <= o))%Z.
Proof.
  revert st. induction range as [|x l IH]; intros [[t o] oid] Hpos; cbn [foldl].
  { intros Ho. unfold len. cbn. repeat split; try done; try lia. by left. }
  assert (Hx : (0 < createdAt x)%Z) by (apply Hpos; left).
  assert (Hl : ∀ a, a ∈ l → (0 < createdAt a)%Z) by (intros a Ha; apply Hpos; by right).
  specialize (IH (visit_oldest (t, o, oid) x) Hl).
  destruct (visit_oldest (t, o, oid) x) as [[t1 o1] oid1] eqn:E1.
  destruct (foldl visit_oldest (t1, o1, oid1) l) as [[t' o'] oid'].
  intros Ho. unfold visit_oldest in E1. unfold len in *. cbn [length].
  assert (E : t1 = (t + 1)%Z ∧ (0 < o1 <= createdAt x)%Z ∧ (o ≠ 0 → o1 <= o)%Z ∧
              (o1 = createdAt x ∧ oid1 = id x ∨ o1 = o ∧ oid1 = oid)).
  { destruct ((o =? 0)%Z || (createdAt x <? o)%Z) eqn:Ec; injection E1 as <- <- <-.
    - apply orb_true_iff in Ec as [->%Z.eqb_eq|Hc%Z.ltb_lt]; (repeat split; try lia; by left).
    - apply orb_false_iff in Ec as [Hc1%Z.eqb_neq Hc2%Z.ltb_ge]. repeat split; try lia. by right. }
  destruct E as (-> & Ho1 & Hoo & Hcase). destruct IH as (I1 & I2 & I3 & I4 & I5); [lia|].
  specialize (I5 ltac:(lia)). split; [lia|]. split; [done|]. split.
  - destruct I3 as [[-> ->]|(c & Hc & ? & ?)]; [|right; exists c; split; [by right|done]].
    destruct Hcase as [[-> ->]|[-> ->]]; [right; exists x; split; [left|done]|by left].
  - split; [|lia]. intros _ c [->|Hc]%elem_of_cons; [lia|]. apply I4; [by destruct l; [apply elem_of_nil in Hc|]|done].
Qed.

Lemma queryClientInfo_spec (cid : bytes) (range : list client) (total : Z) :
  (∀ c, c ∈ range → (0 < createdAt c)%Z) → range ≠ [] →
  queryClientInfo cid range = (true, total) →
  total = len range ∧ ∃ c, c ∈ range ∧ id c = cid ∧ ∀ c', c' ∈ range → (createdAt c <= createdAt c')%Z.
Proof.
  intros Hpos Hne. unfold queryClientInfo. pose proof (visit_oldest_spec range (0%Z, 0%Z, []) Hpos) as Hs.
  cbn beta iota in Hs. destruct (foldl visit_oldest _ range) as [[t o] oid].
  destruct (Hs ltac:(done)) as (Ht & _ & Hc & Hmin & _). intros [= Hid <-]. apply bool_decide_eq_true in Hid.
  split; [lia|]. specialize (Hmin Hne). destruct Hc as [[-> _]|(c & Hin & Hi & Ho)].
  - destruct range as [|x l]; [done|]. specialize (Hmin x ltac:(left)). lia.
  - exists c. split; [done|]. split; [congruence|]. intros c' Hc'. specialize (Hmin c' Hc'). lia.
Qed.

Lemma decommission_oldest (now : Z) (pool range : list client) (c : client) :
  (∀ c, c ∈ pool → (0 < createdAt c)%Z) → NoDup (map id pool) → range ≡ₚ pool → c ∈ pool →
  decommission now range c = true →
  (∀ c', c' ∈ pool → (createdAt c <= createdAt c')%Z) ∧
  (lastDataUnix c + 60 < now ∨ 1 < len pool ∧ lastDataUnix c + 30 < now)%Z.
Proof.
  intros Hpos Hid Hp Hc. unfold decommission. destruct (_ <? now)%Z; [|done].
  destruct (queryClientInfo (id c) range) as [oldest total] eqn:Eq. destruct oldest; [|done]. cbn [andb].
  destruct (queryClientInfo_spec (id c) range total) as (Ht & c0 & Hin & Hi & Hmin).
  - intros c' Hc'. apply Hpos. by rewrite <- Hp.
  - intros ->. apply Permutation_nil_l in Hp. subst. by apply elem_of_nil in Hc.
  - done.
  - assert (c0 = c) as ->.
    { assert (Hin0 : c0 ∈ pool) by (by rewrite <- Hp). clear -Hid Hin0 Hc Hi.
      induction pool as [|x l IH]; [by apply elem_of_nil in Hc|]. cbn [map] in Hid.
      apply NoDup_cons in Hid as [Hx Hid].
      apply elem_of_cons in Hin0 as [->|H0]; apply elem_of_cons in Hc as [->|H1]; [done| | |by apply IH].
      - exfalso. apply Hx. rewrite Hi. by apply list_elem_of_fmap_2.
      - exfalso. apply Hx. rewrite <- Hi. by apply list_elem_of_fmap_2. }
    intros He. split; [intros c' Hc'; apply Hmin; by rewrite Hp|].
    assert (Hlen : len range = len pool) by (unfold len; by rewrite Hp).
    apply orb_true_iff in He as [[H1%Z.ltb_lt H2%Z.ltb_lt]%andb_true_iff|H1%Z.ltb_lt]; [right; lia|by left].
Qed.
