(* ===== verification/PoolMux.v ===== *)
(** Multiplexing over a pooled transport: the composition of the divided
    clients, the packets and the server's instances of [transport/h1pool]
    (src/transport/h1pool/client.go, packet.go, server.go), and the properties
    of the pool. *)
From S2P Require Import Prelude GoIO Strconv Json Conf Packet RwBuffer Http H1 Pool.

Module PoolMux.

(** Writes of divided clients through one shared client, in the order in which
    they take its lock ([client.lck]): the time, the client, the data.  This is
    the form of every interleaving of the writing goroutines. *)
Definition schedule : Type := list (Z * bytes * bytes).

Inductive trunk_writes {W} `{Writer W} :
    schedule → W * Client.client * Client.divided → W * Client.client * Client.divided → Prop :=
  | writes_done s : trunk_writes [] s s
  | writes_next now cid dat ops w c clients cl n w' c' cl' s :
      clients !! cid = Some cl →
      Client.DWrite now (Some c) dat (w, c, cl) = (Ok n, (w', c', cl')) →
      trunk_writes ops (w', c', <[cid := cl']> clients) s →
      trunk_writes ((now, cid, dat) :: ops) (w, c, clients) s.

(** What a schedule has client [cid] send, if it writes at all. *)
Fixpoint stream_of (cid : bytes) (ops : schedule) : option bytes :=
  match ops with
  | [] => None
  | (_, c, d) :: ops =>
      if decide (c = cid) then Some (d ++ default [] (stream_of cid ops)) else stream_of cid ops
  end.

(** Ids a packet can carry. *)
Definition id_ok (cid : bytes) : bool :=
  negb (bool_decide (cid = [])) && utf8_valid cid &&
  (len (Packet.meta_of (Packet.mk_Packet cid 0 Packet.OP_DATA [])) <=? Packet.MAX_META_SIZE)%Z.

(** What the server holds of client [cid]: no instance, or one of this trunk
    whose buffer holds exactly [d]. *)
Definition stream_at (prefix : bytes) (t : Server.trunk) (cid : bytes) (st : option bytes) : Prop :=
  match st with
  | None => Server.instances t !! cid = None
  | Some d => ∃ inst, Server.instances t !! cid = Some inst ∧ Server.iClientId inst = cid ∧
      Server.iTrunkPrefix inst = prefix ∧ RwBuffer.sound (Server.ibuf inst) ∧
      RwBuffer.eof (Server.ibuf inst) = false ∧ RwBuffer.content (Server.ibuf inst) = d
  end.

Definition join (a b : option bytes) : option bytes :=
  match a with Some x => Some (x ++ default [] b) | None => b end.

(** The pools of shared clients a process can get to, from an empty one. *)
Definition pool_reachable (now0 : Z) (st : Z * list Client.client) : Prop := rtc Client.pool_step (now0, []) st.

(** The choice of a divided client from a pool: a connected client, the newest
    one, if any is connected. *)
Definition best_client (c : Client.client) (pool : list Client.client) : Prop :=
  c ∈ pool ∧ ∀ c', c' ∈ pool → Client.connected c' = true →
    Client.connected c = true ∧ (Client.createdAt c' <= Client.createdAt c)%Z.

(** Packet [p], written on [w], arrives as a packet with property [Q]. *)
Definition arrives {W R} `{WriterLaws W} `{ReaderLaws R} (p : Packet.Packet) (w : W) (Q : Packet.Packet → Prop) : Prop :=
  ∃ w' wire, Packet.writePacket p w = (Ok tt, w') ∧ emitted w w' wire ∧
    ∀ (r : R) rest, delivers r (wire ++ rest) →
    ∃ r' q, Packet.readPacket r = (Ok q, r') ∧ delivers r' rest ∧ Q q.

(** What a buffer accepts without a reader. *)
Definition capacity : Z := RwBuffer.BUF_SIZE_MAX - RwBuffer.BUF_SIZE.

Lemma buf_write (d : bytes) (f : RwBuffer.ReadWriteBuffer) :
  RwBuffer.sound f → RwBuffer.eof f = false → (len (RwBuffer.content f) + len d <= capacity)%Z →
  let f' := (RwBuffer.Write d f).2 in
  RwBuffer.sound f' ∧ RwBuffer.eof f' = false ∧ RwBuffer.content f' = RwBuffer.content f ++ d.
Proof.
  intros Hs He Hc. unfold RwBuffer.Write. rewrite He.
  pose proof (RwBuffer.writeBody_ok d f Hs) as Hw.
  destruct (RwBuffer.writeBody d f) as [[n|e| |] f'] eqn:E; try done.
  - destruct Hw as (_ & ? & ? & ?). cbn. by rewrite <- He.
  - apply RwBuffer.writeBody_refuses in E; [unfold capacity in *; lia|done].
Qed.

Section feed.
Context (prefix : bytes).

(** One data packet of a client. *)
Lemma handle_data (cid : bytes) (s : Z) (d : bytes) (t : Server.trunk) (st : option bytes) :
  cid ≠ [] → stream_at prefix t cid st → (st = None → s = 0%Z) →
  (len (default [] st) + len d <= capacity)%Z →
  let t' := Server.handle_packet prefix (Packet.mk_Packet cid s Packet.OP_DATA d) t in
  stream_at prefix t' cid (Some (default [] st ++ d)) ∧
  (∀ cid', cid' ≠ cid → Server.instances t' !! cid' = Server.instances t !! cid') ∧
  Server.outbox t' = Server.outbox t.
Proof.
  intros Hcid Hst Hs Hc. unfold Server.handle_packet. cbn [Packet.Op Packet.ClientId Packet.Serial].
  change (Packet.OP_DATA =? Packet.OP_PING)%Z with false.
  change (Packet.OP_DATA =? Packet.OP_EOS)%Z with false. cbn match.
  destruct (decide (length cid = 0)) as [Hn|_]; [by apply nil_length_inv in Hn|].
  destruct st as [d0|]; cbn [stream_at default] in *.
  - destruct Hst as (inst & Hi & H1 & H2 & H3 & H4 & <-). rewrite Hi.
    unfold Server.set_instance. cbn [Server.instances Server.outbox].
    destruct (buf_write d _ H3 H4 Hc) as (B1 & B2 & B3).
    split; [|split; [intros; by apply lookup_insert_ne|done]].
    eexists. split; [apply lookup_insert_eq|]. cbn [Server.iClientId Server.iTrunkPrefix Server.ibuf Server.iwritePacket].
    do 4 (split; [done|]). exact B3.
  - rewrite Hst, (Hs eq_refl). change (0 =? 0)%Z with true. cbn match. cbn [Server.instances Server.outbox].
    destruct (buf_write d RwBuffer.NewReadWriteBuffer RwBuffer.new_sound eq_refl Hc) as (B1 & B2 & B3).
    split; [|split; [intros; by apply lookup_insert_ne|done]].
    eexists. split; [apply lookup_insert_eq|]. cbn [Server.iClientId Server.iTrunkPrefix Server.ibuf Server.iwritePacket].
    do 4 (split; [done|]). exact B3.
Qed.

(** The packets one write is cut into. *)
Lemma handle_parts (cid : bytes) (s : Z) (parts : list bytes) (t : Server.trunk) (st : option bytes) :
  cid ≠ [] → stream_at prefix t cid st → (st = None → s = 0%Z) → parts ≠ [] →
  (len (default [] st) + len (concat parts) <= capacity)%Z →
  let t' := foldl (flip (Server.handle_packet prefix)) t (map (Packet.mk_Packet cid s Packet.OP_DATA) parts) in
  stream_at prefix t' cid (Some (default [] st ++ concat parts)) ∧
  (∀ cid', cid' ≠ cid → Server.instances t' !! cid' = Server.instances t !! cid') ∧
  Server.outbox t' = Server.outbox t.
Proof.
  intros Hcid. revert t st. induction parts as [|d parts IH]; intros t st Hst Hs Hne Hc; [done|].
  cbn [concat] in *. unfold len in *. rewrite length_app in Hc.
  destruct (handle_data cid s d t st Hcid Hst Hs) as (K1 & K2 & K3); [unfold len; lia|].
  cbn [map foldl]. destruct parts as [|d2 parts].
  - cbn [map foldl concat]. by rewrite app_nil_r.
  - destruct (IH _ _ K1 ltac:(done) ltac:(done)) as (I1 & I2 & I3).
    + cbn [from_option id]. rewrite length_app. lia.
    + rewrite app_assoc. split; [exact I1|]. split; [|by etrans; [exact I3|exact K3]].
      intros cid' Hne'. etrans; [by apply I2|by apply K2].
Qed.

Section serve.
Context {R : Type} `{ReaderLaws R}.

Definition wire1 (q : Packet.Packet * bytes) : bytes := Packet.packet_wire q.1 (Packet.meta_of q.1) q.2.
Definition recv1 (q : Packet.Packet * bytes) : Packet.Packet :=
  Packet.mk_Packet (Packet.id_of q.1) (Packet.Serial q.1) (Packet.Op q.1) q.2.
Definition wire_ok (q : Packet.Packet * bytes) : Prop :=
  Packet.packet_ok q.1 = true ∧ (len q.2 <= Packet.MAX_PACKET_SIZE)%Z.

(** The reading goroutine handles the packets of its input in their order. *)
Lemma serve_wire (qs : list (Packet.Packet * bytes)) (r : R) (t : Server.trunk) (fuel : nat) :
  Forall wire_ok qs → delivers r (concat (map wire1 qs)) → budget r < fuel →
  ∃ r', Server.serve_loop fuel prefix (r, t)
        = (Ok tt, (r', foldl (flip (Server.handle_packet prefix)) t (map recv1 qs))).
Proof.
  intros Hqs. revert r t fuel. induction Hqs as [|[p d] qs [Hp Hl] _ IH]; intros r t fuel Hd Hf;
    (destruct fuel as [|fuel]; [lia|]); cbn [map concat foldl] in *.
  - destruct (Packet.readPacket_end r Hd) as (r' & Hr & _). exists r'. cbn [Server.serve_loop].
    unfold try, on_fst, mbind, M_bind. cbn [fst snd]. by rewrite Hr.
  - destruct (Packet.readPacket_wire_budget p d _ r Hp Hl Hd) as (r1 & Hr & Hd1 & Hb1).
    destruct (IH r1 (Server.handle_packet prefix (recv1 (p, d)) t) fuel Hd1 ltac:(lia)) as (r' & Hs).
    exists r'. cbn [Server.serve_loop]. unfold try, on_fst, on_snd, mbind, M_bind, mret, M_ret, modify in *.
    cbn [fst snd] in *. rewrite Hr. cbn [fst snd]. exact Hs.
Qed.
End serve.
End feed.
Section write.
Context {W : Type} `{WriterLaws W}.

Lemma meta_of_id (cid : bytes) (s : Z) (d : bytes) :
  Packet.meta_of (Packet.mk_Packet cid s Packet.OP_DATA d)
  = Packet.meta_of (Packet.mk_Packet cid 0 Packet.OP_DATA []).
Proof. reflexivity. Qed.

Lemma id_ok_packet (cid : bytes) (s : Z) (d : bytes) :
  id_ok cid = true → (0 <= s < 2 ^ 32)%Z →
  cid ≠ [] ∧ Packet.packet_ok (Packet.mk_Packet cid s Packet.OP_DATA d) = true.
Proof.
  unfold id_ok, Packet.packet_ok. rewrite (meta_of_id cid s d), !andb_true_iff.
  intros [[Hne%negb_true_iff%bool_decide_eq_false Hu] Hm] [Hs1 Hs2]. split; [done|].
  cbn [Packet.Op Packet.Serial Packet.ClientId].
  split; [split; [split; [split; [reflexivity|by apply Z.leb_le]|by apply Z.ltb_lt]|done]|done].
Qed.

(** One write of a divided client: its packets, and its next serial. *)
Lemma write_one (now : Z) (c : Client.client) (cl : Client.dividedClient) (dat : bytes) (w : W) :
  let cid := Client.clientId cl in
  Packet.room w → id_ok cid = true → (0 <= Client.serial cl < 2 ^ 32 - 1)%Z →
  ∃ w' c' parts, Client.DWrite now (Some c) dat (w, c, cl)
    = (Ok (len dat), (w', c', Client.mk_divided cid (Client.buf cl) (Client.serial cl + 1) (Client.registered cl))) ∧
    let p := Packet.mk_Packet cid (Client.serial cl) Packet.OP_DATA dat in
    emitted w w' (concat (map wire1 (map (pair p) parts))) ∧
    Forall wire_ok (map (pair p) parts) ∧ parts ≠ [] ∧ concat parts = dat ∧
    map recv1 (map (pair p) parts) = map (Packet.mk_Packet cid (Client.serial cl) Packet.OP_DATA) parts.
Proof.
  intros cid Hw Hid Hs. set (p := Packet.mk_Packet cid (Client.serial cl) Packet.OP_DATA dat).
  destruct (id_ok_packet cid (Client.serial cl) dat Hid) as [_ Hok]; [lia|].
  pose proof Hok as Hm. unfold Packet.packet_ok in Hm. rewrite !andb_true_iff, !Z.leb_le in Hm. destruct Hm as [_ Hm].
  destruct (Packet.writePacket_wire p w Hw Hm) as (w' & parts & Hwr & He & Hparts & Hne & Hc).
  exists w', (Client.data_sent now (len dat) c), parts. split; [|split; [|split; [|split; [done|split; [done|]]]]].
  - assert (Hc1 : Client.writePacket now p (w, c) = (Ok tt, (w', Client.data_sent now (len dat) c))).
    { unfold Client.writePacket. by run (run_fst _ _ _ c _ Hwr). }
    unfold Client.DWrite, Client.data_packet, Client.next_serial. cbn [fst snd].
    rewrite uint32_small by lia. by run (run_fst _ _ _ (Client.mk_divided _ _ _ _) _ Hc1).
  - rewrite map_map. exact He.
  - apply Forall_map. refine (Forall_impl _ _ _ Hparts _). intros d Hd. by split.
  - by rewrite map_map.
Qed.
End write.

(** ** Any interleaving of writes *)

(** What is known of each divided client while a schedule runs. *)
Definition served (prefix : bytes) (clients : Client.divided) (hist : bytes → option bytes) (n : Z) (t : Server.trunk) : Prop :=
  ∀ cid cl, clients !! cid = Some cl →
    Client.clientId cl = cid ∧ id_ok cid = true ∧ (0 <= Client.serial cl <= n)%Z ∧
    (hist cid = None → Client.serial cl = 0%Z) ∧ stream_at prefix t cid (hist cid).

Lemma len_app (a b : bytes) : len (a ++ b) = (len a + len b)%Z.
Proof. unfold len. rewrite length_app. lia. Qed.

(** What has been sent so far, after one more write. *)
Definition extend (hist : bytes → option bytes) (cid d : bytes) (cid' : bytes) : option bytes :=
  if decide (cid' = cid) then Some (default [] (hist cid) ++ d) else hist cid'.

Lemma join_extend (hist : bytes → option bytes) (now : Z) (cid d : bytes) (ops : schedule) (cid' : bytes) :
  join (extend hist cid d cid') (stream_of cid' ops) = join (hist cid') (stream_of cid' ((now, cid, d) :: ops)).
Proof.
  unfold extend. cbn [stream_of]. destruct (decide (cid' = cid)) as [->|Hc].
  - rewrite decide_True by done. destruct (hist cid); cbn [join from_option id]; by rewrite <- ?app_assoc.
  - by rewrite decide_False by done.
Qed.

Lemma mux_run {W} `{WriterLaws W} (prefix : bytes) (ops : schedule) (w : W) (c : Client.client)
    (clients : Client.divided) (hist : bytes → option bytes) (n : Z) (t : Server.trunk) :
  Packet.room w → served prefix clients hist n t → (0 <= n)%Z → (n + len ops < 2 ^ 32)%Z →
  (∀ now cid d, (now, cid, d) ∈ ops → is_Some (clients !! cid)) →
  (∀ cid, (len (default [] (join (hist cid) (stream_of cid ops))) <= capacity)%Z) →
  ∃ w' c' clients' qs, trunk_writes ops (w, c, clients) (w', c', clients') ∧
    emitted w w' (concat (map wire1 qs)) ∧ Forall wire_ok qs ∧ dom clients' = dom clients ∧
    let t' := foldl (flip (Server.handle_packet prefix)) t (map recv1 qs) in
    served prefix clients' (λ cid, join (hist cid) (stream_of cid ops)) (n + len ops) t' ∧
    (∀ cid, clients !! cid = None → Server.instances t' !! cid = Server.instances t !! cid) ∧
    Server.outbox t' = Server.outbox t.
Proof.
  revert w c clients hist n t. induction ops as [|[[now cid] d] ops IH]; intros w c clients hist n t Hw Hsv Hn Hlen Hops Hcap.
  { exists w, c, clients, []. split; [constructor|]. split; [apply emitted_nil|]. split; [constructor|]. split; [done|].
    split; [|done]. intros cid cl Hcl. unfold len. cbn [length map foldl stream_of]. rewrite Z.add_0_r.
    destruct (Hsv cid cl Hcl) as (? & ? & ? & Hh & Hst). split; [done|]. split; [done|]. split; [done|].
    destruct (hist cid) as [h|]; cbn [join from_option id]; rewrite ?app_nil_r; done. }
  destruct (Hops now cid d ltac:(left)) as [cl Hcl].
  destruct (Hsv cid cl Hcl) as (Hci & Hid & Hser & Hnone & Hst).
  unfold len in Hlen. cbn [length] in Hlen. rewrite Nat2Z.inj_succ in Hlen.
  destruct (write_one now c cl d w Hw) as (w1 & c1 & parts & Hd & He & Hok & Hne & Hcat & Hrecv); [by rewrite Hci|lia|].
  rewrite Hci in *. set (cl1 := Client.mk_divided _ _ _ _) in *.
  destruct (handle_parts prefix cid (Client.serial cl) parts t (hist cid)) as (P1 & P2 & P3);
    [by destruct (id_ok_packet cid 0 [] Hid ltac:(lia))|done|done|done| |].
  { specialize (Hcap cid). cbn [stream_of] in Hcap. rewrite decide_True in Hcap by done. rewrite Hcat.
    destruct (hist cid) as [h|]; cbn [join from_option id] in *; rewrite ?len_app in *;
      pose proof (len_nonneg (default [] (stream_of cid ops))); unfold len in *; cbn [length]; lia. }
  rewrite <- Hrecv in P1, P2, P3. set (q1 := map (pair _) parts) in *.
  set (t1 := foldl (flip (Server.handle_packet prefix)) t (map recv1 q1)) in *.
  set (hist1 := extend hist cid d).
  assert (Hdom : dom (<[cid := cl1]> clients) = dom clients).
  { rewrite dom_insert_L. apply subseteq_union_1_L, singleton_subseteq_l. by apply elem_of_dom_2 in Hcl. }
  destruct (IH w1 c1 (<[cid := cl1]> clients) hist1 (n + 1)%Z t1) as (w' & c' & clients' & qs & R1 & R2 & R3 & R4 & R5 & R6 & R7).
  - by eapply write_pre_emitted.
  - intros cid' cl' [(<- & <-)|(Hc & Hl)]%lookup_insert_Some.
    + unfold hist1, extend. rewrite decide_True by done. split; [done|]. split; [done|].
      split; [unfold cl1; cbn [Client.serial]; lia|]. split; [done|]. by rewrite <- Hcat.
    + destruct (Hsv cid' cl' Hl) as (? & ? & ? & Hh & Hs'). unfold hist1, extend. rewrite decide_False by done.
      split; [done|]. split; [done|]. split; [lia|]. split; [done|].
      destruct (hist cid'); cbn [stream_at] in *; by rewrite P2 by done.
  - lia.
  - unfold len. lia.
  - intros now' cid' d' Hin. destruct (decide (cid' = cid)) as [->|Hc]; [by rewrite lookup_insert_eq|].
    rewrite lookup_insert_ne by done. apply (Hops now' cid' d'). by right.
  - intros cid'. unfold hist1. rewrite (join_extend hist now cid d). apply Hcap.
  - exists w', c', clients', (q1 ++ qs).
    split; [by eapply writes_next|]. split; [rewrite map_app, concat_app; by eapply emitted_app|].
    split; [by apply Forall_app|]. split; [by rewrite R4|]. rewrite map_app, foldl_app. fold t1.
    split; [|split].
    + intros cid' cl' Hl. specialize (R5 cid' cl' Hl). cbn beta in R5. unfold hist1 in R5. rewrite (join_extend hist now cid d) in R5. unfold len in *. cbn [length].
      rewrite Nat2Z.inj_succ. by replace (n + Z.succ (Z.of_nat (length ops)))%Z with (n + 1 + Z.of_nat (length ops))%Z by lia.
    + intros cid' Hn'. assert (cid' ≠ cid) by congruence.
      rewrite R6 by (by rewrite lookup_insert_ne). by apply P2.
    + by rewrite R7.
Qed.
(** ** Waiting for a shared client *)
Lemma wait_client_spec (P : list Client.client → Client.client → Prop) (snap : nat → list Client.client)
    (fuel k : nat) (dur : Z) :
  (∀ j, match Client.getAvailableSharedClient (snap j) with None => snap j = [] | Some c => P (snap j) c end) →
  (dur = 2 * (Z.of_nat k - 1))%Z → (k ≤ 16)%nat → (17 ≤ k + fuel)%nat → (∀ j, j < k → snap j = []) →
  match Client.wait_client fuel snap k dur with
  | Ok (Some c) => ∃ i, i ≤ 16 ∧ P (snap i) c ∧ ∀ j, j < i → snap j = []
  | Ok None => ∀ i, i ≤ 16 → snap i = []
  | _ => False
  end.
Proof.
  intros Hget. revert k dur. induction fuel as [|fuel IH]; intros k dur Hd Hk Hf Hb; [lia|].
  cbn [Client.wait_client]. specialize (Hget k) as Hg.
  destruct (Client.getAvailableSharedClient (snap k)) as [c|]; [by exists k|].
  assert (Hb' : ∀ j, j < S k → snap j = []).
  { intros j Hj. destruct (decide (j = k)) as [->|]; [done|apply Hb; lia]. }
  destruct (Z.ltb_spec 30 (dur + 2)) as [Hlt|Hge].
  - intros i Hi. apply Hb'. lia.
  - apply IH; [lia|lia|lia|done].
Qed.

Lemma dclient_spec (snap : nat → list Client.client) :
  (∀ k, match Client.getAvailableSharedClient (snap k) with
        | None => snap k = []
        | Some c => best_client c (snap k)
        end) →
  match Client.dclient snap with
  | Ok (Some c) => ∃ k, k <= 16 ∧ best_client c (snap k) ∧ ∀ j, j < k → snap j = []
  | Ok None => ∀ k, k <= 16 → snap k = []
  | _ => False
  end.
Proof.
  intros Hget. pose proof (Hget 0) as H0. unfold Client.dclient.
  destruct (Client.getAvailableSharedClient (snap 0)) as [c|].
  { exists 0. split; [lia|]. split; [done|lia]. }
  pose proof (wait_client_spec (λ l c, best_client c l) snap 16 1 0 Hget) as Hw.
  specialize (Hw ltac:(lia) ltac:(lia) ltac:(lia)).
  assert (Hb : ∀ j, j < 1 → snap j = []) by (intros j Hj; by replace j with 0 by lia). specialize (Hw Hb).
  destruct (Client.wait_client 16 snap 1 0) as [[c|]|?| |]; done.
Qed.

(** ** Properties *)

(** C11: multiplexing is transparent: whatever the interleaving of the divided
    clients' writes on one shared transport, every write succeeds, and the
    server, reading the wire in pieces of any size, ends with exactly one
    buffer per client that wrote, holding exactly that client's bytes in
    order; a client that did not write has no instance, the other instances
    are untouched and no reply is queued.  (Up to 2^32 writes, and as many
    bytes per client as a buffer takes without its reader; a divided client
    has one writer at a time.) *)
Theorem pool_mux {W R} `{WriterLaws W} `{ReaderLaws R} (prefix : bytes) (ops : schedule) (w : W)
    (c : Client.client) (clients : Client.divided) (t : Server.trunk) :
  Packet.room w →
  (∀ cid cl, clients !! cid = Some cl →
     Client.clientId cl = cid ∧ id_ok cid = true ∧ Client.serial cl = 0%Z ∧ Server.instances t !! cid = None) →
  (∀ now cid d, (now, cid, d) ∈ ops → is_Some (clients !! cid)) →
  (∀ cid, (len (default [] (stream_of cid ops)) <= capacity)%Z) →
  (len ops < 2 ^ 32)%Z →
  ∃ w' c' clients' wire, trunk_writes ops (w, c, clients) (w', c', clients') ∧ emitted w w' wire ∧
    ∀ r : R, delivers r wire →
    ∃ r' t', Server.serve prefix (r, t) = (Ok tt, (r', t')) ∧
      (∀ cid, is_Some (clients !! cid) → stream_at prefix t' cid (stream_of cid ops)) ∧
      (∀ cid, clients !! cid = None → Server.instances t' !! cid = Server.instances t !! cid) ∧
      Server.outbox t' = Server.outbox t.
Proof.
  intros Hw Hcl Hops Hcap Hlen.
  destruct (mux_run prefix ops w c clients (λ _, None) 0 t) as (w' & c' & clients' & qs & R1 & R2 & R3 & R4 & R5 & R6 & R7);
    [done| |lia|lia|done|done|].
  { intros cid cl Hl. destruct (Hcl cid cl Hl) as (? & ? & Hs & ?). rewrite Hs. done. }
  exists w', c', clients', (concat (map wire1 qs)). split; [done|]. split; [done|]. intros r Hd.
  destruct (serve_wire prefix qs r t (S (budget r)) R3 Hd ltac:(lia)) as (r' & Hs).
  exists r', (foldl (flip (Server.handle_packet prefix)) t (map recv1 qs)).
  split; [exact Hs|]. split; [|done]. intros cid Hi.
  assert (Hi' : is_Some (clients' !! cid)) by (apply elem_of_dom; rewrite R4; by apply elem_of_dom).
  destruct Hi' as [cl' Hl]. by destruct (R5 cid cl' Hl) as (_ & _ & _ & _ & ?).
Qed.

Definition mux_clients : Client.divided :=
  <[lit "c1" := Client.newDividedClient (lit "c1")]> (<[lit "c2" := Client.newDividedClient (lit "c2")]> ∅).
Definition mux_ops : schedule :=
  [(1%Z, lit "c1", lit "abc"); (1%Z, lit "c2", lit "xy"); (2%Z, lit "c1", lit "def")].
Definition mux_trunk : Server.trunk := Server.mk_trunk ∅ [] [].

Lemma pool_mux_witness :
  ∃ w' c' clients' wire,
    trunk_writes mux_ops (Buf.mk_buffer [], Client.newClient (lit "s:1") 5, mux_clients) (w', c', clients') ∧
    emitted (Buf.mk_buffer []) w' wire ∧
    ∀ r : Conn.conn, delivers r wire →
    ∃ r' t', Server.serve (lit "s") (r, mux_trunk) = (Ok tt, (r', t')) ∧
      stream_at (lit "s") t' (lit "c1") (Some (lit "abcdef")) ∧ stream_at (lit "s") t' (lit "c2") (Some (lit "xy")).
Proof.
  destruct (pool_mux (R := Conn.conn) (lit "s") mux_ops (Buf.mk_buffer []) (Client.newClient (lit "s:1") 5) mux_clients mux_trunk)
    as (w' & c' & clients' & wire & H1 & H2 & H3).
  - exact I.
  - intros cid cl. unfold mux_clients.
    intros [(<- & <-)|(_ & [(<- & <-)|(_ & Hn)]%lookup_insert_Some)]%lookup_insert_Some;
      [by vm_compute|by vm_compute|by rewrite lookup_empty in Hn].
  - intros now cid d. unfold mux_ops. rewrite !elem_of_cons, elem_of_nil.
    intros [[= _ -> _]|[[= _ -> _]|[[= _ -> _]|[]]]]; vm_compute; eexists; reflexivity.
  - intros cid. unfold mux_ops. cbn [stream_of]. repeat case_decide; vm_compute; discriminate.
  - reflexivity.
  - exists w', c', clients', wire. split; [exact H1|]. split; [exact H2|]. intros r Hr.
    destruct (H3 r Hr) as (r' & t' & E & K & _). exists r', t'. split; [exact E|]. split.
    + apply (K (lit "c1")). vm_compute. eexists. reflexivity.
    + apply (K (lit "c2")). vm_compute. eexists. reflexivity.
Defined.

(** The end of a multiplexed stream is never announced: the packet a
    divided client sends when it is closed, and the one the server sends when
    its session ends, arrive without their connection id, so the receiver's
    handler leaves every instance and every divided client as it was. *)
Theorem pool_eos_lost {W R} `{WriterLaws W} `{ReaderLaws R} (cl : Client.dividedClient) (inst : Server.instance) (w : W) :
  (0 <= Client.serial cl < 2 ^ 32)%Z → Packet.room w →
  arrives (R := R) (Client.close_packet cl).1 w (λ p, ∀ prefix t, Server.handle_packet prefix p t = t) ∧
  arrives (R := R) (Server.eos_packet inst) w (λ p, ∀ now c clients, Client.load [] clients = None →
    Client.on_packet now p (c, clients) = (Client.count_recv 0 c, clients, None)).
Proof.
  intros Hs Hw. split.
  - destruct (Packet.packet_control_anonymous (R := R) (Client.close_packet cl).1 w)
      as (w' & wire & H3 & H4 & H5); [done|done|done|done|done|].
    exists w', wire. split; [done|]. split; [done|]. intros r rest Hd.
    destruct (H5 r rest Hd) as (r' & Hr & Hd'). exists r'. eexists. split; [exact Hr|]. by split.
  - destruct (Packet.packet_control_anonymous (R := R) (Server.eos_packet inst) w)
      as (w' & wire & H3 & H4 & H5); [done|done|done|done|done|].
    exists w', wire. split; [done|]. split; [done|]. intros r rest Hd.
    destruct (H5 r rest Hd) as (r' & Hr & Hd'). exists r'. eexists. split; [exact Hr|]. split; [done|].
    intros now c clients Hl. unfold Client.on_packet. cbn [Packet.Op Packet.ClientId Packet.Data].
    change (Packet.OP_EOS =? Packet.OP_DATA)%Z with false. change (Packet.OP_EOS =? Packet.OP_PONG)%Z with false.
    change (Packet.OP_EOS =? Packet.OP_EOS)%Z with true. cbn match. by rewrite Hl.
Qed.

Lemma pool_eos_lost_witness :
  arrives (R := Conn.conn) (Client.close_packet (Client.newDividedClient (lit "c1"))).1 (Buf.mk_buffer [])
    (λ p, ∀ prefix t, Server.handle_packet prefix p t = t).
Proof.
  apply (pool_eos_lost (R := Conn.conn) (Client.newDividedClient (lit "c1"))
           (Server.newInstance (lit "s") (lit "c1")) (Buf.mk_buffer [])); [by vm_compute|exact I].
Defined.

(** C14: the pool of shared transports: in every reachable state there are at
    most five, with different ids (a new id is drawn at random and taken to be
    none of theirs), created at least 300 seconds apart; and of them only the oldest can take its leave for idleness, whatever the order
    in which the map is visited, the last one only after a full minute without
    data. *)
Theorem pool_bounded (now0 : Z) (st : Z * list Client.client) :
  (0 < now0)%Z → pool_reachable now0 st →
  (len st.2 <= 5)%Z ∧ NoDup (map Client.id st.2) ∧ ForallOrdPairs spaced st.2 ∧
  ∀ c range now, c ∈ st.2 → range ≡ₚ st.2 → Client.decommission now range c = true →
    (∀ c', c' ∈ st.2 → (Client.createdAt c <= Client.createdAt c')%Z) ∧
    (Client.lastDataUnix c + 60 < now ∨ 1 < len st.2 ∧ Client.lastDataUnix c + 30 < now)%Z.
Proof.
  unfold pool_reachable. intros H0 Hr. assert (Hok : pool_ok st).
  { apply (rtc_invariant Client.pool_step pool_ok pool_step_ok (now0, [])); [done|].
    do 2 (split; [done|]). split; [by intros ? ?%elem_of_nil|]. split; constructor. }
  destruct Hok as (Hn & Hlen & Ht & Hid & Hsp). do 3 (split; [done|]).
  intros c range now Hc Hp. apply decommission_oldest; [|done|done|done]. intros c' Hc'. by apply Ht.
Qed.

Definition pool_cfg : Conf.Values := {[ Conf.SERVER_URL := lit "https://h/p" ]}.

Lemma pool_bounded_witness :
  (len [Client.newClient (lit "s:f2") 400; Client.newClient (lit "s:f1") 7] <= 5)%Z.
Proof.
  apply (pool_bounded 7 (400%Z, [Client.newClient (lit "s:f2") 400; Client.newClient (lit "s:f1") 7])); [done|].
  assert (F1 : lit "s" ++ lit ":" ++ lit "f1" ∉ map Client.id []) by apply not_elem_of_nil.
  assert (F2 : lit "s" ++ lit ":" ++ lit "f2" ∉ map Client.id [Client.newClient (lit "s:f1") 7])
    by (cbn [map]; intros [E|[]%elem_of_nil]%elem_of_cons; discriminate E).
  eapply rtc_l; [exact (Client.pool_add pool_cfg (lit "s") (lit "f1") 7 [] []
                          (Some (Client.newClient (lit "s:f1") 7)) (Permutation_refl _) F1 eq_refl)|].
  eapply rtc_l; [apply (Client.pool_tick 7 400); done|]. eapply rtc_l; [|apply rtc_refl].
  exact (Client.pool_add pool_cfg (lit "s") (lit "f2") 400 [Client.newClient (lit "s:f1") 7] _
           (Some (Client.newClient (lit "s:f2") 400)) (Permutation_refl _) F2 eq_refl).
Defined.

(** Choosing a transport does not depend on the order in which the maps
    are visited: a reply goes to the newest trunk of its instance's client
    process, if it has one at all; a divided client uses the newest connected
    shared client, any of them if none is connected, and gives up only after
    the pool was empty at every look for half a minute. *)
Theorem pool_newest_trunk (prefix : bytes) (replies : list Server.replyChannel) (snap : nat → list Client.client) :
  (∀ r, r ∈ replies → (0 < Server.createdAt r)%Z) →
  (∀ k c, c ∈ snap k → (0 < Client.createdAt c)%Z) →
  match Server.getReplyChannel prefix replies with
  | Some r => r ∈ replies ∧ Server.trunkPrefix r = prefix ∧
      ∀ r', r' ∈ replies → Server.trunkPrefix r' = prefix → (Server.createdAt r' <= Server.createdAt r)%Z
  | None => ∀ r, r ∈ replies → Server.trunkPrefix r ≠ prefix
  end ∧
  match Client.dclient snap with
  | Ok (Some c) => ∃ k, k <= 16 ∧ best_client c (snap k) ∧ ∀ j, j < k → snap j = []
  | Ok None => ∀ k, k <= 16 → snap k = []
  | _ => False
  end.
Proof.
  intros Hrep Hsnap. split; [by apply getReplyChannel_newest|]. apply dclient_spec. intros k. exact (getAvailable_newest (snap k) (Hsnap k)).
Qed.

Lemma pool_newest_trunk_witness :
  match Client.dclient (λ k, match k with 0 => [] | _ => [Client.newClient (lit "s:f1") 7] end) with
  | Ok (Some c) => Client.id c = lit "s:f1"
  | _ => False
  end.
Proof.
  pose proof (pool_newest_trunk (lit "s") [] (λ k, match k with 0 => [] | _ => [Client.newClient (lit "s:f1") 7] end)) as H.
  destruct H as [_ H].
  - intros r Hr. by apply elem_of_nil in Hr.
  - intros [|k] c Hc; [by apply elem_of_nil in Hc|]. apply elem_of_cons in Hc as [->|Hc]; [done|by apply elem_of_nil in Hc].
  - revert H. vm_compute. done.
Defined.
End PoolMux.
