(* ===== verification/PoolNet.v ===== *)
(** The pooled transports of one client process, end to end
    (src/transport/h1pool/client.go, server.go): the shared clients with their
    reading goroutines, and the trunks' handlers on the server with their reply
    channels, as a step relation over any number of transports; the buffers of
    the instances and of the divided clients, and what is read from them. *)
From S2P Require Import Prelude GoIO Conf Packet RwBuffer H1 Pool PoolMux.
Import Pool.

Module PoolNet.

#[export] Instance client_eq_dec : EqDecision Client.client.
Proof. solve_decision. Defined.
#[export] Instance reply_eq_dec : EqDecision Server.replyChannel.
Proof. solve_decision. Defined.

(** ** State *)

(** One connected transport: its shared client, in the pool or not; the packets
    on the way to the server and whether the server's goroutine still reads
    them; the reply channel, and whether the handler still serves it; the
    packets on the way back.  The other fields record the packets that were put
    on it, read by the server, queued and taken there, and read by the client. *)
Record line := mk_line {
  sc : Client.client; pooled : bool;
  upwire : list Packet.Packet; reading : bool;
  reply : Server.replyChannel; serving : bool;
  dnwire : list Packet.Packet;
  upsent : list Packet.Packet; upread : list Packet.Packet;
  queued : list Packet.Packet; taken : list Packet.Packet; dnread : list Packet.Packet;
}.

(** What has happened to the connections, to state what is kept: over all
    transports, the packets divided clients wrote and instances sent; the bytes
    each session and each divided client has read; the ids whose instance is
    over, and those a new divided client has taken again; the ids a packet of
    which found the buffer of its instance, or of its divided client, full. *)
Record history := mk_hist {
  wrote : list Packet.Packet;
  replied : list Packet.Packet;
  sread : gmap bytes bytes;
  cread : gmap bytes bytes;
  ended : list bytes;
  replaced : list bytes;
  full_up : list bytes;
  full_dn : list bytes;
}.

Definition got (m : gmap bytes bytes) (cid : bytes) : bytes := default [] (m !! cid).

Definition note_wrote p h := mk_hist (wrote h ++ [p]) (replied h) (sread h) (cread h) (ended h) (replaced h) (full_up h) (full_dn h).
Definition note_replied p h := mk_hist (wrote h) (replied h ++ [p]) (sread h) (cread h) (ended h) (replaced h) (full_up h) (full_dn h).
Definition note_sread cid d h :=
  mk_hist (wrote h) (replied h) (<[cid := got (sread h) cid ++ d]> (sread h)) (cread h) (ended h) (replaced h) (full_up h) (full_dn h).
Definition note_cread cid d h :=
  mk_hist (wrote h) (replied h) (sread h) (<[cid := got (cread h) cid ++ d]> (cread h)) (ended h) (replaced h) (full_up h) (full_dn h).
Definition note_ended cid h := mk_hist (wrote h) (replied h) (sread h) (cread h) (cid :: ended h) (replaced h) (full_up h) (full_dn h).
Definition note_replaced cid h := mk_hist (wrote h) (replied h) (sread h) (cread h) (ended h) (cid :: replaced h) (full_up h) (full_dn h).
Definition note_full_up cid h := mk_hist (wrote h) (replied h) (sread h) (cread h) (ended h) (replaced h) (cid :: full_up h) (full_dn h).
Definition note_full_dn cid h := mk_hist (wrote h) (replied h) (sread h) (cread h) (ended h) (replaced h) (full_up h) (cid :: full_dn h).

(** The connected transports in the order of their connection, and the shared
    clients that are still connecting; the divided clients; the server's
    instances; the [Write] calls of instances that wait to send on a reply
    channel. *)
Record net := mk_net {
  lines : list line;
  connecting : list Client.client;
  clients : Client.divided;
  instances : gmap bytes Server.instance;
  calls : gmap bytes (nat * Packet.Packet);
  hist : history;
}.

Definition start : net := mk_net [] [] ∅ ∅ ∅ (mk_hist [] [] ∅ ∅ [] [] [] []).

(** [make(chan *Packet, 32)] *)
Definition ch_cap : nat := 32.

Definition set_line (k : nat) (l : line) (n : net) : net :=
  mk_net (<[k := l]> (lines n)) (connecting n) (clients n) (instances n) (calls n) (hist n).

(** What a [Range] over [sharedClients] or [chansReply] visits, in any order. *)
Definition pool (n : net) : list Client.client := connecting n ++ map sc (filter (λ l, pooled l = true) (lines n)).
Definition channels (n : net) : list Server.replyChannel := map reply (filter (λ l, serving l = true) (lines n)).

Definition set_ch (ps : list Packet.Packet) (r : Server.replyChannel) : Server.replyChannel :=
  Server.mk_reply (Server.trunkPrefix r) ps (Server.createdAt r) (Server.lastActiveUnix r).

(** A packet as it arrives, in the pieces [writePacket] cuts it into. *)
Definition pieces (p : Packet.Packet) (parts : list bytes) : list Packet.Packet :=
  map (λ d, PoolMux.recv1 (p, d)) parts.
Definition whole (p : Packet.Packet) (parts : list bytes) : bool :=
  Packet.packet_ok p && bool_decide (concat parts = Packet.Data p ∧ parts ≠ []) &&
  forallb (λ d, len d <=? Packet.MAX_PACKET_SIZE)%Z parts.

(** ** Actions *)

(** [getClient], which may add a transport first. *)
Definition get_client (cfg : Conf.Values) (prefix fresh cid : bytes) (now : Z) (range : list Client.client) (n : net) : option net :=
  if bool_decide (range ≡ₚ pool n) then
    match Client.getClient cfg prefix fresh cid now (clients n) range with
    | Ok (added, cls) =>
        let new := match added with Some c => [c] | None => [] end in
        Some (mk_net (lines n) (connecting n ++ new) cls (instances n) (calls n)
                (match clients n !! cid with Some _ => note_replaced cid (hist n) | None => hist n end))
    | _ => None
    end
  else None.

(** [client.start] has connected, and on the server [pooledServerHandler] starts
    with a new reply channel; or it has not, and the client leaves. *)
Definition set_connected (c : Client.client) : Client.client :=
  Client.mk_client (Client.id c) true (Client.exited c) (Client.lastPongUnix c) (Client.lastPingUnix c)
    (Client.lastDataUnix c) (Client.createdAt c) (Client.bytesRecv c) (Client.bytesSent c).

Definition connect (i : nat) (now : Z) (succeeds : bool) (n : net) : option net :=
  c ← connecting n !! i;
  let r := Server.mk_reply (Server.trunk_prefix (Client.id c)) [] now now in
  let new := if succeeds then [mk_line (set_connected c) true [] true r true [] [] [] [] [] []] else [] in
  Some (mk_net (lines n ++ new) (delete i (connecting n)) (clients n) (instances n) (calls n)
          (hist n)).

(** [dividedClient.Write] on the shared client it chose; on one that is still
    connecting it waits. *)
Definition write (cid dat : bytes) (now : Z) (range : list Client.client) (k : nat) (parts : list bytes) (n : net) : option net :=
  l ← lines n !! k;
  cl ← clients n !! cid;
  let '(p, cl') := Client.data_packet dat cl in
  if bool_decide (range ≡ₚ pool n ∧ Client.getAvailableSharedClient range = Some (sc l) ∧ pooled l = true) && whole p parts
  then Some (mk_net (<[k := mk_line (Client.data_sent now (len dat) (sc l)) (pooled l) (upwire l ++ pieces p parts) (reading l)
                               (reply l) (serving l) (dnwire l) (upsent l ++ [p]) (upread l) (queued l) (taken l) (dnread l)]>
                       (lines n)) (connecting n)
               (<[cid := cl']> (clients n)) (instances n) (calls n) (note_wrote p (hist n)))
  else None.

(** The timer of a shared client sends a ping. *)
Definition send_ping (k : nat) (now : Z) (n : net) : option net :=
  l ← lines n !! k;
  Some (set_line k (mk_line (Client.set_ping now (sc l)) (pooled l) (upwire l ++ [Client.ping]) (reading l) (reply l) (serving l)
                      (dnwire l) (upsent l ++ [Client.ping]) (upread l) (queued l) (taken l) (dnread l)) n).

(** Whether a buffer's [Write] took the data. *)
Definition took (r : outcome Z) : bool := match r with Ok _ => true | _ => false end.

(** The data packet [p] finds the buffer of its instance, or of the divided
    client, without room: the result of [Write] is ignored and its data are
    lost. *)
Definition server_full (p : Packet.Packet) (insts : gmap bytes Server.instance) : bool :=
  (Packet.Op p =? Packet.OP_DATA)%Z &&
  negb (took (RwBuffer.Write (Packet.Data p)
                match insts !! Packet.ClientId p with
                | Some inst => Server.ibuf inst
                | None => RwBuffer.NewReadWriteBuffer
                end).1).
Definition client_full (p : Packet.Packet) (cls : Client.divided) : bool :=
  (Packet.Op p =? Packet.OP_DATA)%Z &&
  match Client.load (Packet.ClientId p) cls with
  | Some cl => negb (took (RwBuffer.Write (Packet.Data p) (Client.buf cl)).1)
  | None => false
  end.

(** The server's goroutine reads a packet and handles it; a ping waits for room
    in the reply channel. *)
Definition serve_packet (k : nat) (n : net) : option net :=
  l ← lines n !! k;
  match upwire l with
  | p :: rest =>
      let ch := Server.ch (reply l) in
      let t := Server.handle_packet (Server.trunkPrefix (reply l)) p (Server.mk_trunk (instances n) ch []) in
      if reading l && bool_decide (length (Server.outbox t) ≤ ch_cap) then
        Some (mk_net (<[k := mk_line (sc l) (pooled l) rest true (set_ch (Server.outbox t) (reply l)) (serving l) (dnwire l)
                                (upsent l) (upread l ++ [p]) (queued l ++ drop (length ch) (Server.outbox t)) (taken l)
                                (dnread l)]> (lines n)) (connecting n)
                (clients n) (Server.instances t) (calls n)
                (if server_full p (instances n) then note_full_up (Packet.ClientId p) (hist n) else hist n))
      else None
  | [] => None
  end.

(** Its reading fails. *)
Definition stop_reading (k : nat) (n : net) : option net :=
  l ← lines n !! k;
  Some (set_line k (mk_line (sc l) (pooled l) (upwire l) false (reply l) (serving l) (dnwire l) (upsent l) (upread l)
                      (queued l) (taken l) (dnread l)) n).

(** An instance's session reads: at most [m] bytes of what is buffered. *)
Definition session_read (cid : bytes) (m : nat) (n : net) : option net :=
  inst ← instances n !! cid;
  match Server.iRead m inst with
  | (Ok d, inst') => Some (mk_net (lines n) (connecting n) (clients n) (<[cid := inst']> (instances n)) (calls n)
                             (note_sread cid d (hist n)))
  | _ => None
  end.

(** So does the reader of a divided client, when there is a transport. *)
Definition client_read (cid : bytes) (m : nat) (range : list Client.client) (n : net) : option net :=
  cl ← clients n !! cid;
  if bool_decide (range ≡ₚ pool n) then
    match Client.DRead (Client.getAvailableSharedClient range) m cl with
    | (Ok d, cl') => Some (mk_net (lines n) (connecting n) (<[cid := cl']> (clients n)) (instances n) (calls n)
                             (note_cread cid d (hist n)))
    | _ => None
    end
  else None.

(** [instance.Write] chooses a reply channel... *)
Definition choose (cid dat : bytes) (range : list Server.replyChannel) (k : nat) (n : net) : option net :=
  l ← lines n !! k;
  inst ← instances n !! cid;
  if bool_decide (range ≡ₚ channels n ∧ calls n !! cid = None ∧ serving l = true) then
    match Server.iWrite dat inst range with
    | Ok (r, p) =>
        if bool_decide (r = reply l)
        then Some (mk_net (lines n) (connecting n) (clients n) (instances n) (<[cid := (k, p)]> (calls n)) (hist n))
        else None
    | _ => None
    end
  else None.

(** ... and sends on it when there is room, whether its handler is still there
    or not. *)
Definition send (cid : bytes) (n : net) : option net :=
  call ← calls n !! cid;
  let '(k, p) := call in
  l ← lines n !! k;
  let ch := Server.ch (reply l) in
  if decide (length ch < ch_cap) then
    Some (mk_net (<[k := mk_line (sc l) (pooled l) (upwire l) (reading l) (set_ch (ch ++ [p]) (reply l)) (serving l) (dnwire l)
                            (upsent l) (upread l) (queued l ++ [p]) (taken l) (dnread l)]> (lines n)) (connecting n)
            (clients n) (instances n) (delete cid (calls n)) (note_replied p (hist n)))
  else None.

(** An instance's session has ended: an end of stream is sent the same way, if
    there is a channel.  Then, or when the client has closed it, the instance is
    removed. *)
Definition finish (cid : bytes) (range : list Server.replyChannel) (k : nat) (n : net) : option net :=
  l ← lines n !! k;
  inst ← instances n !! cid;
  if bool_decide (range ≡ₚ channels n ∧ calls n !! cid = None ∧ serving l = true ∧
                  Server.getReplyChannel (Server.iTrunkPrefix inst) range = Some (reply l))
  then Some (mk_net (lines n) (connecting n) (clients n) (instances n) (<[cid := (k, Server.eos_packet inst)]> (calls n))
               (hist n))
  else None.
Definition remove (cid : bytes) (n : net) : option net :=
  if bool_decide (calls n !! cid = None)
  then Some (mk_net (lines n) (connecting n) (clients n) (delete cid (instances n)) (calls n)
               (note_ended cid (hist n)))
  else None.

(** The handler's loop writes a packet; when that fails, after some of its
    pieces, the handler returns. *)
Definition reply_packet (k : nat) (parts : list bytes) (sent : nat) (fails : bool) (n : net) : option net :=
  l ← lines n !! k;
  match Server.ch (reply l) with
  | p :: rest =>
      if serving l && whole p parts && (fails || bool_decide (length parts ≤ sent)) then
        Some (set_line k (mk_line (sc l) (pooled l) (upwire l) (reading l) (set_ch rest (reply l)) (negb fails)
                            (dnwire l ++ pieces p (take sent parts)) (upsent l) (upread l) (queued l) (taken l ++ [p]) (dnread l)) n)
      else None
  | [] => None
  end.

(** The handler returns when its reading goroutine has ended. *)
Definition stop_serving (k : nat) (n : net) : option net :=
  l ← lines n !! k;
  if reading l then None else
  Some (set_line k (mk_line (sc l) (pooled l) (upwire l) (reading l) (reply l) false (dnwire l) (upsent l) (upread l)
                      (queued l) (taken l) (dnread l)) n).

(** The shared client's goroutine reads a packet.  (An end of stream carries no
    id and so closes nothing; the packet a closed client would send is not
    considered.) *)
Definition feed (k : nat) (now : Z) (n : net) : option net :=
  l ← lines n !! k;
  match dnwire l with
  | p :: rest =>
      match Client.on_packet now p (sc l, clients n) with
      | (c, cls, None) =>
          Some (mk_net (<[k := mk_line c (pooled l) (upwire l) (reading l) (reply l) (serving l) rest (upsent l) (upread l)
                                 (queued l) (taken l) (dnread l ++ [p])]> (lines n)) (connecting n)
                  cls (instances n) (calls n)
                  (if client_full p (clients n) then note_full_dn (Packet.ClientId p) (hist n) else hist n))
      | _ => None
      end
  | [] => None
  end.

(** The shared client leaves the pool. *)
Definition leave (k : nat) (n : net) : option net :=
  l ← lines n !! k;
  Some (set_line k (mk_line (sc l) false (upwire l) (reading l) (reply l) (serving l) (dnwire l) (upsent l) (upread l)
                      (queued l) (taken l) (dnread l)) n).

Inductive action :=
  | AGet (fresh cid : bytes) (now : Z) (range : list Client.client)
  | AConnect (i : nat) (now : Z) (succeeds : bool)
  | AWrite (cid dat : bytes) (now : Z) (range : list Client.client) (k : nat) (parts : list bytes)
  | APing (k : nat) (now : Z)
  | AServe (k : nat)
  | AStopReading (k : nat)
  | ASessionRead (cid : bytes) (m : nat)
  | AClientRead (cid : bytes) (m : nat) (range : list Client.client)
  | AChoose (cid dat : bytes) (range : list Server.replyChannel) (k : nat)
  | ASend (cid : bytes)
  | AFinish (cid : bytes) (range : list Server.replyChannel) (k : nat)
  | ARemove (cid : bytes)
  | AReply (k : nat) (parts : list bytes) (sent : nat) (fails : bool)
  | AStopServing (k : nat)
  | AFeed (k : nat) (now : Z)
  | ALeave (k : nat).

Section run.
Context (cfg : Conf.Values) (prefix : bytes).

Definition exec (a : action) (n : net) : option net :=
  match a with
  | AGet fresh cid now range => get_client cfg prefix fresh cid now range n
  | AConnect i now succeeds => connect i now succeeds n
  | AWrite cid dat now range k parts => write cid dat now range k parts n
  | APing k now => send_ping k now n
  | AServe k => serve_packet k n
  | AStopReading k => stop_reading k n
  | ASessionRead cid m => session_read cid m n
  | AClientRead cid m range => client_read cid m range n
  | AChoose cid dat range k => choose cid dat range k n
  | ASend cid => send cid n
  | AFinish cid range k => finish cid range k n
  | ARemove cid => remove cid n
  | AReply k parts sent fails => reply_packet k parts sent fails n
  | AStopServing k => stop_serving k n
  | AFeed k now => feed k now n
  | ALeave k => leave k n
  end.

Definition step : relation net := acts exec.

(** ** What every run keeps *)

(** The data packets for a client in a sequence, and their data. *)
Definition packets_of (cid : bytes) (ps : list Packet.Packet) : list Packet.Packet :=
  filter (λ p, Packet.Op p = Packet.OP_DATA ∧ Packet.ClientId p = cid) ps.
Definition data_of (cid : bytes) (ps : list Packet.Packet) : bytes := concat (map Packet.Data (packets_of cid ps)).

#[local] Arguments data_of : simpl never.

Lemma data_of_app (cid : bytes) (ps qs : list Packet.Packet) : data_of cid (ps ++ qs) = data_of cid ps ++ data_of cid qs.
Proof. unfold data_of, packets_of. by rewrite filter_app, map_app, concat_app. Qed.

Lemma data_of_cons (cid : bytes) (p : Packet.Packet) (ps : list Packet.Packet) :
  data_of cid (p :: ps) = data_of cid [p] ++ data_of cid ps.
Proof. apply (data_of_app cid [p]). Qed.

Lemma data_of_single (cid : bytes) (p : Packet.Packet) :
  data_of cid [p] = if decide (Packet.Op p = Packet.OP_DATA ∧ Packet.ClientId p = cid) then Packet.Data p else [].
Proof.
  unfold data_of, packets_of. case_decide as Hp; [rewrite filter_cons_True by done|rewrite filter_cons_False by done]; [|done].
  cbn. by rewrite app_nil_r.
Qed.

Lemma data_of_control (cid : bytes) (p : Packet.Packet) : Packet.Op p ≠ Packet.OP_DATA → data_of cid [p] = [].
Proof. intros Hp. rewrite data_of_single, decide_False by (by intros [? _]). done. Qed.

Lemma data_of_pieces (cid : bytes) (p : Packet.Packet) (parts : list bytes) :
  data_of cid (pieces p parts) =
  if decide (Packet.Op p = Packet.OP_DATA ∧ Packet.ClientId p = cid) then concat parts else [].
Proof.
  unfold pieces. induction parts as [|d parts IH]; [by case_decide|]. cbn [map concat].
  rewrite data_of_cons, IH, data_of_single.
  unfold PoolMux.recv1, Packet.id_of. cbn [fst snd Packet.Op Packet.ClientId Packet.Data].
  destruct (Z.eqb_spec (Packet.Op p) Packet.OP_DATA) as [Ho|Ho]; [by repeat case_decide|].
  by rewrite !decide_False by (by intros [? _]).
Qed.

Lemma data_of_whole (cid : bytes) (p : Packet.Packet) (parts : list bytes) :
  whole p parts = true → data_of cid (pieces p parts) = data_of cid [p].
Proof.
  unfold whole. rewrite !andb_true_iff, bool_decide_eq_true. intros [[_ [Hc _]] _].
  by rewrite data_of_pieces, data_of_single, Hc.
Qed.

Lemma data_of_take (cid : bytes) (p : Packet.Packet) (parts : list bytes) (m : nat) :
  data_of cid (pieces p (take m parts)) `prefix_of` data_of cid (pieces p parts).
Proof.
  rewrite <- (take_drop m parts) at 2. unfold pieces. rewrite map_app, data_of_app. by apply prefix_app_r.
Qed.

(** One transport keeps the order of what goes through it. *)
Record line_ok (l : line) : Prop := {
  ok_cap : length (Server.ch (reply l)) ≤ ch_cap;
  ok_queue : queued l = taken l ++ Server.ch (reply l);
  ok_up cid : data_of cid (upsent l) = data_of cid (upread l) ++ data_of cid (upwire l);
  ok_dn cid : data_of cid (dnread l) ++ data_of cid (dnwire l) `prefix_of` data_of cid (taken l);
  ok_serving cid : serving l = true → data_of cid (dnread l) ++ data_of cid (dnwire l) = data_of cid (taken l);
}.

(** What one transport carried is what the clients and the instances wrote. *)
Definition agrees (l : line) (h : history) : Prop := ∀ cid,
  data_of cid (wrote h) = data_of cid (upsent l) ∧ data_of cid (replied h) = data_of cid (queued l).

(** What a buffer, if there is one, holds. *)
Definition held (b : option RwBuffer.ReadWriteBuffer) : bytes :=
  match b with Some b => RwBuffer.content b | None => [] end.
Definition open_buf (b : RwBuffer.ReadWriteBuffer) : Prop := RwBuffer.sound b ∧ RwBuffer.eof b = false.

Definition server_buf (cid : bytes) (insts : gmap bytes Server.instance) : option RwBuffer.ReadWriteBuffer :=
  Server.ibuf <$> insts !! cid.
Definition client_buf (cid : bytes) (cls : Client.divided) : option RwBuffer.ReadWriteBuffer :=
  Client.buf <$> cls !! cid.

(** A reader on one side of a connection: [rs] are the packets that have
    arrived, [b] its buffer, [g] what it has read; [sure]: there was one buffer
    all the time, and it had room. *)
Record received (cid : bytes) (rs : list Packet.Packet) (b : option RwBuffer.ReadWriteBuffer) (g : bytes)
    (sure : Prop) (full : list bytes) : Prop := {
  rc_open x : b = Some x → open_buf x;
  rc_all : sure → cid ∉ full → g ++ held b = data_of cid rs;
  rc_small : length (held b) ≤ length (data_of cid rs);
  rc_full : cid ∈ full → (PoolMux.capacity < len (data_of cid rs))%Z;
}.

(** The server's side of a connection: before an instance is there nothing has
    arrived, and what arrives first has the serial 0. *)
Record up_ok (l : line) (n : net) (cid : bytes) : Prop := {
  up_id inst : instances n !! cid = Some inst → Server.iClientId inst = cid;
  up_none : instances n !! cid = None → cid ∉ ended (hist n) → packets_of cid (upread l) = [];
  up_first : match packets_of cid (upread l ++ upwire l) with
             | p :: _ => Packet.Serial p = 0%Z
             | [] => ∀ cl, clients n !! cid = Some cl → Client.serial cl = 0%Z
             end;
  up_received : received cid (upread l) (server_buf cid (instances n)) (got (sread (hist n)) cid)
                  (cid ∉ ended (hist n)) (full_up (hist n));
}.

(** The client's side: packets only come for divided clients that are there. *)
Record dn_ok (l : line) (n : net) (cid : bytes) : Prop := {
  dn_id cl : clients n !! cid = Some cl → Client.clientId cl = cid ∧ Client.registered cl = true;
  dn_call k p : calls n !! cid = Some (k, p) → Packet.ClientId p = cid;
  dn_known : clients n !! cid = None →
    instances n !! cid = None ∧ calls n !! cid = None ∧ packets_of cid (upwire l) = [] ∧
    packets_of cid (Server.ch (reply l)) = [] ∧ packets_of cid (dnwire l) = [] ;
  dn_received : received cid (dnread l) (client_buf cid (clients n)) (got (cread (hist n)) cid)
                  (cid ∉ replaced (hist n)) (full_dn (hist n));
}.

Record linked (l : line) (n : net) : Prop := {
  lk_agrees : agrees l (hist n);
  lk_ops : Forall (λ p, Packet.Op p = Packet.OP_DATA ∨ Packet.Op p = Packet.OP_PING) (upwire l);
  lk_up cid : cid ≠ [] → up_ok l n cid;
  lk_dn cid : dn_ok l n cid;
  lk_anon : instances n !! [] = None ∧ calls n !! [] = None;
}.

(** A transport nothing has gone through. *)
Definition idle (l : line) : Prop :=
  upwire l = [] ∧ Server.ch (reply l) = [] ∧ dnwire l = [] ∧ upsent l = [] ∧ upread l = [] ∧ queued l = [] ∧
  dnread l = [].

(** The only transport there is; or the first one to come. *)
Definition only (n : net) (l : line) : Prop := lines n = [l] ∨ lines n = [] ∧ idle l.

Record net_ok (n : net) : Prop := {
  ok_lines : Forall line_ok (lines n);
  ok_only l : only n l → linked l n;
}.

Lemma net_update (k : nat) (l l' : line) (n n' : net) :
  lines n !! k = Some l → lines n' = <[k := l']> (lines n) → (line_ok l → line_ok l') → (line_ok l → linked l n → linked l' n') →
  net_ok n → net_ok n'.
Proof.
  intros Hl Hn Hok Ha [Hls Hone]. pose proof (Forall_lookup_1 _ _ _ _ Hls Hl) as Hlok. split.
  - rewrite Hn. apply Forall_insert; [done|]. by apply Hok.
  - intros x Hx. apply lookup_lt_Some in Hl as Hk. unfold only in *. rewrite Hn in Hx.
    destruct (lines n) as [|y [|? ?]] eqn:El; [cbn in Hk; lia| |].
    + destruct k; [|cbn in Hk; lia]. injection Hl as ->. cbn in Hx.
      destruct Hx as [[= <-]|[? _]]; [|done]. apply Ha; [done|]. apply Hone. by left.
    + destruct Hx as [E|[E _]]; apply (f_equal length) in E; rewrite length_insert in E; cbn in E; lia.
Qed.

(** A change of the rest. *)
Lemma net_same (n n' : net) :
  lines n' = lines n → (∀ l, linked l n → linked l n') → net_ok n → net_ok n'.
Proof.
  intros E Hl [H1 H2]. split; [by rewrite E|]. intros l Ho. apply Hl, H2. unfold only in *. by rewrite E in Ho.
Qed.

(** *** Buffers *)
Lemma write_buf (d : bytes) (b : RwBuffer.ReadWriteBuffer) :
  open_buf b →
  open_buf (RwBuffer.Write d b).2 ∧
  if took (RwBuffer.Write d b).1 then RwBuffer.content (RwBuffer.Write d b).2 = RwBuffer.content b ++ d
  else RwBuffer.content (RwBuffer.Write d b).2 = RwBuffer.content b ∧
       (PoolMux.capacity < len (RwBuffer.content b) + len d)%Z.
Proof.
  intros [Hs He]. unfold RwBuffer.Write. rewrite He. pose proof (RwBuffer.writeBody_ok d b Hs) as Hw.
  destruct (RwBuffer.writeBody d b) as [[m|e| |] b'] eqn:E; try done; cbn [fst snd took].
  - destruct Hw as (_ & Hc & Hs' & He'). split; [split; [done|congruence]|done].
  - destruct Hw as [_ ->]. apply RwBuffer.writeBody_refuses in E as [_ E]; [|done]. split; [done|]. split; [done|].
    exact E.
Qed.

(** A packet arrives: its data are written to the buffer, a new one if there
    was none. *)
Lemma received_write (cid : bytes) (rs : list Packet.Packet) (p : Packet.Packet) (b : option RwBuffer.ReadWriteBuffer)
    (b0 : RwBuffer.ReadWriteBuffer) (g : bytes) (sure : Prop) (full : list bytes) :
  Packet.Op p = Packet.OP_DATA → Packet.ClientId p = cid → open_buf b0 → RwBuffer.content b0 = held b →
  received cid rs b g sure full →
  received cid (rs ++ [p]) (Some (RwBuffer.Write (Packet.Data p) b0).2) g sure
    (if took (RwBuffer.Write (Packet.Data p) b0).1 then full else cid :: full).
Proof.
  intros Ho Hc Hb Hh [H1 H2 H3 H4]. destruct (write_buf (Packet.Data p) b0 Hb) as [Hb' Hw].
  assert (E : data_of cid (rs ++ [p]) = data_of cid rs ++ Packet.Data p)
    by (rewrite data_of_app, data_of_single, decide_True by done; done).
  split; cbn [held]; rewrite ?E.
  - by intros x [= <-].
  - intros Hsure Hf. destruct (took _); [|by rewrite elem_of_cons in Hf; destruct Hf; left].
    rewrite Hw, Hh, app_assoc. by rewrite H2.
  - rewrite length_app. destruct (took _); [rewrite Hw, length_app|destruct Hw as [-> _]]; rewrite Hh; lia.
  - unfold len in *. rewrite length_app. destruct (took _); [intros Hf; specialize (H4 Hf); lia|].
    destruct Hw as [_ Hw]. rewrite Hh in Hw. lia.
Qed.

(** Other packets do not matter. *)
Lemma received_other (cid : bytes) (rs ps : list Packet.Packet) (b : option RwBuffer.ReadWriteBuffer) (g : bytes)
    (sure : Prop) (full full' : list bytes) :
  data_of cid ps = [] → (cid ∈ full' ↔ cid ∈ full) → received cid rs b g sure full → received cid (rs ++ ps) b g sure full'.
Proof.
  intros Hp Hf [H1 H2 H3 H4]. split; rewrite ?data_of_app, ?Hp, ?app_nil_r; [done| |done|by rewrite Hf].
  intros ?. rewrite Hf. by apply H2.
Qed.

(** The reader takes bytes out of the buffer. *)
Lemma received_read (cid : bytes) (rs : list Packet.Packet) (x : RwBuffer.ReadWriteBuffer) (g : bytes)
    (sure : Prop) (full : list bytes) (m : nat) :
  received cid rs (Some x) g sure full →
  received cid rs (Some (RwBuffer.readFromBuf m x).2) (g ++ (RwBuffer.readFromBuf m x).1) sure full.
Proof.
  intros [H1 H2 H3 H4]. destruct (H1 x eq_refl) as [Hs He].
  destruct (RwBuffer.readFromBuf_ok m x Hs) as (R1 & R2 & R3 & R4). cbn [held] in *. split; cbn [held]; [| | |done].
  - intros y [= <-]. split; [done|congruence].
  - intros ? ?. rewrite R1, R2, <- app_assoc, take_drop. by apply H2.
  - rewrite R2, length_drop. lia.
Qed.

(** The buffer is gone, or is not the only one any more. *)
Lemma received_lost (cid : bytes) (rs : list Packet.Packet) (b b' : option RwBuffer.ReadWriteBuffer) (g : bytes)
    (sure sure' : Prop) (full : list bytes) :
  (sure' → False) → (b' = None ∨ b' = Some RwBuffer.NewReadWriteBuffer) → received cid rs b g sure full →
  received cid rs b' g sure' full.
Proof.
  intros Hs Hb [H1 H2 H3 H4].
  assert (Hh : held b' = []) by (destruct Hb as [->| ->]; reflexivity).
  split; rewrite ?Hh; [|by intros ?%Hs|cbn; lia|done].
  destruct Hb as [->| ->]; [done|]. intros x [= <-]. split; [apply RwBuffer.new_sound|done].
Qed.

Lemma received_none (cid : bytes) (rs : list Packet.Packet) (g : bytes) (sure : Prop) (full : list bytes) :
  received cid rs None g sure full → received cid rs (Some RwBuffer.NewReadWriteBuffer) g sure full.
Proof.
  intros [H1 H2 H3 H4]. split; [|done|done|done]. intros x [= <-]. split; [apply RwBuffer.new_sound|done].
Qed.

Lemma received_sure (cid : bytes) (rs : list Packet.Packet) (b : option RwBuffer.ReadWriteBuffer) (g : bytes)
    (sure sure' : Prop) (full : list bytes) : (sure' → sure) → received cid rs b g sure full → received cid rs b g sure' full.
Proof. intros Hs [H1 H2 H3 H4]. split; try done. intros ?%Hs. by apply H2. Qed.

(** *** Sequences of packets *)
Lemma packets_of_app (cid : bytes) (ps qs : list Packet.Packet) : packets_of cid (ps ++ qs) = packets_of cid ps ++ packets_of cid qs.
Proof. apply filter_app. Qed.

Lemma packets_of_single (cid : bytes) (p : Packet.Packet) :
  packets_of cid [p] = if decide (Packet.Op p = Packet.OP_DATA ∧ Packet.ClientId p = cid) then [p] else [].
Proof.
  unfold packets_of. case_decide; [by rewrite filter_cons_True by done|by rewrite filter_cons_False by done].
Qed.

Lemma packets_of_cons (cid : bytes) (p : Packet.Packet) (ps : list Packet.Packet) :
  packets_of cid (p :: ps) = packets_of cid [p] ++ packets_of cid ps.
Proof. apply (packets_of_app cid [p]). Qed.

Lemma packets_of_pieces (cid : bytes) (p : Packet.Packet) (parts : list bytes) :
  packets_of cid (pieces p parts) =
  if decide (Packet.Op p = Packet.OP_DATA ∧ Packet.ClientId p = cid) then pieces p parts else [].
Proof.
  unfold pieces. induction parts as [|d parts IH]; [by case_decide|]. cbn [map].
  rewrite packets_of_cons, IH, packets_of_single.
  unfold PoolMux.recv1, Packet.id_of. cbn [fst snd Packet.Op Packet.ClientId].
  destruct (Z.eqb_spec (Packet.Op p) Packet.OP_DATA) as [Ho|Ho]; [by repeat case_decide|].
  by rewrite !decide_False by (by intros [? _]).
Qed.

Lemma packets_of_none (cid : bytes) (p : Packet.Packet) (parts : list bytes) :
  packets_of cid [p] = [] → packets_of cid (pieces p parts) = [].
Proof. rewrite packets_of_single, packets_of_pieces. by case_decide. Qed.

Lemma data_of_nil (cid : bytes) (ps : list Packet.Packet) : packets_of cid ps = [] → data_of cid ps = [].
Proof. unfold data_of. by intros ->. Qed.

(** ** What the actions do to the streams *)

(** A changed shared client, another queue of the same replies: anything the
    streams do not speak of. *)
Lemma linked_same (l l' : line) (n n' : net) :
  upwire l' = upwire l → upread l' = upread l → upsent l' = upsent l → dnread l' = dnread l →
  Server.ch (reply l') = Server.ch (reply l) → dnwire l' = dnwire l → queued l' = queued l →
  clients n' = clients n → instances n' = instances n → calls n' = calls n → hist n' = hist n →
  linked l n → linked l' n'.
Proof.
  intros E1 E2 E3 E4 E5 E6 E7 E8 E9 E10 E11 [H1 H2 H3 H4 H5]. split.
  - unfold agrees. by rewrite E3, E7, E11.
  - by rewrite E1.
  - intros cid Hc. destruct (H3 cid Hc). split; by rewrite ?E1, ?E2, ?E8, ?E9, ?E11.
  - intros cid. destruct (H4 cid). split; by rewrite ?E1, ?E4, ?E5, ?E6, ?E8, ?E9, ?E10, ?E11.
  - by rewrite E9, E10.
Qed.

Lemma get_client_ok cfg' pre fresh cid now range (n n' : net) :
  get_client cfg' pre fresh cid now range n = Some n' → net_ok n → net_ok n'.
Proof.
  unfold get_client. case_bool_decide; [|done]. unfold Client.getClient.
  destruct (Client.tryAddNewSharedClient _ _ _ _ _) as [added| | |]; try done. cbn [mbind outcome_bind].
  intros [= <-]. apply net_same; [done|]. intros l [H1 H2 H3 H4 H5].
  set (h := match clients n !! cid with Some _ => _ | None => _ end).
  assert (Eh : wrote h = wrote (hist n) ∧ replied h = replied (hist n) ∧ sread h = sread (hist n) ∧
               cread h = cread (hist n) ∧ ended h = ended (hist n) ∧ full_up h = full_up (hist n) ∧ full_dn h = full_dn (hist n))
    by (unfold h; by destruct (clients n !! cid)).
  destruct Eh as (E1 & E2 & E3 & E4 & E5 & E6 & E7). split; cbn [hist clients instances calls]; [unfold agrees; by rewrite E1, E2|done| | |done].
  - intros c Hc. destruct (H3 c Hc) as [K1 K2 K3 K4]. split; cbn [hist clients instances]; rewrite ?E3, ?E5, ?E6; try done.
    destruct (packets_of c (upread l ++ upwire l)); [|done].
    intros cl [(_ & <-)|(_ & Hcl)]%lookup_insert_Some; [done|by apply K3].
  - intros c. destruct (H4 c) as [K1 K2 K3 K4]. split; cbn [hist clients instances calls]; rewrite ?E4, ?E7; try done.
    + intros cl [(<- & <-)|(_ & Hcl)]%lookup_insert_Some; [done|by apply K1].
    + intros [Hc _]%lookup_insert_None. by apply K3.
    + unfold client_buf. destruct (decide (c = cid)) as [->|Hne].
      * rewrite lookup_insert_eq. cbn [fmap option_fmap option_map Client.newDividedClient Client.buf].
        unfold h in *. destruct (clients n !! cid) as [cl|] eqn:Hcl.
        -- eapply received_lost; [|by right|exact K4]. cbn [note_replaced replaced]. rewrite elem_of_cons. tauto.
        -- unfold client_buf in K4. rewrite Hcl in K4. by apply received_none.
      * rewrite lookup_insert_ne by done. eapply received_sure; [|exact K4]. unfold h.
        destruct (clients n !! cid); [|done]. cbn [note_replaced replaced]. by rewrite elem_of_cons; tauto.
Qed.

Lemma new_line_ok (c : Client.client) (r : Server.replyChannel) :
  Server.ch r = [] → line_ok (mk_line c true [] true r true [] [] [] [] [] []).
Proof. intros Hr. split; cbn; rewrite ?Hr; done || (cbn; lia). Qed.

Lemma connect_ok (i : nat) (now : Z) (succeeds : bool) (n n' : net) :
  connect i now succeeds n = Some n' → net_ok n → net_ok n'.
Proof.
  unfold connect. destruct (connecting n !! i) as [c|]; [|done]. cbn [mbind option_bind].
  destruct succeeds; intros [= <-] Hn; [|apply (net_same n); cbn [lines];
    [by rewrite app_nil_r|intros l; by apply linked_same|done]].
  destruct Hn as [Hls Hone]. split; cbn [lines].
  - apply Forall_app. split; [done|]. constructor; [|constructor]. by apply new_line_ok.
  - intros l [E|[E _]]; [|by destruct (lines n)].
    destruct (lines n) as [|y ls] eqn:El; [|by destruct ls].
    injection E as <-. eapply linked_same; [..|apply (Hone (mk_line (set_connected c) true [] true
      (Server.mk_reply (Server.trunk_prefix (Client.id c)) [] now now) true [] [] [] [] [] []))]; try done.
    right. by rewrite El.
Qed.

Lemma write_ok cid dat now range k parts (n n' : net) :
  write cid dat now range k parts n = Some n' → net_ok n → net_ok n'.
Proof.
  unfold write. destruct (lines n !! k) as [l|] eqn:Hl; [|done]. destruct (clients n !! cid) as [cl|] eqn:Hcl; [|done].
  cbn [mbind option_bind]. unfold Client.data_packet, Client.next_serial. cbn [fst snd].
  set (p := Packet.mk_Packet _ _ _ _). set (cl' := Client.mk_divided _ _ _ _).
  destruct (bool_decide _ && whole p parts) eqn:Hg; [|done]. apply andb_true_iff in Hg as [_ Hw]. intros [= <-].
  eapply net_update; [exact Hl|reflexivity| |].
  - intros [H1 H2 H3 H4 H5]. split; try done. intros c. cbn [upsent upread upwire].
    by rewrite !data_of_app, H3, (data_of_whole c p parts Hw), app_assoc.
  - intros _ [H1 H2 H3 H4 H5].
    assert (Hpc : ∀ c, c ≠ cid → packets_of c (pieces p parts) = []).
    { intros c Hc. apply packets_of_none. rewrite packets_of_single, decide_False; [done|].
      destruct (H4 cid) as [K1 _ _ _]. destruct (K1 cl Hcl) as [Hci _]. unfold p. cbn. intros [_ E]. congruence. }
    assert (Hne : parts ≠ []).
    { unfold whole in Hw. rewrite !andb_true_iff, bool_decide_eq_true in Hw. tauto. }
    split; cbn [hist clients instances calls].
    + intros c. cbn [note_wrote wrote replied upsent queued]. destruct (H1 c) as [E1 E2]. by rewrite !data_of_app, E1.
    + cbn [upwire]. apply Forall_app. split; [done|]. unfold pieces. apply Forall_map, Forall_true. intros d. by left.
    + intros c Hc. destruct (H3 c Hc) as [K1 K2 K3 K4]. split; cbn [hist clients instances upread upwire note_wrote]; try done.
      rewrite app_assoc, packets_of_app. destruct (packets_of c (upread l ++ upwire l)) as [|q qs]; [|done]. cbn [app].
      destruct (decide (c = cid)) as [->|Hcc].
      * rewrite packets_of_pieces, decide_True by (split; [done|]; apply (dn_id _ _ _ (H4 cid) cl Hcl)).
        destruct parts as [|d parts]; [done|]. cbn [pieces map PoolMux.recv1 fst snd Packet.Serial p]. by apply K3.
      * rewrite Hpc by done. intros cl0 Hcl0. rewrite lookup_insert_ne in Hcl0 by done. by apply K3.
    + intros c. destruct (H4 c) as [K1 K2 K3 K4]. split; cbn [hist clients instances calls upwire reply dnwire dnread note_wrote]; try done.
      * intros cl0 [(<- & <-)|(_ & Hcl0)]%lookup_insert_Some; [by apply K1 in Hcl|by apply K1].
      * intros [Hc Hcc]%lookup_insert_None. destruct (K3 Hc) as (? & ? & E & ? & ?). split; [done|]. split; [done|].
        split; [|done]. by rewrite packets_of_app, E, Hpc.
      * unfold client_buf in *. destruct (decide (c = cid)) as [->|Hcc]; [|by rewrite lookup_insert_ne].
        rewrite lookup_insert_eq. by rewrite Hcl in K4.
    + done.
Qed.

Lemma send_ping_ok (k : nat) (now : Z) (n n' : net) : send_ping k now n = Some n' → net_ok n → net_ok n'.
Proof.
  unfold send_ping. destruct (lines n !! k) as [l|] eqn:Hl; [|done]. cbn [mbind option_bind]. intros [= <-].
  assert (Hp : ∀ c, packets_of c [Client.ping] = []) by (intros c; rewrite packets_of_single; by case_decide as Hc; [destruct Hc|]).
  eapply net_update; [exact Hl|reflexivity| |].
  - intros [H1 H2 H3 H4 H5]. split; try done. intros c. cbn [upsent upread upwire].
    by rewrite !data_of_app, H3, (data_of_nil c [Client.ping] (Hp c)), app_assoc.
  - intros _ [H1 H2 H3 H4 H5]. split; cbn [set_line hist clients instances calls].
    + intros c. cbn [upsent queued]. destruct (H1 c) as [E1 E2].
      by rewrite !data_of_app, E1, (data_of_nil c [Client.ping] (Hp c)), app_nil_r.
    + cbn [upwire]. apply Forall_app. split; [done|]. constructor; [by right|constructor].
    + intros c Hc. destruct (H3 c Hc). split; cbn [hist clients instances upread upwire set_line]; try done.
      by rewrite app_assoc, packets_of_app, Hp, app_nil_r.
    + intros c. destruct (H4 c) as [K1 K2 K3 K4]. split; cbn [hist clients instances calls upwire reply dnwire dnread set_line]; try done.
      intros Hc. by rewrite packets_of_app, Hp, app_nil_r; apply K3.
    + done.
Qed.

(** The instances after a packet: a data packet is written to its instance's
    buffer, a new one if there is none and its serial is 0. *)
Lemma handle_lookup (pre : bytes) (p : Packet.Packet) (insts : gmap bytes Server.instance) (ch : list Packet.Packet) (cid : bytes) :
  Packet.Op p = Packet.OP_DATA ∨ Packet.Op p = Packet.OP_PING →
  Server.instances (Server.handle_packet pre p (Server.mk_trunk insts ch [])) !! cid =
  if decide ((Packet.Op p = Packet.OP_DATA ∧ Packet.ClientId p = cid) ∧ cid ≠ []) then
    match insts !! cid with
    | Some i => Some (Server.iwritePacket p i)
    | None => if (Packet.Serial p =? 0)%Z then Some (Server.iwritePacket p (Server.newInstance pre cid)) else None
    end
  else insts !! cid.
Proof.
  unfold Server.handle_packet. intros [Ho|Ho]; rewrite Ho.
  - change (Packet.OP_DATA =? Packet.OP_PING)%Z with false. change (Packet.OP_DATA =? Packet.OP_EOS)%Z with false.
    cbn match. destruct (decide (length _ = 0)) as [Hz|Hz].
    { apply nil_length_inv in Hz. rewrite decide_False; [done|]. by intros [[_ <-] ?]. }
    cbn [Server.instances]. case_decide as Hc.
    + destruct Hc as [[_ <-] _]. destruct (insts !! Packet.ClientId p) as [i|] eqn:Hi.
      * apply lookup_insert_eq.
      * destruct (_ =? _)%Z; [apply lookup_insert_eq|done].
    + assert (Hne : Packet.ClientId p ≠ cid).
      { intros <-. apply Hc. split; [done|]. intros E. by rewrite E in Hz. }
      destruct (insts !! Packet.ClientId p); [by apply lookup_insert_ne|].
      destruct (_ =? _)%Z; [by apply lookup_insert_ne|done].
  - change (Packet.OP_PING =? Packet.OP_PING)%Z with true. cbn match. rewrite decide_False; [done|]. by intros [[? _] _].
Qed.

(** Handling a packet queues nothing, or a pong. *)
Lemma handle_outbox (pre : bytes) (p : Packet.Packet) (insts : gmap bytes Server.instance) (ch : list Packet.Packet) :
  ∃ new, Server.outbox (Server.handle_packet pre p (Server.mk_trunk insts ch [])) = ch ++ new ∧
         ∀ cid, packets_of cid new = [].
Proof.
  unfold Server.handle_packet. destruct (_ =? _)%Z.
  { eexists. split; [reflexivity|]. intros c. rewrite packets_of_single. by case_decide as Hc; [destruct Hc|]. }
  exists []. rewrite app_nil_r. split; [|done].
  case_decide; [done|]. destruct (_ =? _)%Z; cbn [Server.instances]; destruct (insts !! _); try done.
  by destruct (_ =? _)%Z.
Qed.

(** The server's side of connection [cid] after packet [p]. *)
Lemma serve_up (l : line) (n : net) (pre : bytes) (p : Packet.Packet) (rest : list Packet.Packet) (ch : list Packet.Packet) (cid : bytes) :
  upwire l = p :: rest → cid ≠ [] → Packet.Op p = Packet.OP_DATA ∨ Packet.Op p = Packet.OP_PING → up_ok l n cid →
  let insts := Server.instances (Server.handle_packet pre p (Server.mk_trunk (instances n) ch [])) in
  let full := if server_full p (instances n) then Packet.ClientId p :: full_up (hist n) else full_up (hist n) in
  (∀ inst, insts !! cid = Some inst → Server.iClientId inst = cid) ∧
  (insts !! cid = None → cid ∉ ended (hist n) → packets_of cid (upread l ++ [p]) = []) ∧
  received cid (upread l ++ [p]) (server_buf cid insts) (got (sread (hist n)) cid) (cid ∉ ended (hist n)) full.
Proof.
  intros Hu Hne Ho [K1 K2 K3 K4] insts full. unfold server_buf in *. unfold insts. rewrite handle_lookup by done.
  destruct (decide (Packet.Op p = Packet.OP_DATA ∧ Packet.ClientId p = cid)) as [[Hd Hc]|Hno].
  - rewrite decide_True by done. assert (Ef : server_full p (instances n) = negb (took (RwBuffer.Write (Packet.Data p)
      match instances n !! cid with Some inst => Server.ibuf inst | None => RwBuffer.NewReadWriteBuffer end).1)).
    { unfold server_full. by rewrite Hd, Hc. }
    subst full. rewrite Ef, Hc. clear Ef. destruct (instances n !! cid) as [inst|] eqn:Hi.
    + split; [by intros ? [= <-]; exact (K1 inst eq_refl)|]. split; [done|].
      pose proof (received_write cid (upread l) p (Some (Server.ibuf inst)) (Server.ibuf inst) _ _ _ Hd Hc (rc_open _ _ _ _ _ _ K4 _ eq_refl) eq_refl K4) as Hr. cbn [Server.iwritePacket Server.ibuf fmap option_fmap option_map].
      by destruct (took _).
    + assert (Hnew : received cid (upread l ++ [p]) (Some (RwBuffer.Write (Packet.Data p) RwBuffer.NewReadWriteBuffer).2)
        (got (sread (hist n)) cid) (cid ∉ ended (hist n))
        (if took (RwBuffer.Write (Packet.Data p) RwBuffer.NewReadWriteBuffer).1 then full_up (hist n) else cid :: full_up (hist n))).
      { apply (received_write cid _ p None); [done|done|split; [apply RwBuffer.new_sound|done]|done|done]. }
      destruct (Z.eqb_spec (Packet.Serial p) 0) as [Hs|Hs].
      * split; [by intros ? [= <-]|]. split; [done|]. cbn [Server.iwritePacket Server.ibuf fmap option_fmap option_map].
        by destruct (took _).
      * assert (Hend : ¬ (cid ∉ ended (hist n))).
        { intros He. specialize (K2 eq_refl He). rewrite packets_of_app, K2, Hu, packets_of_cons, packets_of_single in K3.
          rewrite decide_True in K3 by done. by cbn in K3. }
        split; [done|]. split; [done|]. apply (received_lost _ _ _ None) with (sure' := cid ∉ ended (hist n)) in Hnew;
          [|done|by left]. by destruct (took _).
  - rewrite decide_False by tauto. subst full.
    assert (Hp : packets_of cid [p] = []) by (rewrite packets_of_single; by rewrite decide_False).
    split; [done|]. split; [by rewrite packets_of_app, Hp, app_nil_r|].
    eapply received_other; [by apply data_of_nil| |exact K4].
    unfold server_full. destruct (Z.eqb_spec (Packet.Op p) Packet.OP_DATA) as [Hd|]; [|done]. cbn [andb].
    destruct (negb _); [|done]. rewrite elem_of_cons. split; [|tauto]. intros [->|]; [|done]. by destruct Hno.
Qed.

Lemma serve_packet_ok (k : nat) (n n' : net) : serve_packet k n = Some n' → net_ok n → net_ok n'.
Proof.
  unfold serve_packet. destruct (lines n !! k) as [l|] eqn:Hl; [|done]. cbn [mbind option_bind].
  destruct (upwire l) as [|p rest] eqn:Hu; [done|].
  destruct (handle_outbox (Server.trunkPrefix (reply l)) p (instances n) (Server.ch (reply l))) as (new & Ho & Hnew).
  set (t := Server.handle_packet _ _ _) in *.
  rewrite Ho. destruct (reading l && bool_decide _) eqn:Hg; [|done].
  apply andb_true_iff in Hg as [_ Hg%bool_decide_eq_true]. intros [= <-]. rewrite drop_app_length.
  assert (Hdn : ∀ c, data_of c new = []) by (intros c; apply data_of_nil, Hnew).
  eapply net_update; [exact Hl|reflexivity| |].
  - intros [H1 H2 H3 H4 H5]. split; cbn; try done.
    + by rewrite H2, app_assoc.
    + intros c. by rewrite H3, Hu, (data_of_cons c p), data_of_app, app_assoc.
  - intros _ [H1 H2 H3 H4 H5].
    assert (Hop : Packet.Op p = Packet.OP_DATA ∨ Packet.Op p = Packet.OP_PING) by (rewrite Hu in H2; by inversion H2).
    set (h := if server_full p (instances n) then _ else _).
    assert (Eh : wrote h = wrote (hist n) ∧ replied h = replied (hist n) ∧ sread h = sread (hist n) ∧ cread h = cread (hist n) ∧
      ended h = ended (hist n) ∧ replaced h = replaced (hist n) ∧ full_dn h = full_dn (hist n) ∧
      full_up h = if server_full p (instances n) then Packet.ClientId p :: full_up (hist n) else full_up (hist n))
      by (unfold h; by destruct (server_full p (instances n))).
    destruct Eh as (E1 & E2 & E3 & E4 & E5 & E6 & E7 & E8).
    split; cbn [hist clients instances calls].
    + intros c. cbn [upsent queued]. destruct (H1 c) as [A1 A2]. by rewrite E1, E2, !data_of_app, A1, A2, Hdn, app_nil_r.
    + cbn [upwire]. rewrite Hu in H2. by inversion H2.
    + intros c Hc. destruct (serve_up l n (Server.trunkPrefix (reply l)) p rest (Server.ch (reply l)) c Hu Hc Hop (H3 c Hc)) as (S1 & S2 & S3).
      destruct (H3 c Hc) as [K1 K2 K3 K4]. split; cbn [hist instances clients upread upwire]; rewrite ?E3, ?E5, ?E8; try done.
      by rewrite <- app_assoc; cbn [app]; rewrite <- Hu.
    + intros c. destruct (H4 c) as [K1 K2 K3 K4].
      split; cbn [hist clients instances calls upwire reply set_ch Server.ch dnwire dnread]; rewrite ?E4, ?E6, ?E7; try done.
      intros Hc. destruct (K3 Hc) as (A1 & A2 & A3 & A4 & A5). rewrite Hu, packets_of_cons in A3.
      apply app_eq_nil in A3 as [A3 A3']. split; [|split; [done|split; [done|split; [|done]]]].
      * unfold t. rewrite handle_lookup by done. rewrite packets_of_single in A3. rewrite decide_False; [done|].
        intros [Hp _]. by rewrite decide_True in A3.
      * by rewrite packets_of_app, A4, Hnew.
    + split; [|apply H5]. unfold t. rewrite handle_lookup by done. rewrite decide_False by tauto. apply H5.
Qed.

(** A call of an instance waits to send. *)
Lemma call_linked (cid : bytes) (k : nat) (p : Packet.Packet) (inst : Server.instance) (l : line) (n : net) :
  instances n !! cid = Some inst → Packet.ClientId p = Server.iClientId inst → linked l n →
  linked l (mk_net (lines n) (connecting n) (clients n) (instances n) (<[cid := (k, p)]> (calls n)) (hist n)).
Proof.
  intros Hi Hp [H1 H2 H3 H4 [H5 H6]].
  assert (Hne : cid ≠ []) by congruence. split; cbn [hist clients instances calls]; [done|done| | |].
  - intros c Hc. by destruct (H3 c Hc).
  - intros c. destruct (H4 c) as [K1 K2 K3 K4]. split; cbn [hist clients instances calls]; try done.
    + intros k' q [(<- & [= <- <-])|(_ & Hq)]%lookup_insert_Some; [|by eapply K2].
      rewrite Hp. by apply (up_id _ _ _ (H3 cid Hne)).
    + intros Hc. destruct (K3 Hc) as (A1 & A2 & A3). split; [done|]. split; [|done].
      rewrite lookup_insert_ne; [done|]. congruence.
  - split; [done|]. by rewrite lookup_insert_ne.
Qed.

Lemma choose_ok cid dat range k (n n' : net) : choose cid dat range k n = Some n' → net_ok n → net_ok n'.
Proof.
  unfold choose. destruct (lines n !! k) as [l|]; [|done]. destruct (instances n !! cid) as [inst|] eqn:Hi; [|done].
  cbn [mbind option_bind]. case_bool_decide; [|done]. unfold Server.iWrite.
  destruct (Server.getReplyChannel _ _) as [r|]; [|done]. case_bool_decide; [|done]. intros [= <-].
  apply net_same; [done|]. intros l'. by apply (call_linked cid k _ inst).
Qed.

Lemma finish_ok cid range k (n n' : net) : finish cid range k n = Some n' → net_ok n → net_ok n'.
Proof.
  unfold finish. destruct (lines n !! k) as [l|]; [|done]. destruct (instances n !! cid) as [inst|] eqn:Hi; [|done].
  cbn [mbind option_bind]. case_bool_decide; [|done]. intros [= <-].
  apply net_same; [done|]. intros l'. by apply (call_linked cid k _ inst).
Qed.

Lemma send_ok cid (n n' : net) : send cid n = Some n' → net_ok n → net_ok n'.
Proof.
  unfold send. destruct (calls n !! cid) as [[k p]|] eqn:Hcall; [|done]. cbn [mbind option_bind].
  destruct (lines n !! k) as [l|] eqn:Hl; [|done]. cbn [mbind option_bind].
  case_decide as Hc; [|done]. intros [= <-].
  eapply net_update; [exact Hl|reflexivity| |].
  - intros [H1 H2 H3 H4 H5]. split; cbn; try done; [rewrite length_app; cbn; lia|by rewrite H2, app_assoc].
  - intros _ [H1 H2 H3 H4 [H5 H6]]. split; cbn [hist clients instances calls].
    + intros c. cbn [note_replied wrote replied upsent queued]. destruct (H1 c) as [E1 E2]. by rewrite !data_of_app, E2.
    + done.
    + intros c Hc'. by destruct (H3 c Hc').
    + intros c. destruct (H4 c) as [K1 K2 K3 K4].
      split; cbn [hist clients instances calls upwire reply set_ch Server.ch dnwire dnread note_replied]; try done.
      * intros k' q [_ Hq]%lookup_delete_Some. by eapply K2.
      * intros Hn. destruct (K3 Hn) as (A1 & A2 & A3 & A4 & A5). split; [done|]. split; [|split; [done|split; [|done]]].
        -- apply lookup_delete_None. by right.
        -- rewrite packets_of_app, A4, packets_of_single, decide_False; [done|].
           intros [_ E]. assert (Hpc := dn_call _ _ _ (H4 cid) k p Hcall). congruence.
    + split; [done|]. apply lookup_delete_None. by right.
Qed.

Lemma remove_ok cid (n n' : net) : remove cid n = Some n' → net_ok n → net_ok n'.
Proof.
  unfold remove. case_bool_decide as Hcall; [|done]. intros [= <-]. apply net_same; [done|].
  intros l [H1 H2 H3 H4 [H5 H6]]. split; cbn [hist clients instances calls]; [done|done| | |].
  - intros c Hc. destruct (H3 c Hc) as [K1 K2 K3 K4]. split; cbn [hist clients instances note_ended wrote ended sread full_up]; [| |done|].
    + intros inst [_ Hi]%lookup_delete_Some. by apply K1.
    + intros [->|Hi]%lookup_delete_None; rewrite elem_of_cons; [tauto|]. intros He. apply K2; tauto.
    + unfold server_buf in *. destruct (decide (c = cid)) as [->|Hne].
      * rewrite lookup_delete_eq. eapply received_lost; [|by left|exact K4]. rewrite elem_of_cons. tauto.
      * rewrite lookup_delete_ne by done. eapply received_sure; [|exact K4]. rewrite elem_of_cons. tauto.
  - intros c. destruct (H4 c) as [K1 K2 K3 K4]. split; cbn [hist clients instances calls note_ended]; try done.
    intros Hn. destruct (K3 Hn) as (A1 & ?). split; [|done]. apply lookup_delete_None. by right.
  - split; [|done]. apply lookup_delete_None. by right.
Qed.

Lemma reply_packet_ok k parts sent fails (n n' : net) : reply_packet k parts sent fails n = Some n' → net_ok n → net_ok n'.
Proof.
  unfold reply_packet. destruct (lines n !! k) as [l|] eqn:Hl; [|done]. cbn [mbind option_bind].
  destruct (Server.ch (reply l)) as [|p rest] eqn:Hch; [done|].
  destruct (serving l && whole p parts && _) eqn:Hg; [|done].
  rewrite !andb_true_iff, orb_true_iff, bool_decide_eq_true in Hg. destruct Hg as [[Hs Hw] Hf]. intros [= <-].
  eapply net_update; [exact Hl|reflexivity| |].
  - intros [H1 H2 H3 H4 H5]. split; cbn; try done.
    + rewrite Hch in H1. cbn in H1. lia.
    + by rewrite H2, Hch, <- app_assoc.
    + intros c. rewrite !data_of_app, app_assoc, (H5 c Hs), <- (data_of_whole c p parts Hw).
      apply prefix_app, data_of_take.
    + intros c Hs'. destruct Hf as [->|Hf]; [done|].
      by rewrite take_ge, !data_of_app, app_assoc, (H5 c Hs), (data_of_whole c p parts Hw) by done.
  - intros _ [H1 H2 H3 H4 H5]. split; cbn [set_line hist clients instances calls]; [done|done| | |done].
    + intros c Hc. by destruct (H3 c Hc).
    + intros c. destruct (H4 c) as [K1 K2 K3 K4].
      split; cbn [hist clients instances calls upwire reply set_ch Server.ch dnwire dnread set_line]; try done.
      intros Hn. destruct (K3 Hn) as (A1 & A2 & A3 & A4 & A5). rewrite Hch, packets_of_cons in A4.
      apply app_eq_nil in A4 as [A4 A4']. do 4 (split; [done|]).
      rewrite packets_of_app, A5, packets_of_none by done. done.
Qed.

(** What a packet does to the divided clients. *)
Lemma on_packet_clients (now : Z) (p : Packet.Packet) (c c' : Client.client) (cls cls' : Client.divided) :
  Client.on_packet now p (c, cls) = (c', cls', None) →
  cls' = if decide (Packet.Op p = Packet.OP_DATA) then
           match Client.load (Packet.ClientId p) cls with
           | Some cl => <[Packet.ClientId p := Client.writeBuf (Packet.Data p) cl]> cls
           | None => cls
           end
         else cls.
Proof.
  unfold Client.on_packet. destruct (Z.eqb_spec (Packet.Op p) Packet.OP_DATA) as [Ho|Ho].
  { intros [= <- <-]. by rewrite decide_True. }
  rewrite decide_False by done. destruct (_ =? _)%Z; [by intros [= <- <-]|]. destruct (_ =? _)%Z; [|by intros [= <- <-]].
  destruct (Client.load _ _) as [cl|]; [by destruct (Client.close_packet cl)|by intros [= <- <-]].
Qed.

(** The client's side of connection [cid] after packet [p]. *)
Lemma feed_dn (l : line) (n : net) (now : Z) (p : Packet.Packet) (rest : list Packet.Packet) (c' : Client.client)
    (cls' : Client.divided) (cid : bytes) :
  dnwire l = p :: rest → Client.on_packet now p (sc l, clients n) = (c', cls', None) → dn_ok l n cid →
  let full := if client_full p (clients n) then Packet.ClientId p :: full_dn (hist n) else full_dn (hist n) in
  (∀ cl', cls' !! cid = Some cl' → Client.clientId cl' = cid ∧ Client.registered cl' = true ∧
     ∃ cl, clients n !! cid = Some cl ∧ Client.serial cl = Client.serial cl') ∧
  (cls' !! cid = None → clients n !! cid = None) ∧
  received cid (dnread l ++ [p]) (client_buf cid cls') (got (cread (hist n)) cid) (cid ∉ replaced (hist n)) full.
Proof.
  intros Hd Hp%on_packet_clients [K1 K2 K3 K4] full. unfold client_buf in *.
  destruct (decide (Packet.Op p = Packet.OP_DATA ∧ Packet.ClientId p = cid)) as [[Ho Hc]|Hno].
  - rewrite decide_True in Hp by done. subst cls'. rewrite Hc in *.
    destruct (clients n !! cid) as [cl|] eqn:Hcl.
    + destruct (K1 cl eq_refl) as [Hid Hreg]. assert (Hload : Client.load cid (clients n) = Some cl).
      { unfold Client.load. by rewrite Hcl, Hreg. }
      assert (Ef : client_full p (clients n) = negb (took (RwBuffer.Write (Packet.Data p) (Client.buf cl)).1)).
      { unfold client_full. by rewrite Ho, Hc, Hload. }
      subst full. rewrite Hload, Ef, Hc, lookup_insert_eq. split; [|split; [done|]].
      * intros cl' [= <-]. split; [done|]. split; [done|]. by exists cl.
      * pose proof (received_write cid (dnread l) p (Some (Client.buf cl)) (Client.buf cl) _ _ _ Ho Hc
          (rc_open _ _ _ _ _ _ K4 _ eq_refl) eq_refl K4) as Hr.
        cbn [Client.writeBuf Client.buf fmap option_fmap option_map]. by destruct (took _).
    + destruct (K3 eq_refl) as (_ & _ & _ & _ & A). rewrite Hd, packets_of_cons, packets_of_single in A.
      by rewrite decide_True in A.
  - assert (Hq : packets_of cid [p] = []) by (rewrite packets_of_single; by rewrite decide_False).
    assert (Ecl : cls' !! cid = clients n !! cid).
    { subst cls'. case_decide; [|done]. destruct (Client.load _ _); [|done]. apply lookup_insert_ne. tauto. }
    rewrite Ecl. split; [|split; [done|]].
    + intros cl' Hcl'. destruct (K1 cl' Hcl') as [? ?]. split; [done|]. split; [done|]. by exists cl'.
    + eapply received_other; [by apply data_of_nil| |exact K4]. subst full. unfold client_full.
      destruct (Z.eqb_spec (Packet.Op p) Packet.OP_DATA) as [Ho|]; [|done]. cbn [andb].
      destruct (Client.load _ _); [|done]. destruct (negb _); [|done]. rewrite elem_of_cons.
      split; [|tauto]. intros [->|]; [|done]. by destruct Hno.
Qed.

Lemma feed_ok (k : nat) (now : Z) (n n' : net) : feed k now n = Some n' → net_ok n → net_ok n'.
Proof.
  unfold feed. destruct (lines n !! k) as [l|] eqn:Hl; [|done]. cbn [mbind option_bind].
  destruct (dnwire l) as [|p rest] eqn:Hd; [done|].
  destruct (Client.on_packet now p (sc l, clients n)) as [[c' cls] [q|]] eqn:Hp; [done|]. intros [= <-].
  eapply net_update; [exact Hl|reflexivity| |].
  - intros [H1 H2 H3 H4 H5]. split; cbn; try done; intros c; specialize (H4 c); specialize (H5 c);
      rewrite Hd, (data_of_cons c p) in *; by rewrite data_of_app, <- app_assoc.
  - intros _ [H1 H2 H3 H4 H5]. set (h := if client_full p (clients n) then _ else _).
    assert (Eh : wrote h = wrote (hist n) ∧ replied h = replied (hist n) ∧ sread h = sread (hist n) ∧ cread h = cread (hist n) ∧
      ended h = ended (hist n) ∧ replaced h = replaced (hist n) ∧ full_up h = full_up (hist n) ∧
      full_dn h = if client_full p (clients n) then Packet.ClientId p :: full_dn (hist n) else full_dn (hist n))
      by (unfold h; by destruct (client_full p (clients n))).
    destruct Eh as (E1 & E2 & E3 & E4 & E5 & E6 & E7 & E8).
    assert (Hdn := λ c, feed_dn l n now p rest c' cls c Hd Hp (H4 c)).
    split; cbn [hist clients instances calls]; [unfold agrees; by rewrite E1, E2|done| | |done].
    + intros c Hc. destruct (H3 c Hc) as [K1 K2 K3 K4]. split; cbn [hist clients instances upread upwire]; rewrite ?E3, ?E5, ?E7; try done.
      destruct (packets_of c (upread l ++ upwire l)); [|done]. intros cl Hcl.
      destruct (Hdn c) as (S1 & _). destruct (S1 cl Hcl) as (_ & _ & cl0 & Hcl0 & <-). by apply K3.
    + intros c. destruct (H4 c) as [K1 K2 K3 K4]. destruct (Hdn c) as (S1 & S2 & S3).
      split; cbn [hist clients instances calls upwire reply dnwire dnread]; rewrite ?E4, ?E6, ?E8; try done.
      * intros cl Hcl. by destruct (S1 cl Hcl) as (? & ? & _).
      * intros Hc. destruct (K3 (S2 Hc)) as (A1 & A2 & A3 & A4 & A5). do 4 (split; [done|]).
        rewrite Hd, packets_of_cons in A5. by apply app_eq_nil in A5 as [_ ?].
Qed.

(** Reading. *)
Lemma got_insert (m : gmap bytes bytes) (cid c d : bytes) :
  got (<[cid := got m cid ++ d]> m) c = if decide (c = cid) then got m cid ++ d else got m c.
Proof.
  unfold got at 1. case_decide as Hc; [subst; by rewrite lookup_insert_eq|by rewrite lookup_insert_ne].
Qed.

Lemma session_read_ok cid m (n n' : net) : session_read cid m n = Some n' → net_ok n → net_ok n'.
Proof.
  unfold session_read. destruct (instances n !! cid) as [inst|] eqn:Hi; [|done]. cbn [mbind option_bind].
  unfold Server.iRead. case_decide as Hm.
  { intros [= <-]. apply net_same; [done|]. intros l [H1 H2 H3 H4 H5]. rewrite insert_id by done.
    split; cbn [hist clients instances calls]; [done|done| |intros c; by destruct (H4 c)|done].
    intros c Hc. destruct (H3 c Hc) as [K1 K2 K3 K4]. split; cbn [hist clients instances note_sread sread ended full_up]; try done.
    rewrite got_insert, app_nil_r. by case_decide; [subst|]. }
  destruct (RwBuffer.readFromBuf m (Server.ibuf inst)) as [d b] eqn:Hr.
  destruct (decide (0 < length d)) as [_|_]; [|by destruct (RwBuffer.eof _)]. intros [= <-].
  apply net_same; [done|]. intros l [H1 H2 H3 H4 [H5 H6]]. assert (Hne : cid ≠ []) by congruence.
  split; cbn [hist clients instances calls]; [done|done| | |].
  - intros c Hc. destruct (H3 c Hc) as [K1 K2 K3 K4]. split; cbn [hist clients instances note_sread sread ended full_up]; [| |done|].
    + intros i [(<- & <-)|(_ & Hi')]%lookup_insert_Some; [exact (K1 inst Hi)|by apply K1].
    + intros [Hn _]%lookup_insert_None. by apply K2.
    + unfold server_buf in *. rewrite got_insert. case_decide as Hcc.
      * subst c. rewrite Hi in K4. rewrite lookup_insert_eq. cbn [fmap option_fmap option_map Server.ibuf].
        pose proof (received_read _ _ _ _ _ _ m K4) as Hrd. by rewrite Hr in Hrd.
      * by rewrite lookup_insert_ne.
  - intros c. destruct (H4 c) as [K1 K2 K3 K4]. split; cbn [hist clients instances calls note_sread]; try done.
    intros Hn. destruct (K3 Hn) as (A1 & ?). split; [|done]. rewrite lookup_insert_ne; [done|]. congruence.
  - split; [by rewrite lookup_insert_ne|done].
Qed.

Lemma client_read_ok cid m range (n n' : net) : client_read cid m range n = Some n' → net_ok n → net_ok n'.
Proof.
  unfold client_read. destruct (clients n !! cid) as [cl|] eqn:Hcl; [|done]. cbn [mbind option_bind].
  case_bool_decide; [|done]. unfold Client.DRead. destruct (Client.getAvailableSharedClient range) as [_|]; [|done].
  case_decide as Hm.
  { intros [= <-]. apply net_same; [done|]. intros l [H1 H2 H3 H4 H5]. rewrite insert_id by done.
    split; cbn [hist clients instances calls]; [done|done|intros c Hc; by destruct (H3 c Hc)| |done].
    intros c. destruct (H4 c) as [K1 K2 K3 K4]. split; cbn [hist clients instances calls note_cread cread replaced full_dn]; try done.
    rewrite got_insert, app_nil_r. by case_decide; [subst|]. }
  destruct (RwBuffer.readFromBuf m (Client.buf cl)) as [d b] eqn:Hr.
  destruct (decide (0 < length d)) as [_|_]; [|by destruct (RwBuffer.eof _)]. intros [= <-].
  apply net_same; [done|]. intros l [H1 H2 H3 H4 H5].
  split; cbn [hist clients instances calls]; [done|done| | |done].
  - intros c Hc. destruct (H3 c Hc) as [K1 K2 K3 K4]. split; cbn [hist clients instances note_cread]; try done.
    destruct (packets_of c (upread l ++ upwire l)); [|done].
    intros x [(<- & <-)|(_ & Hx)]%lookup_insert_Some; [by apply (K3 cl)|by apply K3].
  - intros c. destruct (H4 c) as [K1 K2 K3 K4]. split; cbn [hist clients instances calls note_cread cread replaced full_dn]; [|done| |].
    + intros x [(<- & <-)|(_ & Hx)]%lookup_insert_Some; [exact (K1 cl Hcl)|by apply K1].
    + intros [Hn _]%lookup_insert_None. by apply K3.
    + unfold client_buf in *. rewrite got_insert. case_decide as Hcc.
      * subst c. rewrite Hcl in K4. rewrite lookup_insert_eq. cbn [fmap option_fmap option_map Client.buf].
        pose proof (received_read _ _ _ _ _ _ m K4) as Hrd. by rewrite Hr in Hrd.
      * by rewrite lookup_insert_ne.
Qed.

(** The other changes of a transport leave its streams alone. *)
Lemma set_line_ok (k : nat) (l l' : line) (n : net) :
  lines n !! k = Some l → (line_ok l → line_ok l') → (∀ n n', clients n' = clients n → instances n' = instances n →
    calls n' = calls n → hist n' = hist n → linked l n → linked l' n') → net_ok n → net_ok (set_line k l' n).
Proof. intros Hl Hok Ha. eapply net_update; [exact Hl|reflexivity|done|]. intros _. by apply Ha. Qed.

Lemma net_exec_ok (a : action) (n n' : net) : exec a n = Some n' → net_ok n → net_ok n'.
Proof.
  destruct a as [fresh cid now range|i now b|cid dat now range k parts|k now|k|k|cid m|cid m range|cid dat range k|cid|cid range k|cid
                |k parts sent fails|k|k now|k]; cbn [exec].
  - apply get_client_ok.
  - apply connect_ok.
  - apply write_ok.
  - apply send_ping_ok.
  - apply serve_packet_ok.
  - unfold stop_reading. destruct (lines n !! k) as [l|] eqn:Hl; [|done]. intros [= <-].
    apply (set_line_ok k l); [done|by intros []|intros ? ? ? ? ? ? Hlk; by eapply linked_same, Hlk].
  - apply session_read_ok.
  - apply client_read_ok.
  - apply choose_ok.
  - apply send_ok.
  - apply finish_ok.
  - apply remove_ok.
  - apply reply_packet_ok.
  - unfold stop_serving. destruct (lines n !! k) as [l|] eqn:Hl; [|done]. cbn [mbind option_bind].
    destruct (reading l); [done|]. intros [= <-]. apply (set_line_ok k l); [done|by intros []|intros ? ? ? ? ? ? Hlk; by eapply linked_same, Hlk].
  - apply feed_ok.
  - unfold leave. destruct (lines n !! k) as [l|] eqn:Hl; [|done]. intros [= <-].
    apply (set_line_ok k l); [done|by intros []|intros ? ? ? ? ? ? Hlk; by eapply linked_same, Hlk].
Qed.

Lemma net_start_ok : net_ok start.
Proof.
  split; [constructor|]. intros l [?|[_ (E1 & E2 & E3 & E4 & E5 & E6 & E7)]]; [done|].
  assert (Hrc : ∀ cid sure, received cid [] None [] sure []).
  { intros cid sure. split; [done|done|cbn; lia|by intros ?%elem_of_nil]. }
  split; cbn [start hist clients instances calls].
  - intros c. by rewrite E4, E6.
  - by rewrite E1.
  - intros c Hc. split; cbn [start hist clients instances]; rewrite ?E1, ?E5; try done; apply Hrc.
  - intros c. split; cbn [start hist clients instances calls]; rewrite ?E1, ?E2, ?E3, ?E7; try done; apply Hrc.
  - done.
Qed.

Lemma net_reachable (n : net) : rtc step start n → net_ok n.
Proof. intros Hr. by apply (acts_invariant exec net_ok net_exec_ok start), net_start_ok. Qed.

End run.

(** ** Properties *)

(** What the server's session, and what the client's reader, find in their
    buffers; with what they have read, all that has got there. *)
Definition server_has (cid : bytes) (n : net) : option bytes :=
  (λ i, RwBuffer.content (Server.ibuf i)) <$> instances n !! cid.
Definition client_has (cid : bytes) (n : net) : option bytes :=
  (λ c, RwBuffer.content (Client.buf c)) <$> clients n !! cid.
Definition server_got (cid : bytes) (n : net) : bytes := got (sread (hist n)) cid ++ default [] (server_has cid n).
Definition client_got (cid : bytes) (n : net) : bytes := got (cread (hist n)) cid ++ default [] (client_has cid n).

(** What is on the way to the server, what is on the way back, and what waits
    in the reply channels. *)
Definition up_way (cid : bytes) (n : net) : bytes := data_of cid (concat (map upwire (lines n))).
Definition dn_way (cid : bytes) (n : net) : bytes := data_of cid (concat (map dnwire (lines n))).
Definition ch_way (cid : bytes) (n : net) : bytes := data_of cid (concat (map (λ l, Server.ch (reply l)) (lines n))).

(** The only transport of the process, if there is one. *)
Lemma only_line (n : net) :
  net_ok n → length (lines n) ≤ 1 →
  ∃ l, linked l n ∧ line_ok l ∧ concat (map upwire (lines n)) = upwire l ∧ concat (map dnwire (lines n)) = dnwire l ∧
    concat (map (λ l, Server.ch (reply l)) (lines n)) = Server.ch (reply l) ∧
    (serving l = true ∨ lines n = [l]).
Proof.
  intros [Hls Hone] Hlen. destruct (lines n) as [|l [|? ?]] eqn:E; [| |cbn in Hlen; lia].
  - exists (mk_line (Client.newClient [] 0) true [] true (Server.mk_reply [] [] 0 0) true [] [] [] [] [] []).
    split; [apply Hone; right; done|]. split; [by apply new_line_ok|]. split; [done|]. split; [done|]. split; [done|by left].
  - exists l. split; [apply Hone; by left|]. split; [by inversion Hls|]. cbn [map concat].
    rewrite !app_nil_r. do 3 (split; [done|]). by right.
Qed.

Lemma server_got_held (cid : bytes) (n : net) :
  server_got cid n = got (sread (hist n)) cid ++ held (server_buf cid (instances n)).
Proof. unfold server_got, server_has, server_buf. by destruct (instances n !! cid). Qed.
Lemma client_got_held (cid : bytes) (n : net) :
  client_got cid n = got (cread (hist n)) cid ++ held (client_buf cid (clients n)).
Proof. unfold client_got, client_has, client_buf. by destruct (clients n !! cid). Qed.

(** C12: streams over the pool, in every interleaving of the clients, the
    trunks' handlers, the instances and their readers.  Each transport hands
    over what it was given, per connection and in order in both directions, its
    reply channel holding at most 32 packets.  And as long as the process has
    had a single transport, nothing is lost or reordered end to end: what an
    instance's session has read, then what its buffer holds, then what is on
    the way, is exactly what the divided client of that id wrote, as long as
    the session has not ended; and what the client has read, then what its
    buffer holds, then what is on the way back, is what the session wrote, as
    long as no new client took the id (a prefix of it when the trunk's handler
    has gone).  The only other loss is a packet that finds the buffer full,
    which takes more than [PoolMux.capacity] (8 MB less 4 kB) bytes sent. *)
Theorem pool_stream_order (cfg : Conf.Values) (prefix : bytes) (n : net) :
  rtc (step cfg prefix) start n →
  (∀ l, l ∈ lines n → length (Server.ch (reply l)) ≤ ch_cap ∧
     ∀ cid, data_of cid (upread l) `prefix_of` data_of cid (upsent l) ∧
            data_of cid (dnread l) `prefix_of` data_of cid (queued l)) ∧
  (length (lines n) ≤ 1 → ∀ cid, cid ≠ [] →
     (cid ∉ ended (hist n) → cid ∉ full_up (hist n) →
        server_got cid n ++ up_way cid n = data_of cid (wrote (hist n))) ∧
     (cid ∉ replaced (hist n) → cid ∉ full_dn (hist n) →
        (client_got cid n ++ dn_way cid n) `prefix_of` data_of cid (replied (hist n)) ∧
        ((∀ l, l ∈ lines n → serving l = true) →
           client_got cid n ++ dn_way cid n ++ ch_way cid n = data_of cid (replied (hist n)))) ∧
     (cid ∈ full_up (hist n) → (PoolMux.capacity < len (data_of cid (wrote (hist n))))%Z) ∧
     (cid ∈ full_dn (hist n) → (PoolMux.capacity < len (data_of cid (replied (hist n))))%Z)).
Proof.
  intros Hn%net_reachable. split.
  { intros l Hin. destruct (proj1 (Forall_forall _ _) (ok_lines _ Hn) l Hin) as [H1 H2 H3 H4 _]. split; [done|].
    intros cid. rewrite H3, H2, data_of_app. split; [by apply prefix_app_r|].
    apply prefix_app_r. etrans; [by apply prefix_app_r|apply H4]. }
  intros Hlen cid Hne. destruct (only_line n Hn Hlen) as (l & Hlk & [L1 L2 L3 L4 L5] & Eu & Ed & Ec & Hsv).
  unfold up_way, dn_way, ch_way. rewrite Eu, Ed, Ec, server_got_held, client_got_held.
  destruct Hlk as [Ha _ Hup Hdn _]. destruct (Ha cid) as [-> ->]. rewrite L3, L2, data_of_app.
  destruct (up_received _ _ _ (Hup cid Hne)) as [_ U1 _ U2]. destruct (dn_received _ _ _ (Hdn cid)) as [_ D1 _ D2].
  split; [|split; [|split]].
  - intros He Hf. by rewrite U1.
  - intros Hr Hf. rewrite D1 by done. split; [apply prefix_app_r, L4|]. intros Hall.
    rewrite app_assoc, L5; [done|]. destruct Hsv as [?|E]; [done|]. apply Hall. rewrite E. left.
  - intros Hf%U2. unfold len in *. rewrite length_app. lia.
  - intros Hf%D2. unfold len in *. rewrite length_app. destruct (L4 cid) as [k Hk].
    apply (f_equal length) in Hk. rewrite !length_app in Hk. lia.
Qed.


Definition c1 : bytes := lit "c1".
Definition c2 : bytes := lit "c2".

(** Scripts: the maps are visited in the order of the model's lists. *)
Definition get (fresh cid : bytes) (now : Z) (n : net) : action := AGet fresh cid now (pool n).
Definition put (cid dat : bytes) (now : Z) (k : nat) (n : net) : action := AWrite cid dat now (pool n) k [dat].
Definition answer (cid dat : bytes) (k : nat) (n : net) : action := AChoose cid dat (channels n) k.

(** One transport: a request the session reads in part, a ping, a reply the
    client reads. *)
Definition one_line : list (net → action) :=
  [get (lit "f1") c1 7; λ _, AConnect 0 8 true; put c1 (lit "abc") 9 0; λ _, APing 0 12; λ _, AServe 0; λ _, AServe 0;
   λ _, ASessionRead c1 2; put c1 (lit "de") 13 0; answer c1 (lit "xyz") 0; λ _, ASend c1; λ _, AReply 0 [[]] 1 false;
   λ _, AReply 0 [lit "x"; lit "yz"] 2 false; λ _, AFeed 0 20; λ _, AFeed 0 20; λ n, AClientRead c1 9 (pool n)].
Definition one_line_net : net := default start (run_script (exec PoolMux.pool_cfg (lit "s")) one_line start).

Lemma pool_stream_order_witness :
  server_got c1 one_line_net = lit "abc" ∧ server_has c1 one_line_net = Some (lit "c") ∧
  server_got c1 one_line_net ++ up_way c1 one_line_net = lit "abcde" ∧
  client_got c1 one_line_net = lit "x" ∧ client_has c1 one_line_net = Some [] ∧
  client_got c1 one_line_net ++ dn_way c1 one_line_net ++ ch_way c1 one_line_net = lit "xyz".
Proof.
  destruct (pool_stream_order PoolMux.pool_cfg (lit "s") one_line_net) as [_ H].
  { apply (run_script_rtc _ one_line). vm_compute. reflexivity. }
  destruct (H ltac:(vm_compute; lia) c1 ltac:(vm_compute; discriminate)) as (H1 & H2 & _).
  assert (Hnil : hist one_line_net = mk_hist (wrote (hist one_line_net)) (replied (hist one_line_net))
                   (sread (hist one_line_net)) (cread (hist one_line_net)) [] [] [] []) by (vm_compute; reflexivity).
  split; [vm_compute; reflexivity|]. split; [vm_compute; reflexivity|]. split.
  - rewrite H1; [vm_compute; reflexivity| |]; rewrite Hnil; apply not_elem_of_nil.
  - split; [vm_compute; reflexivity|]. split; [vm_compute; reflexivity|].
    destruct H2 as [_ H2]; [rewrite Hnil; apply not_elem_of_nil..|]. rewrite H2; [vm_compute; reflexivity|].
    intros l Hl. assert (Hall : forallb serving (lines one_line_net) = true) by (vm_compute; reflexivity).
    rewrite forallb_forall in Hall. apply Hall. by apply list_elem_of_In.
Defined.

(** A second transport connects while the first one is in use. *)
Definition two_lines : list (net → action) :=
  [get (lit "f1") c1 7; λ _, AConnect 0 8 true; put c1 (lit "x") 9 0; λ _, AServe 0;
   answer c1 (lit "a") 0; λ _, ASend c1;
   get (lit "f2") c2 400; put c2 (lit "h") 401 0; put c1 (lit "a") 401 0; λ _, AConnect 0 402 true;
   put c2 (lit "i") 403 1; put c1 (lit "b") 404 1; λ _, AServe 1; λ _, AServe 1; λ _, AServe 0; λ _, AServe 0;
   answer c1 (lit "b") 1; λ _, ASend c1; λ _, AReply 1 [lit "b"] 1 false; λ _, AReply 0 [lit "a"] 1 false;
   λ _, AFeed 1 405; λ _, AFeed 0 405].
Definition two_lines_net : net := default start (run_script (exec PoolMux.pool_cfg (lit "s")) two_lines start).

(** Nothing is under way. *)
Definition settled (n : net) : Prop :=
  calls n = ∅ ∧ Forall (λ l, upwire l = [] ∧ dnwire l = [] ∧ Server.ch (reply l) = []) (lines n).

(** *** A full reply channel without a handler *)

(** A call waits to send on the channel of a transport that is full and whose
    handler has gone. *)
Definition clogged (cid : bytes) (k : nat) (p : Packet.Packet) (n : net) : Prop :=
  calls n !! cid = Some (k, p) ∧ is_Some (instances n !! cid) ∧
  ∃ l, lines n !! k = Some l ∧ serving l = false ∧ ch_cap ≤ length (Server.ch (reply l)).

(** Such a channel stays as it is, or gets longer. *)
Definition no_better (l l' : line) : Prop :=
  (serving l = false → serving l' = false) ∧
  (serving l = false → length (Server.ch (reply l)) ≤ length (Server.ch (reply l'))).

Lemma no_better_same (l l' : line) : (serving l = false → serving l' = false) → reply l' = reply l → no_better l l'.
Proof. intros Hs Hr. split; [done|]. intros _. by rewrite Hr. Qed.

Lemma clogged_set (cid : bytes) (k j : nat) (p : Packet.Packet) (l l' : line) (n n' : net) :
  lines n !! j = Some l → lines n' = <[j := l']> (lines n) → no_better l l' →
  calls n' !! cid = calls n !! cid → (is_Some (instances n !! cid) → is_Some (instances n' !! cid)) →
  clogged cid k p n → clogged cid k p n'.
Proof.
  intros Hl El [H1 H2] Ec Hi (K1 & K2 & x & K3 & K4 & K5). split; [by rewrite Ec|]. split; [by apply Hi|].
  rewrite El. destruct (decide (j = k)) as [->|Hne].
  - rewrite Hl in K3. injection K3 as <-. exists l'. rewrite list_lookup_insert_eq by (by eapply lookup_lt_Some).
    split; [done|]. split; [by apply H1|]. etrans; [exact K5|by apply H2].
  - exists x. by rewrite list_lookup_insert_ne.
Qed.

Lemma clogged_same (cid : bytes) (k : nat) (p : Packet.Packet) (n n' : net) :
  lines n `prefix_of` lines n' → calls n' !! cid = calls n !! cid → (is_Some (instances n !! cid) → is_Some (instances n' !! cid)) →
  clogged cid k p n → clogged cid k p n'.
Proof.
  intros Hl Ec Hi (K1 & K2 & x & K3 & K4). split; [by rewrite Ec|]. split; [by apply Hi|]. exists x.
  split; [by eapply prefix_lookup_Some|done].
Qed.

Lemma insert_is_Some {A} (m : gmap bytes A) (i j : bytes) (x : A) : is_Some (m !! i) → is_Some (<[j := x]> m !! i).
Proof. intros Hm. destruct (decide (j = i)) as [->|]; [by rewrite lookup_insert_eq|by rewrite lookup_insert_ne]. Qed.

(** The server never forgets an instance on a packet. *)
Lemma handle_keeps (pre : bytes) (p : Packet.Packet) (insts : gmap bytes Server.instance) (ch : list Packet.Packet) (cid : bytes) :
  is_Some (insts !! cid) → is_Some (Server.instances (Server.handle_packet pre p (Server.mk_trunk insts ch [])) !! cid).
Proof.
  intros Hi. unfold Server.handle_packet. destruct (_ =? _)%Z; [done|]. case_decide; [done|].
  destruct (_ =? _)%Z; cbn [Server.instances]; destruct (insts !! Packet.ClientId p); try done; try by apply insert_is_Some.
  destruct (_ =? _)%Z; [by apply insert_is_Some|done].
Qed.

(** An action on line [j] that leaves its reply channel alone. *)
Ltac other_line Hx j :=
  match type of Hx with context [lines ?n !! j] =>
    let l := fresh "l" in let Hl := fresh "Hl" in
    destruct (lines n !! j) as [l|] eqn:Hl; [|done];
    unfold mbind, option_bind in Hx; repeat (case_match; try done); injection Hx as <-;
    (eapply (clogged_set _ _ j _ l); [exact Hl|reflexivity|by apply no_better_same|done|done|done])
  end.

(** A call begins: it is not the one that waits. *)
Ltac other_call Hx n cid k p :=
  unfold mbind, option_bind in Hx; repeat (case_match; try done); injection Hx as <-;
  apply (clogged_same cid k p n); [done| |done|done]; cbn [calls]; rewrite lookup_insert_ne; [done|]; intros ->;
  match goal with Hg : bool_decide (_ ∧ calls _ !! _ = None ∧ _) = true |- _ => apply bool_decide_eq_true in Hg as (_ & ? & _) end;
  congruence.

Lemma exec_clogged (cfg : Conf.Values) (prefix cid : bytes) (k : nat) (p : Packet.Packet) (a : action) (n n' : net) :
  exec cfg prefix a n = Some n' → clogged cid k p n → clogged cid k p n'.
Proof.
  intros Hx Hc. pose proof Hc as (Hcall & _ & l0 & Hl0 & _ & Hch0).
  destruct a as [fresh c now range|i now b|c dat now range j parts|j now|j|j|c m|c m range|c dat range j|c|c range j|c
                |j parts sent fails|j|j now|j]; cbn [exec] in Hx.
  - unfold get_client in Hx. repeat (case_match; try done); injection Hx as <-; by apply (clogged_same cid k p n).
  - unfold connect in Hx. destruct (connecting n !! i) as [c|]; [|done]. injection Hx as <-.
    apply (clogged_same cid k p n); [by apply prefix_app_r|done..].
  - unfold write in Hx. other_line Hx j.
  - unfold send_ping in Hx. other_line Hx j.
  - unfold serve_packet in Hx. destruct (lines n !! j) as [l|] eqn:Hl; [|done]. cbn [mbind option_bind] in Hx.
    destruct (upwire l) as [|q rest]; [done|]. destruct (_ && _); [|done]. injection Hx as <-.
    eapply (clogged_set cid k j p l); [exact Hl|reflexivity| |done|apply handle_keeps|done]. split; [done|]. intros _.
    cbn [reply set_ch Server.ch]. destruct (handle_outbox (Server.trunkPrefix (reply l)) q (instances n) (Server.ch (reply l))) as (new & -> & _).
    rewrite length_app. lia.
  - unfold stop_reading in Hx. other_line Hx j.
  - unfold session_read in Hx. unfold mbind, option_bind in Hx. repeat (case_match; try done). injection Hx as <-.
    apply (clogged_same cid k p n); [done|done|apply insert_is_Some|done].
  - unfold client_read in Hx. unfold mbind, option_bind in Hx. repeat (case_match; try done). injection Hx as <-.
    by apply (clogged_same cid k p n).
  - unfold choose in Hx. other_call Hx n cid k p.
  - unfold send in Hx. destruct (calls n !! c) as [[j q]|] eqn:Hcc; [|done]. cbn [mbind option_bind] in Hx.
    destruct (lines n !! j) as [l|] eqn:Hl; [|done]. cbn [mbind option_bind] in Hx. case_decide as Hroom; [|done]. injection Hx as <-.
    assert (c ≠ cid). { intros ->. assert (j = k) as -> by congruence. assert (l = l0) as -> by congruence. lia. }
    eapply (clogged_set cid k j p l); [exact Hl|reflexivity| |cbn [calls]; by rewrite lookup_delete_ne|done|done].
    split; [done|]. intros _. cbn [reply set_ch Server.ch]. rewrite length_app. lia.
  - unfold finish in Hx. other_call Hx n cid k p.
  - unfold remove in Hx. case_bool_decide as Hn; [|done]. injection Hx as <-. assert (c ≠ cid) by congruence.
    apply (clogged_same cid k p n); [done|done| |done]. cbn [instances]. by rewrite lookup_delete_ne.
  - unfold reply_packet in Hx. destruct (lines n !! j) as [l|] eqn:Hl; [|done]. cbn [mbind option_bind] in Hx.
    repeat (case_match; try done). injection Hx as <-.
    eapply (clogged_set cid k j p l); [exact Hl|reflexivity| |done|done|done]. split; destruct (serving l); done.
  - unfold stop_serving in Hx. other_line Hx j.
  - unfold feed in Hx. other_line Hx j.
  - unfold leave in Hx. other_line Hx j.
Qed.

(** A session answers until its channel is full, and ends; then the trunk's
    handler goes. *)
Definition clog : list (net → action) :=
  [get (lit "f1") c1 7; λ _, AConnect 0 8 true; put c1 (lit "x") 9 0; λ _, AServe 0] ++
  concat (repeat [answer c1 (lit "a") 0; λ _, ASend c1] 32) ++
  [λ n, AFinish c1 (channels n) 0; λ _, AStopReading 0; λ _, AStopServing 0].
Definition clog_net : net := default start (run_script (exec PoolMux.pool_cfg (lit "s")) clog start).

(** The end of a session can last for ever: its OP_EOS packet is sent like any
    other, and when the channel is full and the trunk's handler has gone, the
    send, and with it [instance.start], never returns; the instance stays in
    the map for good. *)
Theorem eos_strands :
  ∃ cfg prefix n p, rtc (step cfg prefix) start n ∧ Packet.Op p = Packet.OP_EOS ∧ calls n !! c1 = Some (0, p) ∧
    ∀ n', rtc (step cfg prefix) n n' → calls n' !! c1 = Some (0, p) ∧ is_Some (instances n' !! c1).
Proof.
  set (p := Packet.mk_Packet c1 0 Packet.OP_EOS []).
  exists PoolMux.pool_cfg, (lit "s"), clog_net, p. split; [apply (run_script_rtc _ clog); vm_compute; reflexivity|].
  split; [done|]. split; [vm_compute; reflexivity|]. intros n' Hr.
  assert (Hc : clogged c1 0 p clog_net).
  { split; [vm_compute; reflexivity|]. split; [vm_compute; eexists; reflexivity|].
    eexists. split; [vm_compute; reflexivity|]. split; [reflexivity|]. vm_compute. lia. }
  apply (acts_invariant (exec PoolMux.pool_cfg (lit "s")) (clogged c1 0 p)) in Hr; [by destruct Hr as (? & ? & _)| |done].
  intros a n1 n2. apply exec_clogged.
Qed.


(** C13: the order does not survive a second transport: packets carry a serial,
    but the receivers only test it for zero, and every write chooses the newest
    transport afresh.  There is a run, of a pool that grows by its own rules,
    at the end of which nothing is under way and every write has succeeded, yet
    the server reads [xba] for a client that wrote [xab], the client reads [ba]
    for an answer [ab], and of a new client's [hi] the server has only [h]. *)
Theorem pool_switch_corrupts :
  ∃ cfg prefix n, rtc (step cfg prefix) start n ∧ settled n ∧ length (lines n) = 2 ∧
    data_of c1 (wrote (hist n)) = lit "xab" ∧ server_has c1 n = Some (lit "xba") ∧
    data_of c1 (replied (hist n)) = lit "ab" ∧ client_has c1 n = Some (lit "ba") ∧
    data_of c2 (wrote (hist n)) = lit "hi" ∧ server_has c2 n = Some (lit "h").
Proof.
  exists PoolMux.pool_cfg, (lit "s"), two_lines_net. split; [|split; [|split; [vm_compute; reflexivity|]]].
  - apply (run_script_rtc _ two_lines). vm_compute. reflexivity.
  - split; [vm_compute; reflexivity|]. vm_compute. repeat constructor.
  - do 5 (split; [vm_compute; reflexivity|]). vm_compute. reflexivity.
Qed.
End PoolNet.
