(* ===== verification/Stack.v ===== *)
(** The layers together: messages of many connections in the codec s1, written
    by divided clients on one shared transport, in packets, through the
    encrypting framer, over any connection; and back up on the server, to the
    messages each session reads (src/message/codec/s1, src/transport/h1pool,
    src/transport/framer/f1). *)
From S2P Require Import Prelude GoIO Conf Message CodecS1 Framing FramerF1 Packet RwBuffer H1 Pool PoolMux.

Module Stack.

(** A message a connection sends: when, whose, the message, and the randomness
    its writer draws. *)
Definition sending : Type := Z * bytes * Message * rng.

(** The one write of the transport that [Writer.Write] makes of it. *)
Definition op_of (s : sending) : Z * bytes * bytes := let '(now, cid, m, g) := s in (now, cid, S1.wire m g).

Definition messages_of (cid : bytes) (l : list sending) : list Message :=
  omap (λ s, let '(_, c, m, _) := s in if decide (c = cid) then Some m else None) l.

Definition wellformed (s : sending) : bool :=
  let '(_, _, m, g) := s in message_ok m && S1.sizes_ok m g.

(** A session reading [n] messages. *)
Fixpoint read_messages {R} `{Reader R} (n : nat) : M R (list Message) :=
  match n with
  | 0 => mret []
  | S n => m ← S1.Read; ms ← read_messages n; mret (m :: ms)
  end.

Lemma messages_of_cons (cid : bytes) (now : Z) (c : bytes) (m : Message) (g : rng) (l : list sending) :
  messages_of cid ((now, c, m, g) :: l) = if decide (c = cid) then m :: messages_of cid l else messages_of cid l.
Proof. unfold messages_of. cbn. by case_decide. Qed.

(** The bytes of a connection's messages, if it sends any, and reading them. *)
Lemma stream_some (cid : bytes) (l : list sending) :
  messages_of cid l ≠ [] → ∃ d, PoolMux.stream_of cid (map op_of l) = Some d.
Proof.
  induction l as [|[[[now c] m] g] l IH]; [done|]. rewrite messages_of_cons. cbn [map op_of PoolMux.stream_of].
  case_decide; [by eauto|done].
Qed.

Lemma messages_sender (cid : bytes) (l : list sending) :
  messages_of cid l ≠ [] → ∃ s, s ∈ l ∧ s.1.1.2 = cid.
Proof.
  induction l as [|[[[now c] m] g] l IH]; [done|]. rewrite messages_of_cons. case_decide as Hc.
  - intros _. exists (now, c, m, g). by split; [left|].
  - intros (s & ? & ?)%IH. exists s. by split; [right|].
Qed.

Lemma stream_messages {R} `{ReaderLaws R} (cid : bytes) (l : list sending) (r : R) :
  forallb wellformed l = true → delivers r (default [] (PoolMux.stream_of cid (map op_of l))) →
  ∃ r', read_messages (length (messages_of cid l)) r = (Ok (messages_of cid l), r') ∧ delivers r' [].
Proof.
  revert r. induction l as [|[[[now c] m] g] l IH]; intros r Hok Hd; [by exists r|].
  rewrite messages_of_cons. cbn [forallb map op_of PoolMux.stream_of] in *. apply andb_true_iff in Hok as [Hm Hl].
  apply andb_true_iff in Hm as [Hm Hs]. case_decide as Hc; [|by apply IH].
  cbn [from_option id] in Hd. destruct (S1.Read_wire m g r _ Hm Hs Hd) as (r1 & Hr & Hd1).
  destruct (IH r1 Hl Hd1) as (r' & Hms & Hd'). exists r'. split; [|done].
  cbn [length read_messages]. run Hr. by run Hms.
Qed.

(** What a framer was given, another with the same key delivers. *)
Lemma sealed {W R} `{WriterLaws W} `{ReaderLaws R} (s s' : F1.F1 W * rng) (d : bytes) :
  emitted s s' d →
  ∃ raw, emitted (F1.tx s.1) (F1.tx s'.1) raw ∧
    ∀ fr : F1.F1 R, F1.psk fr = F1.psk s.1 → F1.lenBufRead fr = 0 → delivers (F1.tx fr) raw → delivers fr d.
Proof.
  intros (ps & raw & Hf & -> & He & _). exists raw. split; [done|]. intros fr Hk Hl Hd.
  eapply framed_fresh; [by cbn; rewrite Hl|cbn; lia|by cbn; rewrite Hk|done].
Qed.

(** ** Properties *)

(** C3: the layers compose: whatever messages any number of new connections send
    on one shared transport, in whatever interleaving, over whatever connection
    and with whatever padding, the server's goroutine, behind its own framer,
    starts one instance per connection that sent anything, and a session
    reading from that instance's buffer reads exactly the connection's
    messages, in order, and then nothing.  (Up to 2^32 messages, and, the
    server being ahead of its sessions, as many bytes per connection as a
    buffer takes before its reader has read anything.) *)
Theorem stack_delivers {W R T} `{WriterLaws W} `{ReaderLaws R} `{ReaderLaws T} (prefix : bytes) (f : F1.F1 W) (g : rng)
    (c : Client.client) (clients : Client.divided) (sends : list sending) (t : Server.trunk) :
  Packet.room (f, g) → forallb wellformed sends = true → (len sends < 2 ^ 32)%Z →
  (∀ cid cl, clients !! cid = Some cl →
     Client.clientId cl = cid ∧ PoolMux.id_ok cid = true ∧ Client.serial cl = 0%Z ∧ Server.instances t !! cid = None) →
  (∀ s, s ∈ sends → is_Some (clients !! s.1.1.2)) →
  (∀ cid, (len (default [] (PoolMux.stream_of cid (map op_of sends))) <= PoolMux.capacity)%Z) →
  ∃ f' g' c' clients' raw,
    PoolMux.trunk_writes (map op_of sends) ((f, g), c, clients) ((f', g'), c', clients') ∧
    emitted (F1.tx f) (F1.tx f') raw ∧
    ∀ fr : F1.F1 R, F1.psk fr = F1.psk f → F1.lenBufRead fr = 0 → delivers (F1.tx fr) raw →
    ∃ fr' t', Server.serve prefix (fr, t) = (Ok tt, (fr', t')) ∧
      ∀ cid, messages_of cid sends ≠ [] → ∃ inst, Server.instances t' !! cid = Some inst ∧
        ∀ s : T, delivers s (RwBuffer.content (Server.ibuf inst)) →
        ∃ s', read_messages (length (messages_of cid sends)) s = (Ok (messages_of cid sends), s') ∧ delivers s' [].
Proof.
  intros Hroom Hok Hlen Hcl Hin Hcap.
  assert (Hops : ∀ now cid d, (now, cid, d) ∈ map op_of sends → is_Some (clients !! cid)).
  { intros now cid d ([[[now' cid'] m] g'] & [= -> -> ->] & Hs)%list_elem_of_fmap. by apply Hin in Hs. }
  destruct (PoolMux.mux_run prefix (map op_of sends) (f, g) c clients (λ _, None) 0 t)
    as ([f' g'] & c' & clients' & qs & R1 & R2 & R3 & R4 & R5 & _ & _);
    [done| |lia|by unfold len in *; rewrite length_map|done|done|].
  { intros cid cl Hl. destruct (Hcl cid cl Hl) as (? & ? & Hs & ?). rewrite Hs. done. }
  destruct (sealed (R := R) _ _ _ R2) as (raw & He & Hfr).
  exists f', g', c', clients', raw. split; [done|]. split; [done|]. intros fr Hk Hl Hd.
  destruct (PoolMux.serve_wire prefix qs fr t (S (budget fr)) R3 (Hfr fr Hk Hl Hd) ltac:(lia)) as (fr' & Hs).
  eexists fr', _. split; [exact Hs|]. intros cid Hms. destruct (stream_some cid sends Hms) as [d Hst].
  assert (Hi : is_Some (clients' !! cid)).
  { apply elem_of_dom. rewrite R4. apply elem_of_dom.
    destruct (messages_sender cid sends Hms) as (s & Hs' & <-). by apply Hin. }
  destruct Hi as [cl' Hcl']. destruct (R5 cid cl' Hcl') as (_ & _ & _ & _ & Hat). cbn beta in Hat. rewrite Hst in Hat.
  destruct Hat as (inst & Hinst & _ & _ & _ & _ & Hc). exists inst. split; [exact Hinst|]. intros s Hs'.
  apply stream_messages; [done|]. rewrite Hst. cbn [from_option id]. by rewrite <- Hc.
Qed.

(** Two connections: one asks for a name and dials, the other sends data. *)
Definition sample_sends : list sending :=
  [(1%Z, lit "c1", RequestDNS (mk_RequestDNS 7 (lit "ip") (lit "example.com")), F1.sample_bytes);
   (1%Z, lit "c2", Data (mk_Data 0 0 (lit "c2") (lit "xyz")), F1.sample_bytes);
   (2%Z, lit "c1", RequestDial (mk_RequestDial 8 (lit "tcp") (lit "example.com:80") (lit "c1")), F1.sample_bytes)].

Lemma stack_delivers_witness :
  ∃ f' g' c' clients' raw,
    PoolMux.trunk_writes (map op_of sample_sends) ((F1.sample_writer, F1.sample_bytes), Client.newClient (lit "s:1") 5, PoolMux.mux_clients)
      ((f', g'), c', clients') ∧
    emitted (Buf.mk_buffer []) (F1.tx f') raw ∧
    ∀ fr : F1.F1 Conn.conn, F1.psk fr = F1.sample_key → F1.lenBufRead fr = 0 → delivers (F1.tx fr) raw →
    ∃ fr' t' inst, Server.serve (lit "s") (fr, PoolMux.mux_trunk) = (Ok tt, (fr', t')) ∧
      Server.instances t' !! lit "c1" = Some inst ∧
      ∀ s : Buf.reader, delivers s (RwBuffer.content (Server.ibuf inst)) →
      ∃ s', read_messages 2 s = (Ok [RequestDNS (mk_RequestDNS 7 (lit "ip") (lit "example.com"));
                                     RequestDial (mk_RequestDial 8 (lit "tcp") (lit "example.com:80") (lit "c1"))], s').
Proof.
  destruct (stack_delivers (R := Conn.conn) (T := Buf.reader) (lit "s") F1.sample_writer F1.sample_bytes
              (Client.newClient (lit "s:1") 5) PoolMux.mux_clients sample_sends PoolMux.mux_trunk)
    as (f' & g' & c' & clients' & raw & H1 & H2 & H3).
  - split; [reflexivity|]. split; [|exact I]. vm_compute. reflexivity.
  - vm_compute. reflexivity.
  - reflexivity.
  - intros cid cl. unfold PoolMux.mux_clients.
    intros [(<- & <-)|(_ & [(<- & <-)|(_ & Hn)]%lookup_insert_Some)]%lookup_insert_Some;
      [by vm_compute|by vm_compute|by rewrite lookup_empty in Hn].
  - intros s. unfold sample_sends. rewrite !elem_of_cons, elem_of_nil.
    intros [->|[->|[->|[]]]]; vm_compute; eexists; reflexivity.
  - intros cid. unfold sample_sends. cbn [map op_of PoolMux.stream_of]. repeat case_decide; vm_compute; discriminate.
  - exists f', g', c', clients', raw. split; [exact H1|]. split; [exact H2|]. intros fr Hk Hl Hd.
    destruct (H3 fr Hk Hl Hd) as (fr' & t' & Hs & Hm). destruct (Hm (lit "c1")) as (inst & Hi & Hr); [done|].
    exists fr', t', inst. split; [exact Hs|]. split; [exact Hi|]. intros s Hd'.
    destruct (Hr s Hd') as (s' & E & _). exists s'. exact E.
Defined.
End Stack.
