(* ===== verification/NetAddr.v ===== *)
(** The address syntax of package [net] as the program uses it:
    [net.ParseIP], [net.IP.String], [net.SplitHostPort] and the
    [host:port] strings made with [fmt.Sprintf("%s:%d", ...)]. *)
From S2P Require Import Prelude Strconv Json Aes Utils.

Module NetAddr.
(** ** Searching bytes *)
Fixpoint IndexByte (s : bytes) (c : byte) : option nat :=
  match s with
  | [] => None
  | b :: s => if decide (b = c) then Some 0 else S <$> IndexByte s c
  end.

Fixpoint LastIndexByte (s : bytes) (c : byte) : option nat :=
  match s with
  | [] => None
  | b :: s => match LastIndexByte s c with
              | Some i => Some (S i)
              | None => if decide (b = c) then Some 0 else None
              end
  end.

Lemma IndexByte_None (s : bytes) (c : byte) : IndexByte s c = None ↔ c ∉ s.
Proof.
  induction s as [|b s IH]; cbn; [split; [by intros _ ?%elem_of_nil|done]|].
  rewrite not_elem_of_cons, <- IH. case_decide as H; [by split; [|intros [? _]]|].
  destruct (IndexByte s c); cbn; [by split; [|intros [_ ?]]|]. split; [|done]. by split.
Qed.

Lemma LastIndexByte_None (s : bytes) (c : byte) : LastIndexByte s c = None ↔ c ∉ s.
Proof.
  induction s as [|b s IH]; cbn; [split; [by intros _ ?%elem_of_nil|done]|].
  rewrite not_elem_of_cons, <- IH. destruct (LastIndexByte s c); [by split; [|intros [_ ?]]|].
  case_decide as H; [by split; [|intros [? _]]|]. split; [|done]. by split.
Qed.

(** The last occurrence is where nothing after it is another one. *)
Lemma LastIndexByte_app (s t : bytes) (c : byte) :
  c ∉ t → LastIndexByte (s ++ c :: t) c = Some (length s).
Proof.
  intros Ht. induction s as [|b s IH]; cbn.
  - apply LastIndexByte_None in Ht. by rewrite Ht, decide_True.
  - by rewrite IH.
Qed.

(** ** [net.ParseIP] *)

(** [dtoi]: a decimal prefix, its value and its length. *)
Definition big : Z := 16777215.

Definition dtoi (s : bytes) : option (Z * nat) :=
  let ds := (take_digits s).1 in
  if decide (length ds = 0) then None
  else match digits_val ds 0 with
       | Some n => if (big <=? n)%Z then None else Some (n, length ds)
       | None => None
       end.

(** One octet of an IPv4 address and what follows it; no leading zeros. *)
Definition parse_octet (s : bytes) : option (byte * bytes) :=
  match dtoi s with
  | Some (n, c) =>
      if (255 <? n)%Z then None
      else if decide (1 < c ∧ s !! 0 = Some Byte.x30) then None
      else Some (byte_of n, drop c s)
  | None => None
  end.

Definition skip_dot (s : bytes) : option bytes :=
  match s with b :: s => if decide (b = Byte.x2e) then Some s else None | [] => None end.

(** [parseIPv4]: the 16-byte form. *)
Definition parseIPv4 (s : bytes) : option bytes :=
  '(a, s) ← parse_octet s; s ← skip_dot s;
  '(b, s) ← parse_octet s; s ← skip_dot s;
  '(c, s) ← parse_octet s; s ← skip_dot s;
  '(d, s) ← parse_octet s;
  if decide (s = []) then Some (Utils.v4_prefix ++ [a; b; c; d]) else None.

(** [xtoi]: a hexadecimal prefix. *)
Fixpoint xtoi_from (s : bytes) (acc : Z) (count : nat) : option (Z * nat) :=
  let stop := if decide (count = 0) then None else Some (acc, count) in
  match s with
  | [] => stop
  | b :: s =>
      match hex_val b with
      | Some d => let acc := (acc * 16 + d)%Z in
                  if (big <=? acc)%Z then None else xtoi_from s acc (S count)
      | None => stop
      end
  end.
Definition xtoi (s : bytes) : option (Z * nat) := xtoi_from s 0 0.

(** The loop of [parseIPv6]: [ip] holds the bytes parsed so far; the result
    is those bytes, the position of the ellipsis and the rest of the string.
    Each turn adds at least two of the sixteen bytes. *)
Fixpoint parse_groups (fuel : nat) (ip : bytes) (ellipsis : option nat) (s : bytes) :
    option (bytes * option nat * bytes) :=
  match fuel with
  | 0 => Some (ip, ellipsis, s)
  | S fuel =>
      if decide (16 ≤ length ip) then Some (ip, ellipsis, s) else
      '(n, c) ← xtoi s;
      if (65535 <? n)%Z then None
      else if decide (s !! c = Some Byte.x2e) then
        if decide (ellipsis = None ∧ length ip ≠ 12) then None
        else if decide (16 < length ip + 4) then None
        else ip4 ← parseIPv4 s; Some (ip ++ drop 12 ip4, ellipsis, [])
      else
        let ip := ip ++ put_be 2 n in
        match drop c s with
        | [] => Some (ip, ellipsis, [])
        | b :: s =>
            if decide (b ≠ Byte.x3a ∨ s = []) then None else
            match s with
            | b' :: s' =>
                if decide (b' = Byte.x3a) then
                  match ellipsis with
                  | Some _ => None
                  | None => match s' with
                            | [] => Some (ip, Some (length ip), [])
                            | _ => parse_groups fuel ip (Some (length ip)) s'
                            end
                  end
                else parse_groups fuel ip ellipsis s
            | [] => None
            end
        end
  end.

(** The ellipsis stands for the missing zero bytes. *)
Definition expand_ellipsis (ip : bytes) (ellipsis : option nat) : option bytes :=
  if decide (length ip < 16) then
    match ellipsis with
    | None => None
    | Some e => Some (take e ip ++ make_bytes (16 - length ip) ++ drop e ip)
    end
  else match ellipsis with None => Some ip | Some _ => None end.

(** A leading [::]. *)
Definition leading_ellipsis (s : bytes) : option nat * bytes :=
  match s with
  | a :: b :: s' => if decide (a = Byte.x3a ∧ b = Byte.x3a) then (Some 0, s') else (None, s)
  | _ => (None, s)
  end.

Definition parseIPv6 (s : bytes) : option bytes :=
  let '(ellipsis, s) := leading_ellipsis s in
  if decide (ellipsis = Some 0 ∧ s = []) then Some (make_bytes 16)
  else '(ip, ellipsis, rest) ← parse_groups 8 [] ellipsis s;
       if decide (rest = []) then expand_ellipsis ip ellipsis else None.

Fixpoint first_separator (s : bytes) : option byte :=
  match s with
  | [] => None
  | b :: s => if decide (b = Byte.x2e ∨ b = Byte.x3a) then Some b else first_separator s
  end.

Definition ParseIP (s : bytes) : option bytes :=
  match first_separator s with
  | Some b => if decide (b = Byte.x2e) then parseIPv4 s else parseIPv6 s
  | None => None
  end.

(** ** [IP.String] *)
Definition dotted (ip4 : bytes) : bytes :=
  let o i := format_uint (Utils.octet ip4 i) in
  o 0 ++ lit "." ++ o 1 ++ lit "." ++ o 2 ++ lit "." ++ o 3.

(** [appendHex]: no leading zeros. *)
Definition append_hex (n : Z) : bytes :=
  let d k := hex_digit (n / 16 ^ k mod 16) in
  if (n =? 0)%Z then lit "0"
  else map d (if (4096 <=? n)%Z then [3; 2; 1; 0]%Z
              else if (256 <=? n)%Z then [2; 1; 0]%Z
              else if (16 <=? n)%Z then [1; 0]%Z else [0]%Z).

Definition group (ip : bytes) (i : nat) : Z := get_be (slice i (i + 2) ip).

(** The end of the run of zero groups that starts at byte [i]. *)
Fixpoint zero_run (fuel : nat) (ip : bytes) (i : nat) : nat :=
  match fuel with
  | 0 => i
  | S fuel => if decide (i < 16 ∧ group ip i = 0%Z) then zero_run fuel ip (i + 2) else i
  end.

(** The longest run of zeros [[e0, e1)], the first one of equals. *)
Fixpoint longest_run (fuel i : nat) (ip : bytes) (e0 e1 : Z) : Z * Z :=
  match fuel with
  | 0 => (e0, e1)
  | S fuel =>
      if decide (i < 16) then
        let j := zero_run 8 ip i in
        if decide (i < j ∧ (e1 - e0 < Z.of_nat j - Z.of_nat i)%Z)
        then longest_run fuel (j + 2) ip (Z.of_nat i) (Z.of_nat j)
        else longest_run fuel (i + 2) ip e0 e1
      else (e0, e1)
  end.

(** The printing loop; at most one turn per group. *)
Fixpoint format_groups (fuel i : nat) (ip : bytes) (e0 e1 : Z) : bytes :=
  match fuel with
  | 0 => []
  | S fuel =>
      if decide (i < 16) then
        if decide (Z.of_nat i = e0) then
          lit "::" ++
          let i := Z.to_nat e1 in
          if decide (16 ≤ i) then [] else append_hex (group ip i) ++ format_groups fuel (i + 2) ip e0 e1
        else (if decide (0 < i) then lit ":" else []) ++
             append_hex (group ip i) ++ format_groups fuel (i + 2) ip e0 e1
      else []
  end.

Definition hexString (ip : bytes) : bytes :=
  flat_map (λ b, [hex_digit (byte_val b / 16); hex_digit (byte_val b mod 16)]) ip.

Definition format_v6 (ip : bytes) : bytes :=
  let '(e0, e1) := longest_run 8 0 ip (-1) (-1) in
  let '(e0, e1) := if (e1 - e0 <=? 2)%Z then (-1, -1)%Z else (e0, e1) in
  format_groups 8 0 ip e0 e1.

Definition IP_String (ip : bytes) : bytes :=
  if decide (length ip = 0) then lit "<nil>"
  else match Utils.To4 ip with
       | Some ip4 => dotted ip4
       | None => if decide (length ip ≠ 16) then lit "?" ++ hexString ip else format_v6 ip
       end.

(** ** [net.SplitHostPort] *)
Definition addr_error : error := LibError (lit "net").

Definition SplitHostPort (hostport : bytes) : outcome (bytes * bytes) :=
  match LastIndexByte hostport Byte.x3a with
  | None => Err addr_error
  | Some i =>
      hjk ← (if decide (hostport !! 0 = Some Byte.x5b) then
               match IndexByte hostport Byte.x5d with
               | None => Err addr_error
               | Some e =>
                   if decide (e + 1 = length hostport) then Err addr_error
                   else if decide (e + 1 = i) then Ok (slice 1 e hostport, 1, e + 1)
                   else Err addr_error
               end
             else
               let host := take i hostport in
               match IndexByte host Byte.x3a with
               | Some _ => Err addr_error
               | None => Ok (host, 0, 0)
               end);
      let '(host, j, k) := hjk in
      match IndexByte (drop j hostport) Byte.x5b, IndexByte (drop k hostport) Byte.x5d with
      | None, None => Ok (host, drop (i + 1) hostport)
      | _, _ => Err addr_error
      end
  end.

(** [fmt.Sprintf("%s:%d", host, port)]. *)
Definition join_port (host : bytes) (port : Z) : bytes := host ++ lit ":" ++ format_int port.

(** ** Parsed addresses have sixteen bytes *)
Lemma parseIPv4_length (s ip : bytes) : parseIPv4 s = Some ip → length ip = 16.
Proof.
  unfold parseIPv4. intros Hs.
  repeat match type of Hs with
    | mbind _ ?x = _ => destruct x as [?|]; [cbn [mbind option_bind] in Hs|done]
    | (let '(_, _) := ?p in _) = _ => destruct p
    end.
  case_decide; [|done]. by injection Hs as <-.
Qed.

Lemma parse_groups_length (fuel : nat) (ip : bytes) (e : option nat) (s ip' rest : bytes) (e' : option nat) :
  parse_groups fuel ip e s = Some (ip', e', rest) → length ip ≤ 16 → Nat.even (length ip) = true →
  (∀ k, e = Some k → k ≤ length ip) →
  length ip' ≤ 16 ∧ (∀ k, e' = Some k → k ≤ length ip').
Proof.
  revert ip e s. induction fuel as [|fuel IH]; intros ip e s; cbn [parse_groups].
  { intros [= <- <- _]. done. }
  case_decide; [by intros [= <- <- _]|].
  intros Hs Hl Hev He. destruct (xtoi s) as [[n c]|]; [cbn [mbind option_bind] in Hs|done].
  destruct (65535 <? n)%Z; [done|].
  assert (Hl2 : length ip + 2 ≤ 16).
  { destruct (length ip) as [|[|[|[|[|[|[|[|[|[|[|[|[|[|[|[|k]]]]]]]]]]]]]]]]; cbn in *; try done; lia. }
  assert (Hpb : length (ip ++ put_be 2 n) = length ip + 2) by (by rewrite length_app, length_put_be).
  case_decide.
  - case_decide; [done|]. case_decide; [done|].
    destruct (parseIPv4 s) as [ip4|] eqn:E4; [cbn [mbind option_bind] in Hs|done].
    apply parseIPv4_length in E4. injection Hs as <- <- _. rewrite length_app, length_drop.
    split; [lia|]. intros k Hk. apply He in Hk. lia.
  - assert (He' : ∀ k, e = Some k → k ≤ length (ip ++ put_be 2 n))
      by (intros k Hk; apply He in Hk; lia).
    assert (Hev' : Nat.even (length (ip ++ put_be 2 n)) = true) by (rewrite Hpb, Nat.add_comm; exact Hev).
    destruct (drop c s) as [|b s1]; [assert (ip' = ip ++ put_be 2 n ∧ e' = e) as [-> ->] by (split; congruence); rewrite Hpb in *; auto|].
    case_decide; [done|]. destruct s1 as [|b' s2]; [done|]. case_decide.
    + destruct e as [k|]; [done|].
      assert (Hes : ∀ k, Some (length (ip ++ put_be 2 n)) = Some k → k ≤ length (ip ++ put_be 2 n))
        by (by intros k [= <-]).
      destruct s2.
      { assert (ip' = ip ++ put_be 2 n ∧ e' = Some (length (ip ++ put_be 2 n))) as [-> ->]
          by (split; congruence). rewrite Hpb in *. auto. }
      eapply IH; [exact Hs|lia|done|done].
    + eapply IH; [exact Hs|lia|done|done].
Qed.

Lemma ParseIP_length (s ip : bytes) : ParseIP s = Some ip → length ip = 16.
Proof.
  unfold ParseIP. destruct (first_separator s); [|done]. case_decide; [apply parseIPv4_length|].
  unfold parseIPv6. destruct (leading_ellipsis s) as [e s'] eqn:Es.
  assert (He : ∀ k, e = Some k → k = 0).
  { revert Es. unfold leading_ellipsis. destruct s as [|a [|b' s1]]; [by intros [= <- _]..|].
    case_decide; intros [= <- _]; [by intros k [= <-]|done]. }
  case_decide; [by intros [= <-]|].
  destruct (parse_groups 8 [] e s') as [[[ip' e'] rest]|] eqn:E; [cbn [mbind option_bind]|done].
  apply parse_groups_length in E as [Hl Hk]; [|cbn; lia|done|by intros k ->%He].
  case_decide; [|done]. unfold expand_ellipsis. case_decide; [|destruct e'; [done|]; intros [= <-]; lia].
  destruct e' as [k|]; [|done]. specialize (Hk k eq_refl). intros [= <-].
  rewrite !length_app, length_take, length_drop, length_make_bytes. lia.
Qed.
(** ** Round trips *)

(** Characters of host names and ports: none that [SplitHostPort] interprets. *)
Definition plain (b : byte) : bool :=
  negb (bool_decide (b = Byte.x3a ∨ b = Byte.x5b ∨ b = Byte.x5d)).

Lemma plain_not_in (s : bytes) (c : byte) :
  forallb plain s = true → plain c = false → c ∉ s.
Proof.
  intros Hs Hc Hin. rewrite forallb_forall in Hs. apply list_elem_of_In in Hin.
  apply Hs in Hin. congruence.
Qed.

Lemma digit_plain (b : byte) (d : Z) : digit_val b = Some d → plain b = true.
Proof. by destruct b. Qed.

Lemma digits_plain (s : bytes) (acc v : Z) : digits_val s acc = Some v → forallb plain s = true.
Proof.
  revert acc. induction s as [|b s IH]; intros acc; [done|]. cbn [digits_val forallb].
  destruct (digit_val b) as [d|] eqn:Hd; [|done]. intros Hs. by rewrite (digit_plain b d), (IH _ Hs).
Qed.

Lemma format_uint_plain (n : Z) : (0 ≤ n)%Z → forallb plain (format_uint n) = true.
Proof. intros Hn. eapply digits_plain. by apply format_uint_val. Qed.

(** [SplitHostPort] undoes the joining of a plain host and a port. *)
Lemma SplitHostPort_join (host : bytes) (port : Z) :
  forallb plain host = true → (0 ≤ port)%Z →
  SplitHostPort (join_port host port) = Ok (host, format_uint port).
Proof.
  intros Hh Hp. unfold join_port, format_int. destruct (Z.ltb_spec port 0); [lia|].
  pose proof (format_uint_plain port Hp) as Hpp. set (ps := format_uint port) in *.
  change (lit ":" ++ ps) with (Byte.x3a :: ps). unfold SplitHostPort.
  rewrite LastIndexByte_app by (by apply plain_not_in).
  assert (Hb : (Byte.x5b ∉ host ++ Byte.x3a :: ps) ∧ (Byte.x5d ∉ host ++ Byte.x3a :: ps)).
  { rewrite !not_elem_of_app, !not_elem_of_cons. by repeat split; try (by apply plain_not_in). }
  destruct Hb as [Hb1 Hb2]. rewrite decide_False.
  - rewrite take_app_length.
    rewrite (proj2 (IndexByte_None host Byte.x3a)) by (by apply plain_not_in).
    cbn [mbind outcome_bind]. rewrite !drop_0.
    rewrite (proj2 (IndexByte_None _ Byte.x5b)), (proj2 (IndexByte_None _ Byte.x5d)) by done.
    do 2 f_equal. rewrite drop_app, drop_ge by lia.
    by replace (length host + 1 - length host) with 1 by lia.
  - intros Hd. apply Hb1. by eapply list_elem_of_lookup_2.
Qed.

(** A host that itself contains a colon and no bracket in front is refused. *)
Lemma SplitHostPort_colon (host : bytes) (port : Z) :
  Byte.x3a ∈ host → host !! 0 ≠ Some Byte.x5b → (0 ≤ port)%Z →
  SplitHostPort (join_port host port) = Err addr_error.
Proof.
  intros Hc Hb Hp. unfold join_port, format_int. destruct (Z.ltb_spec port 0); [lia|].
  pose proof (format_uint_plain port Hp) as Hpp. set (ps := format_uint port) in *.
  change (lit ":" ++ ps) with (Byte.x3a :: ps). unfold SplitHostPort.
  rewrite LastIndexByte_app by (by apply plain_not_in). rewrite decide_False.
  - rewrite take_app_length. destruct (IndexByte host Byte.x3a) as [k|] eqn:E; [done|].
    by apply IndexByte_None in E.
  - destruct host; [by apply elem_of_nil in Hc|done].
Qed.

(** Dotted quads are parsed back to the address they print. *)
Lemma parse_octet_print (b : byte) (r : bytes) :
  parse_octet (format_uint (byte_val b)) = Some (b, []) ∧
  parse_octet (format_uint (byte_val b) ++ lit "." ++ r) = Some (b, lit "." ++ r).
Proof. destruct b; split; reflexivity. Qed.

Lemma first_separator_octet (b : byte) (r : bytes) :
  first_separator (format_uint (byte_val b) ++ lit "." ++ r) = Some Byte.x2e.
Proof. by destruct b. Qed.

Lemma ParseIP_dotted (a b c d : byte) :
  ParseIP (dotted [a; b; c; d]) = Some (Utils.v4_prefix ++ [a; b; c; d]).
Proof.
  unfold dotted. change (Utils.octet [a; b; c; d] 0) with (byte_val a).
  change (Utils.octet [a; b; c; d] 1) with (byte_val b).
  change (Utils.octet [a; b; c; d] 2) with (byte_val c).
  change (Utils.octet [a; b; c; d] 3) with (byte_val d).
  unfold ParseIP. rewrite first_separator_octet. cbn [decide]. rewrite decide_True by done.
  unfold parseIPv4. rewrite (proj2 (parse_octet_print a _)). cbn [mbind option_bind].
  change (skip_dot (lit "." ++ ?x)) with (Some x). cbn [mbind option_bind].
  rewrite (proj2 (parse_octet_print b _)). cbn [mbind option_bind].
  change (skip_dot (lit "." ++ ?x)) with (Some x). cbn [mbind option_bind].
  rewrite (proj2 (parse_octet_print c _)). cbn [mbind option_bind].
  change (skip_dot (lit "." ++ ?x)) with (Some x). cbn [mbind option_bind].
  rewrite (proj1 (parse_octet_print d [])). cbn [mbind option_bind]. by rewrite decide_True.
Qed.

Lemma dotted_plain (ip4 : bytes) : forallb plain (dotted ip4) = true.
Proof.
  assert (Ho : ∀ i, forallb plain (format_uint (Utils.octet ip4 i)) = true).
  { intros i. apply format_uint_plain. unfold Utils.octet.
    pose proof (byte_val_range (nth_byte ip4 i)). lia. }
  unfold dotted. by rewrite !forallb_app, !Ho.
Qed.

(** Printed IPv6 addresses contain a colon and start with no bracket. *)
Lemma append_hex_head (n : Z) : (0 ≤ n)%Z → ∃ b r, append_hex n = b :: r ∧ b ≠ Byte.x5b.
Proof.
  intros Hn. unfold append_hex. destruct (Z.eqb_spec n 0); [by do 2 eexists|].
  assert (Hd : ∀ z, hex_digit (z mod 16) ≠ Byte.x5b).
  { intros z E. unfold hex_digit in E.
    assert (Hz : (0 ≤ z mod 16 < 16)%Z) by (apply Z.mod_pos_bound; lia).
    revert E. generalize dependent (z mod 16)%Z. intros y Hy.
    assert (y ∈ seqZ 0 16) as Hin by (apply elem_of_seqZ; lia). clear -Hin.
    repeat (apply elem_of_cons in Hin as [->|Hin]; [done|]). by apply elem_of_nil in Hin. }
  repeat case_match; do 2 eexists; (split; [reflexivity|apply Hd]).
Qed.

Lemma format_groups_S (fuel i : nat) (ip : bytes) (e0 e1 : Z) :
  i < 16 → Z.of_nat i ≠ e0 →
  format_groups (S fuel) i ip e0 e1 =
  (if decide (0 < i) then lit ":" else []) ++
  append_hex (group ip i) ++ format_groups fuel (i + 2) ip e0 e1.
Proof. intros Hi He. cbn [format_groups]. by rewrite decide_True, decide_False by done. Qed.

Lemma format_groups_ellipsis (fuel i : nat) (ip : bytes) (e0 e1 : Z) :
  i < 16 → Z.of_nat i = e0 → ∃ r, format_groups (S fuel) i ip e0 e1 = Byte.x3a :: r.
Proof.
  intros Hi He. cbn [format_groups]. rewrite decide_True, decide_True by done. by eexists.
Qed.

Lemma format_v6_colon (ip : bytes) :
  Byte.x3a ∈ format_v6 ip ∧ format_v6 ip !! 0 ≠ Some Byte.x5b.
Proof.
  unfold format_v6. destruct (longest_run 8 0 ip (-1) (-1)) as [e0 e1].
  destruct (if (e1 - e0 <=? 2)%Z then (-1, -1)%Z else (e0, e1)) as [f0 f1]. clear e0 e1.
  assert (Hg : ∀ i, (0 ≤ group ip i)%Z) by (intros i; apply get_be_range).
  destruct (append_hex_head _ (Hg 0)) as (b & r & E & Hb).
  destruct (decide (Z.of_nat 0 = f0)) as [H0|H0].
  { destruct (format_groups_ellipsis 7 0 ip f0 f1) as [x ->]; [lia|done|]. split; [by left|done]. }
  rewrite format_groups_S by (done || lia). rewrite (decide_False (P := 0 < 0)) by lia.
  cbn [app]. rewrite E. split; [|by intros [= ->]].
  rewrite <- app_comm_cons. right. apply elem_of_app. right. change (0 + 2) with 2.
  destruct (decide (Z.of_nat 2 = f0)) as [H2|H2].
  - destruct (format_groups_ellipsis 6 2 ip f0 f1) as [x ->]; [lia|done|]. by left.
  - rewrite format_groups_S by (done || lia). by left.
Qed.
End NetAddr.
