(* ===== verification/Callers.v ===== *)
(** The caller a log message names (src/log/func.go): the walk over the
    goroutine's frames, with the standard library's path.Dir, path.Base,
    strings.Split and strings.Join. *)
From S2P Require Import Prelude GoIO Strconv Json Log NetAddr.
Import NetAddr.

Module Callers.

(** ** Strings and paths *)

(** [strings.Split] and [strings.Join] with a separator of one byte. *)
Fixpoint Split (c : byte) (s : bytes) : list bytes :=
  match s with
  | [] => [[]]
  | b :: s => if decide (b = c) then [] :: Split c s
              else match Split c s with [] => [[b]] | p :: ps => (b :: p) :: ps end
  end.

Fixpoint Join (c : byte) (parts : list bytes) : bytes :=
  match parts with
  | [] => []
  | [p] => p
  | p :: ps => p ++ c :: Join c ps
  end.

Definition slash : byte := Byte.x2f.
Definition dot : byte := Byte.x2e.

(** [path.Clean], element by element; the kept elements in reverse. *)
Definition clean_step (rooted : bool) (kept : list bytes) (e : bytes) : list bytes :=
  if decide (e = [] ∨ e = [dot]) then kept
  else if decide (e = [dot; dot]) then
    match kept with
    | [] => if rooted then [] else [e]
    | k :: ks => if decide (k = [dot; dot]) then e :: kept else ks
    end
  else e :: kept.

Definition Clean (p : bytes) : bytes :=
  let rooted := bool_decide (head p = Some slash) in
  let out := Join slash (reverse (foldl (clean_step rooted) [] (Split slash p))) in
  if rooted then slash :: out else if decide (out = []) then [dot] else out.

(** [path.Dir] and [path.Base]. *)
Definition Dir (p : bytes) : bytes :=
  Clean (match LastIndexByte p slash with Some i => take (S i) p | None => [] end).

Fixpoint trim_slashes (s : bytes) : bytes :=
  match s with
  | [] => []
  | b :: s => match trim_slashes s with
              | [] => if decide (b = slash) then [] else [b]
              | t => b :: t
              end
  end.

Definition Base (p : bytes) : bytes :=
  if decide (p = []) then [dot] else
  let p := trim_slashes p in
  let p := match LastIndexByte p slash with Some i => drop (S i) p | None => p end in
  if decide (p = []) then [slash] else p.

(** ** func.go *)
Record funcInfo := mk_funcInfo { mod_ : bytes; fileName : bytes; line : Z }.

(** [runtime.Frame]; after the last one [Next] returns the zero value. *)
Record Frame := mk_Frame { Function_ : bytes; File : bytes; Line : Z }.
Definition zero_frame : Frame := mk_Frame [] [] 0.
Definition Next (frames : list Frame) : Frame * list Frame :=
  match frames with [] => (zero_frame, []) | f :: fs => (f, fs) end.

(** The package path of a function's name. *)
Definition module_path (funcName : bytes) : bytes :=
  let parts := Split slash funcName in
  let lastPart := default [] (last parts) in
  let modName := default [] (head (Split dot lastPart)) in
  Join slash (take (length parts - 1) parts ++ [modName]).

Definition info_of (f : Frame) : funcInfo := mk_funcInfo (module_path (Function_ f)) (Base (File f)) (Line f).

(** The loop: past the frames of this folder, to the first one outside. *)
Fixpoint walk (fuel : nat) (folder : bytes) (foundThis : bool) (frames : list Frame) : outcome funcInfo :=
  match fuel with
  | 0 => Hang
  | S fuel =>
      let '(frame, frames) := Next frames in
      let frameFolder := Dir (File frame) in
      if negb foundThis && bool_decide (frameFolder = folder) then walk fuel folder true frames
      else if foundThis && negb (bool_decide (frameFolder = folder)) then Ok (info_of frame)
      else walk fuel folder foundThis frames
  end.

(** [fileThis] is [runtime.Caller(0)]'s file, if it is known; [frames] what
    [runtime.Callers] recorded, at most ten entries. *)
Definition getFuncInfo (fuel : nat) (fileThis : option bytes) (frames : list Frame) : outcome funcInfo :=
  match fileThis with
  | None => Ok (mk_funcInfo [] [] 0)
  | Some file =>
      if decide (length frames = 0) then Ok (mk_funcInfo [] [] 0)
      else walk fuel (Dir file) false frames
  end.

(** [LoggerBuiltin.makeMessage]. *)
Definition makeMessage (fuel : nat) (fileThis : option bytes) (frames : list Frame) (now : Log.Time)
    (lev : Z) (body : bytes) (l : Log.LoggerBuiltin) : outcome Log.Message :=
  fi ← getFuncInfo fuel fileThis frames;
  Ok (Log.makeMessage (Log.mk_caller now (mod_ fi) (fileName fi) (line fi)) lev body l).

(** ** Splitting and joining *)
Lemma Split_none (c : byte) (s : bytes) : (c ∉ s) → Split c s = [s].
Proof.
  induction s as [|b s IH]; [done|]. intros Hn. apply not_elem_of_cons in Hn as [Hb Hs].
  cbn [Split]. rewrite decide_False by done. by rewrite IH.
Qed.

Lemma Split_cons (c : byte) (p s : bytes) : (c ∉ p) → Split c (p ++ c :: s) = p :: Split c s.
Proof.
  induction p as [|b p IH]; intros Hn; cbn [app Split]; [by rewrite decide_True|].
  apply not_elem_of_cons in Hn as [Hb Hp]. rewrite decide_False by done. by rewrite IH.
Qed.

Lemma Split_Join (c : byte) (parts : list bytes) :
  parts ≠ [] → Forall (λ p, c ∉ p) parts → Split c (Join c parts) = parts.
Proof.
  intros Hne Hok. induction Hok as [|p ps Hp Hps IH]; [done|]. destruct ps as [|q ps].
  - by apply Split_none.
  - change (Join c (p :: q :: ps)) with (p ++ c :: Join c (q :: ps)). rewrite Split_cons by done. by rewrite IH.
Qed.

Lemma module_path_of (dirs : list bytes) (pkg name : bytes) :
  Forall (λ p, slash ∉ p) dirs → (slash ∉ pkg) → (dot ∉ pkg) → (slash ∉ name) →
  module_path (Join slash (dirs ++ [pkg ++ dot :: name])) = Join slash (dirs ++ [pkg]).
Proof.
  intros Hd Hp Hpd Hn. unfold module_path. rewrite Split_Join; [|by destruct dirs|].
  2: { apply Forall_app_2; [done|]. apply Forall_singleton. rewrite elem_of_app, elem_of_cons. by intros [?|[?|?]]. }
  rewrite last_snoc. cbn [default from_option id]. rewrite Split_cons by done. cbn [head default from_option id].
  rewrite length_app, Nat.add_sub. by rewrite take_app_length.
Qed.

(** ** The walk *)
Lemma walk_outside (fuel : nat) (folder : bytes) (pre frames : list Frame) :
  Forall (λ f, Dir (File f) ≠ folder) pre → walk (length pre + fuel) folder false (pre ++ frames) = walk fuel folder false frames.
Proof.
  induction 1 as [|f pre Hf _ IH]; [done|]. cbn [length Nat.add app walk Next]. by rewrite bool_decide_eq_false_2.
Qed.

Lemma walk_inside (fuel : nat) (folder : bytes) (inside frames : list Frame) :
  Forall (λ f, Dir (File f) = folder) inside → walk (length inside + fuel) folder true (inside ++ frames) = walk fuel folder true frames.
Proof.
  induction 1 as [|f inside Hf _ IH]; [done|]. cbn [length Nat.add app walk Next]. by rewrite bool_decide_eq_true_2.
Qed.

(** The first frame after those of the folder, the zero frame if there is none. *)
Lemma walk_found (fuel : nat) (folder : bytes) (pre inside rest : list Frame) :
  Forall (λ f, Dir (File f) ≠ folder) pre → Forall (λ f, Dir (File f) = folder) inside → inside ≠ [] →
  Dir (File (Next rest).1) ≠ folder → length pre + length inside < fuel →
  walk fuel folder false (pre ++ inside ++ rest) = Ok (info_of (Next rest).1).
Proof.
  intros Hpre Hin Hne Hrest Hf.
  replace fuel with (length pre + (length inside + S (fuel - length pre - length inside - 1))) by lia.
  rewrite walk_outside by done. destruct Hin as [|f inside Hfi Hin]; [done|].
  cbn [length Nat.add app walk Next]. rewrite bool_decide_eq_true_2 by done. cbn [negb andb].
  rewrite walk_inside by done. cbn [walk]. destruct (Next rest) as [g rest'] eqn:E. cbn [fst] in *.
  by rewrite bool_decide_eq_false_2.
Qed.

(** Without a frame of the folder the loop spins on zero frames. *)
Lemma walk_spins (fuel : nat) (folder : bytes) (frames : list Frame) :
  Forall (λ f, Dir (File f) ≠ folder) frames → folder ≠ [dot] → walk fuel folder false frames = Hang.
Proof.
  intros Hf Hd. revert frames Hf. induction fuel as [|fuel IH]; intros frames Hf; [done|]. cbn [walk].
  assert (Hn : Dir (File (Next frames).1) ≠ folder ∧ Forall (λ f, Dir (File f) ≠ folder) (Next frames).2).
  { destruct Hf as [|f fs Hf Hfs]; [|done]. split; [|done]. by intros <-. }
  destruct (Next frames) as [f fs]. destruct Hn as [Hn Hfs]. rewrite bool_decide_eq_false_2 by done. by apply IH.
Qed.

Lemma trim_slashes_name (s t : bytes) : t ≠ [] → (slash ∉ t) → trim_slashes (s ++ t) = s ++ t.
Proof.
  intros Hne Ht. assert (Hbase : trim_slashes t = t).
  { clear s. induction t as [|b t IH]; [done|]. apply not_elem_of_cons in Ht as [Hb Ht]. cbn [trim_slashes].
    destruct t as [|b' t]; [cbn; by rewrite decide_False|]. by rewrite IH. }
  induction s as [|b s IH]; [done|]. cbn [app trim_slashes]. rewrite IH. by destruct s, t.
Qed.

Lemma Base_file (dir base : bytes) : base ≠ [] → (slash ∉ base) → Base (dir ++ slash :: base) = base.
Proof.
  intros Hne Hb. unfold Base. rewrite decide_False by (by destruct dir).
  change (slash :: base) with ([slash] ++ base). rewrite app_assoc, trim_slashes_name by done. rewrite <- app_assoc.
  cbn [app]. rewrite LastIndexByte_app by done.
  change (dir ++ slash :: base) with (dir ++ [slash] ++ base). rewrite app_assoc.
  rewrite drop_app_length' by (rewrite length_app; cbn; lia). by rewrite decide_False.
Qed.

(** ** Properties *)

(** A log message names its caller, and looking it up ends: the walk over
    the frames stops, after one step a frame, at the first frame outside this
    package's folder that follows one inside it; the message then carries the
    import path of that frame's package, the name of its file and its line. When the
    recorded frames end inside the folder the walk ends one step later, with
    an empty path and the file [.]; only if no frame at all were in the
    folder would it spin for ever. *)
Theorem log_names_caller (file : bytes) (pre inside rest : list Frame) (dirs : list bytes) (pkg name dir base : bytes) (n : Z)
    (fuel : nat) (now : Log.Time) (lev : Z) (body : bytes) (l : Log.LoggerBuiltin) :
  let folder := Dir file in
  let called := mk_Frame (Join slash (dirs ++ [pkg ++ dot :: name])) (dir ++ slash :: base) n in
  Forall (λ f, Dir (File f) ≠ folder) pre → Forall (λ f, Dir (File f) = folder) inside → inside ≠ [] → folder ≠ [dot] →
  Forall (λ p, slash ∉ p) dirs → (slash ∉ pkg) → (dot ∉ pkg) → (slash ∉ name) → base ≠ [] → (slash ∉ base) →
  Dir (File called) ≠ folder → length pre + length inside < fuel →
  makeMessage fuel (Some file) (pre ++ inside ++ called :: rest) now lev body l
    = Ok (Log.mk_Message now (Log.l_Name l) body lev (Join slash (dirs ++ [pkg])) base n) ∧
  getFuncInfo fuel (Some file) (pre ++ inside) = Ok (mk_funcInfo [] [dot] 0) ∧
  (∀ k, pre ≠ [] → getFuncInfo k (Some file) pre = Hang).
Proof.
  intros folder called Hpre Hin Hne Hdot Hdirs Hp Hpd Hn Hb Hbs Hc Hf. unfold makeMessage, getFuncInfo. fold folder.
  assert (Hlen : ∀ r, length (pre ++ inside ++ r) ≠ 0).
  { intros r. destruct inside as [|i inside]; [done|]. rewrite !length_app. cbn. lia. }
  split; [|split].
  - rewrite decide_False by apply Hlen. rewrite walk_found by done. unfold info_of, called. cbn [Next fst Function_ File Line].
    by rewrite module_path_of, Base_file.
  - specialize (Hlen []). rewrite app_nil_r in Hlen. rewrite decide_False by done.
    rewrite <- (app_nil_r inside). by rewrite walk_found.
  - intros k Hnil. rewrite decide_False by (by destruct pre). by apply walk_spins.
Qed.

Lemma log_names_caller_witness :
  makeMessage 10 (Some (lit "/go/df/log/func.go"))
    [mk_Frame (lit "runtime.Callers") (lit "/usr/lib/go/src/runtime/extern.go") 331;
     mk_Frame (lit "github.com/libsdf/df/log.getFuncInfo") (lit "/go/df/log/func.go") 23;
     mk_Frame (lit "github.com/libsdf/df/log.(*LoggerBuiltin).makeMessage") (lit "/go/df/log/logger_builtin.go") 15;
     mk_Frame (lit "github.com/libsdf/df/log.(*LoggerBuiltin).Printf") (lit "/go/df/log/logger_builtin.go") 71;
     mk_Frame (lit "github.com/libsdf/df/socks/backend.(*uplinkSecure).Dial") (lit "/go/df/socks/backend/backend_secure.go") 245;
     mk_Frame (lit "runtime.goexit") (lit "/usr/lib/go/src/runtime/asm_amd64.s") 1700]
    (Log.mk_Time 1700000000 0 0) Log.ERROR (lit "x") Log.defaultLogger
  = Ok (Log.mk_Message (Log.mk_Time 1700000000 0 0) [] (lit "x") Log.ERROR (lit "github.com/libsdf/df/socks/backend") (lit "backend_secure.go") 245).
Proof.
  apply (log_names_caller (lit "/go/df/log/func.go")
    [mk_Frame (lit "runtime.Callers") (lit "/usr/lib/go/src/runtime/extern.go") 331]
    [mk_Frame (lit "github.com/libsdf/df/log.getFuncInfo") (lit "/go/df/log/func.go") 23;
     mk_Frame (lit "github.com/libsdf/df/log.(*LoggerBuiltin).makeMessage") (lit "/go/df/log/logger_builtin.go") 15;
     mk_Frame (lit "github.com/libsdf/df/log.(*LoggerBuiltin).Printf") (lit "/go/df/log/logger_builtin.go") 71]
    [mk_Frame (lit "runtime.goexit") (lit "/usr/lib/go/src/runtime/asm_amd64.s") 1700]
    [lit "github.com"; lit "libsdf"; lit "df"; lit "socks"] (lit "backend") (lit "(*uplinkSecure).Dial")
    (lit "/go/df/socks/backend") (lit "backend_secure.go") 245 10 (Log.mk_Time 1700000000 0 0) Log.ERROR (lit "x") Log.defaultLogger);
    try (refine (bool_decide_unpack _ _); vm_compute; exact I); cbn; lia.
Defined.
End Callers.
