(* ===== verification/Socks5.v ===== *)
(** Package [socks/socks5]: the SOCKS5 server's handshake and request
    handling (src/socks/socks5/socks5.go, server.go), the choice of the
    backend (src/socks/backend/backend.go) and the client connector
    (client.go). *)
From S2P Require Import Prelude GoIO Strconv Aes Conf Utils NetAddr.
Import NetAddr Utils.

Module Socks5.
(** ** Server *)

(** The three ways [HandleRequest] finds a backend: the one the options'
    provider gives, [backend.GetBackend] (a secure tunnel if a protocol suit is
    named, direct connections otherwise), or [backendDirect]. *)
Inductive linker := Provided | SecureTunnel (suit : bytes) | Direct.

#[global] Instance linker_eq_dec : EqDecision linker.
Proof. solve_decision. Defined.

(** [options.BackendProvider]: absent, or a function that returns a backend
    or nil. *)
Record Options := mk_Options {
  Port : Z;
  ProtocolSuit : bytes;
  BackendProvider : option bool;
}.

Definition GetBackend (suitName : bytes) : linker :=
  if decide (0 < length suitName) then SecureTunnel suitName else Direct.

Definition choose_linker (options : Options) (isHostLocal : bool) : linker :=
  match BackendProvider options with
  | Some true => Provided
  | _ => if negb isHostLocal then GetBackend (ProtocolSuit options) else Direct
  end.

Section server.
Context {T W : Type} `{Reader T} `{Writer W}.

(** The buffered reader over the client's connection, and the connection. *)
Abbreviation state := (Bufio.bufio T * W)%type.

Definition ReadByte : M state byte := on_fst Bufio.ReadByte.

(** [w.Write(...)] with its error ignored. *)
Definition write_ignored (d : bytes) : M state unit :=
  try (_ ← on_snd (write d); mret tt) (λ _, mret tt).

Fixpoint read_auths (n : nat) : M state unit :=
  match n with
  | 0 => mret tt
  | S n => _ ← ReadByte; read_auths n
  end.

(** [Handshake]: every method is accepted, whatever the client offers. *)
Definition Handshake : M state unit :=
  ver ← ReadByte;
  if negb (byte_val ver =? 5)%Z then throw (Errorf (lit "wrong version.") []) else
  nauth ← ReadByte;
  _ ← read_auths (Z.to_nat (byte_val nauth));
  write_ignored [ver; Byte.x00].

(** The destination: its name or printed address, and whether it is an
    address that must not be proxied. *)
Definition read_host (addrTyp : Z) : M state (bytes * bool) :=
  if (addrTyp =? 1)%Z then
    ip ← on_fst (ReadFull 4);
    mret (IP_String ip, negb (Utils.IsLegitProxiableIP (Some ip)))
  else if (addrTyp =? 3)%Z then
    sizeb ← ReadByte;
    nameb ← on_fst (ReadFull (Z.to_nat (byte_val sizeb)));
    mret (nameb, false)
  else if (addrTyp =? 4)%Z then
    ip ← on_fst (ReadFull 16);
    mret (IP_String ip, negb (Utils.IsLegitProxiableIP (Some ip)))
  else mret ([], false).

(** [HandleRequest] up to the choice of the backend: the address to dial. *)
Definition read_request (options : Options) : M state (linker * bytes) :=
  ver ← ReadByte;
  if negb (byte_val ver =? 5)%Z then throw (Errorf (lit "incompatible version.") []) else
  cmd ← ReadByte;
  if negb (byte_val cmd =? 1)%Z then
    _ ← write_ignored [ver; byte_of 7; Byte.x00; Byte.x00; Byte.x00; Byte.x00];
    throw (Errorf (lit "unsupported cmd: %d") [byte_val cmd])
  else
  _ ← ReadByte;
  addrTyp ← ReadByte;
  host ← read_host (byte_val addrTyp);
  let '(hostDst, isHostLocal) := host in
  portb ← on_fst (ReadFull 2);
  let portDst := (octet portb 0 * 256 + octet portb 1)%Z in
  let addrDst := join_port hostDst portDst in
  mret (choose_linker options isHostLocal, addrDst).

Definition reply_ok : bytes :=
  [byte_of 5; Byte.x00; Byte.x00; byte_of 1; Byte.x00; Byte.x00; Byte.x00; Byte.x00; Byte.x00; Byte.x00].
Definition reply_unreachable : bytes :=
  [byte_of 5; byte_of 4; Byte.x00; Byte.x00; Byte.x00; Byte.x00].

(** [HandleRequest] up to [utils.Proxy]; [dial l addr] is
    [linker.Dial("tcp", addr)]: the network's answer.  The result is the
    connection that [utils.Proxy] joins with the client's - with the
    connection itself, not with the buffered reader over it. *)
Definition HandleRequest {C} (dial : linker → bytes → outcome C) (options : Options) :
    M state (linker * bytes * C) :=
  req ← read_request options;
  let '(l, addrDst) := req in
  match dial l addrDst with
  | Ok upConn => _ ← on_snd (write reply_ok); mret (l, addrDst, upConn)
  | Err err => _ ← write_ignored reply_unreachable; throw err
  | Panic => panic
  | Hang => hang
  end.

(** [handleConn] with its buffered reader, up to the start of the proxying;
    [None] when the connection is closed without a word (an error is logged at
    most). *)
Definition serve_conn {C} (dial : linker → bytes → outcome C) (options : Options) :
    M state (option (linker * bytes * C)) :=
  try
    (ver ← on_fst Bufio.Peek1;
     if (byte_val ver =? 5)%Z then
       _ ← Handshake; c ← HandleRequest dial options; mret (Some c)
     else mret None)
    (λ _, mret None).

(** [handleConn] on the client's connection, as [utils.Proxy] finds it: the
    buffered reader is dropped with what it has read ahead. *)
Definition handleConn {C} (dial : linker → bytes → outcome C) (options : Options) :
    M (T * W) (option (linker * bytes * C)) := λ s,
  let '(r, (b, w)) := serve_conn dial options (Bufio.NewReader s.1, s.2) in
  (r, (Bufio.rd b, w)).
End server.

(** ** Client *)

Definition hs : bytes := [byte_of 5; Byte.x00].

(** The type of the target's address, by the length of [net.ParseIP(host)]. *)
Definition addr_type (ip : option bytes) : Z :=
  match ip with
  | Some ip => if decide (length ip = 4) then 1 else if decide (length ip = 16) then 4 else 3
  | None => 3
  end.

Definition s5_request (host : bytes) (port : Z) : bytes :=
  let ip := ParseIP host in
  let lenS5Req := match ip with Some ip => 4 + length ip | None => 4 + 1 + length host end + 2 in
  let s5req := make_bytes lenS5Req in
  let s5req := <[0 := byte_of 5]> s5req in
  let s5req := <[1 := byte_of 1]> s5req in
  let s5req := <[3 := byte_of (addr_type ip)]> s5req in
  let s5req := match ip with
               | Some ip => copy_at 4 ip s5req
               | None => copy_at 5 host (<[4 := byte_of (len host)]> s5req)
               end in
  copy_at (length s5req - 2) (put_be 2 port) s5req.

(** [Socks5Connect] on the connection to the proxy: on success the connection
    is the tunnel to [addr]. *)
Definition Socks5Connect {T} `{Reader T} `{Writer T} (addr : bytes) : M T unit :=
  hp ← lift (SplitHostPort addr);
  let '(host, portStr) := hp in
  port ← lift (Atoi portStr);
  _ ← write hs;
  hsAck ← ReadFull 2;
  if negb (octet hsAck 0 =? 5)%Z || negb (octet hsAck 1 =? 0)%Z
  then throw (Errorf (lit "socks5 handshake failed.") []) else
  _ ← write (s5_request host port);
  s5reqAck ← ReadFull 10;
  if negb (octet s5reqAck 0 =? 5)%Z then throw (Errorf (lit "wrong version.") [])
  else if negb (octet s5reqAck 3 =? 1)%Z then throw (Errorf (lit "server side failed.") [])
  else mret tt.

(** ** The server on a well-formed request *)

(** The destination the server dials for a host the client names. *)
Definition shown_host (host : bytes) : bytes :=
  match ParseIP host with Some ip => IP_String ip | None => host end.

Definition is_local (host : bytes) : bool :=
  match ParseIP host with Some ip => negb (Utils.IsLegitProxiableIP (Some ip)) | None => false end.


Lemma byte_5 : (byte_val (byte_of 5) =? 5)%Z = true.
Proof. reflexivity. Qed.

Lemma byte_1 : (byte_val (byte_of 1) =? 1)%Z = true.
Proof. reflexivity. Qed.

Section server_spec.
Context {T W : Type} `{Reader T} `{WriterLaws W} (Q : T → bytes → Prop) (HQ : fills Q).
Implicit Types (b : Bufio.bufio T) (w : W).

Lemma ReadFull_run (n : nat) b w (d rest : bytes) :
  buffered Q b (d ++ rest) → n = length d →
  ∃ b', on_fst (ReadFull n) (b, w) = (Ok d, (b', w)) ∧ buffered Q b' rest.
Proof.
  intros Hd ->. destruct (bufio_ReadFull Q HQ (length d) b d rest Hd eq_refl) as (b' & Hr & Hd').
  exists b'. split; [by apply run_fst|done].
Qed.

Lemma ReadByte_run b w (x : byte) (rest : bytes) :
  buffered Q b (x :: rest) →
  ∃ b', ReadByte (b, w) = (Ok x, (b', w)) ∧ buffered Q b' rest.
Proof.
  intros Hd. destruct (bufio_ReadFull Q HQ 1 b [x] rest Hd eq_refl) as (b' & Hr & Hd').
  exists b'. split; [|done]. apply run_fst. unfold Bufio.ReadByte. by run Hr.
Qed.

Lemma Peek1_run b w (x : byte) (rest : bytes) :
  buffered Q b (x :: rest) →
  ∃ b', on_fst Bufio.Peek1 (b, w) = (Ok x, (b', w)) ∧ buffered Q b' (x :: rest).
Proof.
  intros Hd. destruct (bufio_ReadFull Q HQ 1 b [x] rest Hd eq_refl) as (b' & Hr & (tl & Hd' & ->)).
  exists (Bufio.mk_bufio (Bufio.rd b') ([x] ++ Bufio.ahead b')). split; [|by exists tl].
  apply run_fst. unfold Bufio.Peek1. by run Hr.
Qed.

Lemma write_ignored_run b w (d : bytes) :
  write_pre w (length d) →
  ∃ w', write_ignored d (b, w) = (Ok tt, (b, w')) ∧ emitted w w' d.
Proof.
  intros Hp. destruct (write_law w d Hp) as (n & w' & Hw & He). exists w'. split; [|done].
  unfold write_ignored, try. by rewrite (bind_ok _ _ _ _ _ (run_snd _ b _ _ _ Hw)).
Qed.

Lemma Handshake_run b w (rest : bytes) :
  buffered Q b (hs ++ rest) → write_pre w 2 →
  ∃ b' w', Handshake (b, w) = (Ok tt, (b', w')) ∧ buffered Q b' rest ∧
           emitted w w' [byte_of 5; Byte.x00].
Proof.
  intros Hd Hp. destruct (ReadByte_run b w _ _ Hd) as (b1 & R1 & D1).
  destruct (ReadByte_run b1 w _ _ D1) as (b2 & R2 & D2).
  destruct (write_ignored_run b2 w [byte_of 5; Byte.x00] Hp) as (w' & W1 & E1).
  exists b2, w'. split; [|done]. unfold Handshake. run R1. rewrite byte_5. cbn [negb]. run R2. exact W1.
Qed.

(** The request a client builds is read as the destination it names. *)
(** What the client's request is, byte by byte. *)
Lemma port_bytes (port : Z) : (0 ≤ port < 65536)%Z →
  ∃ p0 p1, put_be 2 port = [p0; p1] ∧ (octet [p0; p1] 0 * 256 + octet [p0; p1] 1)%Z = port.
Proof.
  intros Hport. pose proof (length_put_be 2 port) as Hl. destruct (put_be 2 port) as [|p0 [|p1 [|? ?]]] eqn:E; try done.
  exists p0, p1. split; [done|]. pose proof (get_be_put_small 2 port ltac:(cbn; lia)) as Hg.
  rewrite E in Hg. exact Hg.
Qed.

Lemma s5_request_bytes (host : bytes) (port : Z) (p0 p1 : byte) :
  put_be 2 port = [p0; p1] →
  s5_request host port =
    byte_of 5 :: byte_of 1 :: Byte.x00 :: byte_of (addr_type (ParseIP host)) ::
    (match ParseIP host with Some ip => ip | None => byte_of (len host) :: host end) ++ [p0; p1].
Proof.
  intros Hpb. unfold s5_request. rewrite Hpb. destruct (ParseIP host) as [ip|] eqn:Eip.
  - pose proof (ParseIP_length _ _ Eip) as Hl. do 17 (destruct ip as [|? ip]; try discriminate Hl).
    reflexivity.
  - set (hd := [byte_of 5; byte_of 1; Byte.x00; byte_of (addr_type None); byte_of (len host)]).
    replace (copy_at 5 host _) with (hd ++ host ++ make_bytes 2).
    + replace (length (hd ++ host ++ make_bytes 2) - 2) with (length (hd ++ host))
        by (rewrite !length_app, length_make_bytes; lia).
      rewrite app_assoc, copy_at_app by done. rewrite copy_at_all by done.
      unfold hd. by rewrite <- !app_assoc.
    + change (hd ++ host ++ make_bytes 2) with (hd ++ (host ++ make_bytes 2)).
      replace (4 + 1 + length host + 2) with (5 + (length host + 2)) by lia.
      transitivity (copy_at 5 host (hd ++ make_bytes (length host + 2))); [|reflexivity].
      rewrite copy_at_app by done. f_equal. rewrite copy_at_fit by (rewrite length_make_bytes; lia).
      rewrite take_0. cbn [app Nat.add]. f_equal. unfold make_bytes.
      rewrite drop_replicate. f_equal. lia.
Qed.

Lemma read_host_run b w (host rest : bytes) :
  (ParseIP host = None → length host < 256) →
  buffered Q b ((match ParseIP host with Some ip => ip | None => byte_of (len host) :: host end) ++ rest) →
  ∃ b', read_host (addr_type (ParseIP host)) (b, w) = (Ok (shown_host host, is_local host), (b', w)) ∧ buffered Q b' rest.
Proof.
  intros Hlen Hd. unfold shown_host, is_local. destruct (ParseIP host) as [ip|] eqn:Eip.
  - pose proof (ParseIP_length _ _ Eip) as Hl.
    destruct (ReadFull_run 16 b w ip _ Hd) as (b5 & R5 & D5); [done|].
    exists b5. split; [|done]. unfold addr_type. rewrite Hl. cbn [decide].
    rewrite decide_False, decide_True by done. unfold read_host. cbn [Z.eqb Pos.eqb]. by run R5.
  - destruct (ReadByte_run b w _ _ Hd) as (b5 & R5 & D5). specialize (Hlen eq_refl).
    destruct (ReadFull_run (length host) b5 w host _ D5) as (b6 & R6 & D6); [done|].
    exists b6. split; [|done]. unfold read_host, addr_type. cbn [Z.eqb Pos.eqb]. run R5.
    rewrite byte_val_of, Z.mod_small, to_nat_len by (unfold len; lia). by run R6.
Qed.

Lemma read_request_run (options : Options) b w (host rest : bytes) (port : Z) :
  (ParseIP host = None → length host < 256) → (0 ≤ port < 65536)%Z →
  buffered Q b (s5_request host port ++ rest) →
  ∃ b', read_request options (b, w)
        = (Ok (choose_linker options (is_local host), join_port (shown_host host) port), (b', w)) ∧
        buffered Q b' rest.
Proof.
  intros Hlen Hport Hd. destruct (port_bytes port Hport) as (p0 & p1 & Hpb & Hval).
  rewrite (s5_request_bytes host port p0 p1 Hpb) in Hd. cbn [app] in Hd. rewrite <- app_assoc in Hd.
  destruct (ReadByte_run b w _ _ Hd) as (b1 & R1 & D1).
  destruct (ReadByte_run b1 w _ _ D1) as (b2 & R2 & D2).
  destruct (ReadByte_run b2 w _ _ D2) as (b3 & R3 & D3).
  destruct (ReadByte_run b3 w _ _ D3) as (b4 & R4 & D4).
  destruct (read_host_run b4 w host _ Hlen D4) as (b5 & R5 & D5).
  destruct (ReadFull_run 2 b5 w [p0; p1] rest D5 eq_refl) as (b6 & R6 & D6).
  exists b6. split; [|done]. unfold read_request. run R1. rewrite byte_5. cbn [negb].
  run R2. rewrite byte_1. cbn [negb]. run R3. run R4.
  assert (Hat : byte_val (byte_of (addr_type (ParseIP host))) = addr_type (ParseIP host)).
  { unfold addr_type. repeat case_match; reflexivity. }
  rewrite Hat. run R5. cbv beta iota zeta. run R6. unfold mret, M_ret. cbv zeta. by rewrite Hval.
Qed.

(** A whole session of the server with a client that sends a request. *)
Lemma serve_conn_run {C} (dial : linker → bytes → outcome C) (options : Options) b w
    (host rest : bytes) (port : Z) (c : C) :
  let l := choose_linker options (is_local host) in
  let addr := join_port (shown_host host) port in
  (ParseIP host = None → length host < 256) → (0 ≤ port < 65536)%Z →
  buffered Q b (hs ++ s5_request host port ++ rest) → write_pre w 10 → dial l addr = Ok c →
  ∃ b' w', serve_conn dial options (b, w) = (Ok (Some (l, addr, c)), (b', w')) ∧
           buffered Q b' rest ∧ emitted w w' ([byte_of 5; Byte.x00] ++ reply_ok).
Proof.
  intros l addr Hlen Hport Hd Hp Hdial.
  destruct (Peek1_run b w _ _ Hd) as (b1 & R1 & D1).
  destruct (Handshake_run b1 w _ D1) as (b2 & w2 & R2 & D2 & E2); [eapply write_pre_mono; [exact Hp|lia]|].
  destruct (read_request_run options b2 w2 host rest port Hlen Hport D2) as (b3 & R3 & D3).
  destruct (write_law w2 reply_ok) as (n & w3 & W3 & E3); [by eapply write_pre_emitted|].
  exists b3, w3. split; [|split; [done|by eapply emitted_app]].
  unfold serve_conn, try. run R1. rewrite byte_5. run R2. unfold HandleRequest.
  unfold mbind at 1 2, M_bind at 1 2. rewrite R3. cbv beta iota. fold l addr. rewrite Hdial.
  by rewrite (bind_ok _ _ _ _ _ (run_snd _ b3 _ _ _ W3)).
Qed.

(** The same when the destination cannot be reached. *)
Lemma serve_conn_refused {C} (dial : linker → bytes → outcome C) (options : Options) b w
    (host rest : bytes) (port : Z) (e : error) :
  let l := choose_linker options (is_local host) in
  let addr := join_port (shown_host host) port in
  (ParseIP host = None → length host < 256) → (0 ≤ port < 65536)%Z →
  buffered Q b (hs ++ s5_request host port ++ rest) → write_pre w 10 → dial l addr = Err e →
  ∃ b' w', serve_conn dial options (b, w) = (Ok None, (b', w')) ∧
           emitted w w' ([byte_of 5; Byte.x00] ++ reply_unreachable).
Proof.
  intros l addr Hlen Hport Hd Hp Hdial.
  destruct (Peek1_run b w _ _ Hd) as (b1 & R1 & D1).
  destruct (Handshake_run b1 w _ D1) as (b2 & w2 & R2 & D2 & E2); [eapply write_pre_mono; [exact Hp|lia]|].
  destruct (read_request_run options b2 w2 host rest port Hlen Hport D2) as (b3 & R3 & D3).
  assert (Hp2 : write_pre w2 (length reply_unreachable)).
  { eapply write_pre_mono; [by eapply write_pre_emitted|]. cbn. lia. }
  destruct (write_ignored_run b3 w2 reply_unreachable Hp2) as (w3 & W3 & E3).
  exists b3, w3. split; [|by eapply emitted_app].
  unfold serve_conn, try. run R1. rewrite byte_5. run R2. unfold HandleRequest.
  unfold mbind at 1 2, M_bind at 1 2. rewrite R3. cbv beta iota. fold l addr. rewrite Hdial.
  by run W3.
Qed.
End server_spec.

(** ** The client *)
Section client_spec.
Context {R W : Type} `{ReaderLaws R} `{WriterLaws W}.

(** What the client sends to reach [host:port]. *)
Definition client_bytes (host : bytes) (port : Z) : bytes := hs ++ s5_request host port.

Lemma s5_request_length (host : bytes) (port : Z) :
  (ParseIP host = None → length host < 256) → length (s5_request host port) ≤ 262.
Proof.
  intros Hl. unfold s5_request. destruct (ParseIP host) as [ip|] eqn:E.
  - apply ParseIP_length in E. repeat (rewrite ?length_copy_at, ?length_insert, ?length_make_bytes; try lia).
  - specialize (Hl eq_refl).
    repeat (rewrite ?length_copy_at, ?length_insert, ?length_make_bytes; try lia).
Qed.

(** The client up to the answer to its request. *)
Lemma Socks5Connect_run (host addr portStr tail : bytes) (port : Z) (r : R) (w : W) :
  SplitHostPort addr = Ok (host, portStr) → Atoi portStr = Ok port →
  (ParseIP host = None → length host < 256) →
  delivers r ([byte_of 5; Byte.x00] ++ tail) → write_pre w 262 →
  ∃ r' w', delivers r' tail ∧ emitted w w' (client_bytes host port) ∧
    Socks5Connect addr (Duplex.mk_duplex r w) =
    (s5reqAck ← ReadFull 10;
     if negb (octet s5reqAck 0 =? 5)%Z then throw (Errorf (lit "wrong version.") [])
     else if negb (octet s5reqAck 3 =? 1)%Z then throw (Errorf (lit "server side failed.") [])
     else mret tt) (Duplex.mk_duplex r' w').
Proof.
  intros Hsp Hat Hl Hd Hp.
  destruct (write_law w hs) as (n1 & w1 & W1 & E1); [eapply write_pre_mono; [exact Hp|cbn; lia]|].
  destruct (Duplex.duplex_ReadFull 2 r w1 _ _ Hd eq_refl) as (r1 & R1 & D1).
  destruct (write_law w1 (s5_request host port)) as (n2 & w2 & W2 & E2).
  { eapply write_pre_mono; [by eapply write_pre_emitted|]. by apply s5_request_length. }
  exists r1, w2. split; [done|]. split; [by eapply emitted_app|].
  unfold Socks5Connect. rewrite Hsp. unfold mbind at 1, M_bind at 1, lift at 1. rewrite Hat.
  unfold mbind at 1, M_bind at 1, lift at 1. run (Duplex.duplex_write r _ _ _ _ W1). run R1.
  change (negb (octet [byte_of 5; Byte.x00] 0 =? 5)%Z || negb (octet [byte_of 5; Byte.x00] 1 =? 0)%Z)
    with false. cbn match. by run (Duplex.duplex_write r1 _ _ _ _ W2).
Qed.
End client_spec.

(** Hosts a client may name: plain host names of at most 255 bytes that are
    not addresses, and dotted quads. *)
Definition nameable (host : bytes) : Prop :=
  forallb plain host = true ∧ (ParseIP host = None ∧ length host < 256 ∨ ∃ a b c d, host = dotted [a; b; c; d]).

Lemma nameable_shown (host : bytes) : nameable host → shown_host host = host.
Proof.
  intros [_ [[Hn _]|(a & b & c & d & ->)]]; unfold shown_host; [by rewrite Hn|].
  rewrite ParseIP_dotted. unfold IP_String. rewrite decide_False by done.
  by rewrite Utils.To4_mapped.
Qed.

Lemma nameable_length (host : bytes) : nameable host → ParseIP host = None → length host < 256.
Proof. intros [_ [[_ Hl]|(a & b & c & d & ->)]] Hn; [done|]. by rewrite ParseIP_dotted in Hn. Qed.

(** ** Properties *)

(** The client's half. *)
Lemma socks5_client {R W} `{ReaderLaws R} `{WriterLaws W} (host : bytes) (port : Z) (r : R) (w : W) (down : bytes) :
  nameable host → (0 ≤ port < 65536)%Z →
  delivers r (([byte_of 5; Byte.x00] ++ reply_ok) ++ down) → write_pre w 262 →
  ∃ r' w', Socks5Connect (join_port host port) (Duplex.mk_duplex r w) = (Ok tt, Duplex.mk_duplex r' w') ∧
    emitted w w' (client_bytes host port) ∧ delivers r' down.
Proof.
  intros Hh Hport Hd Hw. pose proof (nameable_length host Hh) as Hlen. rewrite <- app_assoc in Hd. destruct Hh as [Hplain _].
  destruct (Socks5Connect_run host (join_port host port) (format_uint port) (reply_ok ++ down) port r w)
    as (r1 & w1 & D1 & E1 & Hrun); [by apply SplitHostPort_join; [|lia]| |done|done|done|].
  { pose proof (ParseInt_format port ltac:(lia)) as Hf. unfold format_int in Hf.
    destruct (Z.ltb_spec port 0); [lia|done]. }
  destruct (Duplex.duplex_ReadFull 10 r1 w1 _ _ D1 eq_refl) as (r2 & R2 & D2).
  exists r2, w1. split; [|done]. rewrite Hrun. by run R2.
Qed.

(** The server's half, on a connection of any kind. *)
Lemma socks5_server {T V C} `{Reader T} `{WriterLaws V} (Q : T → bytes → Prop)
    (dial : linker → bytes → outcome C) (options : Options) (host : bytes) (port : Z) (c : C) (s : T) (v : V) (up : bytes) :
  fills Q → nameable host → (0 ≤ port < 65536)%Z →
  dial (choose_linker options (is_local host)) (join_port host port) = Ok c →
  Q s (client_bytes host port ++ up) → write_pre v 10 →
  ∃ b v', handleConn dial options (s, v)
          = (Ok (Some (choose_linker options (is_local host), join_port host port, c)), (Bufio.rd b, v')) ∧
    emitted v v' ([byte_of 5; Byte.x00] ++ reply_ok) ∧ buffered Q b up.
Proof.
  intros HQ Hh Hport Hdial Hd Hv. pose proof (nameable_shown host Hh) as Hshown.
  pose proof (nameable_length host Hh) as Hlen. unfold client_bytes in Hd. rewrite <- app_assoc in Hd.
  destruct (serve_conn_run Q HQ dial options _ v host up port c Hlen Hport (buffered_new Q s _ Hd) Hv) as (b & v' & Hr & Hb & He);
    [by rewrite Hshown|].
  rewrite Hshown in Hr. exists b, v'. split; [|done]. unfold handleConn. cbn [fst snd]. by rewrite Hr.
Qed.

(** Both sides of a connection through the proxy. *)
Lemma socks5_agree {R W T V C} `{ReaderLaws R} `{WriterLaws W} `{ReaderLaws T} `{WriterLaws V}
    (dial : linker → bytes → outcome C) (options : Options) (host : bytes) (port : Z) (c : C) :
  nameable host → (0 ≤ port < 65536)%Z →
  dial (choose_linker options (is_local host)) (join_port host port) = Ok c →
  ∃ request replies,
    (∀ (r : R) (w : W) (down : bytes), delivers r (replies ++ down) → write_pre w 262 →
     ∃ r' w', Socks5Connect (join_port host port) (Duplex.mk_duplex r w)
              = (Ok tt, Duplex.mk_duplex r' w') ∧ emitted w w' request ∧ delivers r' down) ∧
    (∀ (s : T) (v : V) (up : bytes), in_turn s request up → write_pre v 10 →
     ∃ s' v', handleConn dial options (s, v)
              = (Ok (Some (choose_linker options (is_local host), join_port host port, c)), (s', v')) ∧
       emitted v v' replies ∧ delivers s' up) ∧
    (∀ (s : T) (v : V) (up : bytes), delivers s (request ++ up) → write_pre v 10 →
     ∃ s' v' lost kept, handleConn dial options (s, v)
              = (Ok (Some (choose_linker options (is_local host), join_port host port, c)), (s', v')) ∧
       emitted v v' replies ∧ up = lost ++ kept ∧ delivers s' kept).
Proof.
  intros Hh Hport Hdial. exists (client_bytes host port), ([byte_of 5; Byte.x00] ++ reply_ok). split; [|split].
  - intros r w down Hd Hw. by apply socks5_client.
  - intros s v up Hs Hv. rewrite <- (app_nil_r (client_bytes host port)) in Hs.
    destruct (socks5_server _ dial options host port c s v [] (fills_in_turn up) Hh Hport Hdial Hs Hv) as (b & v' & Hr & He & Hb).
    exists (Bufio.rd b), v'. split; [exact Hr|]. split; [done|]. by apply buffered_in_turn.
  - intros s v up Hs Hv.
    destruct (socks5_server _ dial options host port c s v up fills_delivers Hh Hport Hdial Hs Hv) as (b & v' & Hr & He & Hb).
    destruct (buffered_lost _ b up Hb) as (lost & kept & E & Hk). by exists (Bufio.rd b), v', lost, kept.
Qed.

(** C10: client and server agree: connecting to [host:port] (a host name of up
    to 255 bytes or an IPv4 address) through a SOCKS5 server makes the server
    dial exactly that address, on the backend its options select for it; when
    the dial succeeds the client's call returns with whatever follows the
    replies still to be read, and the server goes on to relay the client's
    connection, on which whatever the client sends after its request is still
    to be read, if the client sends it in its turn.  What it sends earlier may
    be lost, a part at the front: it may be in the server's buffered reader,
    which is dropped ([socks5_early_data_lost]). *)
Theorem socks5_connect {R W T V C} `{ReaderLaws R} `{WriterLaws W} `{ReaderLaws T} `{WriterLaws V}
    (dial : linker → bytes → outcome C) (options : Options) (host : bytes) (port : Z) (c : C) :
  nameable host → (0 ≤ port < 65536)%Z →
  dial (choose_linker options (is_local host)) (join_port host port) = Ok c →
  ∃ request replies,
    (∀ (r : R) (w : W) (down : bytes), delivers r (replies ++ down) → write_pre w 262 →
     ∃ r' w', Socks5Connect (join_port host port) (Duplex.mk_duplex r w)
              = (Ok tt, Duplex.mk_duplex r' w') ∧ emitted w w' request ∧ delivers r' down) ∧
    (∀ (s : T) (v : V) (up : bytes), in_turn s request up → write_pre v 10 →
     ∃ s' v', handleConn dial options (s, v)
              = (Ok (Some (choose_linker options (is_local host), join_port host port, c)), (s', v')) ∧
       emitted v v' replies ∧ delivers s' up) ∧
    (∀ (s : T) (v : V) (up : bytes), delivers s (request ++ up) → write_pre v 10 →
     ∃ s' v' lost kept, handleConn dial options (s, v)
              = (Ok (Some (choose_linker options (is_local host), join_port host port, c)), (s', v')) ∧
       emitted v v' replies ∧ up = lost ++ kept ∧ delivers s' kept).
Proof. apply socks5_agree. Qed.

Definition sample_options : Options := mk_Options 1080 (lit "h1") None.

Lemma socks5_connect_witness :
  ∃ request replies,
    (∀ (r : Conn.conn) (w : Buf.buffer) (down : bytes), delivers r (replies ++ down) → write_pre w 262 →
     ∃ r' w', Socks5Connect (lit "example.com:443") (Duplex.mk_duplex r w)
              = (Ok tt, Duplex.mk_duplex r' w') ∧ emitted w w' request ∧ delivers r' down) ∧
    (∀ ps qs, Net.stream ps = request →
     ∃ s' v', handleConn (λ _ _, Ok tt) sample_options (Net.mk_conn (ps ++ qs), Buf.mk_buffer [])
              = (Ok (Some (SecureTunnel (lit "h1"), lit "example.com:443", tt)), (s', v')) ∧
       Buf.buf_bytes v' = replies ∧ delivers s' (Net.stream qs)).
Proof.
  destruct (socks5_connect (R := Conn.conn) (W := Buf.buffer) (T := Net.conn) (V := Buf.buffer)
              (λ _ _, Ok tt) sample_options (lit "example.com") 443 tt) as (request & replies & H1 & H2 & _).
  - split; [reflexivity|]. left. split; [reflexivity|]. cbn. lia.
  - lia.
  - reflexivity.
  - exists request, replies. split; [exact H1|]. intros ps qs Hs. subst request.
    exact (H2 (Net.mk_conn (ps ++ qs)) (Buf.mk_buffer []) (Net.stream qs) (net_in_turn ps qs) I).
Defined.

(** What the client sends together with its request is lost: with everything
    in one segment, as a client may send that does not wait for the server's
    answers, the buffered reader takes it all, and the relay starts on a
    connection with nothing to read, though the server has announced success. *)
Theorem socks5_early_data_lost {C} (dial : linker → bytes → outcome C) (options : Options) (host : bytes) (port : Z) (c : C) :
  nameable host → (0 ≤ port < 65536)%Z →
  dial (choose_linker options (is_local host)) (join_port host port) = Ok c →
  ∀ (s : Net.conn) (v : Buf.buffer) (up : bytes), one_segment s (client_bytes host port ++ up) →
  ∃ s' v', handleConn dial options (s, v)
           = (Ok (Some (choose_linker options (is_local host), join_port host port, c)), (s', v')) ∧
    emitted v v' ([byte_of 5; Byte.x00] ++ reply_ok) ∧ delivers s' [].
Proof.
  intros Hh Hport Hdial s v up Hs.
  destruct (socks5_server _ dial options host port c s v up (fills_at_once s _ Hs) Hh Hport Hdial) as (b & v' & Hr & He & Hb);
    [by left|exact I|]. exists (Bufio.rd b), v'. split; [exact Hr|]. split; [done|].
  apply (buffered_at_once s (client_bytes host port ++ up) up b Hb). rewrite !length_app. cbn. lia.
Qed.

Lemma socks5_early_data_lost_witness :
  ∃ s' v', handleConn (λ _ _, Ok tt) sample_options
             (Net.mk_conn [(byte_of 5, drop 1 (client_bytes (lit "example.com") 443) ++ lit "hello")], Buf.mk_buffer [])
           = (Ok (Some (SecureTunnel (lit "h1"), lit "example.com:443", tt)), (s', v')) ∧ delivers s' [].
Proof.
  destruct (socks5_early_data_lost (λ _ _, Ok tt) sample_options (lit "example.com") 443 tt) with
    (s := Net.mk_conn [(byte_of 5, drop 1 (client_bytes (lit "example.com") 443) ++ lit "hello")])
    (v := Buf.mk_buffer []) (up := lit "hello") as (s' & v' & H1 & _ & H2).
  - split; [reflexivity|]. left. split; [reflexivity|]. cbn. lia.
  - lia.
  - reflexivity.
  - split; [vm_compute; reflexivity|]. split; [cbn; lia|]. unfold Bufio.bufio_size. apply Nat2Z.inj_le.
    rewrite Z2Nat.id by lia. vm_compute. discriminate.
  - by exists s', v'.
Defined.

(** C34: a refused destination is not reported to the client as such: the
    server's error reply has six bytes instead of the protocol's ten, so the
    client's connect ends in [io.ErrUnexpectedEOF] once the server has closed
    the connection, never in the "server side failed" it has for this case. *)
Theorem socks5_refused {R W T V} `{ReaderLaws R} `{WriterLaws W} `{ReaderLaws T} `{WriterLaws V}
    (dial : linker → bytes → outcome unit) (options : Options) (host : bytes) (port : Z) (e : error) :
  nameable host → (0 ≤ port < 65536)%Z →
  dial (choose_linker options (is_local host)) (join_port host port) = Err e →
  ∃ request replies,
    (∀ (s : T) (v : V) (up : bytes), delivers s (request ++ up) → write_pre v 10 →
     ∃ s' v', handleConn dial options (s, v) = (Ok None, (s', v')) ∧
       emitted v v' replies) ∧
    (∀ (r : R) (w : W), delivers r replies → write_pre w 262 →
     (Socks5Connect (join_port host port) (Duplex.mk_duplex r w)).1 = Err ErrUnexpectedEOF).
Proof.
  intros Hh Hport Hdial. pose proof (nameable_shown host Hh) as Hshown.
  pose proof (nameable_length host Hh) as Hlen.
  exists (client_bytes host port), ([byte_of 5; Byte.x00] ++ reply_unreachable). split.
  - intros s v up Hd Hv. unfold client_bytes in Hd. rewrite <- app_assoc in Hd.
    destruct (serve_conn_refused delivers fills_delivers dial options _ v host up port e Hlen Hport (buffered_new delivers s _ Hd) Hv)
      as (b & v' & Hr & He); [by rewrite Hshown|].
    exists (Bufio.rd b), v'. split; [|done]. unfold handleConn. cbn [fst snd]. by rewrite Hr.
  - intros r w Hd Hw. destruct Hh as [Hplain _].
    destruct (Socks5Connect_run host (join_port host port) (format_uint port) reply_unreachable port r w)
      as (r1 & w1 & D1 & E1 & Hrun); [by apply SplitHostPort_join; [|lia]| |done|done|done|].
    { pose proof (ParseInt_format port ltac:(lia)) as Hf. unfold format_int in Hf.
      destruct (Z.ltb_spec port 0); [lia|done]. }
    destruct (Duplex.duplex_short 10 r1 w1 _ D1) as (r2 & R2); [cbn; lia|].
    rewrite Hrun. by run R2.
Qed.

Lemma socks5_refused_witness :
  ∃ request replies,
    (∀ (s : Conn.conn) (v : Buf.buffer) (up : bytes), delivers s (request ++ up) → write_pre v 10 →
     ∃ s' v', handleConn (λ _ _, Err OpError : outcome unit) sample_options (s, v)
              = (Ok None, (s', v')) ∧ emitted v v' replies) ∧
    (∀ (r : Conn.conn) (w : Buf.buffer), delivers r replies → write_pre w 262 →
     (Socks5Connect (lit "10.0.0.1:80") (Duplex.mk_duplex r w)).1 = Err ErrUnexpectedEOF).
Proof.
  apply (socks5_refused (λ _ _, Err OpError) sample_options (lit "10.0.0.1") 80 OpError).
  - split; [reflexivity|]. right. exists (byte_of 10), Byte.x00, Byte.x00, (byte_of 1). reflexivity.
  - lia.
  - reflexivity.
Defined.

(** IPv6 destinations cannot be reached: the address is printed without
    brackets in front of the port, and what [HandleRequest] passes to [Dial]
    is refused by [net.SplitHostPort] (which both [net.Dial] and the tunnel's
    server apply to it), whatever the backend. *)
Theorem socks5_ipv6_unreachable {T W} `{ReaderLaws T} `{WriterLaws W}
    (options : Options) (b : Bufio.bufio T) (w : W) (ip rest : bytes) (p0 p1 : byte) :
  length ip = 16 → Utils.To4 ip = None →
  delivers b ([byte_of 5; byte_of 1; Byte.x00; byte_of 4] ++ ip ++ [p0; p1] ++ rest) →
  ∃ l addr b', read_request options (b, w) = (Ok (l, addr), (b', w)) ∧
               SplitHostPort addr = Err addr_error.
Proof.
  intros Hl H4 Hd. cbn [app] in Hd.
  destruct (ReadByte_run _ fills_delivers b w _ _ Hd) as (b1 & R1 & D1).
  destruct (ReadByte_run _ fills_delivers b1 w _ _ D1) as (b2 & R2 & D2).
  destruct (ReadByte_run _ fills_delivers b2 w _ _ D2) as (b3 & R3 & D3).
  destruct (ReadByte_run _ fills_delivers b3 w _ _ D3) as (b4 & R4 & D4).
  destruct (ReadFull_run _ fills_delivers 16 b4 w ip _ D4 (eq_sym Hl)) as (b5 & R5 & D5).
  destruct (ReadFull_run _ fills_delivers 2 b5 w [p0; p1] rest D5 eq_refl) as (b6 & R6 & D6).
  assert (Rh : read_host 4 (b4, w)
    = (Ok (IP_String ip, negb (Utils.IsLegitProxiableIP (Some ip))), (b5, w)))
    by (unfold read_host; cbn [Z.eqb Pos.eqb]; by run R5).
  do 3 eexists. split.
  - unfold read_request. run R1. rewrite byte_5. cbn [negb]. run R2. rewrite byte_1. cbn [negb].
    run R3. run R4. change (byte_val (byte_of 4)) with 4%Z. run Rh. cbv beta iota. run R6. reflexivity.
  - unfold IP_String. rewrite decide_False by lia. rewrite H4, decide_False by lia.
    destruct (format_v6_colon ip). apply SplitHostPort_colon; [done|done|].
    unfold octet. pose proof (byte_val_range (nth_byte [p0; p1] 0)).
    pose proof (byte_val_range (nth_byte [p0; p1] 1)). lia.
Qed.

Lemma socks5_ipv6_unreachable_witness :
  ∃ l addr b', read_request sample_options
      (Bufio.NewReader (Conn.mk_conn [[byte_of 5; byte_of 1; Byte.x00; byte_of 4] ++
         (make_bytes 15 ++ [Byte.x09]) ++ [Byte.x00; Byte.x50] ++ []]), Buf.mk_buffer [])
      = (Ok (l, addr), (b', Buf.mk_buffer [])) ∧ SplitHostPort addr = Err addr_error.
Proof.
  apply (socks5_ipv6_unreachable sample_options _ (Buf.mk_buffer []) (make_bytes 15 ++ [Byte.x09]) []
           Byte.x00 Byte.x50); [reflexivity|reflexivity|].
  eexists. split; [reflexivity|]. reflexivity.
Defined.
End Socks5.
