(* ===== verification/Tunnel.v ===== *)
(** Package [socks/tunnel] (src/socks/tunnel/server_handler.go, dns_cache.go):
    the server's end of a tunnel.  It answers DNS requests and serves one
    dial request, after which it relays data between the client's messages
    and the target's connection. *)
From S2P Require Import Prelude GoIO Strconv Json Message CodecS1 Aes FramerF1 Utils Lru NetAddr.
Import NetAddr.

Module Tunnel.
(** [lru.NewTSCache(time.Minute * 5)], in nanoseconds. *)
Definition dns_ttl : Z := 5 * 60 * 10 ^ 9.
Abbreviation cache := (Lru.TSCache (list bytes)).
Definition dnsCache : cache := Lru.NewTSCache dns_ttl.

Section session.
(** The environment: the system's resolver and network, the clock, and the
    text of an error. *)
Context {C : Type} (LookupIP : bytes → outcome (list bytes)) (Dial : bytes → bytes → outcome C)
  (now : Z) (error_text : error → bytes).

Definition lookupIP (host : bytes) : M cache (list bytes) := λ t,
  match Lru.Get now host t with
  | (Some ipAddr, t) => (Ok ipAddr, t)
  | (None, t) =>
      match LookupIP host with
      | Ok ipAddr => (Ok ipAddr, Lru.Put now host ipAddr t)
      | Err e => (Err e, t)
      | Panic => (Panic, t)
      | Hang => (Hang, t)
      end
  end.

(** The first address of four bytes, nil if there is none. *)
Definition first_v4 (ips : list bytes) : option bytes := find (λ v, bool_decide (length v = 4)) ips.

Definition invalid_target : error := Errorf (lit "invalid target ip: %s") [].
Definition unresolvable : error := Errorf (lit "unable to resolve %s") [].
Definition not_legit : error := Errorf (lit "not a legit ip: %s") [].

(** The host to dial for a named or literal host; [nil.String()] is never
    reached, since a nil address is not legitimate. *)
Definition resolve_host (host : bytes) : M cache bytes :=
  match ParseIP host with
  | Some ip =>
      if negb (Utils.IsLegitProxiableIP (Some ip)) then throw invalid_target else mret (IP_String ip)
  | None =>
      ipAddrs ← try (lookupIP host) (λ _, throw unresolvable);
      if decide (length ipAddrs ≤ 0) then throw unresolvable else
      let ip := first_v4 ipAddrs in
      if negb (Utils.IsLegitProxiableIP ip) then throw not_legit
      else mret (IP_String (default [] ip))
  end.

(** The address [handleDialConn] dials. *)
Definition resolve_target (address : bytes) : M cache bytes :=
  hp ← lift (SplitHostPort address);
  let '(host, portStr) := hp in
  hostTarget ← resolve_host host;
  mret (hostTarget ++ lit ":" ++ portStr).

Context {T : Type} `{Reader T} `{Writer T}.

(** The client's connection, the randomness, and the shared DNS cache. *)
Abbreviation state := (T * rng * cache)%type.

Definition send (m : Message) : M state unit := _ ← on_fst (S1.Write m); mret tt.

Definition open_reply (connId : bytes) : Message :=
  ConnectionState (mk_ConnectionState 0 0 connId (lit "open") [] []).
Definition error_reply (connId : bytes) (err : error) : Message :=
  ConnectionState (mk_ConnectionState 0 0 connId (lit "error")
                     (lit "net.Dial: " ++ error_text err) []).

(** [handleDialConn] up to the start of the relay. *)
Definition handleDialConn (m1 : MessageRequestDial) : M state C :=
  let connId := dial_ConnectionId m1 in
  addrTarget ← on_snd (resolve_target (dial_Address m1));
  match Dial (dial_Network m1) addrTarget with
  | Ok conn => _ ← send (open_reply connId); mret conn
  | Err err => _ ← send (error_reply connId err); throw err
  | Panic => panic
  | Hang => hang
  end.

Definition dns_reply (m1 : MessageRequestDNS) : Message :=
  match LookupIP (rdns_DomainName m1) with
  | Ok ips => ResultDNS (mk_ResultDNS 0 (rdns_Id m1) ips [])
  | Err err => ResultDNS (mk_ResultDNS 0 (rdns_Id m1) [] (error_text err))
  | _ => ResultDNS (mk_ResultDNS 0 (rdns_Id m1) [] [])
  end.

Definition handleDNS (m1 : MessageRequestDNS) : M state unit :=
  _ ← lift (match LookupIP (rdns_DomainName m1) with
            | Panic => Panic | Hang => Hang | _ => Ok tt end);
  send (dns_reply m1).

Definition read_message : M state Message := on_fst (on_fst S1.Read).

(** [handle]: requests are answered until a dial request, whose connection is
    then relayed, or until the first error, which ends the session. *)
Fixpoint handle_loop (fuel : nat) : M state C :=
  match fuel with
  | 0 => hang
  | S fuel =>
      m ← read_message;
      match m with
      | RequestDNS m1 => _ ← handleDNS m1; handle_loop fuel
      | RequestDial m1 => handleDialConn m1
      | _ => handle_loop fuel
      end
  end.

(** The fuel is the reader's own bound: every message takes at least one read. *)
Definition handle : M state C := λ s, handle_loop (S (budget s.1.1)) s.

(** [NewServerHandler]'s handler: a session of its own for every client. *)
Definition handleSession (clientId : bytes) : M state C := handle.
End session.

(** ** Relaying *)

(** Where the two reading goroutines and the main loop are. *)
Inductive reading := DRead | DSend (chunk : bytes) | DFail (err : error) | DExit.
Inductive listening := URead | USendDat (m1 : MessageData) | USendConn (m1 : MessageConnectionState)
  | UFail (err : error) | UExit.
Inductive relaying := MSelect | MWriteTarget (dat : bytes) | MWriteClient (dat : bytes)
  | MReturn (err : option error).

Record relay := mk_relay {
  down : reading;
  bufSize : Z;
  countFullRead : Z;
  up : listening;
  chErr : list error;
  main : relaying;
  from_target : bytes;
  to_client : list Message;
  from_client : list Message;
  to_target : bytes;
}.

Definition set_down d r := mk_relay d (bufSize r) (countFullRead r) (up r) (chErr r) (main r)
  (from_target r) (to_client r) (from_client r) (to_target r).
Definition set_up u r := mk_relay (down r) (bufSize r) (countFullRead r) u (chErr r) (main r)
  (from_target r) (to_client r) (from_client r) (to_target r).
Definition set_main m r := mk_relay (down r) (bufSize r) (countFullRead r) (up r) (chErr r) m
  (from_target r) (to_client r) (from_client r) (to_target r).
Definition set_chErr e r := mk_relay (down r) (bufSize r) (countFullRead r) (up r) e (main r)
  (from_target r) (to_client r) (from_client r) (to_target r).

(** [maxBufSize], the initial [bufSize], and the rule that doubles the buffer
    after ten full reads in a row. *)
Definition maxBufSize : Z := 1024 * 1024 * 8.
Definition initBufSize : Z := 1024 * 64.

Definition adjust_buffer (size bufSize countFullRead : Z) : Z * Z :=
  if (size =? bufSize)%Z then
    let countFullRead := (countFullRead + 1)%Z in
    if (10 <=? countFullRead)%Z && (bufSize <? maxBufSize)%Z
    then (bufSize * 2, countFullRead)%Z else (bufSize, countFullRead)
  else (bufSize, 0%Z).

(** What the relay does with a message of the client. *)
Definition dispatch (m : Message) : listening :=
  match m with
  | Data m1 => USendDat m1
  | ConnectionState m1 => USendConn m1
  | _ => URead
  end.

Definition data_of (m : Message) : bytes := match m with Data m1 => data_Data m1 | _ => [] end.

(** One step of one of the three; the two sending goroutines hand over on
    unbuffered channels, so a send and the main loop's receive are one step.
    [chErr] has room for both goroutines' errors.  The nondeterminism is the
    environment's (what reads and writes return, cancellation) and the
    [select]'s. *)
Inductive step (connId : bytes) : relay → relay → Prop :=
  | step_read_target r chunk :
      down r = DRead → (len chunk <= bufSize r)%Z →
      step connId r (mk_relay (DSend chunk) (bufSize r) (countFullRead r) (up r) (chErr r) (main r)
                       (from_target r ++ chunk) (to_client r) (from_client r) (to_target r))
  | step_target_fails r err : down r = DRead → step connId r (set_down (DFail err) r)
  | step_report_down r err : down r = DFail err →
      step connId r (set_chErr (chErr r ++ [err]) (set_down DExit r))
  | step_read_client r m :
      up r = URead →
      step connId r (mk_relay (down r) (bufSize r) (countFullRead r) (dispatch m) (chErr r) (main r)
                       (from_target r) (to_client r) (from_client r ++ [m]) (to_target r))
  | step_client_fails r err : up r = URead → step connId r (set_up (UFail err) r)
  | step_report_up r err : up r = UFail err →
      step connId r (set_chErr (chErr r ++ [err]) (set_up UExit r))
  | step_recv_down r chunk :
      main r = MSelect → down r = DSend chunk →
      step connId r
        (let '(b, c) := adjust_buffer (len chunk) (bufSize r) (countFullRead r) in
         mk_relay DRead b c (up r) (chErr r) (MWriteClient chunk)
           (from_target r) (to_client r) (from_client r) (to_target r))
  | step_recv_data r m1 :
      main r = MSelect → up r = USendDat m1 →
      step connId r (set_main (MWriteTarget (data_Data m1)) (set_up URead r))
  | step_recv_state r m1 :
      main r = MSelect → up r = USendConn m1 →
      step connId r (set_main (if decide (state_State m1 = lit "close") then MReturn None else MSelect)
                       (set_up URead r))
  | step_recv_err r err errs :
      main r = MSelect → chErr r = err :: errs →
      step connId r (set_main (MReturn (Some err)) (set_chErr errs r))
  | step_cancel r : main r = MSelect → step connId r (set_main (MReturn None) r)
  | step_write_client r dat :
      main r = MWriteClient dat →
      step connId r (mk_relay (down r) (bufSize r) (countFullRead r) (up r) (chErr r) MSelect
                       (from_target r) (to_client r ++ [Data (mk_Data 0 0 connId dat)])
                       (from_client r) (to_target r))
  | step_write_target r dat :
      main r = MWriteTarget dat →
      step connId r (mk_relay (down r) (bufSize r) (countFullRead r) (up r) (chErr r) MSelect
                       (from_target r) (to_client r) (from_client r) (to_target r ++ dat))
  | step_write_fails r dat err :
      main r = MWriteClient dat ∨ main r = MWriteTarget dat →
      step connId r (set_main (MReturn (Some err)) r).

Definition start : relay := mk_relay DRead initBufSize 0 URead [] MSelect [] [] [] [].

(** ** What is dialled *)

(** A printed legitimate address and a port. *)
Definition legit_target (a : bytes) : Prop :=
  ∃ ip port, Utils.IsLegitProxiableIP (Some ip) = true ∧ a = IP_String ip ++ lit ":" ++ port.

Lemma first_v4_length (ips : list bytes) (ip : bytes) :
  first_v4 ips = Some ip → length ip = 4 ∧ ip ∈ ips.
Proof.
  unfold first_v4. intros Hf. apply find_some in Hf as [Hin Hl].
  split; [by apply bool_decide_eq_true in Hl|by apply list_elem_of_In].
Qed.

Lemma resolve_host_legit (LookupIP : bytes → outcome (list bytes)) (now : Z) (host h : bytes) (t t' : cache) :
  resolve_host LookupIP now host t = (Ok h, t') →
  ∃ ip, Utils.IsLegitProxiableIP (Some ip) = true ∧ h = IP_String ip ∧
        (ParseIP host = Some ip ∨ ParseIP host = None ∧ length ip = 4).
Proof.
  unfold resolve_host. destruct (ParseIP host) as [ip|].
  - destruct (Utils.IsLegitProxiableIP (Some ip)) eqn:E; [|done]. intros [= <- _]. eauto.
  - intros (ips & t1 & _ & Hs)%bind_ok_inv. case_decide; [done|].
    destruct (first_v4 ips) as [ip|] eqn:Ef; [|done].
    destruct (Utils.IsLegitProxiableIP (Some ip)) eqn:E; [|done].
    apply first_v4_length in Ef as [Hl _]. injection Hs as <- _. cbn. eauto 10.
Qed.

Lemma resolve_target_legit (LookupIP : bytes → outcome (list bytes)) (now : Z) (address a : bytes) (t t' : cache) :
  resolve_target LookupIP now address t = (Ok a, t') → legit_target a.
Proof.
  unfold resolve_target. intros ([host portStr] & t1 & _ & Hs)%bind_ok_inv.
  apply bind_ok_inv in Hs as (h & t2 & Hh & Hs). injection Hs as <- _.
  destruct (resolve_host_legit _ _ _ _ _ _ Hh) as (ip & Hip & -> & _). by exists ip, portStr.
Qed.

(** ** A session *)
Section session_spec.
Context {C T : Type} `{TwoWay T}.
Context (LookupIP : bytes → outcome (list bytes)) (Dial : bytes → bytes → outcome C)
  (now : Z) (error_text : error → bytes).

(** Everything fits the codec. *)
Definition sendable (m : Message) : bool := S1.sizes_ok m (λ _, Byte.x00).
Definition no_ping (m : Message) : bool := match m with Ping _ => false | _ => true end.

Lemma wire_no_ping (m : Message) (g g' : rng) : no_ping m = true → S1.wire m g = S1.wire m g'.
Proof. by destruct m. Qed.

(** The bytes of a sequence of messages without pings. *)
Definition wires (ms : list Message) : bytes := concat (map (λ m, S1.wire m (λ _, Byte.x00)) ms).

(** The connection takes a message of this size. *)
Definition takes (s : T) (m : Message) : Prop := write_pre s (length (S1.wire m (λ _, Byte.x00))).

Lemma takes_emitted (s s' : T) (d : bytes) (m : Message) : emitted s s' d → takes s m → takes s' m.
Proof. intros He Ht. by eapply write_pre_emitted. Qed.

Lemma read_message_run (m : Message) (s : T) (g : rng) (t : cache) (rest : bytes) :
  message_ok m = true → sendable m = true → no_ping m = true →
  delivers s (S1.wire m (λ _, Byte.x00) ++ rest) →
  ∃ s', read_message (s, g, t) = (Ok m, (s', g, t)) ∧ emitted s s' [] ∧
        delivers s' rest ∧ budget s' < budget s.
Proof.
  intros Hok Hs Hnp Hd. destruct (S1.Read_wire m _ s rest Hok Hs Hd) as (s' & Hr & Hd').
  exists s'. split; [by apply run_fst, run_fst|]. split; [|split; [done|by eapply S1.Read_budget]].
  pose proof (S1.silent_Read s) as Hq. by rewrite Hr in Hq.
Qed.

Lemma send_run (m : Message) (s : T) (g : rng) (t : cache) :
  takes s m → no_ping m = true →
  ∃ s' g', send m (s, g, t) = (Ok tt, (s', g', t)) ∧ emitted s s' (S1.wire m (λ _, Byte.x00)) ∧
           same_input s s'.
Proof.
  intros Hp Hnp. destruct (S1.Write_wire m s g) as (n & s' & g' & Hw & He).
  { unfold takes in Hp. rewrite (wire_no_ping m _ g Hnp) in Hp. unfold S1.wire in Hp. by rewrite S1.length_frame in Hp. }
  exists s', g'. rewrite (wire_no_ping m _ g Hnp). split; [|split; [done|]].
  2: { pose proof (S1.Write_quiet m (s, g)) as Hq. by rewrite Hw in Hq. }
  unfold send. rewrite (bind_ok _ _ _ (s', g', t) n); [done|]. by apply run_fst.
Qed.

Definition request_ok (m : Message) : bool := message_ok m && sendable m && no_ping m.

(** One message in, one message out. *)
Lemma reply_run (m reply : Message) (s : T) (g : rng) (t : cache) (rest : bytes) :
  request_ok m = true → no_ping reply = true → takes s reply → delivers s (S1.wire m (λ _, Byte.x00) ++ rest) →
  ∃ s1 s2 g2, read_message (s, g, t) = (Ok m, (s1, g, t)) ∧
    (∀ t', send reply (s1, g, t') = (Ok tt, (s2, g2, t'))) ∧
    emitted s s2 (S1.wire reply (λ _, Byte.x00)) ∧ delivers s2 rest ∧ budget s2 < budget s.
Proof.
  intros Hm Hnp Hp Hd. unfold request_ok in Hm. rewrite !andb_true_iff in Hm. destruct Hm as [[Hm Hs] Hpm].
  destruct (read_message_run m s g t rest Hm Hs Hpm Hd) as (s1 & R1 & E1 & D1 & B1).
  destruct (send_run reply s1 g t (takes_emitted _ _ _ _ E1 Hp) Hnp) as (s2 & g2 & W2 & E2 & K2 & B2).
  exists s1, s2, g2. split; [done|]. split; [|split; [|split; [by apply K2|lia]]].
  - intros t'. revert W2. unfold send, on_fst, mbind, M_bind. cbn.
    destruct (S1.Write reply (s1, g)) as [[n|e| |] [s3 g3]]; cbn; try done. by intros [= -> ->].
  - change (S1.wire reply (λ _, Byte.x00)) with ([] ++ S1.wire reply (λ _, Byte.x00)). by eapply emitted_app.
Qed.

Lemma dns_reply_no_ping (m : MessageRequestDNS) : no_ping (dns_reply LookupIP error_text m) = true.
Proof. unfold dns_reply. by destruct (LookupIP _). Qed.

(** DNS requests are answered one by one, in order, each under its own id. *)
Lemma handle_dns_run (reqs : list MessageRequestDNS) (fuel : nat) (s : T) (g : rng) (t : cache)
    (rest : bytes) :
  forallb (λ m, request_ok (RequestDNS m)) reqs = true →
  (∀ m, m ∈ reqs → returns (LookupIP (rdns_DomainName m)) ∧ takes s (dns_reply LookupIP error_text m)) →
  delivers s (wires (map RequestDNS reqs) ++ rest) → budget s < fuel →
  ∃ fuel' s' g',
    handle_loop LookupIP Dial now error_text fuel (s, g, t)
    = handle_loop LookupIP Dial now error_text fuel' (s', g', t) ∧
    emitted s s' (wires (map (dns_reply LookupIP error_text) reqs)) ∧
    delivers s' rest ∧ budget s' < fuel'.
Proof.
  revert fuel s g. induction reqs as [|m reqs IH]; intros fuel s g Hok Hret Hd Hf.
  - exists fuel, s, g. split; [done|]. split; [apply emitted_nil|done].
  - cbn [forallb map] in *. apply andb_true_iff in Hok as [Hm Hreqs].
    unfold wires in Hd. cbn [map concat] in Hd. rewrite <- app_assoc in Hd.
    destruct (Hret m ltac:(left)) as [Hlk Hp].
    destruct (reply_run (RequestDNS m) _ s g t _ Hm (dns_reply_no_ping m) Hp Hd) as (s1 & s2 & g2 & R1 & W2 & E2 & D2 & B2).
    destruct fuel as [|fuel]; [lia|].
    destruct (IH fuel s2 g2 Hreqs) as (fuel' & s3 & g3 & Hl & E3 & D3 & B3); [|exact D2|lia|].
    { intros m' Hm'. destruct (Hret m' ltac:(by right)) as [Hl Ht]. split; [done|]. by eapply takes_emitted. }
    exists fuel', s3, g3. split; [|split; [by eapply emitted_app|done]].
    rewrite <- Hl. cbn [handle_loop]. run R1. cbv beta iota.
    assert (Hdns : handleDNS LookupIP error_text m (s1, g, t) = (Ok tt, (s2, g2, t))).
    { unfold handleDNS. destruct (LookupIP (rdns_DomainName m)) eqn:El; try done.
      all: unfold mbind, M_bind, lift; exact (W2 t). }
    by run Hdns.
Qed.

(** And the dial request that ends them. *)
Lemma handle_run (reqs : list MessageRequestDNS) (d : MessageRequestDial)
    (s : T) (g : rng) (t t' : cache) (rest target : bytes) (conn : C) :
  forallb (λ m, request_ok (RequestDNS m)) reqs = true → request_ok (RequestDial d) = true →
  (∀ m, m ∈ reqs → returns (LookupIP (rdns_DomainName m)) ∧ takes s (dns_reply LookupIP error_text m)) →
  takes s (open_reply (dial_ConnectionId d)) →
  resolve_target LookupIP now (dial_Address d) t = (Ok target, t') →
  Dial (dial_Network d) target = Ok conn →
  delivers s (wires (map RequestDNS reqs ++ [RequestDial d]) ++ rest) →
  ∃ s' g', handle LookupIP Dial now error_text (s, g, t) = (Ok conn, (s', g', t')) ∧
    emitted s s' (wires (map (dns_reply LookupIP error_text) reqs ++ [open_reply (dial_ConnectionId d)])) ∧
    delivers s' rest.
Proof.
  intros Hreqs Hdial Hret Hp Hres Hconn Hd.
  unfold wires in Hd. rewrite map_app, concat_app in Hd. cbn [map concat] in Hd.
  rewrite app_nil_r, <- app_assoc in Hd.
  destruct (handle_dns_run reqs (S (budget s)) s g t _ Hreqs Hret Hd) as (fuel & s1 & g1 & Hl & E1 & D1 & B1); [lia|].
  destruct (reply_run (RequestDial d) (open_reply (dial_ConnectionId d)) s1 g1 t _ Hdial eq_refl
              (takes_emitted _ _ _ _ E1 Hp) D1) as (s2 & s3 & g3 & R2 & W3 & E3 & D3 & _).
  exists s3, g3. split; [|split; [|done]].
  - unfold handle. cbn [fst]. rewrite Hl.
    destruct fuel as [|fuel]; [lia|]. cbn [handle_loop]. run R2. cbv beta iota.
    unfold handleDialConn. rewrite (bind_ok _ _ _ (s2, g1, t') target)
      by (by apply run_snd). rewrite Hconn. by run (W3 t').
  - unfold wires. rewrite map_app, concat_app. cbn [map concat]. rewrite app_nil_r.
    by eapply emitted_app.
Qed.
End session_spec.

(** ** The relay keeps both byte streams *)

Definition pending_down (r : relay) : bytes :=
  (match main r with MWriteClient d => d | _ => [] end) ++
  (match down r with DSend d => d | _ => [] end).

Definition pending_up (r : relay) : bytes :=
  (match main r with MWriteTarget d => d | _ => [] end) ++
  (match up r with USendDat m => data_Data m | _ => [] end).

(** While the relay runs, what it was given equals what it has passed on and
    what it still holds; after it has returned, what it passed on is a prefix. *)
Definition streams (r : relay) : Prop :=
  match main r with
  | MReturn _ =>
      concat (map data_of (to_client r)) `prefix_of` from_target r ∧
      to_target r `prefix_of` concat (map data_of (from_client r))
  | _ =>
      concat (map data_of (to_client r)) ++ pending_down r = from_target r ∧
      to_target r ++ pending_up r = concat (map data_of (from_client r))
  end.

Definition faithful (connId : bytes) (r : relay) : Prop :=
  Forall (λ m, ∃ d, m = Data (mk_Data 0 0 connId d)) (to_client r) ∧
  (∃ k, (0 ≤ k ≤ 7)%Z ∧ bufSize r = (initBufSize * 2 ^ k)%Z) ∧
  streams r.

Lemma adjust_buffer_range (size b c : Z) (k : Z) :
  (0 ≤ k ≤ 7)%Z → b = (initBufSize * 2 ^ k)%Z →
  ∃ k', (0 ≤ k' ≤ 7)%Z ∧ (adjust_buffer size b c).1 = (initBufSize * 2 ^ k')%Z.
Proof.
  intros Hk Hb. unfold adjust_buffer.
  destruct (size =? b)%Z; [|by exists k]. destruct (10 <=? c + 1)%Z; [|by exists k].
  destruct (Z.ltb_spec b maxBufSize) as [Hlt|]; [|by exists k]. cbn [andb fst].
  exists (k + 1)%Z. rewrite Z.pow_add_r by lia. split; [|lia].
  assert (k ≠ 7)%Z; [|lia]. intros ->. unfold initBufSize, maxBufSize in *. lia.
Qed.

Lemma concat_data_snoc (ms : list Message) (m : Message) :
  concat (map data_of (ms ++ [m])) = concat (map data_of ms) ++ data_of m.
Proof. rewrite map_app, concat_app. cbn. by rewrite app_nil_r. Qed.

Lemma streams_return (r : relay) (err : option error) : streams r → streams (set_main (MReturn err) r).
Proof.
  unfold streams. cbn. destruct (main r); intros [Hd Hu]; try done;
    (split; [rewrite <- Hd|rewrite <- Hu]; by apply prefix_app_r).
Qed.

Lemma dispatch_pending (m : Message) :
  match dispatch m with USendDat m1 => data_Data m1 | _ => [] end = data_of m.
Proof. by destruct m. Qed.

Lemma step_faithful (connId : bytes) (r r' : relay) :
  step connId r r' → faithful connId r → faithful connId r'.
Proof.
  intros Hst (Hms & (k & Hk & Hb) & Hs). unfold faithful.
  destruct Hst as [r chunk Hd Hl|r err Hd|r err Hd|r m Hu|r err Hu|r err Hu|r chunk Hm Hd
    |r m1 Hm Hu|r m1 Hm Hu|r err errs Hm Hc|r Hm|r dat Hm|r dat Hm|r dat err Hm].
  - split; [done|]. split; [by exists k|]. revert Hs. unfold streams, pending_down, pending_up.
    rewrite Hd. cbn. destruct (main r); intros [Hs Hu]; split; try done;
      try (by rewrite <- Hs, ?app_nil_r, <- ?app_assoc); by apply prefix_app_r.
  - split; [done|]. split; [by exists k|]. revert Hs. unfold streams, pending_down, pending_up.
    rewrite Hd. done.
  - split; [done|]. split; [by exists k|]. revert Hs. unfold streams, pending_down, pending_up.
    rewrite Hd. done.
  - split; [done|]. split; [by exists k|]. revert Hs. unfold streams, pending_down, pending_up.
    rewrite Hu. cbn. rewrite concat_data_snoc, dispatch_pending.
    destruct (main r); intros [Hs Hu']; split; try done;
      try (by rewrite <- Hu', ?app_nil_r, <- ?app_assoc); by apply prefix_app_r.
  - split; [done|]. split; [by exists k|]. revert Hs. unfold streams, pending_down, pending_up.
    rewrite Hu. done.
  - split; [done|]. split; [by exists k|]. revert Hs. unfold streams, pending_down, pending_up.
    rewrite Hu. done.
  - destruct (adjust_buffer_range (len chunk) (bufSize r) (countFullRead r) k Hk Hb) as (k' & Hk' & Hb').
    destruct (adjust_buffer _ _ _) as [b c]. cbn in *. split; [done|]. split; [by exists k'|].
    revert Hs. unfold streams, pending_down, pending_up. rewrite Hm, Hd. cbn. by rewrite app_nil_r.
  - split; [done|]. split; [by exists k|]. revert Hs. unfold streams, pending_down, pending_up.
    rewrite Hm, Hu. cbn. by rewrite app_nil_r.
  - split; [done|]. split; [by exists k|].
    assert (Hs' : streams (set_main MSelect (set_up URead r))).
    { revert Hs. unfold streams, pending_down, pending_up. by rewrite Hm, Hu. }
    case_decide; [|exact Hs']. exact (streams_return _ None Hs').
  - split; [done|]. split; [by exists k|]. apply (streams_return _ (Some err)). exact Hs.
  - split; [done|]. split; [by exists k|]. by apply streams_return.
  - split; [apply Forall_app; split; [done|apply Forall_singleton; by eexists]|]. split; [by exists k|].
    revert Hs. unfold streams, pending_down, pending_up. rewrite Hm. cbn.
    by rewrite concat_data_snoc, <- app_assoc.
  - split; [done|]. split; [by exists k|]. revert Hs. unfold streams, pending_down, pending_up.
    rewrite Hm. cbn. by rewrite <- app_assoc.
  - split; [done|]. split; [by exists k|]. by apply streams_return.
Qed.

Lemma start_faithful (connId : bytes) : faithful connId start.
Proof.
  split; [constructor|]. split; [|done]. exists 0%Z. split; [lia|]. done.
Qed.

(** ** Properties *)

(** C23: the tunnel's server never dials an address outside the legitimate
    ones: whatever name or address the client asks for, and whatever the
    resolver and the shared DNS cache say, [Dial] is only ever called with a
    printed legitimate IP address and a port (so its answers anywhere else do
    not matter). *)
Theorem tunnel_dials_legit {C T} `{Reader T} `{Writer T} (LookupIP : bytes → outcome (list bytes))
    (Dial Dial' : bytes → bytes → outcome C) (now : Z) (error_text : error → bytes)
    (m1 : MessageRequestDial) (s : T * rng * cache) :
  (∀ network a, legit_target a → Dial network a = Dial' network a) →
  handleDialConn LookupIP Dial now error_text m1 s = handleDialConn LookupIP Dial' now error_text m1 s.
Proof.
  intros Hd. unfold handleDialConn, mbind, M_bind, on_snd.
  destruct (resolve_target LookupIP now (dial_Address m1) s.2) as [[a|e| |] t'] eqn:E; try done.
  by rewrite (Hd _ a (resolve_target_legit _ _ _ _ _ _ E)).
Qed.

Definition sample_lookup (host : bytes) : outcome (list bytes) :=
  if bool_decide (host = lit "example.com") then Ok [[byte_of 93; byte_of 184; byte_of 216; byte_of 34]]
  else Ok [[byte_of 127; Byte.x00; Byte.x00; byte_of 1]].

Lemma tunnel_dials_legit_witness :
  handleDialConn sample_lookup (λ _ a, if bool_decide (a = lit "localhost") then Ok tt else Err OpError)
    0 (λ _, []) (mk_RequestDial 1 (lit "tcp") (lit "localhost:22") (lit "c"))
    (Duplex.mk_duplex (Conn.mk_conn []) (Buf.mk_buffer []), F1.sample_bytes, dnsCache)
  = handleDialConn sample_lookup (λ _ _, Err OpError)
    0 (λ _, []) (mk_RequestDial 1 (lit "tcp") (lit "localhost:22") (lit "c"))
    (Duplex.mk_duplex (Conn.mk_conn []) (Buf.mk_buffer []), F1.sample_bytes, dnsCache).
Proof.
  apply (tunnel_dials_legit sample_lookup
    (λ _ a, if bool_decide (a = lit "localhost") then Ok tt else Err OpError) (λ _ _, Err OpError)).
  intros network a (ip & port & _ & ->). rewrite bool_decide_eq_false_2; [done|].
  intros E. assert (Hin : Byte.x3a ∈ lit "localhost").
  { rewrite <- E. apply elem_of_app. right. by left. }
  refine (bool_decide_unpack (¬ _) _ Hin). vm_compute. exact I.
Defined.

(** C21: a tunnel session: to a client that sends any number of DNS requests
    and then a dial request for a legitimate target, the server answers every
    DNS request in order under the request's own id, dials the target, and
    announces the connection as open under the client's connection id; it
    needs no more reads than the connection allows (no fuel runs out). *)
Theorem tunnel_session {C T} `{TwoWay T}
    (LookupIP : bytes → outcome (list bytes)) (Dial : bytes → bytes → outcome C) (now : Z)
    (error_text : error → bytes) (reqs : list MessageRequestDNS) (d : MessageRequestDial)
    (s : T) (g : rng) (t t' : cache) (rest target : bytes) (conn : C) :
  forallb (λ m, request_ok (RequestDNS m)) reqs = true → request_ok (RequestDial d) = true →
  (∀ m, m ∈ reqs → returns (LookupIP (rdns_DomainName m)) ∧ takes s (dns_reply LookupIP error_text m)) →
  takes s (open_reply (dial_ConnectionId d)) →
  resolve_target LookupIP now (dial_Address d) t = (Ok target, t') →
  Dial (dial_Network d) target = Ok conn →
  delivers s (wires (map RequestDNS reqs ++ [RequestDial d]) ++ rest) →
  ∃ s' g', handle LookupIP Dial now error_text (s, g, t) = (Ok conn, (s', g', t')) ∧
    emitted s s' (wires (map (dns_reply LookupIP error_text) reqs ++ [open_reply (dial_ConnectionId d)])) ∧
    delivers s' rest.
Proof. apply handle_run. Qed.

Lemma tunnel_session_witness :
  let s := Duplex.mk_duplex
             (Conn.mk_conn [wires [RequestDNS (mk_RequestDNS 7 (lit "ip") (lit "example.com"));
                                   RequestDial (mk_RequestDial 0 (lit "tcp") (lit "example.com:80") (lit "c"))]])
             (Buf.mk_buffer []) in
  ∃ s' g', handle sample_lookup (λ _ a, if bool_decide (a = lit "93.184.216.34:80") then Ok 5 else Err OpError)
      0 (λ _, []) (s, F1.sample_bytes, dnsCache)
    = (Ok 5, (s', g', (resolve_target sample_lookup 0 (lit "example.com:80") dnsCache).2)) ∧
    emitted s s' (wires [ResultDNS (mk_ResultDNS 0 7 [[byte_of 93; byte_of 184; byte_of 216; byte_of 34]] []);
                         open_reply (lit "c")]) ∧
    delivers s' [].
Proof.
  apply (tunnel_session sample_lookup
           (λ _ a, if bool_decide (a = lit "93.184.216.34:80") then Ok 5 else Err OpError) 0 (λ _, [])
           [mk_RequestDNS 7 (lit "ip") (lit "example.com")]
           (mk_RequestDial 0 (lit "tcp") (lit "example.com:80") (lit "c")) _ _ _ _ [] (lit "93.184.216.34:80")).
  - vm_compute. reflexivity.
  - vm_compute. reflexivity.
  - intros m _. split; [|exact I]. unfold sample_lookup. by destruct (bool_decide _).
  - exact I.
  - vm_compute. reflexivity.
  - vm_compute. reflexivity.
  - vm_compute. reflexivity.
Defined.

(** C24: the relay is faithful in every interleaving of its goroutines: the
    data messages sent to the client carry the client's connection id and,
    together with what is in flight, exactly the bytes read from the target,
    in order; likewise the other way; and the read buffer stays between 64 KiB
    and 8 MiB. *)
Theorem relay_faithful (connId : bytes) (r : relay) :
  rtc (step connId) start r → faithful connId r.
Proof.
  intros Hr. by apply (rtc_invariant (step connId) _ (step_faithful connId) start), start_faithful.
Qed.

Lemma relay_faithful_witness :
  ∃ r, rtc (step (lit "c")) start r ∧ to_client r = [Data (mk_Data 0 0 (lit "c") (lit "abc"))] ∧
       faithful (lit "c") r.
Proof.
  eexists. split; [|split; [|apply (relay_faithful (lit "c"))]].
  - eapply rtc_l; [apply (step_read_target _ _ (lit "abc")); [reflexivity|vm_compute; discriminate]|].
    eapply rtc_l; [apply (step_recv_down _ _ (lit "abc")); reflexivity|].
    eapply rtc_l; [apply (step_write_client _ _ (lit "abc")); reflexivity|]. apply rtc_refl.
  - reflexivity.
  - eapply rtc_l; [apply (step_read_target _ _ (lit "abc")); [reflexivity|vm_compute; discriminate]|].
    eapply rtc_l; [apply (step_recv_down _ _ (lit "abc")); reflexivity|].
    eapply rtc_l; [apply (step_write_client _ _ (lit "abc")); reflexivity|]. apply rtc_refl.
Defined.
End Tunnel.
