(* ===== verification/Backend.v ===== *)
(** Package [socks/backend]: the client's end of a tunnel
    (src/socks/backend/backend_secure.go, virtual_conn.go): request ids,
    the routing of received messages, and the virtual connection a dial
    returns, with its goroutines. *)
From S2P Require Import Prelude Framing Message Tunnel.

Module Backend.
(** ** Request ids *)

(** The package's [seedNsReqId]; the result is also the new seed. *)
Definition nextNsReqId (seedNsReqId : Z) : Z :=
  let seed := if (Z.shiftl 1 15 <? seedNsReqId)%Z then 0%Z else seedNsReqId in (seed + 1)%Z.

Definition nextMsgId (msgId : Z) : Z :=
  let msgId := (msgId + 1)%Z in if (Z.shiftl 1 15 <=? msgId)%Z then 1%Z else msgId.

(** The id after [n] further calls. *)
Lemma nextNsReqId_iter (n : nat) (seed : Z) :
  (0 ≤ seed ≤ 32769)%Z →
  Nat.iter (S n) nextNsReqId seed = ((seed + Z.of_nat n) mod 32769 + 1)%Z.
Proof.
  intros Hs. induction n as [|n IH].
  - change (Nat.iter 1 nextNsReqId seed) with (nextNsReqId seed). unfold nextNsReqId. change (Z.shiftl 1 15) with 32768%Z.
    destruct (Z.ltb_spec 32768 seed); zdm.
  - change (Nat.iter (S (S n)) nextNsReqId seed) with (nextNsReqId (Nat.iter (S n) nextNsReqId seed)).
    rewrite IH. unfold nextNsReqId. change (Z.shiftl 1 15) with 32768%Z.
    replace (seed + Z.of_nat (S n))%Z with ((seed + Z.of_nat n) + 1)%Z by lia.
    generalize (seed + Z.of_nat n)%Z. intros z. destruct (Z.ltb_spec 32768 (z mod 32769 + 1)); zdm.
Qed.

(** ** Routing *)

(** [mapWait]: the ids a resolver waits for; [mapWaitConn]: the connections. *)
Record uplinkSecure := mk_uplink {
  msgId : Z;
  mapWait : gset Z;
  mapWaitConn : gset bytes;
}.

(** Where the worker delivers a message: to the handler waiting for the id it
    acknowledges, to its connection's handler, or nowhere. *)
Inductive delivery := ToWaiter (ack : Z) (m : Message) | ToConn (connId : bytes) (m : Message) | Dropped.

(** [LoadAndDelete]: a waiter is used once. *)
Definition dispatchReply (m : Message) (l : uplinkSecure) : delivery * uplinkSecure :=
  let ack := AckMessageId m in
  if decide (ack ∈ mapWait l)
  then (ToWaiter ack m, mk_uplink (msgId l) (mapWait l ∖ {[ack]}) (mapWaitConn l))
  else (Dropped, l).

Definition dispatchConnMsg (m : Message) (l : uplinkSecure) : delivery :=
  let connId := match m with
                | ConnectionState m1 => state_ConnectionId m1
                | Data m1 => data_ConnectionId m1
                | _ => []
                end in
  if decide (0 < length connId) then
    if decide (connId ∈ mapWaitConn l) then ToConn connId m else Dropped
  else Dropped.

(** One turn of [worker] with a message. *)
Definition worker_step (m : Message) (l : uplinkSecure) : delivery * uplinkSecure :=
  if (0 <? AckMessageId m)%Z then dispatchReply m l else (dispatchConnMsg m l, l).

(** The request [LookupIP] sends, and its registration of the waiter. *)
Definition dns_request (nsReqId : Z) (network dn : bytes) : MessageRequestDNS :=
  mk_RequestDNS nsReqId network dn.
Definition register_waiter (nsReqId : Z) (l : uplinkSecure) : uplinkSecure :=
  mk_uplink (msgId l) (mapWait l ∪ {[nsReqId]}) (mapWaitConn l).

(** The addresses a result carries. *)
Definition result_addresses (m : Message) : option (list bytes) :=
  match m with ResultDNS rs => Some (sdns_Addresses rs) | _ => None end.

(** The request [Dial] sends. *)
Definition dial_request (connId network addr : bytes) : MessageRequestDial :=
  mk_RequestDial 0 network addr connId.

(** ** [virtualConn]'s left-over buffer *)
Record vbuf := mk_vbuf { bufRead : bytes; lenBufRead : nat }.

Definition appendBuf (dat : bytes) (c : vbuf) : vbuf :=
  let sizeAfter := lenBufRead c + length dat in
  if decide (length (bufRead c) < sizeAfter) then
    let buf := make_bytes sizeAfter in
    let buf := copy_at 0 (take (lenBufRead c) (bufRead c)) buf in
    let buf := copy_at (lenBufRead c) dat buf in
    mk_vbuf buf sizeAfter
  else mk_vbuf (copy_at (lenBufRead c) dat (bufRead c)) sizeAfter.

Definition take_buffered (n : nat) (c : vbuf) : bytes * vbuf :=
  let size := if decide (lenBufRead c < n) then lenBufRead c else n in
  (take size (bufRead c),
   mk_vbuf (copy_at 0 (drop size (bufRead c)) (bufRead c)) (lenBufRead c - size)).

Definition left (c : vbuf) : bytes := take (lenBufRead c) (bufRead c).
Definition vsound (c : vbuf) : Prop := lenBufRead c ≤ length (bufRead c).

Lemma appendBuf_left (dat : bytes) (c : vbuf) :
  vsound c → vsound (appendBuf dat c) ∧ left (appendBuf dat c) = left c ++ dat.
Proof.
  unfold vsound, left, appendBuf. intros Hs. case_decide; cbn [bufRead lenBufRead].
  - rewrite left_over_grow by done. rewrite length_app, length_take. split; [lia|].
    apply take_ge. rewrite length_app, length_take. lia.
  - rewrite length_copy_at by lia. split; [lia|]. by rewrite take_copy_at_ext by lia.
Qed.

Lemma take_buffered_left (n : nat) (c : vbuf) :
  vsound c → vsound (take_buffered n c).2 ∧
  (take_buffered n c).1 ++ left (take_buffered n c).2 = left c.
Proof.
  unfold vsound, left, take_buffered. intros Hs. set (size := if decide _ then _ else _).
  assert (Hsz : size ≤ lenBufRead c) by (unfold size; case_decide; lia).
  cbn [fst snd bufRead lenBufRead]. rewrite length_copy_at by lia. split; [lia|].
  rewrite left_over_shift by lia. rewrite <- (take_drop size (take (lenBufRead c) (bufRead c))) at 2.
  f_equal. rewrite take_take. f_equal. lia.
Qed.

(** ** A virtual connection and its goroutines *)

(** The worker: reading, or blocked on the connection's channel [chState] or
    [chDown], or gone; the dialling call; a read of [virtualConn]; the
    goroutine that sends; a write and a close of [virtualConn] (the channels
    are unbuffered).  A chunk on the way to [virtualConn.Read] is never nil: it
    is the [Data] of a message, which the s1 reader allocates with [make], so
    the nil test of [Read], and its [io.EOF], are never reached; an empty chunk
    makes [Read] return no bytes and no error. *)
Inductive worker_at := WRead | WState (st : bytes) | WData (d : bytes) | WExit.
Inductive dial_at := DWait | DOpen | DFailed.
Inductive read_at := RIdle | RWait (n : nat).
Inductive sender_at := GNone | GRun | GWrite (d : bytes) | GExit.
Inductive write_at := VIdle | VSend (d : bytes).
Inductive close_at := CIdle | CSend | CDone.

Record link := mk_link {
  worker : worker_at;
  dialer : dial_at;
  reader : read_at;
  sender : sender_at;
  writing : write_at;
  closing : close_at;
  registered : bool;
  closed : bool;
  buf : vbuf;
  received : bytes;
  delivered : bytes;
  accepted : bytes;
  sent : list bytes;
}.

Definition dialing : link :=
  mk_link WRead DWait RIdle GNone VIdle CIdle true false (mk_vbuf (make_bytes (Z.to_nat (1024 * 16))) 0)
    [] [] [] [].

Definition set_worker w l := mk_link w (dialer l) (reader l) (sender l) (writing l) (closing l)
  (registered l) (closed l) (buf l) (received l) (delivered l) (accepted l) (sent l).
Definition set_reader r l := mk_link (worker l) (dialer l) r (sender l) (writing l) (closing l)
  (registered l) (closed l) (buf l) (received l) (delivered l) (accepted l) (sent l).
Definition set_closing c l := mk_link (worker l) (dialer l) (reader l) (sender l) (writing l) c
  (registered l) (closed l) (buf l) (received l) (delivered l) (accepted l) (sent l).
Definition set_dialer d g l := mk_link (worker l) d (reader l) g (writing l) (closing l)
  (registered l) (closed l) (buf l) (received l) (delivered l) (accepted l) (sent l).

(** The sender's deferred calls: the handler is unregistered and the
    connection closed locally. *)
Definition sender_exit l := mk_link (worker l) (dialer l) (reader l) GExit (writing l) (closing l)
  false true (buf l) (received l) (delivered l) (accepted l) (sent l).

(** A data message handed to the connection's handler. *)
Definition recv_data d l := mk_link (WData d) (dialer l) (reader l) (sender l) (writing l) (closing l)
  (registered l) (closed l) (buf l) (received l ++ d) (delivered l) (accepted l) (sent l).

(** A read served from the left-over. *)
Definition serve_left n l :=
  let '(d, c) := take_buffered n (buf l) in
  mk_link (worker l) (dialer l) (reader l) (sender l) (writing l) (closing l)
    (registered l) (closed l) c (received l) (delivered l ++ d) (accepted l) (sent l).

(** A waiting read receives a chunk from the worker. *)
Definition serve_chunk n d l :=
  mk_link WRead (dialer l) RIdle (sender l) (writing l) (closing l) (registered l) (closed l)
    (if decide (n < length d) then appendBuf (drop n d) (buf l) else buf l)
    (received l) (delivered l ++ take n d) (accepted l) (sent l).

Definition start_write d l := mk_link (worker l) (dialer l) (reader l) (sender l) (VSend d) (closing l)
  (registered l) (closed l) (buf l) (received l) (delivered l) (accepted l ++ d) (sent l).
Definition hand_over d l := mk_link (worker l) (dialer l) (reader l) (GWrite d) VIdle (closing l)
  (registered l) (closed l) (buf l) (received l) (delivered l) (accepted l) (sent l).
Definition send_done d l := mk_link (worker l) (dialer l) (reader l) GRun (writing l) (closing l)
  (registered l) (closed l) (buf l) (received l) (delivered l) (accepted l) (sent l ++ [d]).

Inductive step : link → link → Prop :=
  | recv_data_step l d : worker l = WRead → registered l = true → step l (recv_data d l)
  | recv_state_step l st : worker l = WRead → registered l = true → step l (set_worker (WState st) l)
  | recv_error_step l : worker l = WRead → step l (set_worker WExit l)
  | dial_state_step l st : dialer l = DWait → worker l = WState st →
      step l (set_worker WRead (if decide (st = lit "open") then set_dialer DOpen GRun l
                                else set_dialer DFailed GNone l))
  | dial_timeout_step l : dialer l = DWait → step l (set_dialer DFailed GNone l)
  | read_left_step l n : dialer l = DOpen → reader l = RIdle → 0 < lenBufRead (buf l) →
      step l (serve_left n l)
  | read_closed_step l : dialer l = DOpen → reader l = RIdle → lenBufRead (buf l) = 0 →
      closed l = true → step l l
  | read_wait_step l n : dialer l = DOpen → reader l = RIdle → lenBufRead (buf l) = 0 →
      closed l = false → step l (set_reader (RWait n) l)
  | read_chunk_step l n d : reader l = RWait n → worker l = WData d → step l (serve_chunk n d l)
  | write_step l d : dialer l = DOpen → writing l = VIdle → closed l = false → d ≠ [] →
      step l (start_write d l)
  | hand_over_step l d : writing l = VSend d → sender l = GRun → step l (hand_over d l)
  | send_step l d : sender l = GWrite d → step l (send_done d l)
  | send_fails_step l d : sender l = GWrite d → step l (sender_exit l)
  | close_step l : dialer l = DOpen → closing l = CIdle → step l (set_closing CSend l)
  | close_hand_step l : closing l = CSend → sender l = GRun →
      step l (set_closing CDone (sender_exit l)).

(** Nothing received is lost or reordered on the way to the reader, nothing
    written on the way to the tunnel, as long as the sender lives. *)
Definition ordered (l : link) : Prop :=
  vsound (buf l) ∧ (dialer l ≠ DOpen → sender l = GNone) ∧
  (∀ n, reader l = RWait n → lenBufRead (buf l) = 0) ∧
  delivered l ++ left (buf l) ++ (match worker l with WData d => d | _ => [] end) = received l ∧
  concat (sent l) `prefix_of` accepted l ∧
  (sender l ≠ GExit →
   concat (sent l) ++ (match sender l with GWrite d => d | _ => [] end) ++
   (match writing l with VSend d => d | _ => [] end) = accepted l).

Lemma step_ordered (l l' : link) : step l l' → ordered l → ordered l'.
Proof.
  intros Hst (Hv & Hg0 & Hw0 & Hr & Hp & Hs). unfold ordered.
  destruct Hst as [l d Hw _|l st Hw _|l Hw|l st Hd Hw|l Hd|l n Hop Hrd Hl|l|l n Hop Hrd Hl _|l n d Hrd Hw
    |l d Hop Hwr Hc Hne|l d Hwr Hg|l d Hg|l d Hg|l Hop Hc|l Hc Hg]; try (rewrite Hw in Hr);
    (split; [try done|]).
  - split; [done|]. split; [done|]. cbn. rewrite app_nil_r in Hr. by rewrite <- Hr, <- !app_assoc.
  - done.
  - done.
  - case_decide; done.
  - assert (Hn : sender l = GNone) by (apply Hg0; congruence). rewrite Hn in Hs. specialize (Hs ltac:(done)).
    case_decide; done.
  - assert (Hn : sender l = GNone) by (apply Hg0; congruence). rewrite Hn in Hs.
    do 4 (split; [done|]). intros _. by apply Hs.
  - unfold serve_left. pose proof (take_buffered_left n (buf l) Hv) as [Hv' _].
    by destruct (take_buffered n (buf l)).
  - unfold serve_left. pose proof (take_buffered_left n (buf l) Hv) as [_ Hb].
    destruct (take_buffered n (buf l)) as [d c]. cbn in *. split; [done|].
    split; [by intros m; rewrite Hrd|]. by rewrite <- Hr, <- Hb, <- !app_assoc.
  - done.
  - done.
  - unfold serve_chunk. cbn. case_decide; [by apply appendBuf_left|done].
  - unfold serve_chunk. cbn. split; [done|]. split; [done|]. split; [|done].
    assert (Hl : left (buf l) = []) by (unfold left; by rewrite (Hw0 n Hrd)). rewrite Hl in Hr.
    cbn [app] in Hr. rewrite <- Hr, app_nil_r, <- app_assoc. f_equal. case_decide.
    + destruct (appendBuf_left (drop n d) (buf l) Hv) as [_ ->]. rewrite Hl. apply take_drop.
    + rewrite Hl, app_nil_r, take_ge by lia. done.
  - split; [done|]. split; [done|]. split; [done|]. cbn. split; [by apply prefix_app_r|].
    intros He. rewrite <- (Hs He), Hwr, app_nil_r. by rewrite <- !app_assoc.
  - cbn. split; [intros Ho; by rewrite (Hg0 Ho) in Hg|]. split; [done|]. split; [done|]. split; [done|].
    intros _. rewrite <- Hs by (by rewrite Hg). rewrite Hg, Hwr. by rewrite app_nil_r.
  - cbn. split; [intros Ho; by rewrite (Hg0 Ho) in Hg|]. split; [done|]. split; [done|].
    rewrite <- Hs by (by rewrite Hg). rewrite Hg, concat_app. cbn. rewrite app_nil_r, <- app_assoc.
    split; [by eexists; rewrite <- !app_assoc|done].
  - cbn. split; [intros Ho; by rewrite (Hg0 Ho) in Hg|]. done.
  - done.
  - cbn. split; [intros Ho; by rewrite (Hg0 Ho) in Hg|]. done.
Qed.

Lemma dialing_ordered : ordered dialing.
Proof.
  unfold ordered, dialing, vsound. cbn [buf bufRead lenBufRead]. do 5 (split; [done || lia|]). done.
Qed.

(** ** The end of the connection *)

(** Remote end gone, everything delivered, the reader waiting. *)
Definition deserted (n : nat) (l : link) : Prop := worker l = WExit ∧ reader l = RWait n.

Lemma step_deserted (n : nat) (l l' : link) : step l l' → deserted n l → deserted n l'.
Proof.
  intros Hst [Hw Hr]. destruct Hst; try congruence; done.
Qed.

Lemma deserted_forever (n : nat) (l l' : link) : deserted n l → rtc step l l' → deserted n l'.
Proof. intros Hd Hr. by apply (rtc_invariant step _ (step_deserted n) l). Qed.

(** A close after the sender has gone. *)
Definition unclosable (l : link) : Prop := sender l = GExit ∧ closing l = CSend ∧ dialer l = DOpen.

Lemma step_unclosable (l l' : link) : step l l' → unclosable l → unclosable l'.
Proof.
  intros Hst (Hg & Hc & Hd). destruct Hst; try congruence; unfold unclosable; done.
Qed.

Lemma unclosable_forever (l l' : link) : unclosable l → rtc step l l' → unclosable l'.
Proof. intros Hd Hr. by apply (rtc_invariant step _ step_unclosable l). Qed.

(** ** Properties *)

(** C25: a virtual connection keeps both byte streams in every interleaving of
    its goroutines: what reads have returned, followed by the left-over and
    the chunk in flight, is exactly the data received for the connection, in
    order; the data messages sent are a prefix of what was written, and lag
    behind it only by what is in flight while the sender lives. *)
Theorem virtual_conn_ordered (l : link) : rtc step dialing l → ordered l.
Proof.
  intros Hr. by apply (rtc_invariant step _ step_ordered dialing), dialing_ordered.
Qed.

(** An opened connection that received and read a chunk. *)
Lemma virtual_conn_ordered_witness :
  ∃ l, rtc step dialing l ∧ delivered l = lit "ab" ∧ left (buf l) = lit "c" ∧ ordered l.
Proof.
  set (l1 := set_worker (WState (lit "open")) dialing).
  set (l2 := set_worker WRead (set_dialer DOpen GRun l1)).
  set (l3 := set_reader (RWait 2) l2).
  set (l4 := recv_data (lit "abc") l3).
  exists (serve_chunk 2 (lit "abc") l4).
  assert (Hr : rtc step dialing (serve_chunk 2 (lit "abc") l4)).
  { eapply rtc_l; [by apply (recv_state_step dialing (lit "open"))|].
    eapply rtc_l; [by apply (dial_state_step l1 (lit "open"))|].
    change (if decide (lit "open" = lit "open") then set_dialer DOpen GRun l1 else set_dialer DFailed GNone l1)
      with (set_dialer DOpen GRun l1).
    eapply rtc_l; [by apply (read_wait_step l2 2)|].
    eapply rtc_l; [by apply (recv_data_step l3 (lit "abc"))|].
    eapply rtc_l; [by apply (read_chunk_step l4 2 (lit "abc"))|]. apply rtc_refl. }
  split; [exact Hr|]. split; [vm_compute; reflexivity|]. split; [vm_compute; reflexivity|].
  exact (virtual_conn_ordered _ Hr).
Defined.

(** The end of the remote connection is never signalled: after the worker
    has stopped (the tunnel closed), a read that is waiting never returns, not
    even when the connection is closed locally; and once the sender has
    stopped on an error, [Close] itself never returns. *)
Theorem virtual_conn_never_ends :
  (∀ n, ∃ l, rtc step dialing l ∧ worker l = WExit ∧
     ∀ l', rtc step l l' → reader l' = RWait n) ∧
  (∃ l, rtc step dialing l ∧ closing l = CSend ∧ ∀ l', rtc step l l' → closing l' = CSend).
Proof.
  set (l1 := set_worker (WState (lit "open")) dialing).
  set (l2 := set_worker WRead (set_dialer DOpen GRun l1)).
  assert (Hopen : rtc step dialing l2).
  { eapply rtc_l; [by apply (recv_state_step dialing (lit "open"))|].
    eapply rtc_l; [by apply (dial_state_step l1 (lit "open"))|]. apply rtc_refl. }
  split.
  - intros n. exists (set_worker WExit (set_reader (RWait n) l2)). split; [|split; [done|]].
    + etrans; [exact Hopen|]. eapply rtc_l; [by apply (read_wait_step l2 n)|].
      eapply rtc_l; [by apply recv_error_step|]. apply rtc_refl.
    + intros l' Hr. by apply (deserted_forever n) in Hr as [_ ?].
  - exists (set_closing CSend (sender_exit (hand_over (lit "x") (start_write (lit "x") l2)))).
    split; [|split; [done|]].
    + etrans; [exact Hopen|]. eapply rtc_l; [by apply (write_step l2 (lit "x"))|].
      eapply rtc_l; [by apply (hand_over_step _ (lit "x"))|].
      eapply rtc_l; [by apply (send_fails_step _ (lit "x"))|].
      eapply rtc_l; [by apply close_step|]. apply rtc_refl.
    + intros l' Hr. by apply unclosable_forever in Hr as (_ & ? & _).
Qed.

(** C26: DNS requests and replies match: the ids the backend draws are positive
    and distinct within any 32769 consecutive draws, so that the reply the
    tunnel's server makes to a request is handed to the one waiter of that
    request, once, while messages of connections go to their connection. *)
Theorem dns_reply_routed (seed : Z) (i j : nat) (l : uplinkSecure) (network dn : bytes)
    (LookupIP : bytes → outcome (list bytes)) (error_text : error → bytes) :
  (0 ≤ seed ≤ 32769)%Z → i < j → (Z.of_nat j < Z.of_nat i + 32769)%Z →
  let id k := Nat.iter (S k) nextNsReqId seed in
  let reply := Tunnel.dns_reply LookupIP error_text (dns_request (id i) network dn) in
  (0 < id i < 2 ^ 16)%Z ∧ id i ≠ id j ∧
  (worker_step reply (register_waiter (id i) l)).1 = ToWaiter (id i) reply ∧
  (id i ∉ mapWait (worker_step reply (register_waiter (id i) l)).2) ∧
  (id j ∈ mapWait l → id j ∈ mapWait (worker_step reply (register_waiter (id i) l)).2) ∧
  ∀ c d, c ≠ [] → c ∈ mapWaitConn l →
    worker_step (Data (mk_Data 0 0 c d)) l = (ToConn c (Data (mk_Data 0 0 c d)), l).
Proof.
  intros Hs Hij Hj id reply.
  assert (Hi : (0 < id i < 2 ^ 16)%Z) by (unfold id; rewrite nextNsReqId_iter by done; zdm).
  assert (Hne : id i ≠ id j) by (unfold id; rewrite !nextNsReqId_iter by done; zdm).
  assert (Hack : AckMessageId reply = id i) by (unfold reply, Tunnel.dns_reply; by destruct (LookupIP _)).
  assert (Hw : worker_step reply (register_waiter (id i) l)
     = (ToWaiter (id i) reply, mk_uplink (msgId l) ((mapWait l ∪ {[id i]}) ∖ {[id i]}) (mapWaitConn l))).
  { unfold worker_step, dispatchReply. rewrite Hack. destruct (Z.ltb_spec 0 (id i)); [|lia].
    rewrite decide_True; [done|]. cbn [mapWait register_waiter]. apply elem_of_union_r, elem_of_singleton_2. done. }
  rewrite Hw. cbn [fst snd mapWait]. do 3 (split; [done|]). clear -Hne. split; [set_solver|]. split; [set_solver|].
  intros c d Hc Hin. unfold worker_step, dispatchConnMsg. cbn [AckMessageId data_Ack Z.ltb Z.compare].
  cbn [data_ConnectionId]. rewrite decide_True by (destruct c; [done|cbn; lia]). by rewrite decide_True.
Qed.

Lemma dns_reply_routed_witness :
  (worker_step (Tunnel.dns_reply (λ _, Err OpError) (λ _, lit "no such host")
       (dns_request 1 (lit "ip") (lit "example.com")))
     (register_waiter 1 (mk_uplink 0 ∅ ∅))).1
  = ToWaiter 1 (ResultDNS (mk_ResultDNS 0 1 [] (lit "no such host"))).
Proof.
  apply (dns_reply_routed 0 0 1 (mk_uplink 0 ∅ ∅) (lit "ip") (lit "example.com")
           (λ _, Err OpError) (λ _, lit "no such host")); lia.
Defined.
End Backend.
