(* ===== verification/Resolver.v ===== *)
(** Name resolution through the tunnel (src/socks/backend/backend_secure.go:
    [LookupIP], [dispatchReply], [worker]; dns_cache.go): the concurrent calls
    of [LookupIP] over the package's cache and waiting list, and one backend's
    worker that hands the replies over. *)
From S2P Require Import Prelude Message Backend.

Module Resolver.

Abbreviation addrs := (list bytes).

(** The next thing a call of [LookupIP] does: look into the cache; draw an id;
    look for an earlier call with the same name; wait for its callback; send
    the request; wait for the reply, [dur] seconds so far; invoke the callbacks
    left; return.  The goroutine's channel [ch] is named by its index. *)
Inductive pc :=
  | PCache | PDraw | PJoin (id : Z) | PCallback (id : Z) | PRequest (id : Z)
  | PWait (id : Z) (dur : Z) | PNotify (ips : addrs) (todo : list nat) | PRet (r : outcome addrs).

(** A call with its name and position. *)
Record call := mk_call { dn : bytes; at_ : pc }.

(** The worker: reading, in a handler that sends [m]'s result on the channel of
    call [i] ([None]: the reply was of another kind), gone. *)
Inductive worker_at := WRead | WHandler (i : nat) (rs : option addrs) | WExit.

(** A request that was written: its id and name, and how many ids had been
    drawn before its own. *)
Record request := mk_request { rq_id : Z; rq_name : bytes; rq_draw : nat }.

(** [dnsCache]; [seedNsReqId]; [mapNsWait], a map of callbacks for each name;
    the backend's [mapWait]; the calls.  The other fields state what was asked
    and answered: how many ids have been drawn, which of them each call drew,
    the requests written, and the replies, each with the request (its position)
    the other side answers. *)
Record state := mk_state {
  cache : gmap bytes addrs;
  seed : Z;
  nsWait : gmap bytes (gmap Z nat);
  waiting : gmap Z nat;
  worker : worker_at;
  calls : list call;
  drawn : nat;
  drew : gmap nat nat;
  requested : list request;
  replied : list (nat * addrs);
}.

Definition start : state := mk_state ∅ 0 ∅ ∅ WRead [] 0 ∅ [] [].

Definition set_cache c s :=
  mk_state c (seed s) (nsWait s) (waiting s) (worker s) (calls s) (drawn s) (drew s) (requested s) (replied s).
Definition set_worker w s :=
  mk_state (cache s) (seed s) (nsWait s) (waiting s) w (calls s) (drawn s) (drew s) (requested s) (replied s).
Definition set_nsWait m s :=
  mk_state (cache s) (seed s) m (waiting s) (worker s) (calls s) (drawn s) (drew s) (requested s) (replied s).

(** Call [i] draws an id. *)
Definition draw (i : nat) s :=
  mk_state (cache s) (Backend.nextNsReqId (seed s)) (nsWait s) (waiting s) (worker s) (calls s)
    (S (drawn s)) (<[i := drawn s]> (drew s)) (requested s) (replied s).

(** Call [i] goes on at [p]. *)
Definition goto (i : nat) (p : pc) s :=
  mk_state (cache s) (seed s) (nsWait s) (waiting s) (worker s)
    (match calls s !! i with Some c => <[i := mk_call (dn c) p]> (calls s) | None => calls s end)
    (drawn s) (drew s) (requested s) (replied s).

(** The waiter is stored, then the request is written. *)
Definition register (i : nat) (id : Z) s :=
  mk_state (cache s) (seed s) (nsWait s) (<[id := i]> (waiting s)) (worker s) (calls s) (drawn s) (drew s) (requested s) (replied s).
Definition record_request (i : nat) (id : Z) (name : bytes) s :=
  mk_state (cache s) (seed s) (nsWait s) (waiting s) (worker s) (calls s) (drawn s) (drew s)
    (requested s ++ [mk_request id name (default 0 (drew s !! i))]) (replied s).

(** The deferred [mapNsWait.Delete(dn)] of a call that got past the waiting
    list, with its return. *)
Definition finish (i : nat) (name : bytes) (r : outcome addrs) s := goto i (PRet r) (set_nsWait (delete name (nsWait s)) s).

(** The callbacks stored for a name, in the order the visit of [sync.Map]
    happens to take. *)
Definition callbacks (name : bytes) s : list nat :=
  match nsWait s !! name with Some m => map snd (map_to_list m) | None => [] end.

(** A reply to the request at [k] has come. *)
Definition record_reply (k : nat) (m : Message) s :=
  mk_state (cache s) (seed s) (nsWait s) (waiting s) (worker s) (calls s) (drawn s) (drew s) (requested s)
    (match Backend.result_addresses m with Some ips => replied s ++ [(k, ips)] | None => replied s end).

(** [dispatchReply]: the handler of a waiting call, removed from [mapWait]. *)
Definition dispatch (m : Message) s : state :=
  let ack := AckMessageId m in
  match waiting s !! ack with
  | Some i =>
      mk_state (cache s) (seed s) (nsWait s) (delete ack (waiting s)) (WHandler i (Backend.result_addresses m)) (calls s)
        (drawn s) (drew s) (requested s) (replied s)
  | None => s
  end.

Inductive action :=
  | ACall (name : bytes)               (** a new call of [LookupIP] *)
  | AEvict (name : bytes)              (** the cache's cleaning removes an entry *)
  | ACache (i : nat) | ADraw (i : nat) | AJoin (i : nat)
  | ACallbackTimeout (i : nat) | ARequest (i : nat) | ARequestFails (i : nat) (e : error)
  | ATick (i : nat)                    (** five seconds without a reply *)
  | AReply (k : nat) (m : Message)     (** [r.Read()] returns the other side's reply to the request at [k]... *)
  | AMessage (m : Message)             (** ... or a message of a connection... *)
  | AReadFails                         (** ... or fails *)
  | AReceive (i : nat)                 (** the worker's handler and the waiting call meet *)
  | ANotify (i : nat)                  (** a callback and the call that waits for it meet *)
  | ANotifyLate (i j : nat)            (** so does one stored during the visit *)
  | ANotified (i : nat).               (** no callback is left *)

Definition exec (a : action) (s : state) : option state :=
  match a with
  | ACall name => Some (mk_state (cache s) (seed s) (nsWait s) (waiting s) (worker s) (calls s ++ [mk_call name PCache])
                          (drawn s) (drew s) (requested s) (replied s))
  | AEvict name => Some (set_cache (delete name (cache s)) s)
  | ACache i =>
      match calls s !! i with
      | Some (mk_call name PCache) =>
          Some (match cache s !! name with Some ips => goto i (PRet (Ok ips)) s | None => goto i PDraw s end)
      | _ => None
      end
  | ADraw i =>
      match calls s !! i with
      | Some (mk_call _ PDraw) => Some (goto i (PJoin (Backend.nextNsReqId (seed s))) (draw i s))
      | _ => None
      end
  | AJoin i =>
      match calls s !! i with
      | Some (mk_call name (PJoin id)) =>
          Some (match nsWait s !! name with
                | Some m => goto i (PCallback id) (set_nsWait (<[name := <[id := i]> m]> (nsWait s)) s)
                | None => goto i (PRequest id) (set_nsWait (<[name := ∅]> (nsWait s)) s)
                end)
      | _ => None
      end
  | ACallbackTimeout i =>
      match calls s !! i with
      | Some (mk_call _ (PCallback id)) => Some (goto i (PRequest id) s)
      | _ => None
      end
  | ARequest i =>
      match calls s !! i with
      | Some (mk_call name (PRequest id)) => Some (goto i (PWait id 0) (record_request i id name (register i id s)))
      | _ => None
      end
  | ARequestFails i e =>
      match calls s !! i with
      | Some (mk_call name (PRequest id)) => Some (finish i name (Err e) (register i id s))
      | _ => None
      end
  | ATick i =>
      match calls s !! i with
      | Some (mk_call name (PWait id dur)) =>
          let durTotal := (dur + 5)%Z in
          Some (if (20 <? durTotal)%Z
                then finish i name (Err (Errorf (lit "<cid:%s> resolving timeout: %s") [])) s
                else goto i (PWait id durTotal) s)
      | _ => None
      end
  | AReply k m =>
      match worker s, requested s !! k with
      | WRead, Some r =>
          if decide (AckMessageId m = rq_id r) then
            let s := record_reply k m s in
            Some (if (0 <? AckMessageId m)%Z then dispatch m s else s)
          else None
      | _, _ => None
      end
  | AMessage m =>
      match worker s with WRead => if (0 <? AckMessageId m)%Z then None else Some s | _ => None end
  | AReadFails => match worker s with WRead => Some (set_worker WExit s) | _ => None end
  | AReceive i =>
      match worker s, calls s !! i with
      | WHandler j rs, Some (mk_call name (PWait id dur)) =>
          if decide (i = j) then
            match rs with
            | Some ips =>
                let s := set_cache (<[name := ips]> (cache s)) s in
                Some (goto i (PNotify ips (callbacks name s)) (set_worker WRead s))
            | None => Some (set_worker WRead s)
            end
          else None
      | _, _ => None
      end
  | ANotify i =>
      match calls s !! i with
      | Some (mk_call name (PNotify ips (j :: todo))) =>
          match calls s !! j with
          | Some (mk_call _ (PCallback _)) => Some (goto i (PNotify ips todo) (goto j (PRet (Ok ips)) s))
          | _ => None
          end
      | _ => None
      end
  | ANotifyLate i j =>
      match calls s !! i, calls s !! j with
      | Some (mk_call name (PNotify ips _)), Some (mk_call _ (PCallback _)) =>
          if decide (j ∈ callbacks name s) then Some (goto j (PRet (Ok ips)) s) else None
      | _, _ => None
      end
  | ANotified i =>
      match calls s !! i with
      | Some (mk_call name (PNotify ips [])) => Some (finish i name (Ok ips) s)
      | _ => None
      end
  end.

Definition step : relation state := acts exec.

(** Ids come round after [window] draws.  An action is timely when the id it
    uses, one drawn after [d] others, has not been drawn again: a request is
    written in time, and a reply comes in time. *)
Definition window : nat := Z.to_nat 32769.
Definition in_time (d : nat) (s : state) : Prop := drawn s ≤ d + window.
Definition timely (a : action) (s : state) : Prop :=
  match a with
  | ARequest i | ARequestFails i _ => ∀ d, drew s !! i = Some d → in_time d s
  | AReply k _ => ∀ r, requested s !! k = Some r → in_time (rq_draw r) s
  | _ => True
  end.
Definition timely_step : relation state := λ s s', ∃ a, exec a s = Some s' ∧ timely a s.

(** ** What is known of every answer *)

(** The id drawn after [d] others. *)
Definition id_of (d : nat) : Z := Nat.iter (S d) Backend.nextNsReqId 0%Z.

Lemma id_of_mod (d : nat) : id_of d = (Z.of_nat d mod 32769 + 1)%Z.
Proof. unfold id_of. rewrite Backend.nextNsReqId_iter by lia. done. Qed.

(** A draw not more than a window later has another id. *)
Lemma id_of_late (d d' : nat) : id_of d = id_of d' → d' < d + window → d' ≤ d.
Proof. rewrite !id_of_mod. unfold window. intros E H. zdm. Qed.

(** [ips] is what the other side replied to a request for [name]. *)
Definition answers (s : state) (name : bytes) (ips : addrs) : Prop :=
  ∃ k r, requested s !! k = Some r ∧ rq_name r = name ∧ (k, ips) ∈ replied s.

Definition named (s : state) (name : bytes) (i : nat) : Prop := ∃ p, calls s !! i = Some (mk_call name p).

(** A call at [p] holds the id it drew, and only answers to its name; it calls
    back only calls with its name. *)
Definition call_ok (s : state) (i : nat) (name : bytes) (p : pc) : Prop :=
  match p with
  | PCache | PDraw => drew s !! i = None
  | PJoin id | PCallback id | PRequest id => ∃ d, drew s !! i = Some d ∧ id = id_of d
  | PWait _ _ => True
  | PNotify ips todo => answers s name ips ∧ ∀ j, j ∈ todo → named s name j
  | PRet (Ok ips) => answers s name ips
  | PRet _ => True
  end.

(** The waiter of an id is a call that drew it, no request with this id was
    drawn later. *)
Record state_ok (s : state) : Prop := mk_ok {
  ok_seed : seed s = Nat.iter (drawn s) Backend.nextNsReqId 0%Z;
  ok_drew i d : drew s !! i = Some d → d < drawn s ∧ i < length (calls s);
  ok_inj i j d : drew s !! i = Some d → drew s !! j = Some d → i = j;
  ok_cache name ips : cache s !! name = Some ips → answers s name ips;
  ok_nsWait name m id i : nsWait s !! name = Some m → m !! id = Some i → named s name i;
  ok_requested k r : requested s !! k = Some r →
    rq_id r = id_of (rq_draw r) ∧ ∃ i, drew s !! i = Some (rq_draw r) ∧ named s (rq_name r) i;
  ok_waiting id i : waiting s !! id = Some i →
    ∃ d, drew s !! i = Some d ∧ id = id_of d ∧ ∀ k r, requested s !! k = Some r → rq_id r = id → rq_draw r ≤ d;
  ok_worker i ips : worker s = WHandler i (Some ips) → ∃ name, named s name i ∧ answers s name ips;
  ok_calls i name p : calls s !! i = Some (mk_call name p) → call_ok s i name p;
}.

Lemma resolver_start_ok : state_ok start.
Proof. split; cbn; intros; done. Qed.

Lemma named_lt (s : state) (name : bytes) (i : nat) : named s name i → i < length (calls s).
Proof. intros [p Hp]. by eapply lookup_lt_Some. Qed.

Lemma named_fun (s : state) (name name' : bytes) (i : nat) : named s name i → named s name' i → name = name'.
Proof. intros [p Hp] [q Hq]. congruence. Qed.

(** Call [i], at [old], goes on at [p]. *)
Lemma goto_lookup (i j : nat) (p : pc) (s : state) (c : call) :
  calls s !! i = Some c → calls (goto i p s) !! j = if decide (i = j) then Some (mk_call (dn c) p) else calls s !! j.
Proof.
  intros Hi. unfold goto. cbn [calls]. rewrite Hi. destruct (decide (i = j)) as [->|Hne].
  - apply list_lookup_insert_eq. by eapply lookup_lt_Some.
  - by apply list_lookup_insert_ne.
Qed.

Lemma goto_named (i : nat) (p : pc) (s : state) (c : call) (name : bytes) (j : nat) :
  calls s !! i = Some c → named s name j → named (goto i p s) name j.
Proof.
  intros Hi [q Hq]. unfold named. rewrite (goto_lookup i j p s c Hi). destruct (decide (i = j)) as [->|]; [|eauto].
  rewrite Hi in Hq. injection Hq as ->. by exists p.
Qed.

Lemma goto_length (i : nat) (p : pc) (s : state) : length (calls (goto i p s)) = length (calls s).
Proof. unfold goto. cbn [calls]. destruct (calls s !! i); [by rewrite length_insert|done]. Qed.

Lemma goto_ok (i : nat) (p old : pc) (s : state) (name : bytes) :
  calls s !! i = Some (mk_call name old) → state_ok s → call_ok s i name p → state_ok (goto i p s).
Proof.
  intros Hi [K0 K1 K2 K3 K4 K5 K6 K7 K8] Hp. pose proof (λ j, goto_lookup i j p s _ Hi) as Hl. cbn [dn] in Hl.
  assert (Hn : ∀ n j, named s n j → named (goto i p s) n j) by (intros n j; by eapply goto_named).
  assert (Hc : ∀ j n q, call_ok s j n q → call_ok (goto i p s) j n q).
  { intros j n q Hq. destruct q; try done. destruct Hq as [? Hq]. split; [done|]. intros k Hk. by apply Hn, Hq. }
  split; [done| |done|done| | |done| |].
  - intros j d Hj. rewrite goto_length. by apply K1.
  - intros n m id j Hm Hj. by eapply Hn, K4.
  - intros k r Hk. destruct (K5 k r Hk) as (? & j & ? & ?). split; [done|]. exists j. split; [done|by apply Hn].
  - intros j ips Hj. destruct (K7 j ips Hj) as (n & ? & ?). exists n. split; [by apply Hn|done].
  - intros j n q. rewrite Hl. destruct (decide (i = j)) as [->|]; [intros [= <- <-]; by apply Hc|].
    intros Hq. by eapply Hc, K8.
Qed.

(** Changes of the shared state. *)
Lemma set_cache_ok (m : gmap bytes addrs) (s : state) :
  state_ok s → (∀ name ips, m !! name = Some ips → answers s name ips) → state_ok (set_cache m s).
Proof. intros [] Hm. by split. Qed.

Lemma set_nsWait_ok (m : gmap bytes (gmap Z nat)) (s : state) :
  state_ok s → (∀ name m' id i, m !! name = Some m' → m' !! id = Some i → named s name i) → state_ok (set_nsWait m s).
Proof. intros [] Hm. by split. Qed.

Lemma set_worker_ok (w : worker_at) (s : state) :
  state_ok s → (∀ i ips, w = WHandler i (Some ips) → ∃ name, named s name i ∧ answers s name ips) → state_ok (set_worker w s).
Proof. intros [] Hw. by split. Qed.

(** A call draws its id. *)
Lemma draw_ok (i : nat) (name : bytes) (s : state) :
  calls s !! i = Some (mk_call name PDraw) → state_ok s → state_ok (goto i (PJoin (Backend.nextNsReqId (seed s))) (draw i s)).
Proof.
  intros Hi [K0 K1 K2 K3 K4 K5 K6 K7 K8]. pose proof (K8 i name PDraw Hi) as Hnone. cbn in Hnone.
  assert (Hd : ∀ j d, drew s !! j = Some d → drew (draw i s) !! j = Some d).
  { intros j d Hj. cbn [draw drew]. rewrite lookup_insert_ne; [done|]. congruence. }
  assert (Hn : ∀ j, j ≠ i → drew (draw i s) !! j = drew s !! j) by (intros j Hj; by apply lookup_insert_ne).
  set (s1 := goto i _ (draw i s)). pose proof (λ j, goto_lookup i j (PJoin (Backend.nextNsReqId (seed s))) (draw i s) _ Hi) as Hl.
  assert (Hnm : ∀ n j, named s n j → named s1 n j) by (intros n j Hj; eapply goto_named; [exact Hi|exact Hj]).
  split.
  - cbn. by rewrite K0.
  - intros j d. unfold s1. rewrite goto_length. cbn [goto drew draw drawn calls].
    intros [(<- & <-)|(_ & Hj%K1)]%lookup_insert_Some; [|lia]. split; [lia|]. by eapply lookup_lt_Some.
  - intros j k d. unfold s1. cbn [goto drew draw].
    intros [(<- & <-)|(? & Hj)]%lookup_insert_Some [(<- & Ek)|(? & Hk)]%lookup_insert_Some; [done| | |by eapply K2].
    + apply K1 in Hk. lia.
    + subst d. apply K1 in Hj. lia.
  - done.
  - intros n m id j Hm Hj. by eapply Hnm, K4.
  - intros k r Hk. destruct (K5 k r Hk) as (? & j & ? & ?). split; [done|]. exists j. split; [by apply Hd|by apply Hnm].
  - intros id j Hj. destruct (K6 id j Hj) as (d & ? & ? & ?). exists d. split; [by apply Hd|done].
  - intros j ips Hj. destruct (K7 j ips Hj) as (n & ? & ?). exists n. split; [by apply Hnm|done].
  - intros j n q. unfold s1. rewrite Hl. destruct (decide (i = j)) as [<-|Hne].
    + intros [= <- <-]. exists (drawn s). split; [apply lookup_insert_eq|]. cbn. by rewrite K0.
    + intros Hq%K8. destruct q; try done; cbn [call_ok] in *; unfold s1; cbn [goto drew] in *; rewrite ?Hn by done; try done.
      destruct Hq as [? Hq]. split; [done|]. intros k Hk. by apply Hnm, Hq.
Qed.

(** A call stores its waiter in time, and writes its request or fails to. *)
Lemma register_ok (i : nat) (d : nat) (s : state) :
  state_ok s → drew s !! i = Some d → in_time d s → state_ok (register i (id_of d) s).
Proof.
  intros [K0 K1 K2 K3 K4 K5 K6 K7 K8] Hd Ht. split; try done.
  intros id j. cbn [register waiting requested drew].
  intros [(<- & <-)|(_ & Hj)]%lookup_insert_Some; [|by apply K6].
  exists d. split; [done|]. split; [done|]. intros k r Hk Hid. destruct (K5 k r Hk) as (Hr & j & Hj%K1 & _).
  apply id_of_late; [congruence|]. unfold in_time in Ht. lia.
Qed.

Lemma lookup_snoc {A} (l : list A) (x y : A) (k : nat) : (l ++ [x]) !! k = Some y → l !! k = Some y ∨ y = x.
Proof.
  intros [?|[_ H]]%lookup_app_Some; [by left|]. apply list_lookup_singleton_Some in H as [_ ->]. by right.
Qed.

Lemma record_request_ok (i : nat) (d : nat) (name : bytes) (s : state) :
  state_ok s → named s name i → drew s !! i = Some d → waiting s !! id_of d = Some i →
  state_ok (record_request i (id_of d) name s).
Proof.
  intros [K0 K1 K2 K3 K4 K5 K6 K7 K8] Hn Hd Hw. set (s1 := record_request _ _ _ _).
  assert (Ha : ∀ n ips, answers s n ips → answers s1 n ips).
  { intros n ips (k & r & Hk & ? & ?). exists k, r. split; [by apply lookup_app_l_Some|done]. }
  split; try done.
  - intros n ips Hc. by apply Ha, K3.
  - intros k r [Hk| ->]%lookup_snoc; [by apply (K5 k)|]. cbn [rq_id rq_draw rq_name]. rewrite Hd.
    split; [done|]. by exists i.
  - intros id j Hj. destruct (K6 id j Hj) as (d' & ? & Hid & Hall). exists d'. split; [done|]. split; [done|].
    intros k r [Hk| ->]%lookup_snoc; [by eapply Hall|]. cbn [rq_id rq_draw]. rewrite Hd. intros <-.
    change (waiting s !! id_of d = Some j) in Hj. rewrite Hw in Hj. injection Hj as <-. cbn. assert (d = d') as <- by congruence. done.
  - intros j ips Hj. destruct (K7 j ips Hj) as (n & ? & ?). exists n. split; [done|by apply Ha].
  - intros j n p Hp. specialize (K8 j n p Hp). destruct p as [| | | | | |ips todo|[ips| | |]]; try done; [|by apply Ha].
    destruct K8. split; [by apply Ha|done].
Qed.

Lemma record_reply_ok (k : nat) (m : Message) (s : state) : state_ok s → state_ok (record_reply k m s).
Proof.
  intros [K0 K1 K2 K3 K4 K5 K6 K7 K8]. set (s1 := record_reply _ _ _).
  assert (Hr : ∀ x, x ∈ replied s → x ∈ replied s1).
  { intros x Hx. cbn. destruct (Backend.result_addresses m); [apply elem_of_app; by left|done]. }
  assert (Ha : ∀ n ips, answers s n ips → answers s1 n ips) by (intros n ips (q & r & ? & ? & ?); exists q, r; auto).
  split; try done.
  - intros n ips Hc. by apply Ha, K3.
  - intros j ips Hj. destruct (K7 j ips Hj) as (n & ? & ?). exists n. split; [done|by apply Ha].
  - intros j n p Hp. specialize (K8 j n p Hp). destruct p as [| | | | | |ips todo|[ips| | |]]; try done; [|by apply Ha].
    destruct K8. split; [by apply Ha|done].
Qed.

Lemma callbacks_named (s : state) (name : bytes) (j : nat) : state_ok s → j ∈ callbacks name s → named s name j.
Proof.
  intros Hs. unfold callbacks. destruct (nsWait s !! name) as [m|] eqn:Hm; [|by intros ?%elem_of_nil].
  intros ([id i] & -> & Hin)%list_elem_of_fmap. apply elem_of_map_to_list in Hin. by eapply ok_nsWait.
Qed.

Lemma finished_ok (i : nat) (old : pc) (r : outcome addrs) (s : state) (name : bytes) :
  calls s !! i = Some (mk_call name old) → state_ok s →
  match r with Ok ips => answers s name ips | _ => True end → state_ok (finish i name r s).
Proof.
  intros Hi Hs Hr. unfold finish. apply (goto_ok i (PRet r) old _ name); [done| |by destruct r].
  apply set_nsWait_ok; [done|]. intros n m id j [_ Hm]%lookup_delete_Some Hj. by eapply ok_nsWait.
Qed.

(** A reply in time is handed to the call that made its request, if to any. *)
Lemma dispatch_ok (k : nat) (r : request) (m : Message) (s : state) :
  state_ok s → requested s !! k = Some r → AckMessageId m = rq_id r → in_time (rq_draw r) s →
  state_ok (dispatch m (record_reply k m s)).
Proof.
  intros Hs Hk Hack Ht. pose proof (record_reply_ok k m s Hs) as Hs1. set (s1 := record_reply k m s) in *.
  unfold dispatch. rewrite Hack. destruct (waiting s1 !! rq_id r) as [i|] eqn:Hi; [|done].
  destruct (ok_requested s Hs k r Hk) as (Hid & j & Hj & Hn).
  destruct (ok_waiting s Hs (rq_id r) i Hi) as (d & Hd & Hid' & Hall). specialize (Hall k r Hk eq_refl).
  assert (d = rq_draw r) as ->.
  { destruct (ok_drew s Hs i d Hd). apply Nat.le_antisymm; [|done].
    apply id_of_late; [congruence|]. unfold in_time in Ht. lia. }
  assert (i = j) as -> by (by eapply (ok_inj s Hs)).
  destruct Hs1 as [K0 K1 K2 K3 K4 K5 K6 K7 K8]. split; try done.
  - intros id i'. cbn [waiting requested drew]. intros [_ Hi']%lookup_delete_Some. by apply K6.
  - cbn [worker]. intros i' ips [= <- Hips]. exists (rq_name r). split; [done|]. exists k, r. split; [done|].
    split; [done|]. cbn. rewrite Hips. apply elem_of_app. right. by apply list_elem_of_singleton.
Qed.

(** A call waiting for the worker's handler takes the result. *)
Lemma receive_ok (i : nat) (name : bytes) (id dur : Z) (ips : addrs) (s : state) :
  state_ok s → worker s = WHandler i (Some ips) → calls s !! i = Some (mk_call name (PWait id dur)) →
  let s1 := set_cache (<[name := ips]> (cache s)) s in
  state_ok (goto i (PNotify ips (callbacks name s1)) (set_worker WRead s1)).
Proof.
  intros Hs Hw Hi. destruct (ok_worker s Hs i ips Hw) as (n & Hn & Hans).
  assert (n = name) as -> by (eapply named_fun; [exact Hn|by eexists]). cbn zeta.
  set (s1 := set_cache _ s). assert (Hs1 : state_ok s1).
  { apply set_cache_ok; [done|]. intros n' ips' [(<- & <-)|(_ & Hn')]%lookup_insert_Some; [done|by apply (ok_cache s)]. }
  apply (goto_ok i _ (PWait id dur) _ name); [done|by apply set_worker_ok|].
  split; [done|]. intros j Hj. by apply (callbacks_named s1).
Qed.

(** A callback of the visit meets the call that waits for it. *)
Lemma notify_ok (j : nat) (name : bytes) (id : Z) (ips : addrs) (s : state) :
  state_ok s → answers s name ips → named s name j →
  (∃ n, calls s !! j = Some (mk_call n (PCallback id))) → state_ok (goto j (PRet (Ok ips)) s).
Proof.
  intros Hs Ha [p Hp] [n Hj]. rewrite Hj in Hp. injection Hp as -> <-.
  by apply (goto_ok j _ (PCallback id) _ name).
Qed.

(** A new call. *)
Lemma new_call_ok (name : bytes) (s : state) :
  state_ok s →
  state_ok (mk_state (cache s) (seed s) (nsWait s) (waiting s) (worker s) (calls s ++ [mk_call name PCache])
              (drawn s) (drew s) (requested s) (replied s)).
Proof.
  intros [K0 K1 K2 K3 K4 K5 K6 K7 K8]. set (s1 := mk_state _ _ _ _ _ _ _ _ _ _).
  assert (Hn : ∀ n i, named s n i → named s1 n i) by (intros n i [p Hp]; exists p; by apply lookup_app_l_Some).
  split; try done.
  - intros i d Hd. unfold s1. cbn [calls drawn]. rewrite length_app. destruct (K1 i d Hd). lia.
  - intros n m id i Hm Hi. by eapply Hn, K4.
  - intros k r Hk. destruct (K5 k r Hk) as (? & j & ? & ?). split; [done|]. exists j. split; [done|by apply Hn].
  - intros i ips Hi. destruct (K7 i ips Hi) as (n & ? & ?). exists n. split; [by apply Hn|done].
  - intros i n p [Hi|[Hlen Hi]]%lookup_app_Some.
    + specialize (K8 i n p Hi). destruct p; try done. destruct K8 as [? K8]. split; [done|].
      intros j Hj. by apply Hn, K8.
    + apply list_lookup_singleton_Some in Hi as [Hi [= _ <-]]. cbn [call_ok].
      destruct (drew s1 !! i) as [d|] eqn:Hd; [|done]. apply K1 in Hd as [_ Hd]. lia.
Qed.

(** The notifying call hands its result to the next callback. *)
Lemma notify_next_ok (i j : nat) (name n : bytes) (id : Z) (ips : addrs) (todo : list nat) (s : state) :
  state_ok s → calls s !! i = Some (mk_call name (PNotify ips (j :: todo))) → calls s !! j = Some (mk_call n (PCallback id)) →
  state_ok (goto i (PNotify ips todo) (goto j (PRet (Ok ips)) s)).
Proof.
  intros Hs Hi Hj. destruct (ok_calls s Hs i _ _ Hi) as [Ha Hall].
  assert (Hne : i ≠ j) by (intros ->; congruence).
  assert (H1 : state_ok (goto j (PRet (Ok ips)) s)) by (eapply notify_ok; eauto; apply Hall; left).
  apply (goto_ok i _ (PNotify ips (j :: todo)) _ name); [|done|].
  - rewrite (goto_lookup j i _ _ _ Hj). by rewrite decide_False.
  - split; [done|]. intros k Hk. eapply goto_named; [exact Hj|]. apply Hall. by right.
Qed.

(** A call at [PRequest] stores its waiter and sends. *)
Lemma requested_ok (i : nat) (name : bytes) (id : Z) (s : state) :
  calls s !! i = Some (mk_call name (PRequest id)) → state_ok s → timely (ARequest i) s →
  state_ok (goto i (PWait id 0) (record_request i id name (register i id s))).
Proof.
  intros Hi Hs Ht. destruct (ok_calls s Hs i _ _ Hi) as (d & Hd & ->).
  apply (goto_ok i _ (PRequest (id_of d)) _ name); [done| |done].
  apply record_request_ok; [|by eexists|done|by apply lookup_insert_eq].
  apply register_ok; [done|done|by apply Ht].
Qed.

Lemma request_fails_ok (i : nat) (name : bytes) (id : Z) (e : error) (s : state) :
  calls s !! i = Some (mk_call name (PRequest id)) → state_ok s → timely (ARequestFails i e) s →
  state_ok (finish i name (Err e) (register i id s)).
Proof.
  intros Hi Hs Ht. destruct (ok_calls s Hs i _ _ Hi) as (d & Hd & ->).
  apply (finished_ok i (PRequest (id_of d))); [done| |done]. apply register_ok; [done|done|by apply Ht].
Qed.

(** A call looks for an earlier one with its name. *)
Lemma join_ok (i : nat) (name : bytes) (id : Z) (s : state) (m : gmap Z nat) (p : pc) :
  calls s !! i = Some (mk_call name (PJoin id)) → state_ok s → (p = PCallback id ∨ p = PRequest id) →
  (∀ id' j, m !! id' = Some j → named s name j) → state_ok (goto i p (set_nsWait (<[name := m]> (nsWait s)) s)).
Proof.
  intros Hi Hs Hp Hm. pose proof (ok_calls s Hs i _ _ Hi) as Hc.
  apply (goto_ok i _ (PJoin id) _ name); [done| |by destruct Hp as [->| ->]]. apply set_nsWait_ok; [done|].
  intros n m' id' k [(<- & <-)|(_ & Hn)]%lookup_insert_Some Hk; [by eapply Hm|by eapply ok_nsWait].
Qed.

Lemma resolver_exec_ok (a : action) (s s' : state) : exec a s = Some s' → timely a s → state_ok s → state_ok s'.
Proof.
  intros Hx Ht Hs. destruct a as [name|name|i|i|i|i|i|i e|i|k m|m| |i|i|i j|i]; cbn [exec] in Hx.
  - injection Hx as <-. by apply new_call_ok.
  - injection Hx as <-. apply set_cache_ok; [done|]. intros n ips [_ Hn]%lookup_delete_Some. by apply (ok_cache s).
  - destruct (calls s !! i) as [[name []]|] eqn:Hi; try done. injection Hx as <-. pose proof (ok_calls s Hs i _ _ Hi) as Hc.
    destruct (cache s !! name) as [ips|] eqn:Hca; eapply goto_ok; try done. by apply (ok_cache s).
  - destruct (calls s !! i) as [[name []]|] eqn:Hi; try done. injection Hx as <-. by eapply draw_ok.
  - destruct (calls s !! i) as [[name []]|] eqn:Hi; try done. injection Hx as <-.
    destruct (nsWait s !! name) as [m|] eqn:Hm; (eapply join_ok; [done|done| |]); [by left| |by right|done].
    intros id' j [(_ & <-)|(_ & Hj)]%lookup_insert_Some; [by eexists|by eapply ok_nsWait].
  - destruct (calls s !! i) as [[name []]|] eqn:Hi; try done. injection Hx as <-. pose proof (ok_calls s Hs i _ _ Hi).
    by eapply goto_ok.
  - destruct (calls s !! i) as [[name []]|] eqn:Hi; try done. injection Hx as <-. by apply requested_ok.
  - destruct (calls s !! i) as [[name []]|] eqn:Hi; try done. injection Hx as <-. by apply request_fails_ok.
  - destruct (calls s !! i) as [[name []]|] eqn:Hi; try done. injection Hx as <-.
    destruct (_ <? _)%Z; [by eapply finished_ok|by eapply goto_ok].
  - destruct (worker s); try done. destruct (requested s !! k) as [r|] eqn:Hk; [|done].
    destruct (decide _) as [Hack|]; [|done]. injection Hx as <-.
    destruct (_ <? _)%Z; [apply (dispatch_ok k r); [done..|by apply Ht]|by apply record_reply_ok].
  - destruct (worker s); try done. destruct (_ <? _)%Z; [done|]. by injection Hx as <-.
  - destruct (worker s); try done. injection Hx as <-. by apply set_worker_ok.
  - destruct (worker s) as [|j rs|] eqn:Hw; try done. destruct (calls s !! i) as [[name []]|] eqn:Hi; try done.
    destruct (decide (i = j)) as [<-|]; [|done]. destruct rs as [ips|]; injection Hx as <-.
    + by eapply receive_ok.
    + by apply set_worker_ok.
  - destruct (calls s !! i) as [[name [| | | | | |ips [|j todo]|]]|] eqn:Hi; try done.
    destruct (calls s !! j) as [[n [| | |id| | | |]]|] eqn:Hj; try done. injection Hx as <-.
    by apply (notify_next_ok i j name n id).
  - destruct (calls s !! i) as [[name [| | | | | |ips todo|]]|] eqn:Hi; try done.
    destruct (calls s !! j) as [[n [| | |id| | | |]]|] eqn:Hj; try done.
    destruct (decide _) as [Hin|]; [|done]. injection Hx as <-.
    destruct (ok_calls s Hs i _ _ Hi) as [Ha _]. eapply notify_ok; eauto. by apply callbacks_named.
  - destruct (calls s !! i) as [[name [| | | | | |ips [|]|]]|] eqn:Hi; try done. injection Hx as <-.
    destruct (ok_calls s Hs i _ _ Hi) as [Ha _]. by eapply finished_ok.
Qed.

Lemma resolver_reachable (s : state) : rtc timely_step start s → state_ok s.
Proof.
  intros Hr. apply (rtc_invariant timely_step state_ok) in Hr; [done| |apply resolver_start_ok].
  intros s1 s2 (a & Hx & Ht) Hs. by eapply resolver_exec_ok.
Qed.

(** As long as no more ids have been drawn than there are, everything is in
    time. *)
Lemma exec_drawn (a : action) (s s' : state) : exec a s = Some s' → drawn s ≤ drawn s'.
Proof.
  destruct a as [name|name|i|i|i|i|i|i e|i|k m|m| |i|i|i j|i]; cbn [exec]; intros Hx; repeat case_match; try done;
    injection Hx as <-; cbn; try done; try lia; unfold dispatch; by repeat case_match.
Qed.

Lemma few_draws_timely (s : state) : rtc step start s → (Z.of_nat (drawn s) <= 32769)%Z → rtc timely_step start s.
Proof.
  revert s. apply (rtc_ind_r (λ s, (Z.of_nat (drawn s) <= 32769)%Z → rtc timely_step start s)); [by intros|].
  intros s1 s2 _ [a Ha] IH Hd. pose proof (exec_drawn a s1 s2 Ha). eapply rtc_r; [apply IH; lia|]. exists a. split; [done|].
  assert (Hin : ∀ d, in_time d s1) by (unfold in_time, window; intros d; lia). destruct a; cbn; eauto.
Qed.

(** ** Calls only move forward *)

Definition stage (p : pc) : nat :=
  match p with
  | PCache => 0 | PDraw => 1 | PJoin _ => 2 | PCallback _ => 3 | PRequest _ => 4 | PWait _ _ => 5 | PNotify _ _ => 6 | PRet _ => 7
  end.

(** What a step may do to a call: it stays, it goes on to a later stage, it
    counts a tick, or a callback of its is taken by a call that waits for it. *)
Definition moved (s : state) (p p' : pc) : Prop :=
  p' = p ∨ (stage p < stage p' ∧ match p with PNotify _ (_ :: _) => False | _ => True end) ∨ (stage p = 5 ∧ stage p' = 5) ∨
  ∃ ips j todo n id, p = PNotify ips (j :: todo) ∧ p' = PNotify ips todo ∧ calls s !! j = Some (mk_call n (PCallback id)).

Lemma goto_moved (i k : nat) (q old p : pc) (n name : bytes) (s s0 s1 : state) :
  calls s1 = calls s0 → calls s0 !! k = Some (mk_call n old) → calls s0 !! i = Some (mk_call name p) →
  moved s old q → ∃ p', calls (goto k q s1) !! i = Some (mk_call name p') ∧ moved s p p'.
Proof.
  intros E Hk Hi Hm. rewrite <- E in Hk, Hi. rewrite (goto_lookup k i q s1 _ Hk).
  destruct (decide (k = i)) as [->|Hne]; [|exists p; split; [done|by left]].
  rewrite Hk in Hi. injection Hi as -> ->. by exists q.
Qed.

Lemma exec_moved (a : action) (s s' : state) (i : nat) (name : bytes) (p : pc) :
  exec a s = Some s' → calls s !! i = Some (mk_call name p) →
  ∃ p', calls s' !! i = Some (mk_call name p') ∧ moved s p p'.
Proof.
  intros Hx Hi. assert (Hstay : calls s' = calls s → ∃ p', calls s' !! i = Some (mk_call name p') ∧ moved s p p').
  { intros ->. exists p. split; [done|by left]. }
  destruct a as [nm|nm|k|k|k|k|k|k e|k|q m|m| |k|k|k j|k]; cbn [exec] in Hx.
  - injection Hx as <-. exists p. split; [by apply lookup_app_l_Some|by left].
  - injection Hx as <-. by apply Hstay.
  - destruct (calls s !! k) as [[n []]|] eqn:Hk; try done. injection Hx as <-.
    destruct (cache s !! n); (eapply goto_moved; [reflexivity|exact Hk|exact Hi|right; left; split; [cbn; lia|exact I]]).
  - destruct (calls s !! k) as [[n []]|] eqn:Hk; try done. injection Hx as <-.
    eapply goto_moved; [reflexivity|exact Hk|exact Hi|right; left; split; [cbn; lia|exact I]].
  - destruct (calls s !! k) as [[n []]|] eqn:Hk; try done. injection Hx as <-.
    destruct (nsWait s !! n); (eapply goto_moved; [reflexivity|exact Hk|exact Hi|right; left; split; [cbn; lia|exact I]]).
  - destruct (calls s !! k) as [[n []]|] eqn:Hk; try done. injection Hx as <-.
    eapply goto_moved; [reflexivity|exact Hk|exact Hi|right; left; split; [cbn; lia|exact I]].
  - destruct (calls s !! k) as [[n []]|] eqn:Hk; try done. injection Hx as <-.
    eapply goto_moved; [reflexivity|exact Hk|exact Hi|right; left; split; [cbn; lia|exact I]].
  - destruct (calls s !! k) as [[n []]|] eqn:Hk; try done. injection Hx as <-.
    eapply goto_moved; [reflexivity|exact Hk|exact Hi|right; left; split; [cbn; lia|exact I]].
  - destruct (calls s !! k) as [[n []]|] eqn:Hk; try done. injection Hx as <-.
    destruct (_ <? _)%Z; (eapply goto_moved; [reflexivity|exact Hk|exact Hi|]); [right; left; split; [cbn; lia|exact I]|].
    by right; right; left.
  - destruct (worker s); try done. destruct (requested s !! q); [|done]. destruct (decide _); [|done].
    injection Hx as <-. apply Hstay. destruct (_ <? _)%Z; [|done]. unfold dispatch. by destruct (waiting _ !! _).
  - destruct (worker s); try done. destruct (_ <? _)%Z; [done|]. injection Hx as <-. by apply Hstay.
  - destruct (worker s); try done. injection Hx as <-. by apply Hstay.
  - destruct (worker s) as [|j rs|]; try done. destruct (calls s !! k) as [[n []]|] eqn:Hk; try done.
    destruct (decide _); [|done]. destruct rs; injection Hx as <-; [|by apply Hstay].
    eapply goto_moved; [reflexivity|exact Hk|exact Hi|right; left; split; [cbn; lia|exact I]].
  - destruct (calls s !! k) as [[n [| | | | | |ips [|j todo]|]]|] eqn:Hk; try done.
    destruct (calls s !! j) as [[n' [| | |id| | | |]]|] eqn:Hj; try done. injection Hx as <-.
    assert (Hne : j ≠ k) by (intros ->; congruence).
    destruct (goto_moved i j (PRet (Ok ips)) _ p n' name s s s eq_refl Hj Hi) as (p1 & H1 & M1); [right; left; split; [cbn; lia|exact I]|].
    assert (Hk1 : calls (goto j (PRet (Ok ips)) s) !! k = Some (mk_call n (PNotify ips (j :: todo)))).
    { rewrite (goto_lookup j k _ _ _ Hj). by rewrite decide_False. }
    rewrite (goto_lookup k i _ _ _ Hk1). destruct (decide (k = i)) as [->|]; [|by exists p1].
    rewrite Hk in Hi. injection Hi as -> <-. exists (PNotify ips todo). split; [done|]. right; right; right.
    by exists ips, j, todo, n', id.
  - destruct (calls s !! k) as [[n [| | | | | |ips todo|]]|] eqn:Hk; try done.
    destruct (calls s !! j) as [[n' [| | |id| | | |]]|] eqn:Hj; try done.
    destruct (decide _); [|done]. injection Hx as <-.
    eapply goto_moved; [reflexivity|exact Hj|exact Hi|right; left; split; [cbn; lia|exact I]].
  - destruct (calls s !! k) as [[n [| | | | | |ips [|]|]]|] eqn:Hk; try done. injection Hx as <-.
    eapply goto_moved; [reflexivity|exact Hk|exact Hi|right; left; split; [cbn; lia|exact I]].
Qed.

(** A call that has returned stays so. *)
Lemma exec_returned (a : action) (s s' : state) (i : nat) (name : bytes) (r : outcome addrs) :
  exec a s = Some s' → calls s !! i = Some (mk_call name (PRet r)) → calls s' !! i = Some (mk_call name (PRet r)).
Proof.
  intros Hx Hi. destruct (exec_moved a s s' i name _ Hx Hi) as (p' & -> & [->|[[Hst _]|[[Hst _]|(? & ? & ? & ? & ? & ? & _ & _)]]]); try done.
  exfalso. destruct p'; cbn in Hst; lia.
Qed.

(** The worker's handler sends to a call that has returned. *)
Definition worker_wedged (i : nat) (name : bytes) (r : outcome addrs) (rs : option addrs) (s : state) : Prop :=
  worker s = WHandler i rs ∧ calls s !! i = Some (mk_call name (PRet r)).

Lemma exec_wedged (a : action) (i : nat) (name : bytes) (r : outcome addrs) (rs : option addrs) (s s' : state) :
  exec a s = Some s' → worker_wedged i name r rs s → worker_wedged i name r rs s'.
Proof.
  intros Hx [Hw Hi]. split; [|by eapply exec_returned].
  destruct a as [nm|nm|k|k|k|k|k|k e|k|q m|m| |k|k|k j|k]; cbn [exec] in Hx; try (rewrite Hw in Hx; try done);
    try (by injection Hx as <-);
    try (destruct (calls s !! k) as [[n []]|] eqn:Hk; try done; injection Hx as <-; by repeat case_match).
  - destruct (calls s !! k) as [[n []]|] eqn:Hk; try done. destruct (decide (k = i)) as [->|]; [congruence|done].
  - destruct (calls s !! k) as [[n [| | | | | |ips [|j todo]|]]|] eqn:Hk; try done.
    destruct (calls s !! j) as [[n' [| | |id| | | |]]|] eqn:Hj; try done. by injection Hx as <-.
  - destruct (calls s !! k) as [[n [| | | | | |ips todo|]]|] eqn:Hk; try done.
    destruct (calls s !! j) as [[n' [| | |id| | | |]]|] eqn:Hj; try done. destruct (decide _); [|done]. by injection Hx as <-.
  - destruct (calls s !! k) as [[n [| | | | | |ips [|j todo]|]]|] eqn:Hk; try done. by injection Hx as <-.
Qed.

(** A call whose next callback is one of a call that has gone on. *)
Definition notify_wedged (i j : nat) (name : bytes) (ips : addrs) (todo : list nat) (s : state) : Prop :=
  calls s !! i = Some (mk_call name (PNotify ips (j :: todo))) ∧
  ∃ n p, calls s !! j = Some (mk_call n p) ∧ 3 < stage p.

Lemma exec_notify_wedged (a : action) (i j : nat) (name : bytes) (ips : addrs) (todo : list nat) (s s' : state) :
  exec a s = Some s' → notify_wedged i j name ips todo s → notify_wedged i j name ips todo s'.
Proof.
  intros Hx [Hi (n & p & Hj & Hp)]. split.
  - destruct (exec_moved a s s' i name _ Hx Hi) as (p' & Hp' & Hm). rewrite Hp'.
    destruct Hm as [->|[[_ []]|[[Hst _]|(ips' & j' & todo' & n' & id & [= <- <- <-] & _ & Hj')]]]; [done|done|].
    rewrite Hj' in Hj. injection Hj as <- <-. cbn in Hp. lia.
  - destruct (exec_moved a s s' j n p Hx Hj) as (p' & Hp' & Hm). exists n, p'. split; [done|].
    destruct Hm as [->|[[? _]|[[_ Hst]|(? & ? & ? & ? & ? & -> & -> & _)]]]; [done|lia|lia|done].
Qed.

(** ** Properties *)

(** C27: a resolution only returns what was asked: in every interleaving of
    calls, replies, failures and cache evictions, the addresses a call of
    [LookupIP] returns for a name, and those the cache holds for it, are those
    of a reply the other side gave to a request for that very name - as long as
    no id is drawn again before the request of the call that drew it is written
    and answered.  (Ids come round after 32769 draws, and this condition is
    needed: [lookup_confused].) *)
Theorem lookup_sound (s : state) (i : nat) (name : bytes) (ips : addrs) :
  rtc timely_step start s →
  calls s !! i = Some (mk_call name (PRet (Ok ips))) ∨ cache s !! name = Some ips →
  ∃ k r, requested s !! k = Some r ∧ rq_name r = name ∧ (k, ips) ∈ replied s.
Proof.
  intros Hs%resolver_reachable [Hi|Hc]; [by apply (ok_calls s Hs) in Hi|by apply (ok_cache s Hs) in Hc].
Qed.

Definition dns_reply (id : Z) (ips : addrs) : Message := ResultDNS (mk_ResultDNS 0 id ips []).

(** Two calls for one name share the request, a third is for another name and
    is answered first, a fourth finds the cache. *)
Definition sample_actions : list action :=
  [ACall (lit "a.b"); ACall (lit "a.b"); ACall (lit "c.d"); ACache 0; ACache 1; ACache 2; ADraw 0; ADraw 1; ADraw 2;
   AJoin 0; AJoin 1; AJoin 2; ARequest 0; ARequest 2;
   AReply 1 (dns_reply 3 [lit "cd"]); AReceive 2; ANotified 2;
   AReply 0 (dns_reply 1 [lit "ab"]); AReceive 0; ANotify 0; ANotified 0; ACall (lit "a.b"); ACache 3].
Definition sample_state : state := default start (run_actions exec sample_actions start).

Lemma lookup_sound_witness :
  calls sample_state !! 3 = Some (mk_call (lit "a.b") (PRet (Ok [lit "ab"]))) ∧
  cache sample_state !! lit "c.d" = Some [lit "cd"] ∧
  (∃ k r, requested sample_state !! k = Some r ∧ rq_name r = lit "a.b" ∧ (k, [lit "ab"]) ∈ replied sample_state) ∧
  (∃ k r, requested sample_state !! k = Some r ∧ rq_name r = lit "c.d" ∧ (k, [lit "cd"]) ∈ replied sample_state).
Proof.
  assert (Hr : rtc timely_step start sample_state).
  { apply few_draws_timely; [|vm_compute; discriminate].
    apply (run_actions_rtc exec sample_actions). vm_compute. reflexivity. }
  split; [vm_compute; reflexivity|]. split; [vm_compute; reflexivity|]. split.
  - apply (lookup_sound sample_state 3); [exact Hr|left; vm_compute; reflexivity].
  - apply (lookup_sound sample_state 0); [exact Hr|right; vm_compute; reflexivity].
Defined.

(** A call at the end of the list goes on. *)
Lemma last_lookup (l : list call) (name : bytes) (p : pc) : (l ++ [mk_call name p]) !! length l = Some (mk_call name p).
Proof. by apply list_lookup_middle. Qed.
Lemma last_goto (name : bytes) (p q : pc) (s : state) (l : list call) :
  calls s = l ++ [mk_call name p] →
  goto (length l) q s = mk_state (cache s) (seed s) (nsWait s) (waiting s) (worker s) (l ++ [mk_call name q])
                          (drawn s) (drew s) (requested s) (replied s).
Proof.
  intros E. unfold goto. rewrite E, last_lookup. f_equal. rewrite insert_app_r_alt by lia. by rewrite Nat.sub_diag.
Qed.

(** A further call that looks into the cache and draws an id. *)
Definition another (name : bytes) (s : state) : state :=
  mk_state (cache s) (Backend.nextNsReqId (seed s)) (nsWait s) (waiting s) (worker s)
    (calls s ++ [mk_call name (PJoin (Backend.nextNsReqId (seed s)))]) (S (drawn s)) (<[length (calls s) := drawn s]> (drew s))
    (requested s) (replied s).

Ltac act a := eapply rtc_l; [exists a; cbn [exec calls]; rewrite ?last_lookup|].

Lemma another_step (name : bytes) (s : state) : cache s !! name = None → rtc step s (another name s).
Proof.
  intros Hc. act (ACall name); [done|]. act (ACache (length (calls s))).
  { cbn [cache]. rewrite Hc. by erewrite last_goto. }
  cbn [cache seed nsWait waiting worker drawn drew requested replied]. act (ADraw (length (calls s))).
  { by erewrite last_goto. }
  apply rtc_refl.
Qed.

Definition others (n : nat) (name : bytes) (s : state) : state := Nat.iter n (another name) s.

Lemma others_fields (n : nat) (name : bytes) (s : state) :
  let s' := others n name s in
  cache s' = cache s ∧ seed s' = Nat.iter n Backend.nextNsReqId (seed s) ∧ nsWait s' = nsWait s ∧ worker s' = worker s ∧
  requested s' = requested s ∧ replied s' = replied s.
Proof.
  unfold others. induction n as [|n (I1 & I2 & I3 & I4 & I5 & I6)]; [done|].
  do 5 (split; [cbn; done || by f_equal|]). exact I6.
Qed.

Lemma others_steps (n : nat) (name : bytes) (s : state) : cache s !! name = None → rtc step s (others n name s).
Proof.
  intros Hc. induction n as [|n IH]; [apply rtc_refl|]. etrans; [exact IH|]. apply (another_step name (others n name s)).
  by destruct (others_fields n name s) as [-> _].
Qed.

(** A call for [other] that has drawn the id of the first request. *)
Lemma confused_tail (name other : bytes) (ips : addrs) (s : state) (l : list call) (r : request) :
  calls s = l ++ [mk_call other (PJoin 1)] → nsWait s !! other = None → worker s = WRead →
  requested s !! 0 = Some r → rq_id r = 1%Z → rq_name r = name → replied s = [] →
  ∃ s' i, rtc step s s' ∧ calls s' !! i = Some (mk_call other (PRet (Ok ips))) ∧ cache s' !! other = Some ips ∧
    replied s' = [(0, ips)] ∧ ∃ r, requested s' !! 0 = Some r ∧ rq_name r = name.
Proof.
  destruct s as [ca sd ns wt w cs dr dw rq rp]. cbn [calls nsWait worker requested replied].
  intros -> Hns -> Hr Hid Hn ->. eexists _, (length l). split.
  { act (AJoin (length l)); [cbn [nsWait]; rewrite Hns; by erewrite last_goto|].
    cbn [cache seed nsWait waiting worker drawn drew requested replied set_nsWait].
    act (ARequest (length l)); [by erewrite last_goto|].
    cbn [cache seed nsWait waiting worker drawn drew requested replied record_request register].
    act (AReply 0 (dns_reply 1 ips)).
    { cbn [worker requested]. rewrite (lookup_app_l_Some _ _ _ _ Hr), Hid. cbn [AckMessageId dns_reply sdns_Ack].
      rewrite decide_True by done. change (0 <? 1)%Z with true. unfold dispatch, record_reply.
      cbn [AckMessageId sdns_Ack waiting]. by rewrite lookup_insert_eq. }
    cbn [cache seed nsWait waiting worker calls drawn drew requested replied Backend.result_addresses dns_reply sdns_Addresses].
    act (AReceive (length l)).
    { cbn [worker]. rewrite decide_True by done. by erewrite last_goto. }
    cbn [cache seed nsWait waiting worker calls drawn drew requested replied set_cache set_worker].
    unfold callbacks. cbn [nsWait set_cache]. rewrite lookup_insert_eq, map_to_list_empty. cbn [map].
    act (ANotified (length l)); [unfold finish; by erewrite last_goto|]. apply rtc_refl. }
  cbn [calls cache replied requested set_nsWait]. split; [apply last_lookup|]. split; [apply lookup_insert_eq|].
  split; [done|]. exists r. split; [by apply lookup_app_l_Some|done].
Qed.

(** The ids do come round: when the reply to a request is so late that its id
    has been drawn again, by a call for another name, that call returns, and
    the cache keeps, the addresses of the first name. *)
Theorem lookup_confused (name other : bytes) (ips : addrs) :
  name ≠ other →
  ∃ s i, rtc step start s ∧ calls s !! i = Some (mk_call other (PRet (Ok ips))) ∧ cache s !! other = Some ips ∧
    replied s = [(0, ips)] ∧ ∃ r, requested s !! 0 = Some r ∧ rq_name r = name.
Proof.
  intros Hne. assert (Hn : ∃ n : nat, Z.of_nat n = 32768%Z) by (exists (Z.to_nat 32768); apply Z2Nat.id; lia).
  destruct Hn as [n Hn].
  set (s1 := mk_state ∅ 1 (<[name := ∅]> ∅) (<[1%Z := 0]> ∅) WRead [mk_call name (PWait 1 0)] 1 (<[0 := 0]> ∅)
               [mk_request 1 name 0] []).
  assert (R1 : rtc step start s1).
  { apply (run_actions_rtc exec [ACall name; ACache 0; ADraw 0; AJoin 0; ARequest 0]). reflexivity. }
  pose proof (others_steps n other s1 eq_refl) as R2.
  pose proof (others_fields n other s1) as (F1 & F2 & F3 & F4 & F5 & F6). set (s2 := others n other s1) in *.
  assert (R3 : rtc step s2 (another other s2)) by (apply another_step; by rewrite F1).
  assert (Hid : Backend.nextNsReqId (seed s2) = 1%Z).
  { rewrite F2. change (seed s1) with (Nat.iter 1 Backend.nextNsReqId 0%Z). rewrite <- Nat.iter_add, Nat.add_1_r.
    change (Nat.iter (S n) Backend.nextNsReqId 0%Z) with (id_of n).
    change (Backend.nextNsReqId (id_of n)) with (id_of (S n)). rewrite id_of_mod, Nat2Z.inj_succ, Hn. reflexivity. }
  destruct (confused_tail name other ips (another other s2) (calls s2) (mk_request 1 name 0)) as (s & i & R4 & H);
    unfold another; cbn [calls nsWait worker requested replied]; rewrite ?Hid, ?F3, ?F4, ?F5, ?F6; try done.
  - cbn. by rewrite lookup_insert_ne.
  - exists s, i. split; [|done]. etrans; [exact R1|]. etrans; [exact R2|]. by etrans.
Qed.

(** C39: a reply that comes too late stops the backend: when a call has given up
    after its 25 seconds its handler stays registered; the reply then blocks
    the worker, the only reader of the tunnel, for ever.  And a call that stops
    waiting for an earlier call's callback blocks that earlier call for ever. *)
Theorem lookup_wedges (name : bytes) (ips : addrs) :
  (∃ s i e, rtc step start s ∧ calls s !! i = Some (mk_call name (PRet (Err e))) ∧
     ∀ s', rtc step s s' → worker s' = WHandler i (Some ips)) ∧
  (∃ s i j n ips', rtc step start s ∧ calls s !! i = Some (mk_call n (PNotify ips' [j])) ∧
     ∀ s', rtc step s s' → calls s' !! i = Some (mk_call n (PNotify ips' [j]))).
Proof.
  set (e := Errorf (lit "<cid:%s> resolving timeout: %s") []). split.
  - set (s := mk_state ∅ 1 (delete name (<[name := ∅]> ∅)) (delete 1%Z (<[1%Z := 0]> ∅)) (WHandler 0 (Some ips))
                [mk_call name (PRet (Err e))] 1 (<[0 := 0]> ∅) [mk_request 1 name 0] [(0, ips)]).
    assert (Hw : worker_wedged 0 name (Err e) (Some ips) s) by done. exists s, 0, e. split; [|split; [done|]].
    + apply (run_actions_rtc exec [ACall name; ACache 0; ADraw 0; AJoin 0; ARequest 0; ATick 0; ATick 0; ATick 0; ATick 0; ATick 0;
                      AReply 0 (dns_reply 1 ips)]).
      unfold s, run_actions, start. cbn [foldl exec mbind option_bind]. cbn. reflexivity.
    + intros s' Hr. by apply (acts_invariant exec _ (λ a, exec_wedged a 0 name (Err e) (Some ips)) s s' Hr).
  - set (l := [ACall (lit "a.b"); ACall (lit "a.b"); ACache 0; ACache 1; ADraw 0; ADraw 1; AJoin 0; AJoin 1; ARequest 0;
               ACallbackTimeout 1; AReply 0 (dns_reply 1 [lit "ip"]); AReceive 0]).
    assert (Hrun : run_actions exec l start = Some (default start (run_actions exec l start))) by (vm_compute; reflexivity).
    set (s := default start (run_actions exec l start)) in *.
    assert (Hw : notify_wedged 0 1 (lit "a.b") [lit "ip"] [] s).
    { split; [vm_compute; reflexivity|]. exists (lit "a.b"), (PRequest 2). split; [vm_compute; reflexivity|cbn; lia]. }
    exists s, 0, 1, (lit "a.b"), [lit "ip"]. split; [by apply (run_actions_rtc exec l)|]. split; [by destruct Hw|].
    intros s' Hr. by apply (acts_invariant exec _ (λ a, exec_notify_wedged a 0 1 _ _ []) s s' Hr).
Qed.
End Resolver.
