(* ===== verification/Lifecycle.v ===== *)
(** Goroutines that come and go: the life of a pooled session on the server
    (src/transport/h1pool/server.go), the single worker of the pool's client
    side (src/transport/h1pool/client.go), and the listeners that start a
    handler per connection (src/transport/h1/server.go, src/socks/socks5/server.go,
    src/h2s/server.go, src/transport/d1/server.go). *)
From S2P Require Import Prelude GoIO.

(** ** A pooled session's instance *)
Module Instance.

(** The goroutine of [instance.start]: about to select, in its [select], past
    it by one of the two channels, returned. *)
Inductive starter := Spawning | Selecting | ByClient | ByServer | Gone.

(** The goroutine it starts: in the tunnel's session, in the session's deferred
    [conn.Close()], sending on [chCloseByServer], ended. *)
Inductive session := Serving | Closing | Signalling | Ended.

Record state := mk_state {
  starts : starter;
  serves : session;
  closed : bool;        (* the buffer, [buf.Close()] *)
  registered : bool;    (* in the map [instances] *)
  exited : bool;
  cancelled : bool;     (* the context handed to the session *)
  eos : nat;            (* OP_EOS packets sent *)
  early : bool;         (* the session closed its connection before the select *)
}.

Definition spawned : state := mk_state Spawning Serving false true false false 0 false.

(** [Close]'s select with a default: the signal is taken only by a starter that
    waits for it. *)
Definition signal_client (p : starter) : starter := match p with Selecting => ByClient | _ => p end.

Definition Close (by_session : bool) (s : state) : state :=
  mk_state (signal_client (starts s)) (if by_session then Signalling else serves s) true (registered s) (exited s) (cancelled s) (eos s)
    (early s || (by_session && match starts s with Spawning => true | _ => false end)).

(** [ASelect]: the starter reaches its select; [AReturn]: the tunnel's handler
    is done and runs its deferred Close; [AClose]: the session's Close;
    [APeerClose]: Close by the trunk's reader, on an OP_EOS packet that names
    the instance; [ASignal]: the send on [chCloseByServer] meets the select;
    [AFinish reply]: the starter's last part and its deferred calls, with a
    reply channel or without.  The send of the OP_EOS packet on that channel is
    taken as done: the channel has room, or its handler takes the packet.  When
    neither is so the starter waits; [PoolNet.eos_strands] shows that it can
    wait for ever. *)
Inductive action := ASelect | AReturn | AClose | APeerClose | ASignal | AFinish (reply : bool).

Definition exec (a : action) (s : state) : option state :=
  match a with
  | ASelect =>
      match starts s with
      | Spawning => Some (mk_state Selecting (serves s) (closed s) (registered s) (exited s) (cancelled s) (eos s) (early s))
      | _ => None
      end
  | AReturn =>
      match serves s with
      | Serving => Some (mk_state (starts s) Closing (closed s) (registered s) (exited s) (cancelled s) (eos s) (early s))
      | _ => None
      end
  | AClose => match serves s with Closing => Some (Close true s) | _ => None end
  | APeerClose => if registered s then Some (Close false s) else None
  | ASignal =>
      match serves s, starts s with
      | Signalling, Selecting =>
          Some (mk_state ByServer Ended (closed s) (registered s) (exited s) (cancelled s) (eos s) (early s))
      | _, _ => None
      end
  | AFinish reply =>
      match starts s with
      | ByClient => Some (mk_state Gone (serves s) (closed s) false true true (eos s) (early s))
      | ByServer => Some (mk_state Gone (serves s) (closed s) false true true (eos s + if reply : bool then 1 else 0) (early s))
      | _ => None
      end
  end.

Definition step : relation state := acts exec.

(** *** What every run keeps *)
Definition instance_ok (s : state) : bool :=
  eqb (registered s) (match starts s with Gone => false | _ => true end) &&
  eqb (cancelled s) (match starts s with Gone => true | _ => false end) &&
  match eos s, starts s, serves s with
  | 0, _, _ => true
  | 1, Gone, Ended => early s
  | _, _, _ => false
  end &&
  match starts s, serves s with
  | ByServer, Ended | Gone, Ended | Spawning, Signalling | Selecting, Signalling => early s
  | ByServer, _ | _, Ended => false
  | _, _ => true
  end.

Lemma exec_ok (a : action) (s s' : state) : exec a s = Some s' → instance_ok s → instance_ok s'.
Proof.
  destruct s as [st se cl re ex ca eo ea].
  destruct a as [| | | | |[]], st, se; try discriminate; destruct re; try discriminate; destruct ea, ca; intros [= <-];
    destruct eo as [|[|eo]]; intros Hok; try done; cbn in *.
Qed.

Lemma reachable_ok (s : state) : rtc step spawned s → instance_ok s.
Proof. intros Hr. by apply (acts_invariant exec instance_ok exec_ok spawned). Qed.

(** A session that signals to nobody does so for ever. *)
Definition stranded (s : state) : Prop := serves s = Signalling ∧ (starts s = ByClient ∨ starts s = Gone).

Lemma exec_stranded (a : action) (s s' : state) : exec a s = Some s' → stranded s → stranded s'.
Proof.
  destruct s as [st se cl re ex ca eo ea]. intros Hx [Hse Hst]. cbn in *. subst se.
  destruct a as [| | | | |reply]; cbn in Hx; destruct Hst as [-> | ->]; try discriminate;
    try (destruct re; try discriminate); injection Hx as <-; by split; [|first [left; reflexivity|right; reflexivity]].
Qed.

(** Once the session has returned, a few moves end the starter. *)
Lemma starter_finishes (s : state) : instance_ok s → serves s ≠ Serving →
  ∃ s', rtc step s s' ∧ starts s' = Gone ∧ cancelled s' = true.
Proof.
  intros Hok Hs.
  assert (Hrun : ∃ l, match run_actions exec l s with Some s' => starts s' = Gone ∧ cancelled s' = true | None => False end).
  { destruct s as [[] [] cl [] ex [] eo ea]; try done;
      [exists [ASelect; AClose; AFinish true]|exists [ASelect; ASignal; AFinish true]| |exists [AClose; AFinish true]
      |exists [ASignal; AFinish true]| |exists [AFinish true]..|exists []|exists []|exists []]; try done;
      by destruct eo as [|[|eo]]. }
  destruct Hrun as [l Hl]. destruct (run_actions exec l s) as [s'|] eqn:E; [|done].
  exists s'. split; [by apply (run_actions_rtc exec l)|done].
Qed.

(** ** Properties *)

(** C40: a pooled session leaks its goroutine and is not announced as ended: in
    every interleaving, an OP_EOS packet is sent only if the session closed its
    connection before its starter had reached the select, since otherwise the
    session's own deferred Close takes the starter out of it; from then on the
    session's goroutine is blocked on its signal for ever. The instance is
    removed all the same: once the session has returned the starter can
    finish, as long as a reply channel it sends its OP_EOS packet on has room
    or is still served, and until it does the instance stays registered. *)
Theorem instance_leaks (s : state) : rtc step spawned s →
  (early s = false → eos s = 0) ∧
  (early s = false → serves s = Signalling → ∀ s', rtc step s s' → serves s' = Signalling) ∧
  (serves s ≠ Serving → ∃ s', rtc step s s' ∧ starts s' = Gone ∧ cancelled s' = true) ∧
  (registered s = true ↔ starts s ≠ Gone).
Proof.
  intros Hr. pose proof (reachable_ok s Hr) as Hok. split; [|split; [|split]].
  - intros He. destruct s as [st se cl re ex ca eo ea]. cbn in *. subst ea.
    destruct eo as [|[|eo]]; [done|..]; destruct st, se, re, ca; done.
  - intros He Hs. assert (Hst : stranded s).
    { split; [done|]. destruct s as [st se cl re ex ca eo ea]. cbn in *. subst. destruct st, re, ca, eo as [|[|eo]]; auto; done. }
    intros s' Hr'. by apply (acts_invariant exec stranded exec_stranded s s' Hr').
  - by apply starter_finishes.
  - destruct s as [st se cl re ex ca eo ea]. cbn in *. destruct st, re; done.
Qed.

(** A session that ends on its own, its starter already waiting. *)
Definition sample_actions : list action := [ASelect; AReturn; AClose; AFinish true].

Lemma instance_leaks_witness :
  ∃ s, rtc step spawned s ∧ starts s = Gone ∧ eos s = 0 ∧ ∀ s', rtc step s s' → serves s' = Signalling.
Proof.
  set (s := default spawned (run_actions exec sample_actions spawned)).
  assert (Hr : rtc step spawned s) by (by apply (run_actions_rtc exec sample_actions)).
  exists s. destruct (instance_leaks s Hr) as (He & Hl & _). split; [done|]. split; [done|]. split; [by apply He|by apply Hl].
Defined.
End Instance.

(** ** The cleaner of the instances *)
Module Cleaner.

(** Instances by number, each with its client's id; [instances]: the map;
    [exited] and [collected], the keys [instancesCleaner] is about to delete. *)
Record state := mk_state {
  ids : list bytes;
  instances : gmap bytes nat;
  exited : gset nat;
  collected : list bytes;
}.

Definition empty : state := mk_state [] ∅ ∅ [].

(** [AStore]: the first packet of a client without an instance; [AExit] and
    [ADelete]: the two deferred calls of [instance.start]; [ACollect] and
    [ARemove]: the two loops of the cleaner. *)
Inductive action := AStore (cid : bytes) | AExit (i : nat) | ADelete (i : nat) | ACollect | ARemove.

Definition removing_keys (s : state) : list bytes :=
  map fst (filter (λ ki, ki.2 ∈ exited s) (map_to_list (instances s))).

Definition exec (a : action) (s : state) : option state :=
  match a with
  | AStore cid =>
      match instances s !! cid with
      | Some _ => None
      | None => Some (mk_state (ids s ++ [cid]) (<[cid := length (ids s)]> (instances s)) (exited s) (collected s))
      end
  | AExit i =>
      match ids s !! i with
      | Some _ => Some (mk_state (ids s) (instances s) (exited s ∪ {[i]}) (collected s))
      | None => None
      end
  | ADelete i =>
      match ids s !! i with
      | Some cid => if decide (i ∈ exited s) then Some (mk_state (ids s) (delete cid (instances s)) (exited s) (collected s)) else None
      | None => None
      end
  | ACollect => Some (mk_state (ids s) (instances s) (exited s) (removing_keys s))
  | ARemove =>
      match collected s with
      | cid :: q => Some (mk_state (ids s) (delete cid (instances s)) (exited s) q)
      | [] => None
      end
  end.

Definition step : relation state := acts exec.

(** The map holds instances under their ids, and a key is collected for an
    instance that has exited. *)
Definition sound (s : state) : Prop :=
  (∀ cid i, instances s !! cid = Some i → ids s !! i = Some cid) ∧
  (∀ cid, cid ∈ collected s → ∃ i, i ∈ exited s ∧ ids s !! i = Some cid).

(** A live instance is in the map, as long as no id has been used twice. *)
Definition live_kept (s : state) : Prop :=
  NoDup (ids s) → ∀ i cid, ids s !! i = Some cid → i ∉ exited s → instances s !! cid = Some i.

Lemma delete_keeps (s : state) (cid : bytes) (j : nat) :
  live_kept s → j ∈ exited s → ids s !! j = Some cid →
  NoDup (ids s) → ∀ i c, ids s !! i = Some c → i ∉ exited s → delete cid (instances s) !! c = Some i.
Proof.
  intros Hl Hj Hid Hn i c Hi He. rewrite lookup_delete_ne; [by apply Hl|]. intros ->.
  apply He. by rewrite (NoDup_lookup _ _ _ _ Hn Hi Hid).
Qed.

Lemma removing_exited (s : state) (cid : bytes) : cid ∈ removing_keys s → ∃ i, instances s !! cid = Some i ∧ i ∈ exited s.
Proof.
  intros ([c i] & -> & Hi)%list_elem_of_fmap. apply list_elem_of_filter in Hi as [He Hi%elem_of_map_to_list]. by exists i.
Qed.

Lemma exec_sound (a : action) (s s' : state) : exec a s = Some s' → sound s ∧ live_kept s → sound s' ∧ live_kept s'.
Proof.
  intros Hx [[H1 H2] Hl]. destruct a as [cid|i|i| |]; cbn in Hx.
  - destruct (instances s !! cid) eqn:Ec; [done|]. injection Hx as <-. split; [split|]; cbn.
    + intros c i Hi. apply lookup_insert_Some in Hi as [[<- <-]|[_ Hi%H1]]; [by apply list_lookup_middle|by apply lookup_app_l_Some].
    + intros c (i & He & Hi)%H2. exists i. split; [done|by apply lookup_app_l_Some].
    + intros Hn i c Hi He. cbn in *. apply NoDup_app in Hn as (Hn & Hd & _).
      apply lookup_app_Some in Hi as [Hi|[Hge Hi]].
      * assert (c ≠ cid) by (intros ->; apply (Hd cid); [by apply (list_elem_of_lookup_2 _ i)|by left]).
        rewrite lookup_insert_ne by done. by apply Hl.
      * apply list_lookup_singleton_Some in Hi as [Hi <-]. rewrite lookup_insert_eq. f_equal. lia.
  - destruct (ids s !! i) eqn:Ei; [|done]. injection Hx as <-. split; [split|]; cbn; [done| |].
    + intros c (j & He & Hj)%H2. exists j. split; [set_solver|done].
    + intros Hn j c Hj He. cbn in *. apply Hl; [done|done|set_solver].
  - destruct (ids s !! i) as [cid|] eqn:Ei; [|done]. case_decide as He; [|done]. injection Hx as <-. split; [split|]; cbn; [|done|].
    + intros c j [_ Hj]%lookup_delete_Some. by apply H1.
    + exact (delete_keeps s cid i Hl He ltac:(done)).
  - injection Hx as <-. split; [split|]; cbn; [done| |done].
    intros c (i & Hi%H1 & He)%removing_exited. by exists i.
  - destruct (collected s) as [|cid q] eqn:Eq; [done|]. injection Hx as <-. destruct (H2 cid) as (i & He & Hi); [by left|].
    split; [split|]; cbn; [|intros c Hc; apply H2; by right|].
    + intros c j [_ Hj]%lookup_delete_Some. by apply H1.
    + exact (delete_keeps s cid i Hl He ltac:(done)).
Qed.

(** ** Properties *)

(** The cleaner is as harmless as its comment says as long as no client id is
    used twice: no live instance is ever removed from the map, whatever the
    cleaner and the instances' own deferred deletes do in between. *)
Theorem cleaner_harmless (s : state) : rtc step empty s → NoDup (ids s) →
  ∀ i cid, ids s !! i = Some cid → i ∉ exited s → instances s !! cid = Some i.
Proof.
  intros Hr. assert (H : sound s ∧ live_kept s); [|by destruct H].
  apply (acts_invariant exec (λ s, sound s ∧ live_kept s) exec_sound empty s Hr).
  split; [|done]. split; [by intros ? ?|]. intros ? []%elem_of_nil.
Qed.

(** Otherwise it can remove the second instance of a client that is still
    served: its data are dropped from then on. *)
Theorem cleaner_race (cid : bytes) :
  ∃ s, rtc step empty s ∧ ids s = [cid; cid] ∧ ¬ (1 ∈ exited s) ∧ instances s !! cid = None.
Proof.
  exists (mk_state [cid; cid] (delete cid (<[cid := 1]> (delete cid (<[cid := 0]> ∅)))) (∅ ∪ {[0]}) []).
  split; [|split; [done|split; [cbn; by rewrite elem_of_union, elem_of_singleton; intros [[]%elem_of_empty|?]|apply lookup_delete_eq]]].
  eapply rtc_l; [by exists (AStore cid)|]. eapply rtc_l; [by exists (AExit 0)|]. eapply rtc_l; [by exists ACollect|].
  assert (E : removing_keys (mk_state [cid] (<[cid := 0]> ∅) (∅ ∪ {[0]}) []) = [cid]).
  { unfold removing_keys. cbn. rewrite insert_empty, map_to_list_singleton. by rewrite filter_cons_True by set_solver. }
  cbn. rewrite E. eapply rtc_l; [exists (ADelete 0); cbn; by rewrite decide_True by set_solver|].
  eapply rtc_l; [exists (AStore cid); cbn; by rewrite lookup_delete_eq|]. eapply rtc_l; [by exists ARemove|]. apply rtc_refl.
Qed.
End Cleaner.

(** ** One worker for the pool *)
Module Worker.

(** [workerAlive], the goroutines started by [tryStartWorker] that have not run
    yet, and those past the [Swap], which never return. *)
Record state := mk_state { alive : bool; starting : nat; working : nat }.

Definition idle : state := mk_state false 0 0.

(** [getClient]'s [tryStartWorker]; the [Swap] of [clientsWorker] by one of the
    goroutines. *)
Definition tryStartWorker (s : state) : state :=
  if alive s then s else mk_state (alive s) (S (starting s)) (working s).

Definition swap (s : state) : option state :=
  match starting s with
  | 0 => None
  | S n => Some (if alive s then mk_state true n (working s) else mk_state true n (S (working s)))
  end.

Inductive action := AGetClient | ASwap.
Definition exec (a : action) (s : state) : option state :=
  match a with AGetClient => Some (tryStartWorker s) | ASwap => swap s end.
Definition step : relation state := acts exec.

Definition counted (s : state) : Prop := working s = if alive s then 1 else 0.

Lemma exec_counted (a : action) (s s' : state) : exec a s = Some s' → counted s → counted s'.
Proof.
  unfold counted. destruct s as [al n w], a; cbn.
  - unfold tryStartWorker. cbn. destruct al; by intros [= <-].
  - unfold swap. cbn. destruct n; [done|]. destruct al; intros [= <-]; cbn; [done|]. by intros ->.
Qed.

Lemma exec_alive (a : action) (s s' : state) : exec a s = Some s' → alive s = true → alive s' = true.
Proof.
  destruct s as [al n w], a; cbn.
  - unfold tryStartWorker. cbn. destruct al; by intros [= <-].
  - unfold swap. cbn. destruct n; [done|]. destruct al; by intros [= <-].
Qed.

(** However many connections ask for a worker at once, one works, and from then
    on for ever. *)
Theorem worker_unique (s : state) : rtc step idle s →
  working s ≤ 1 ∧ (working s = 1 ↔ alive s = true) ∧
  (alive s = true → ∀ s', rtc step s s' → working s' = 1 ∧ alive s' = true) ∧
  (∃ s', rtc step s s' ∧ working s' = 1).
Proof.
  intros Hr. assert (Hc : counted s) by (by apply (acts_invariant exec counted exec_counted idle)).
  unfold counted in Hc. split; [destruct (alive s); lia|]. split; [by destruct (alive s); rewrite Hc|]. split.
  - intros Ha s' Hr'. assert (Hc' : counted s') by (by apply (acts_invariant exec counted exec_counted s)).
    assert (Ha' : alive s' = true) by (by apply (acts_invariant exec (λ s, alive s = true) exec_alive s)).
    unfold counted in Hc'. by rewrite Ha' in Hc'.
  - destruct (alive s) eqn:Ha; [by exists s|]. destruct s as [al n w]. cbn in *. subst.
    exists (mk_state true n 1). split; [|done].
    apply (run_actions_rtc exec [AGetClient; ASwap]). reflexivity.
Qed.
End Worker.

(** ** Listeners *)
Module Listener.
Section accept.
Context {C : Type}.

(** What [Accept] returns, in order; the connections whose handlers have been
    started. [Hang] when no more connections come: the loop waits. *)
Fixpoint accept_loop (accepts : list (outcome C)) (served : list C) : outcome unit * list C :=
  match accepts with
  | [] => (Hang, served)
  | Ok conn :: accepts => accept_loop accepts (served ++ [conn])
  | Err e :: _ => (Err e, served)
  | Panic :: _ => (Panic, served)
  | Hang :: _ => (Hang, served)
  end.

(** [h1.Server] and [socks5.Server]: [listen] is [net.Listen]. *)
Definition Server (listen : outcome unit) (accepts : list (outcome C)) : outcome unit * list C :=
  match listen with Ok _ => accept_loop accepts [] | o => (o, []) end.

Definition socks5_Server : outcome unit → list (outcome C) → outcome unit * list C := Server.

(** The context of [h1.Server] closes the listener, whose [Accept] then fails;
    the one of [socks5.Server] and [h2s.Server] is not looked at. *)
Definition shut_down (e : error) (accepts : list (outcome C)) : list (outcome C) := accepts ++ [Err e].

(** [h2s.Server]: an error is logged and the loop goes on. *)
Fixpoint h2s_loop (accepts : list (outcome C)) (served : list C) : outcome unit * list C :=
  match accepts with
  | [] => (Hang, served)
  | Ok conn :: accepts => h2s_loop accepts (served ++ [conn])
  | Err _ :: accepts => h2s_loop accepts served
  | Panic :: _ => (Panic, served)
  | Hang :: _ => (Hang, served)
  end.

Definition h2s_Server (serves : bool) (listen : outcome unit) (accepts : list (outcome C)) : outcome unit * list C :=
  if serves then
    match listen with
    | Ok _ => h2s_loop accepts []
    | Err e => (Err (Wrapf (lit "net.Listen: %v") e), [])
    | o => (o, [])
    end
  else (Ok tt, []).

(** The datagrams of [d1.Server], a size and the sender each: the loop copies
    them and looks their sender up in a map nothing is put into. *)
Fixpoint d1_loop (datagrams : list (outcome (bytes * bytes))) (idx : gmap bytes unit) : outcome unit * gmap bytes unit :=
  match datagrams with
  | [] => (Hang, idx)
  | Ok _ :: datagrams => d1_loop datagrams idx
  | Err e :: _ => (Err e, idx)
  | Panic :: _ => (Panic, idx)
  | Hang :: _ => (Hang, idx)
  end.
Definition d1_Server (resolve listen : outcome unit) (datagrams : list (outcome (bytes * bytes))) : outcome unit * gmap bytes unit :=
  match resolve, listen with
  | Ok _, Ok _ => d1_loop datagrams ∅
  | Ok _, o => (o, ∅)
  | o, _ => (o, ∅)
  end.

Definition arrives (o : outcome C) : option C := match o with Ok c => Some c | _ => None end.
Definition returned (o : outcome C) : Prop := match o with Ok _ | Err _ => True | _ => False end.

Lemma accept_loop_spec (conns : list C) (e : error) (more : list (outcome C)) (served : list C) :
  accept_loop (map Ok conns ++ Err e :: more) served = (Err e, served ++ conns).
Proof.
  revert served. induction conns as [|c conns IH]; intros served; cbn; [by rewrite app_nil_r|].
  by rewrite IH, <- app_assoc.
Qed.

Lemma h2s_loop_spec (accepts : list (outcome C)) (served : list C) :
  Forall returned accepts → h2s_loop accepts served = (Hang, served ++ omap arrives accepts).
Proof.
  intros Hok. revert served. induction Hok as [|o accepts Ho _ IH]; intros served; cbn; [by rewrite app_nil_r|].
  destruct o as [c|e| |]; [rewrite IH; cbn; by rewrite <- app_assoc|apply IH|done..].
Qed.

(** Every connection accepted gets its handler, once and in order. h1 and
    socks5 return with the first error, which for h1 is how its context ends
    it; h2s returns only if it cannot listen: neither an error nor its context
    ends it. *)
Theorem listeners_serve (conns : list C) (e : error) (more accepts : list (outcome C)) (serves : bool) :
  Server (Ok tt) (map Ok conns ++ Err e :: more) = (Err e, conns) ∧
  Server (Ok tt) (shut_down e (map Ok conns)) = (Err e, conns) ∧
  Server (Err e) accepts = (Err e, []) ∧
  (Forall returned accepts → h2s_Server true (Ok tt) accepts = (Hang, omap arrives accepts)) ∧
  h2s_Server false (Ok tt) accepts = (Ok tt, []).
Proof.
  split; [apply accept_loop_spec|]. split; [apply (accept_loop_spec conns e [] [])|]. split; [done|]. split; [|done].
  intros Hok. apply (h2s_loop_spec accepts [] Hok).
Qed.
End accept.
End Listener.
