(* ===== verification/Pipeline.v ===== *)
(** A proxied connection from end to end: the relay on the SOCKS5 server's side
    (src/utils/proxy.go), the virtual connection it writes to
    (src/socks/backend/backend_secure.go, virtual_conn.go), the messages on the
    transport, and the relay of the tunnel's server with the target's connection
    (src/socks/tunnel/server_handler.go), composed from the step relations of the
    files Proxy, Backend and Tunnel; and its specification, two byte pipes. *)
From S2P Require Import Prelude GoIO Conf Message Proxy Backend Tunnel.

Module Pipeline.

(** ** The composition *)

(** The messages on the way to the server and back, in order. *)
Record session := mk_session {
  px : Proxy.proxy;
  link : Backend.link;
  relay : Tunnel.relay;
  upq : list Message;
  dnq : list Message;
}.

Section connection.
Context (connId : bytes).

(** The message the connection's goroutine sends for a chunk. *)
Definition up_msg (d : bytes) : Message := Data (mk_Data 0 0 connId d).

(** The target has been dialled and the answer is on its way. *)
Definition start : session :=
  mk_session Proxy.start Backend.dialing Tunnel.start [] [Tunnel.open_reply connId].

(** The relay's reads of its up-link are the virtual connection's, and its
    writes too: between two of them the connection has accepted what the relay
    has written, during one also the chunk. *)
Definition joined (p : Proxy.proxy) (l : Backend.link) : Prop :=
  Proxy.taken (Proxy.down p) = Backend.delivered l ∧
  (Backend.accepted l = Proxy.given (Proxy.up p) ∧ Backend.writing l = Backend.VIdle ∨
   ∃ d, Proxy.writer p = Proxy.Writing d ∧ Backend.accepted l = Proxy.given (Proxy.up p) ++ d).

(** [Proxy] reads with a buffer of this size. *)
Definition read_size : nat := Z.to_nat Conf.DEFAULT_BUFFER_SIZE.
Arguments read_size : simpl never.

(** A read of the virtual connection returns [d]. *)
Inductive reads : bytes → Backend.link → Backend.link → Prop :=
  | reads_left l :
      Backend.dialer l = Backend.DOpen → Backend.reader l = Backend.RIdle → 0 < Backend.lenBufRead (Backend.buf l) →
      reads (Backend.take_buffered read_size (Backend.buf l)).1 l (Backend.serve_left read_size l)
  | reads_chunk l n c :
      Backend.reader l = Backend.RWait n → Backend.worker l = Backend.WData c →
      reads (take n c) l (Backend.serve_chunk n c l).

(** A step of the link that takes nothing from the transport and returns from
    no read; a read may begin. *)
Definition internal (l l' : Backend.link) : Prop :=
  Backend.step l l' ∧ l' ≠ l ∧
  (Backend.worker l = Backend.WRead → Backend.worker l' = Backend.WRead ∨ Backend.worker l' = Backend.WExit) ∧
  Backend.delivered l' = Backend.delivered l ∧ Backend.buf l' = Backend.buf l ∧
  (Backend.reader l' = Backend.reader l ∨
   Backend.reader l = Backend.RIdle ∧ Backend.reader l' = Backend.RWait read_size).

(** The worker hands a message to the connection's handler; without one it is
    dropped. *)
Definition arrive (m : Message) (l : Backend.link) : Backend.link :=
  if Backend.registered l then
    match m with
    | Data m1 => Backend.recv_data (data_Data m1) l
    | ConnectionState m1 => Backend.set_worker (Backend.WState (state_State m1)) l
    | _ => l
    end
  else l.

Definition new_sent (l l' : Backend.link) : list Message :=
  map up_msg (drop (length (Backend.sent l)) (Backend.sent l')).
Definition new_replies (r r' : Tunnel.relay) : list Message :=
  drop (length (Tunnel.to_client r)) (Tunnel.to_client r').

Inductive step : session → session → Prop :=
  | step_proxy a p p' l r u d :
      Proxy.exec a p = Some p' → (∀ c, a ≠ Proxy.ARead Proxy.Down c) → joined p' l →
      step (mk_session p l r u d) (mk_session p' l r u d)
  | step_link p l l' r u d :
      internal l l' → joined p l' → step (mk_session p l r u d) (mk_session p l' r (u ++ new_sent l l') d)
  | step_read c p p' l l' r u d :
      Proxy.exec (Proxy.ARead Proxy.Down c) p = Some p' → reads c l l' →
      step (mk_session p l r u d) (mk_session p' l' r u d)
  | step_arrive p l r u m d :
      Backend.worker l = Backend.WRead → step (mk_session p l r u (m :: d)) (mk_session p (arrive m l) r u d)
  | step_relay p l r r' u d :
      Tunnel.step connId r r' → Tunnel.from_client r' = Tunnel.from_client r →
      step (mk_session p l r u d) (mk_session p l r' u (d ++ new_replies r r'))
  | step_fetch p l r r' m u d :
      Tunnel.step connId r r' → Tunnel.from_client r' = Tunnel.from_client r ++ [m] →
      step (mk_session p l r (m :: u) d) (mk_session p l r' u (d ++ new_replies r r')).

(** ** The specification: a pipe in each direction *)

(** What went into the pipe of each direction, and what has come out. *)
Record pipes := mk_pipes { sent_up : bytes; got_up : bytes; sent_down : bytes; got_down : bytes }.

Definition empty : pipes := mk_pipes [] [] [] [].

Inductive pipes_step : pipes → pipes → Prop :=
  | put_up a b c e d : pipes_step (mk_pipes a b c e) (mk_pipes (a ++ d) b c e)
  | get_up a b c e d : b ++ d `prefix_of` a → pipes_step (mk_pipes a b c e) (mk_pipes a (b ++ d) c e)
  | put_down a b c e d : pipes_step (mk_pipes a b c e) (mk_pipes a b (c ++ d) e)
  | get_down a b c e d : e ++ d `prefix_of` c → pipes_step (mk_pipes a b c e) (mk_pipes a b c (e ++ d)).

(** What the application wrote, what the target was given, what the target
    sent, what the application was given. *)
Definition view (s : session) : pipes :=
  mk_pipes (Proxy.taken (Proxy.up (px s))) (Tunnel.to_target (relay s))
    (Tunnel.from_target (relay s)) (Proxy.given (Proxy.down (px s))).

(** Every goroutine runs and holds nothing, and nothing is on the transport. *)
Definition settled (s : session) : Prop :=
  Proxy.writer (px s) = Proxy.Selecting ∧ Proxy.main (px s) = Proxy.Selecting ∧
  (∀ i, Proxy.queue (Proxy.flow_of i (px s)) = [] ∧ Proxy.in_hand (Proxy.rd (Proxy.flow_of i (px s))) = []) ∧
  Backend.worker (link s) = Backend.WRead ∧ Backend.sender (link s) = Backend.GRun ∧
  Backend.writing (link s) = Backend.VIdle ∧ Backend.left (Backend.buf (link s)) = [] ∧
  Backend.registered (link s) = true ∧
  Tunnel.main (relay s) = Tunnel.MSelect ∧ Tunnel.pending_down (relay s) = [] ∧ Tunnel.pending_up (relay s) = [] ∧
  upq s = [] ∧ dnq s = [].

(** ** Histories only grow *)
Ltac grows := first [reflexivity | by apply prefix_app_r].

Lemma proxy_grows (a : Proxy.action) (p p' : Proxy.proxy) : Proxy.exec a p = Some p' →
  Proxy.taken (Proxy.up p) `prefix_of` Proxy.taken (Proxy.up p') ∧
  Proxy.given (Proxy.down p) `prefix_of` Proxy.given (Proxy.down p').
Proof.
  intros Hx. destruct p as [[r1 q1 t1 g1] [r2 q2 t2 g2] w m es c]. destruct a as [[] d|[] e|[]|[]| | |k e| | | | | |k e];
    unfold Proxy.exec, Proxy.read_chunk, Proxy.read_fails, Proxy.push, Proxy.reader_exits, Proxy.take_chunk,
      mbind, option_bind in Hx; cbn in Hx; repeat (case_match; cbn in Hx; try done); simplify_eq; cbn; split; grows.
Qed.

Lemma relay_grows (r r' : Tunnel.relay) : Tunnel.step connId r r' →
  Tunnel.to_target r `prefix_of` Tunnel.to_target r' ∧ Tunnel.from_target r `prefix_of` Tunnel.from_target r' ∧
  Tunnel.to_client r `prefix_of` Tunnel.to_client r'.
Proof.
  intros Hst. destruct Hst; cbn; repeat (case_match; cbn); do 2 (split; [grows|]); grows.
Qed.

Lemma link_grows (l l' : Backend.link) : Backend.step l l' →
  Backend.sent l `prefix_of` Backend.sent l' ∧
  (Backend.received l' = Backend.received l ∨ Backend.worker l = Backend.WRead ∧ ∃ d, Backend.worker l' = Backend.WData d) ∧
  (Backend.registered l' = true → Backend.registered l = true).
Proof.
  intros Hst. destruct Hst; cbn; unfold Backend.serve_left; repeat (case_match; cbn);
    (split; [grows|]); split; try done; by eauto.
Qed.
(** ** What every run keeps *)

Definition data (ms : list Message) : bytes := concat (map Tunnel.data_of ms).

Lemma data_app (a b : list Message) : data (a ++ b) = data a ++ data b.
Proof. unfold data. by rewrite map_app, concat_app. Qed.

Lemma data_up_msgs (ds : list bytes) : data (map up_msg ds) = concat ds.
Proof. unfold data. rewrite map_map. cbn. by rewrite map_id. Qed.

Record session_ok (s : session) : Prop := mk_ok {
  ok_px : Proxy.proxy_ok (px s);
  ok_link : Backend.ordered (link s);
  ok_relay : Tunnel.faithful connId (relay s);
  ok_joined : joined (px s) (link s);
  ok_up : Tunnel.from_client (relay s) ++ upq s = map up_msg (Backend.sent (link s));
  ok_down : ∃ seen, seen ++ dnq s = Tunnel.open_reply connId :: Tunnel.to_client (relay s) ∧
    Backend.received (link s) `prefix_of` data seen ∧
    (Backend.registered (link s) = true → Backend.received (link s) = data seen);
}.

Lemma start_session_ok : session_ok start.
Proof.
  split; cbn.
  - apply Proxy.proxy_start_ok.
  - apply Backend.dialing_ordered.
  - apply Tunnel.start_faithful.
  - split; [done|]. by left.
  - done.
  - by exists [].
Qed.

Lemma split_drop {A} (a b : list A) : a `prefix_of` b → b = a ++ drop (length a) b.
Proof. intros [k ->]. by rewrite drop_app_length. Qed.

(** The messages of the client, after a step of the link. *)
Lemma up_grows (l l' : Backend.link) (ms u : list Message) :
  Backend.step l l' → ms ++ u = map up_msg (Backend.sent l) → ms ++ u ++ new_sent l l' = map up_msg (Backend.sent l').
Proof.
  intros ([k E] & _)%link_grows Hu. unfold new_sent. by rewrite E, drop_app_length, map_app, <- Hu, app_assoc.
Qed.

(** What a read leaves alone. *)
Lemma reads_same (c : bytes) (l l' : Backend.link) : reads c l l' →
  Backend.step l l' ∧ Backend.delivered l' = Backend.delivered l ++ c ∧ Backend.accepted l' = Backend.accepted l ∧
  Backend.writing l' = Backend.writing l ∧ Backend.sent l' = Backend.sent l ∧
  Backend.received l' = Backend.received l ∧ Backend.registered l' = Backend.registered l.
Proof.
  intros [l1 Hd Hr Hl|l1 n c1 Hr Hw]; (split; [by constructor|]); [|done].
  unfold Backend.serve_left. by destruct (Backend.take_buffered read_size (Backend.buf l1)).
Qed.

(** What arrived, after a step of the link that takes nothing. *)
Lemma down_kept (l l' : Backend.link) (r : Tunnel.relay) (d : list Message) :
  Backend.received l' = Backend.received l → (Backend.registered l' = true → Backend.registered l = true) →
  (∃ seen, seen ++ d = Tunnel.open_reply connId :: Tunnel.to_client r ∧ Backend.received l `prefix_of` data seen ∧
    (Backend.registered l = true → Backend.received l = data seen)) →
  ∃ seen, seen ++ d = Tunnel.open_reply connId :: Tunnel.to_client r ∧ Backend.received l' `prefix_of` data seen ∧
    (Backend.registered l' = true → Backend.received l' = data seen).
Proof. intros E Hreg (seen & Hd & Hp & Hr). exists seen. rewrite E. auto. Qed.

Lemma internal_received (l l' : Backend.link) : internal l l' →
  Backend.received l' = Backend.received l ∧ (Backend.registered l' = true → Backend.registered l = true).
Proof.
  intros (Hst & _ & Hw & _). destruct (link_grows l l' Hst) as (_ & Hrec & Hreg). split; [|done].
  destruct Hrec as [?|[Hwr [d' Hd']]]; [done|]. rewrite Hd' in Hw. by destruct (Hw Hwr).
Qed.

(** A message arrives. *)
Lemma arrive_ordered (m : Message) (l : Backend.link) :
  Backend.worker l = Backend.WRead → Backend.ordered l → Backend.ordered (arrive m l).
Proof.
  intros Hw Ho. unfold arrive. destruct (Backend.registered l) eqn:Hr; [|done].
  destruct m; try done; (eapply Backend.step_ordered; [|exact Ho]);
    [by apply Backend.recv_state_step|by apply Backend.recv_data_step].
Qed.

Lemma arrive_same (m : Message) (l : Backend.link) :
  Backend.delivered (arrive m l) = Backend.delivered l ∧ Backend.accepted (arrive m l) = Backend.accepted l ∧
  Backend.writing (arrive m l) = Backend.writing l ∧ Backend.sent (arrive m l) = Backend.sent l ∧
  Backend.registered (arrive m l) = Backend.registered l ∧
  Backend.received (arrive m l) = Backend.received l ++ (if Backend.registered l then Tunnel.data_of m else []).
Proof.
  unfold arrive. destruct (Backend.registered l) eqn:Hr; [destruct m|]; cbn; rewrite ?app_nil_r; done.
Qed.

Lemma arrive_ok (p : Proxy.proxy) (l : Backend.link) (r : Tunnel.relay) (u d : list Message) (m : Message) :
  Backend.worker l = Backend.WRead → session_ok (mk_session p l r u (m :: d)) → session_ok (mk_session p (arrive m l) r u d).
Proof.
  intros Hw [Hp Hl Hr Hj Hu (seen & Hd & Hpre & Heq)]. cbn in *.
  destruct (arrive_same m l) as (E1 & E2 & E3 & E4 & E5 & E6). split; cbn; unfold joined; rewrite ?E1, ?E2, ?E3, ?E4; try done.
  - by apply arrive_ordered.
  - exists (seen ++ [m]). rewrite data_app, E5, E6, <- app_assoc. split; [done|]. unfold data at 2 4. cbn. rewrite app_nil_r.
    destruct (Backend.registered l) eqn:Hreg.
    + by rewrite (Heq eq_refl).
    + rewrite app_nil_r. split; [by apply prefix_grow|done].
Qed.

(** The server's relay replies. *)
Lemma replies_grow (r r' : Tunnel.relay) (l : Backend.link) (d : list Message) :
  Tunnel.step connId r r' →
  (∃ seen, seen ++ d = Tunnel.open_reply connId :: Tunnel.to_client r ∧ Backend.received l `prefix_of` data seen ∧
    (Backend.registered l = true → Backend.received l = data seen)) →
  ∃ seen, seen ++ d ++ new_replies r r' = Tunnel.open_reply connId :: Tunnel.to_client r' ∧ Backend.received l `prefix_of` data seen ∧
    (Backend.registered l = true → Backend.received l = data seen).
Proof.
  intros (_ & _ & [k E])%relay_grows (seen & Hd & H). exists seen. split; [|done].
  unfold new_replies. by rewrite E, drop_app_length, app_assoc, Hd.
Qed.

(** A read keeps the two sides together. *)
Lemma read_down (c : bytes) (p p' : Proxy.proxy) : Proxy.exec (Proxy.ARead Proxy.Down c) p = Some p' →
  Proxy.rd (Proxy.down p) = Proxy.Reading ∧ (len c <= Conf.DEFAULT_BUFFER_SIZE)%Z ∧
  p' = Proxy.set_down (Proxy.mk_flow (Proxy.Sending c) (Proxy.queue (Proxy.down p))
         (Proxy.taken (Proxy.down p) ++ c) (Proxy.given (Proxy.down p))) p.
Proof.
  cbn [Proxy.exec Proxy.flow_of Proxy.put_flow]. unfold Proxy.read_chunk. destruct (Proxy.rd (Proxy.down p)); try done.
  destruct (Z.leb_spec (len c) Conf.DEFAULT_BUFFER_SIZE); [|done]. by intros [= <-].
Qed.

Lemma joined_read (c : bytes) (p p' : Proxy.proxy) (l l' : Backend.link) :
  Proxy.exec (Proxy.ARead Proxy.Down c) p = Some p' → reads c l l' → joined p l → joined p' l'.
Proof.
  intros (_ & _ & ->)%read_down (_ & E1 & E2 & E3 & _)%reads_same [Ht Hj]. unfold joined. cbn. by rewrite E1, E2, E3, Ht.
Qed.

Lemma step_ok (s s' : session) : step s s' → session_ok s → session_ok s'.
Proof.
  intros Hst. destruct Hst as [a p p' l r u d Hp' _ Hj'|p l l' r u d Hi Hj'|c p p' l l' r u d Hp' Hrd|p l r u m d Hw
    |p l r r' u d Hr' Hf|p l r r' m u d Hr' Hf]; [| | |by apply arrive_ok| |];
    intros [Hp Hl Hr Hj Hu Hd]; cbn in *; split; cbn; try done.
  - by apply (Proxy.proxy_exec_ok a p).
  - by apply (Backend.step_ordered l), Hl; destruct Hi.
  - apply up_grows; [apply Hi|done].
  - apply (down_kept l); [by apply internal_received..|done].
  - by apply (Proxy.proxy_exec_ok (Proxy.ARead Proxy.Down c) p).
  - apply (Backend.step_ordered l), Hl. by apply (reads_same c).
  - by apply (joined_read c p p' l).
  - apply reads_same in Hrd as (_ & _ & _ & _ & -> & _). done.
  - apply reads_same in Hrd as (_ & _ & _ & _ & _ & E1 & E2). apply (down_kept l); [done|by rewrite E2|done].
  - by apply (Tunnel.step_faithful connId r).
  - by rewrite Hf.
  - by apply replies_grow.
  - by apply (Tunnel.step_faithful connId r).
  - by rewrite Hf, <- app_assoc.
  - by apply replies_grow.
Qed.

Lemma reachable_session (s : session) : rtc step start s → session_ok s.
Proof. intros Hr. by apply (rtc_invariant step session_ok step_ok start), start_session_ok. Qed.

(** ** From one end to the other *)
Lemma relay_prefixes (r : Tunnel.relay) : Tunnel.faithful connId r →
  data (Tunnel.to_client r) `prefix_of` Tunnel.from_target r ∧ Tunnel.to_target r `prefix_of` data (Tunnel.from_client r).
Proof.
  intros (_ & _ & Hs). unfold Tunnel.streams in Hs. fold (data (Tunnel.to_client r)) (data (Tunnel.from_client r)) in Hs.
  destruct (Tunnel.main r); try done; destruct Hs as [Hd Hu]; split;
    first [rewrite <- Hd | rewrite <- Hu]; by apply prefix_app_r.
Qed.

Lemma accepted_taken (p : Proxy.proxy) (l : Backend.link) :
  Proxy.proxy_ok p → joined p l → Backend.accepted l `prefix_of` Proxy.taken (Proxy.up p).
Proof.
  intros ((Hg & _ & Ha) & _) (_ & [(-> & _)|(d & Hw & ->)]); [done|]. rewrite Hw in Ha.
  rewrite <- Ha. cbn [Proxy.in_write]. rewrite app_assoc. by apply prefix_app_r.
Qed.

Lemma received_replies (l : Backend.link) (r : Tunnel.relay) (d : list Message) :
  (∃ seen, seen ++ d = Tunnel.open_reply connId :: Tunnel.to_client r ∧ Backend.received l `prefix_of` data seen ∧
    (Backend.registered l = true → Backend.received l = data seen)) →
  Backend.received l `prefix_of` data (Tunnel.to_client r) ∧
  (d = [] → Backend.registered l = true → Backend.received l = data (Tunnel.to_client r)).
Proof.
  intros (seen & Hd & Hp & He). change (data (Tunnel.to_client r)) with (data (Tunnel.open_reply connId :: Tunnel.to_client r)).
  rewrite <- Hd, data_app. split; [etrans; [exact Hp|by apply prefix_app_r]|].
  intros -> Hr. cbn. by rewrite app_nil_r, (He Hr).
Qed.

Lemma up_delivered (s : session) : session_ok s → got_up (view s) `prefix_of` sent_up (view s).
Proof.
  intros [Hp Hl Hr Hj Hu _]. cbn. destruct (relay_prefixes _ Hr) as [_ H1]. etrans; [exact H1|].
  apply (f_equal data) in Hu. rewrite data_app, data_up_msgs in Hu.
  etrans; [by apply (prefix_app_r _ (data (Tunnel.from_client (relay s))) (data (upq s)))|]. rewrite Hu.
  destruct Hl as (_ & _ & _ & _ & Hsent & _). etrans; [exact Hsent|]. by apply accepted_taken.
Qed.

Lemma down_delivered (s : session) : session_ok s → got_down (view s) `prefix_of` sent_down (view s).
Proof.
  intros [Hp Hl Hr [Ht _] _ Hd]. cbn. destruct (relay_prefixes _ Hr) as [H1 _].
  destruct (received_replies _ _ _ Hd) as [H2 _]. destruct Hp as (_ & (Hg & _) & _).
  etrans; [exact Hg|]. rewrite Ht. destruct Hl as (_ & _ & _ & Hrec & _).
  etrans; [|etrans; [exact H2|exact H1]]. rewrite <- Hrec. by apply prefix_app_r.
Qed.

Lemma settled_complete (s : session) : session_ok s → settled s →
  got_up (view s) = sent_up (view s) ∧ got_down (view s) = sent_down (view s).
Proof.
  intros [((_ & _ & Hau) & (_ & _ & Had) & _) Hl Hr [Ht Hj] Hu Hd]
    (Hw & Hm & Hq & Hwk & Hs & Hwr & Hb & Hreg & Hmr & Hpd & Hpu & Huq & Hdq). cbn.
  rewrite Hw in Hau, Hj. rewrite Hm in Had. unfold Proxy.accounted in *.
  destruct (Hq Proxy.Up) as [Q1 Q2], (Hq Proxy.Down) as [Q3 Q4]. cbn [Proxy.flow_of] in *.
  rewrite Q1, Q2 in Hau. rewrite Q3, Q4 in Had. cbn in Hau, Had. rewrite app_nil_r in Hau, Had.
  destruct Hr as (_ & _ & Hst). unfold Tunnel.streams in Hst. rewrite Hmr, Hpd, Hpu, !app_nil_r in Hst.
  fold (data (Tunnel.to_client (relay s))) (data (Tunnel.from_client (relay s))) in Hst. destruct Hst as [Hdn Hup].
  destruct Hl as (_ & _ & _ & Hrec & _ & Hacc). rewrite Hwk, Hb in Hrec. rewrite Hs, Hwr in Hacc.
  cbn in Hrec, Hacc. rewrite app_nil_r in Hrec, Hacc. specialize (Hacc ltac:(done)).
  destruct (received_replies _ _ _ Hd) as [_ Hall]. split.
  - destruct Hj as [(Hj & _)|(d & ? & _)]; [|done]. rewrite Huq, app_nil_r in Hu.
    by rewrite Hup, Hu, data_up_msgs, Hacc, Hj, Hau.
  - by rewrite Had, Ht, Hrec, (Hall Hdq Hreg).
Qed.

Lemma pipes_reach (a b c e a' b' c' e' : bytes) :
  a `prefix_of` a' → b `prefix_of` b' → c `prefix_of` c' → e `prefix_of` e' → b' `prefix_of` a' → e' `prefix_of` c' →
  rtc pipes_step (mk_pipes a b c e) (mk_pipes a' b' c' e').
Proof.
  intros [x ->] [y ->] [z ->] [w ->] Hb He. eapply rtc_l; [apply (put_up a b c e x)|].
  eapply rtc_l; [by apply (get_up _ _ _ _ y)|]. eapply rtc_l; [apply (put_down _ _ _ _ z)|].
  eapply rtc_l; [by apply (get_down _ _ _ _ w)|]. apply rtc_refl.
Qed.

Lemma step_simulates (s s' : session) : step s s' → session_ok s → rtc pipes_step (view s) (view s').
Proof.
  intros Hst Hok. pose proof (step_ok s s' Hst Hok) as Hok'.
  pose proof (up_delivered s' Hok') as Hu. pose proof (down_delivered s' Hok') as Hd.
  destruct Hst as [a p p' l r u d Hp _ _|p l l' r u d _ _|c p p' l l' r u d Hp _|p l r u m d _|p l r r' u d Hr _|p l r r' m u d Hr _];
    try (apply proxy_grows in Hp as [? ?]); try (apply relay_grows in Hr as (? & ? & ?)); by apply pipes_reach.
Qed.
End connection.

(** ** Properties *)

(** C5: a proxied connection is two byte pipes: in every interleaving of the
    relay on the client's side, the virtual connection, its sender and the
    uplink's worker, the messages on the transport and the three goroutines of
    the server's relay, what the target is given is a prefix of what the
    application sent and the other way round, growing only at its end; and
    whenever nothing is under way and every goroutine still runs, nothing is
    missing. *)
Theorem pipeline_refines (connId : bytes) (s : session) :
  rtc (step connId) (start connId) s →
  rtc pipes_step empty (view s) ∧
  (settled s → got_up (view s) = sent_up (view s) ∧ got_down (view s) = sent_down (view s)).
Proof.
  intros Hr. split; [|intros Hs; by apply (settled_complete connId), Hs; apply reachable_session].
  assert (Hi : session_ok connId s ∧ rtc pipes_step empty (view s)); [|by destruct Hi].
  apply (rtc_invariant (step connId) (λ s, session_ok connId s ∧ rtc pipes_step empty (view s))) with (start connId); [|done|].
  - intros s1 s2 Hst [Hok Hp]. split; [by apply (step_ok connId s1)|]. etrans; [exact Hp|]. by apply (step_simulates connId).
  - split; [apply start_session_ok|apply rtc_refl].
Qed.

(** Moves of the parts, at a state that is known. *)
Ltac joined_idle := split; [reflexivity|left; split; reflexivity].
Ltac differs_in f := let E := fresh in intros E; apply (f_equal f) in E; cbn in E; discriminate E.
Ltac differs := first [differs_in Backend.worker | differs_in Backend.reader | differs_in Backend.writing | differs_in Backend.sender].
Tactic Notation "proxy_moves" uconstr(a) := eapply rtc_l; [eapply (step_proxy _ a); [vm_compute; reflexivity|done|]|cbn].
Tactic Notation "link_moves" uconstr(c) := eapply rtc_l; [eapply step_link; [split; [eapply c; reflexivity || done|split; [differs|split; [first [by left | by right]|
  split; [reflexivity|split; [reflexivity|first [by left | by right]]]]]]|]|cbn].
Tactic Notation "relay_moves" uconstr(c) := eapply rtc_l; [eapply step_relay; [eapply c; reflexivity || done|reflexivity]|cbn].

Lemma dial_open_step (l : Backend.link) : Backend.dialer l = Backend.DWait → Backend.worker l = Backend.WState (lit "open") →
  Backend.step l (Backend.set_worker Backend.WRead (Backend.set_dialer Backend.DOpen Backend.GRun l)).
Proof. intros Hd Hw. by apply (Backend.dial_state_step l (lit "open")). Qed.

(** A read that returns a whole chunk. *)
Definition serve_all (c : bytes) (l : Backend.link) : Backend.link :=
  Backend.mk_link Backend.WRead (Backend.dialer l) Backend.RIdle (Backend.sender l) (Backend.writing l) (Backend.closing l)
    (Backend.registered l) (Backend.closed l) (Backend.buf l) (Backend.received l) (Backend.delivered l ++ c)
    (Backend.accepted l) (Backend.sent l).

Lemma reads_all (n : nat) (c : bytes) (l : Backend.link) : Backend.reader l = Backend.RWait n → Backend.worker l = Backend.WData c →
  length c ≤ n → reads c l (serve_all c l).
Proof.
  intros Hr Hw Hn. pose proof (reads_chunk l n c Hr Hw) as H. unfold Backend.serve_chunk in H.
  rewrite decide_False in H by lia. by rewrite take_ge in H by done.
Qed.

Lemma short_reads : 3 ≤ read_size.
Proof. unfold read_size, Conf.DEFAULT_BUFFER_SIZE. lia. Qed.

(** A request and its answer. *)
Lemma exchange : ∃ s, rtc (step (lit "c")) (start (lit "c")) s ∧ settled s ∧
  sent_up (view s) = lit "GET" ∧ sent_down (view s) = lit "200".
Proof.
  unfold start. eexists. split.
  - eapply rtc_l; [apply step_arrive; reflexivity|]. cbn.
    link_moves (dial_open_step _). { joined_idle. }
    proxy_moves (Proxy.ARead Proxy.Up (lit "GET")). { joined_idle. }
    proxy_moves (Proxy.APush Proxy.Up). { joined_idle. }
    proxy_moves Proxy.ATakeUp. { joined_idle. }
    link_moves (Backend.write_step _ (lit "GET")). { split; [reflexivity|right; eexists; split; reflexivity]. }
    link_moves (Backend.hand_over_step _ (lit "GET")). { split; [reflexivity|right; eexists; split; reflexivity]. }
    proxy_moves Proxy.AWriteUp. { joined_idle. }
    link_moves (Backend.send_step _ (lit "GET")). { joined_idle. }
    eapply rtc_l; [eapply step_fetch; [apply (Tunnel.step_read_client _ _ (up_msg (lit "c") (lit "GET"))); reflexivity|reflexivity]|cbn].
    relay_moves (Tunnel.step_recv_data (lit "c")).
    relay_moves (Tunnel.step_write_target (lit "c")).
    relay_moves (Tunnel.step_read_target (lit "c") _ (lit "200")).
    relay_moves (Tunnel.step_recv_down (lit "c") _ (lit "200")).
    relay_moves (Tunnel.step_write_client (lit "c")).
    link_moves (Backend.read_wait_step _ read_size). { joined_idle. }
    eapply rtc_l; [apply step_arrive; reflexivity|]. cbn.
    eapply rtc_l; [eapply (step_read _ (lit "200")); [vm_compute; reflexivity|eapply (reads_all read_size); [reflexivity|reflexivity|apply short_reads]]|cbn].
    proxy_moves (Proxy.APush Proxy.Down). { joined_idle. }
    proxy_moves Proxy.ATakeDown. { joined_idle. }
    proxy_moves Proxy.AWriteDown. { joined_idle. }
    apply rtc_refl.
  - split; [|split; reflexivity]. do 2 (split; [reflexivity|]). split; [by intros []|]. repeat (split; [reflexivity|]). reflexivity.
Qed.

Lemma pipeline_refines_witness :
  ∃ s, rtc (step (lit "c")) (start (lit "c")) s ∧ settled s ∧ got_up (view s) = lit "GET" ∧ got_down (view s) = lit "200".
Proof.
  destruct exchange as (s & Hr & Hs & E1 & E2). destruct (pipeline_refines (lit "c") s Hr) as [_ H].
  destruct (H Hs) as [G1 G2]. exists s. by rewrite G1, G2.
Defined.
End Pipeline.
