(* ===== verification/Drain.v ===== *)
(** Liveness of a proxied connection (file Pipeline): as long as no goroutine
    fails, what has been sent gets out, in whatever order the goroutines are
    scheduled.  The argument is a measure that every step without new input
    decreases, and a step that can be made as long as anything is under way. *)
From S2P Require Import Prelude GoIO Conf Message Proxy Backend Tunnel Pipeline.

Module Drain.
Import Pipeline.Pipeline.

(** ** Runs without failures and without new input *)

(** No goroutine has met an error or ended. *)
Definition proxy_healthy (p : Proxy.proxy) : Prop :=
  Proxy.gone (Proxy.writer p) = false ∧ Proxy.gone (Proxy.main p) = false ∧
  (∀ i, match Proxy.rd (Proxy.flow_of i p) with Proxy.Reading | Proxy.Sending _ => True | _ => False end).
Definition link_healthy (l : Backend.link) : Prop :=
  Backend.dialer l ≠ Backend.DFailed ∧ Backend.worker l ≠ Backend.WExit ∧
  Backend.sender l ≠ Backend.GExit ∧ Backend.closing l = Backend.CIdle.
Definition relay_healthy (r : Tunnel.relay) : Prop :=
  match Tunnel.down r with Tunnel.DRead | Tunnel.DSend _ => True | _ => False end ∧
  match Tunnel.up r with Tunnel.UFail _ | Tunnel.UExit => False | _ => True end ∧
  match Tunnel.main r with Tunnel.MReturn _ => False | _ => True end.

Definition healthy (s : session) : Prop :=
  proxy_healthy (px s) ∧ link_healthy (link s) ∧ relay_healthy (relay s).

(** The application or the target sends something. *)
Definition input (s s' : session) : Prop :=
  (Proxy.rd (Proxy.up (px s)) = Proxy.Reading ∧ ∃ d, Proxy.rd (Proxy.up (px s')) = Proxy.Sending d) ∨
  (Tunnel.down (relay s) = Tunnel.DRead ∧ ∃ d, Tunnel.down (relay s') = Tunnel.DSend d).

Section connection.
Context (connId : bytes).

Definition quiet (s s' : session) : Prop := step connId s s' ∧ healthy s' ∧ ¬ input s s'.

(** ** The handshake, and what the goroutines hold *)
Definition is_data (m : Message) : Prop := ∃ m1, m = Data m1.

Definition handshake (l : Backend.link) (d : list Message) : Prop :=
  match Backend.dialer l with
  | Backend.DWait =>
      (Backend.worker l = Backend.WRead ∧ ∃ d', d = Tunnel.open_reply connId :: d' ∧ Forall is_data d') ∨
      (Backend.worker l = Backend.WState (lit "open") ∧ Forall is_data d) ∨ Backend.worker l = Backend.WExit
  | Backend.DOpen => (∀ st, Backend.worker l ≠ Backend.WState st) ∧ Forall is_data d
  | Backend.DFailed => True
  end.

Definition link_shape (l : Backend.link) : Prop :=
  (∀ n, Backend.reader l = Backend.RWait n → n = read_size) ∧
  (Backend.dialer l = Backend.DOpen → Backend.sender l ≠ Backend.GNone) ∧
  (Backend.sender l ≠ Backend.GExit → Backend.registered l = true ∧ Backend.closed l = false).

Record shaped (s : session) : Prop := mk_shaped {
  sh_dial : handshake (link s) (dnq s);
  sh_link : link_shape (link s);
  sh_writing : ∀ d, Proxy.writer (px s) = Proxy.Writing d → d ≠ [];
  sh_up : ∀ m, Tunnel.up (relay s) ≠ Tunnel.USendConn m;
}.

Lemma internal_shape (l l' : Backend.link) : internal l l' → Backend.ordered l → link_shape l → link_shape l'.
Proof.
  intros (Hst & _ & _ & _ & _ & Hrd) (_ & Hg & _) (Hn & Ho & Hs). split; [|clear Hrd Hn].
  - intros n Hr. destruct Hrd as [E|[_ E]]; [apply Hn; congruence|congruence].
  - destruct Hst; unfold Backend.serve_left; cbn; repeat case_match; cbn; split; intros; first [by auto | congruence | apply Hs; congruence | apply Hs; rewrite Hg; congruence].
Qed.

Lemma reads_shape (c : bytes) (l l' : Backend.link) : reads c l l' → link_shape l → link_shape l'.
Proof.
  intros [l1 _ Hr _|l1 n c1 _ _] (Hn & Ho & Hs); (split; [|]); cbn.
  - exact Hn.
  - done.
  - done.
  - done.
Qed.

Lemma internal_handshake (l l' : Backend.link) (d : list Message) :
  internal l l' → handshake l d → handshake l' d.
Proof.
  intros (Hst & _ & Hw & _) H. unfold handshake in *. revert Hw H.
  destruct Hst as [l d1 E _|l st E _|l E|l st Hd E|l Hd|l n Hop Hrd Hl|l|l n Hop Hrd Hl _|l n d1 Hrd E
    |l d1 Hop Hwr Hc Hne|l d1 Hwr Hg|l d1 Hg|l d1 Hg|l Hop Hc|l Hc Hg]; cbn; rewrite ?E, ?Hd; try done.
  - intros [?|?]; done.
  - intros [?|?]; done.
  - destruct (Backend.dialer l); [by auto| |done]. intros _ [_ H]. done.
  - intros _ H. case_decide; cbn; [|done]. split; [done|]. destruct H as [[? _]|[[_ H]|?]]; done.
  - destruct (Backend.dialer l); [|by intros _ [_ H]|done]. by intros _ [[? _]|[[? _]|?]].
Qed.

Lemma reads_handshake (c : bytes) (l l' : Backend.link) (d : list Message) :
  reads c l l' → handshake l d → handshake l' d.
Proof.
  intros [l1 _ _ _|l1 n c1 _ E] H; unfold handshake in *.
  - done.
  - cbn in *. rewrite E in H. destruct (Backend.dialer l1); [|by destruct H|done]. by destruct H as [[? _]|[[? _]|?]].
Qed.

Lemma arrive_handshake (l : Backend.link) (m : Message) (d : list Message) :
  Backend.worker l = Backend.WRead → (Backend.dialer l = Backend.DWait → Backend.registered l = true) →
  handshake l (m :: d) → handshake (arrive m l) d.
Proof.
  intros Hw Hreg H. unfold handshake, arrive in *. rewrite Hw in H. destruct (Backend.dialer l) eqn:Hd.
  - rewrite (Hreg eq_refl). destruct H as [[_ (d' & [= -> ->] & Hd')]|[[? _]|?]]; [|done..].
    cbn. rewrite Hd. right. left. done.
  - destruct H as [_ [[m1 ->] H]%Forall_cons]. destruct (Backend.registered l); cbn; rewrite Hd; [done|]. by rewrite Hw.
  - destruct (Backend.registered l), m; cbn; by rewrite Hd.
Qed.

Lemma replies_handshake (l : Backend.link) (r r' : Tunnel.relay) (d : list Message) :
  Tunnel.faithful connId r' → handshake l d → handshake l (d ++ new_replies r r').
Proof.
  intros [Hf _] H.
  assert (Hn : Forall is_data (new_replies r r')).
  { apply Forall_drop. eapply Forall_impl; [exact Hf|]. intros m [c ->]. by eexists. }
  unfold handshake in *. destruct (Backend.dialer l); [|split; [apply H|apply Forall_app; split; [apply H|done]]|done].
  destruct H as [[Hw (d' & -> & Hd')]|[[Hw Hd]|H]]; [left|right; left|by right; right].
  - split; [done|]. exists (d' ++ new_replies r r'). split; [done|]. by apply Forall_app.
  - split; [done|]. by apply Forall_app.
Qed.

Lemma start_shaped : shaped (start connId).
Proof.
  split; cbn; try done.
  - left. split; [done|]. by exists [].
Qed.

Lemma writing_shape (a : Proxy.action) (p p' : Proxy.proxy) : Proxy.exec a p = Some p' →
  (∀ d, Proxy.writer p = Proxy.Writing d → d ≠ []) → ∀ d, Proxy.writer p' = Proxy.Writing d → d ≠ [].
Proof.
  intros Hx H. destruct p as [[r1 q1 t1 g1] [r2 q2 t2 g2] w m es c]. destruct a as [[] d|[] e|[]|[]| | |k e| | | | | |k e];
    unfold Proxy.exec, Proxy.read_chunk, Proxy.read_fails, Proxy.push, Proxy.reader_exits, Proxy.take_chunk,
      mbind, option_bind in Hx; cbn in Hx; repeat (case_match; cbn in Hx; try done); simplify_eq; cbn; try done.
  intros d [= ->] ->. done.
Qed.

(** Only data messages come from the client. *)
Lemma relay_shape (r r' : Tunnel.relay) : Tunnel.step connId r r' →
  (Tunnel.from_client r' = Tunnel.from_client r ∨ ∃ m, is_data m ∧ Tunnel.from_client r' = Tunnel.from_client r ++ [m]) →
  (∀ m, Tunnel.up r ≠ Tunnel.USendConn m) → ∀ m, Tunnel.up r' ≠ Tunnel.USendConn m.
Proof.
  intros Hst Hf Hu. destruct Hst; cbn in *; try done; [|by repeat case_match].
  destruct Hf as [Hf|(m1 & [d Hm] & [= E]%app_inv_head)]; [|by rewrite E, Hm].
  apply (f_equal length) in Hf. rewrite length_app in Hf. cbn in Hf. lia.
Qed.

Lemma fetched_data (m : Message) (u : list Message) (r : Tunnel.relay) (l : Backend.link) :
  Tunnel.from_client r ++ m :: u = map (up_msg connId) (Backend.sent l) → is_data m.
Proof.
  intros H. assert (Hm : m ∈ map (up_msg connId) (Backend.sent l)) by (rewrite <- H; set_solver).
  apply list_elem_of_fmap in Hm as (d & Hd & _). rewrite Hd. by eexists.
Qed.

Lemma step_shaped (s s' : session) : step connId s s' → session_ok connId s → shaped s → shaped s'.
Proof.
  intros Hst Hok [Hd Hl Hw Hu]. pose proof (step_ok connId s s' Hst Hok) as Hok'.
  destruct Hst as [a p p' l r u d Hp' _ Hj'|p l l' r u d Hi Hj'|c p p' l l' r u d Hp' Hrd|p l r u m d Hwk
    |p l r r' u d Hr' Hf|p l r r' m u d Hr' Hf]; split; cbn in *; try done.
  - by apply (writing_shape a p).
  - by apply (internal_handshake l).
  - apply (internal_shape l); [done|apply Hok|done].
  - by apply (reads_handshake c l).
  - by apply (reads_shape c l).
  - by apply (writing_shape (Proxy.ARead Proxy.Down c) p).
  - apply arrive_handshake; [done| |done]. intros Hdl. apply Hl.
    destruct Hok as [_ (_ & Hg & _) _ _ _ _]. cbn in Hg. by rewrite Hg by (by rewrite Hdl).
  - unfold arrive. destruct (Backend.registered l) eqn:E; [destruct m|]; cbn; done.
  - apply replies_handshake; [apply Hok'|done].
  - apply (relay_shape r r'); auto.
  - apply replies_handshake; [apply Hok'|done].
  - apply (relay_shape r r'); [done| |done]. right. exists m. split; [|done].
    apply (fetched_data m u r l). apply Hok.
Qed.

Lemma reachable_shaped (s : session) : rtc (step connId) (start connId) s → session_ok connId s ∧ shaped s.
Proof.
  intros Hr. apply (rtc_invariant (step connId) (λ s, session_ok connId s ∧ shaped s)) with (start connId); [|done|].
  - intros s1 s2 Hst [Hok Hs]. split; [by apply (step_ok connId s1)|by apply (step_shaped s1)].
  - split; [apply start_session_ok|apply start_shaped].
Qed.

(** ** The measure: what is left to do *)
Definition chunk_load (r : Proxy.reading) : nat := match r with Proxy.Sending _ => 3 | _ => 0 end.
Definition writer_load (w : Proxy.writing) : nat := match w with Proxy.Writing _ => 1 | _ => 0 end.
Definition flow_load (f : Proxy.flow) : nat := chunk_load (Proxy.rd f) + 2 * length (Proxy.queue f).
Definition proxy_load (p : Proxy.proxy) : nat :=
  flow_load (Proxy.up p) + flow_load (Proxy.down p) + writer_load (Proxy.writer p) + writer_load (Proxy.main p).

(** A chunk for the reader may be read in several pieces, one with a byte at least. *)
Definition link_load (l : Backend.link) : nat :=
  match Backend.worker l with Backend.WData d => 4 * length d + 6 | Backend.WState _ => 6 | _ => 0 end +
  4 * Backend.lenBufRead (Backend.buf l) +
  match Backend.reader l with Backend.RIdle => 1 | _ => 0 end +
  match Backend.sender l with Backend.GWrite _ => 5 | _ => 0 end +
  match Backend.writing l with Backend.VSend _ => 6 | _ => 0 end.

Definition relay_load (r : Tunnel.relay) : nat :=
  match Tunnel.down r with Tunnel.DSend d => 4 * length d + 10 | _ => 0 end +
  match Tunnel.up r with Tunnel.USendDat _ | Tunnel.USendConn _ => 3 | _ => 0 end +
  match Tunnel.main r with Tunnel.MWriteClient d => 4 * length d + 9 | Tunnel.MWriteTarget _ => 2 | _ => 0 end.

Definition message_load (m : Message) : nat := 4 * length (Tunnel.data_of m) + 8.

(** Every byte read from the application that the virtual connection has not
    accepted yet counts too. *)
Definition load (s : session) : nat :=
  proxy_load (px s) + link_load (link s) + relay_load (relay s) +
  8 * (length (Proxy.taken (Proxy.up (px s))) - length (Backend.accepted (link s))) +
  4 * length (upq s) + sum_list (map message_load (dnq s)).

(** The relay on the client's side. *)
Lemma proxy_decreases (a : Proxy.action) (p p' : Proxy.proxy) :
  Proxy.exec a p = Some p' → (∀ c, a ≠ Proxy.ARead Proxy.Down c) → proxy_healthy p' →
  (∃ d, a = Proxy.ARead Proxy.Up d) ∨
  proxy_load p' < proxy_load p ∧ Proxy.taken (Proxy.up p') = Proxy.taken (Proxy.up p).
Proof.
  intros Hx Ha Hh. destruct p as [[r1 q1 t1 g1] [r2 q2 t2 g2] w m es c].
  destruct a as [[] d|[] e|[]|[]| | |k e| | | | | |k e]; [by left; eexists|by destruct (Ha d)|..];
    unfold Proxy.exec, Proxy.read_chunk, Proxy.read_fails, Proxy.push, Proxy.reader_exits, Proxy.take_chunk,
      mbind, option_bind in Hx; cbn in Hx; repeat (case_match; cbn in Hx; try done); simplify_eq;
    try (destruct Hh as (? & ? & ?); done);
    try (destruct Hh as (_ & _ & Hh); first [by destruct (Hh Proxy.Up) | by destruct (Hh Proxy.Down)]);
    right; (split; [|done]); unfold proxy_load, flow_load; cbn; rewrite ?length_app; cbn; lia.
Qed.

(** The virtual connection. *)
Lemma serve_nothing (n : nat) (l : Backend.link) :
  Backend.delivered (Backend.serve_left n l) = Backend.delivered l → Backend.buf (Backend.serve_left n l) = Backend.buf l →
  Backend.serve_left n l = l.
Proof. destruct l. unfold Backend.serve_left. destruct (Backend.take_buffered _ _). cbn. by intros -> ->. Qed.

Lemma link_decreases (l l' : Backend.link) (k : nat) : internal l l' → link_healthy l' → length (Backend.accepted l') ≤ k →
  link_load l' + 8 * (k - length (Backend.accepted l')) + 4 * length (new_sent connId l l') <
  link_load l + 8 * (k - length (Backend.accepted l)).
Proof.
  intros (Hst & Hne & Hw & Hd & Hb & Hr) (H1 & H2 & H3 & H4). unfold link_load, new_sent. rewrite length_map, length_drop.
  destruct Hst as [l d1 E _|l st E _|l E|l st Hdl E|l Hdl|l n Hop Hrd Hl|l|l n Hop Hrd Hl _|l n d1 Hrd E
    |l d1 Hop Hwr Hc Hne1|l d1 Hwr Hg|l d1 Hg|l d1 Hg|l Hop Hc|l Hc Hg]; cbn in *; rewrite ?E, ?Hrd, ?Hwr, ?Hg; try done.
  - by destruct (Hw E).
  - by destruct (Hw E).
  - case_decide; cbn in *; [lia|done].
  - by destruct Hne; apply serve_nothing.
  - lia.
  - destruct Hr as [Hr|[Hr _]]; congruence.
  - rewrite length_app in *. destruct d1; [done|]. cbn in *. lia.
  - lia.
  - rewrite length_app. cbn. lia.
Qed.

Lemma read_size_pos : 0 < read_size.
Proof. unfold read_size, Conf.DEFAULT_BUFFER_SIZE. lia. Qed.

Lemma buffer_load (dat : bytes) (c : Backend.vbuf) :
  Backend.lenBufRead (Backend.appendBuf dat c) = Backend.lenBufRead c + length dat.
Proof. unfold Backend.appendBuf. by case_decide. Qed.

Lemma reads_decreases (c : bytes) (p p' : Proxy.proxy) (l l' : Backend.link) :
  Proxy.exec (Proxy.ARead Proxy.Down c) p = Some p' → reads c l l' →
  proxy_load p' + link_load l' < proxy_load p + link_load l ∧ Proxy.up p' = Proxy.up p.
Proof.
  intros (Hr & _ & ->)%read_down Hrd. split; [|done]. unfold proxy_load, flow_load, link_load. rewrite Hr. cbn.
  destruct Hrd as [l1 _ E1 E2|l1 n c E1 E2]; rewrite E1.
  - unfold Backend.serve_left, Backend.take_buffered. cbn. rewrite E1. pose proof read_size_pos. case_decide; lia.
  - rewrite E2. cbn. case_decide; rewrite ?buffer_load, ?length_drop; lia.
Qed.

Lemma arrive_decreases (m : Message) (l : Backend.link) :
  Backend.worker l = Backend.WRead →
  link_load (arrive m l) < link_load l + message_load m ∧ Backend.accepted (arrive m l) = Backend.accepted l.
Proof.
  intros Hw. unfold arrive, message_load, link_load. rewrite Hw.
  destruct (Backend.registered l); [destruct m|]; cbn; rewrite ?Hw; (split; [lia|done]).
Qed.

(** The relay on the server's side. *)
Definition one_fetched (r r' : Tunnel.relay) : nat := length (Tunnel.from_client r') - length (Tunnel.from_client r).

Lemma relay_decreases (r r' : Tunnel.relay) :
  Tunnel.step connId r r' → relay_healthy r' →
  ¬ (Tunnel.down r = Tunnel.DRead ∧ ∃ d, Tunnel.down r' = Tunnel.DSend d) →
  relay_load r' + sum_list (map message_load (new_replies r r')) < relay_load r + 4 * one_fetched r r'.
Proof.
  intros Hst (H1 & H2 & H3) Hin. unfold relay_load, one_fetched, new_replies.
  destruct Hst as [r chunk Hd Hl|r err Hd|r err Hd|r m Hu|r err Hu|r err Hu|r chunk Hm Hd
    |r m1 Hm Hu|r m1 Hm Hu|r err errs Hm Hc|r Hm|r dat Hm|r dat Hm|r dat err Hm]; cbn in *;
    rewrite ?drop_all, ?Nat.sub_diag; cbn; rewrite ?Hd, ?Hu, ?Hm; try done.
  - destruct Hin. by eauto.
  - rewrite length_app. cbn. destruct m; cbn; lia.
  - destruct (Tunnel.adjust_buffer _ _ _). cbn. rewrite ?drop_all, ?Nat.sub_diag. cbn. lia.
  - lia.
  - case_decide; lia.
  - rewrite drop_app_length. cbn. lia.
  - lia.
Qed.

Lemma sum_load_app (a b : list Message) :
  sum_list (map message_load (a ++ b)) = sum_list (map message_load a) + sum_list (map message_load b).
Proof. induction a as [|m a IH]; cbn; lia. Qed.

Lemma quiet_decreases (s s' : session) : quiet s s' → session_ok connId s → load s' < load s.
Proof.
  intros (Hst & (Hhp & Hhl & Hhr) & Hin) Hok. pose proof (step_ok connId s s' Hst Hok) as Hok'. unfold load.
  destruct Hst as [a p p' l r u d Hp' Hna Hj'|p l l' r u d Hi Hj'|c p p' l l' r u d Hp' Hrd|p l r u m d Hwk
    |p l r r' u d Hr' Hf|p l r r' m u d Hr' Hf]; cbn in *.
  - destruct (proxy_decreases a p p' Hp' Hna Hhp) as [[c ->]|[Hl ->]]; [|lia].
    destruct Hin. left. cbn in *. unfold Proxy.read_chunk in Hp'. destruct (Proxy.rd (Proxy.up p)); try done.
    case_match; [|done]. injection Hp' as <-. cbn. eauto.
  - assert (Hk : length (Backend.accepted l') ≤ length (Proxy.taken (Proxy.up p))).
    { apply prefix_length, accepted_taken; [apply Hok'|done]. }
    pose proof (link_decreases l l' _ Hi Hhl Hk). rewrite length_app. lia.
  - destruct (reads_decreases c p p' l l' Hp' Hrd) as [Hl ->]. apply reads_same in Hrd as (_ & _ & -> & _). lia.
  - destruct (arrive_decreases m l Hwk) as [Hl ->]. unfold message_load in Hl. lia.
  - assert (Hn : ¬ (Tunnel.down r = Tunnel.DRead ∧ ∃ d, Tunnel.down r' = Tunnel.DSend d)) by (intros H; apply Hin; by right).
    pose proof (relay_decreases r r' Hr' Hhr Hn) as Hd. unfold one_fetched in Hd. rewrite Hf, Nat.sub_diag in Hd.
    rewrite sum_load_app. lia.
  - assert (Hn : ¬ (Tunnel.down r = Tunnel.DRead ∧ ∃ d, Tunnel.down r' = Tunnel.DSend d)) by (intros H; apply Hin; by right).
    pose proof (relay_decreases r r' Hr' Hhr Hn) as Hd. unfold one_fetched in Hd. rewrite Hf, length_app in Hd. cbn in Hd.
    rewrite sum_load_app. lia.
Qed.

(** What was sent stays the same. *)
Lemma quiet_sent (s s' : session) : quiet s s' →
  sent_up (view s') = sent_up (view s) ∧ sent_down (view s') = sent_down (view s).
Proof.
  intros (Hst & (Hhp & _ & _) & Hin). unfold view.
  assert (Hr0 : ∀ r r', Tunnel.step connId r r' →
    ¬ (Tunnel.down r = Tunnel.DRead ∧ ∃ d, Tunnel.down r' = Tunnel.DSend d) → Tunnel.from_target r' = Tunnel.from_target r).
  { intros r r' Hr Hn. destruct Hr; cbn in *; try done; [|by repeat case_match]. destruct Hn. by eauto. }
  destruct Hst as [a p p' l r u d Hp' Hna Hj'|p l l' r u d Hi Hj'|c p p' l l' r u d Hp' Hrd|p l r u m d Hwk
    |p l r r' u d Hr' Hf|p l r r' m u d Hr' Hf]; cbn in *; try done.
  - destruct (proxy_decreases a p p' Hp' Hna Hhp) as [[c ->]|[Hl ->]]; [|done].
    destruct Hin. left. cbn in *. unfold Proxy.read_chunk in Hp'. destruct (Proxy.rd (Proxy.up p)); try done.
    case_match; [|done]. injection Hp' as <-. cbn. eauto.
  - by apply reads_decreases with (2 := Hrd) in Hp' as [_ ->].
  - split; [done|]. apply Hr0; [done|]. intros H. apply Hin. by right.
  - split; [done|]. apply Hr0; [done|]. intros H. apply Hin. by right.
Qed.

(** ** Somebody can go on *)
Ltac no_input := intros [[? [? ?]]|[? [? ?]]]; cbn in *; congruence.

Lemma relay_goes_on (p : Proxy.proxy) (l : Backend.link) (r : Tunnel.relay) (u d : list Message) :
  healthy (mk_session p l r u d) → (∀ m, Tunnel.up r ≠ Tunnel.USendConn m) →
  (Tunnel.main r = Tunnel.MSelect ∧ Tunnel.down r = Tunnel.DRead ∧ Tunnel.up r = Tunnel.URead) ∨
  ∃ s', quiet (mk_session p l r u d) s'.
Proof.
  intros (Hp & Hl & H1 & H2 & H3) Hu. cbn in *.
  assert (Hgo : ∀ r', Tunnel.step connId r r' → Tunnel.from_client r' = Tunnel.from_client r → relay_healthy r' →
    (∀ c, Tunnel.down r' = Tunnel.DSend c → Tunnel.down r = Tunnel.DSend c) → ∃ s', quiet (mk_session p l r u d) s').
  { intros r' Hst Hf Hh Hd. eexists. split; [by apply (step_relay connId p l r r')|]. split; [done|].
    intros [[E [c E']]|[E [c E']]]; cbn in *; [congruence|]. apply Hd in E'. congruence. }
  destruct (Tunnel.main r) as [|dat|dat|e] eqn:Hm; [| | |done].
  - destruct (Tunnel.down r) as [|c|e|] eqn:Hd; [|right| |]; try done.
    + destruct (Tunnel.up r) as [|m1|m1|e|] eqn:Hur; [by left|right| | |]; try done; [|by destruct (Hu m1)].
      apply (Hgo _ (Tunnel.step_recv_data connId r m1 Hm Hur)); [done| |cbn; congruence].
      split; cbn; [by rewrite Hd|done].
    + apply (Hgo _ (Tunnel.step_recv_down connId r c Hm Hd)); destruct (Tunnel.adjust_buffer _ _ _); [done| |done].
      split; cbn; [done|]. split; [exact H2|done].
  - right. apply (Hgo _ (Tunnel.step_write_target connId r dat Hm)); done.
  - right. apply (Hgo _ (Tunnel.step_write_client connId r dat Hm)); done.
Qed.

(** A message on its way to the server is fetched. *)
Lemma fetch_goes_on (p : Proxy.proxy) (l : Backend.link) (r : Tunnel.relay) (m : Message) (u d : list Message) :
  healthy (mk_session p l r (m :: u) d) → Tunnel.up r = Tunnel.URead → ∃ s', quiet (mk_session p l r (m :: u) d) s'.
Proof.
  intros (Hp & Hl & H1 & H2 & H3) Hu. cbn in *. eexists.
  split; [by apply (step_fetch connId p l r _ m u d (Tunnel.step_read_client connId r m Hu))|].
  split; [|no_input]. split; [done|]. split; [done|]. split; [exact H1|]. split; [by destruct m|exact H3].
Qed.

(** The link and the relay on the client's side. *)
Section client_side.
Context (p : Proxy.proxy) (l : Backend.link) (r : Tunnel.relay) (u d : list Message).
Context (Hh : healthy (mk_session p l r u d)).

Lemma link_quiet (l' : Backend.link) : internal l l' → joined p l' → link_healthy l' → ∃ s', quiet (mk_session p l r u d) s'.
Proof using Hh.
  intros Hi Hj Hl. destruct Hh as (Hp & _ & Hr). eexists. split; [by apply (step_link connId p l l')|].
  split; [done|no_input].
Qed.

Lemma proxy_quiet (a : Proxy.action) (p' : Proxy.proxy) :
  Proxy.exec a p = Some p' → (∀ c, a ≠ Proxy.ARead Proxy.Down c) → joined p' l → proxy_healthy p' →
  (∀ c, Proxy.rd (Proxy.up p') = Proxy.Sending c → Proxy.rd (Proxy.up p) = Proxy.Sending c) → ∃ s', quiet (mk_session p l r u d) s'.
Proof using Hh.
  intros Hx Ha Hj Hp Hin. destruct Hh as (_ & Hl & Hr). eexists. split; [by apply (step_proxy connId a p p')|].
  split; [done|]. intros [[E [c E']]|[E [c E']]]; cbn in *; [apply Hin in E'|]; congruence.
Qed.

Lemma arrive_quiet (m : Message) (d' : list Message) :
  d = m :: d' → Backend.worker l = Backend.WRead → ∃ s', quiet (mk_session p l r u d) s'.
Proof using Hh.
  intros -> Hw. destruct Hh as (Hp & (H1 & H2 & H3 & H4) & Hr). eexists. split; [by apply step_arrive|].
  split; [|no_input]. split; [done|]. split; [|done]. unfold link_healthy, arrive. cbn in *.
  destruct (Backend.registered l); [destruct m|]; done.
Qed.

Ltac differs_in f := let E := fresh in intros E; apply (f_equal f) in E; cbn in E; congruence.

(** The answer to the dial is on its way, or has arrived. *)
Lemma dial_goes_on : handshake l d → joined p l →
  Backend.dialer l = Backend.DOpen ∧ (∀ st, Backend.worker l ≠ Backend.WState st) ∨ ∃ s', quiet (mk_session p l r u d) s'.
Proof using Hh.
  intros Hs Hj. pose proof Hh as (_ & (H1 & H2 & H3 & H4) & _). unfold handshake in Hs. cbn in *.
  destruct (Backend.dialer l) eqn:Hd; [right|left; by split; [|apply Hs]|done].
  destruct Hs as [[Hw (d' & E & _)]|[[Hw _]|?]]; [by apply (arrive_quiet _ _ E)| |done].
  apply (link_quiet (Backend.set_worker Backend.WRead (Backend.set_dialer Backend.DOpen Backend.GRun l))); [|done|].
  - split; [by apply dial_open_step|]. split; [differs_in Backend.dialer|]. split; [by left|]. by auto.
  - done.
Qed.

(** What the connection has accepted is sent. *)
Lemma sender_goes_on : Backend.dialer l = Backend.DOpen → link_shape l → joined p l →
  Backend.sender l = Backend.GRun ∧ Backend.writing l = Backend.VIdle ∨ ∃ s', quiet (mk_session p l r u d) s'.
Proof using Hh.
  intros Hd (_ & Hg & _) Hj. pose proof Hh as (_ & (H1 & H2 & H3 & H4) & _). cbn in *.
  destruct (Backend.sender l) as [| |c|] eqn:Hs; [by destruct (Hg Hd)| |right|done].
  - destruct (Backend.writing l) as [|c] eqn:Hw; [by left|right].
    apply (link_quiet (Backend.hand_over c l)); [| |done].
    + split; [by apply Backend.hand_over_step|]. split; [differs_in Backend.writing|]. by auto.
    + destruct Hj as [Ht [[_ ?]|Hj]]; [congruence|]. split; [done|]. by right.
  - apply (link_quiet (Backend.send_done c l)); [| |done].
    + split; [by apply Backend.send_step|]. split; [differs_in Backend.sender|]. by auto.
    + exact Hj.
Qed.

Lemma joined_same (p' : Proxy.proxy) : joined p l →
  Proxy.taken (Proxy.down p') = Proxy.taken (Proxy.down p) → Proxy.given (Proxy.up p') = Proxy.given (Proxy.up p) →
  (∀ c, Proxy.writer p = Proxy.Writing c → Proxy.writer p' = Proxy.Writing c) → joined p' l.
Proof.
  intros [Ht Hj] E1 E2 E3. unfold joined. rewrite E1, E2. split; [done|].
  destruct Hj as [Hj|(c & Hw & Hj)]; [by left|right]. exists c. split; [by apply E3|done].
Qed.

(** A reader that holds a chunk can hand it over when its channel is empty. *)
Lemma push_goes_on (i : Proxy.side) : joined p l → Proxy.queue (Proxy.flow_of i p) = [] →
  Proxy.rd (Proxy.flow_of i p) = Proxy.Reading ∨ ∃ s', quiet (mk_session p l r u d) s'.
Proof using Hh.
  intros Hj Hq. pose proof Hh as ((Hw & Hm & Hr) & _). cbn in *. pose proof (Hr i) as Hri.
  destruct (Proxy.rd (Proxy.flow_of i p)) as [|c|e|] eqn:E; [by left|right|done..].
  assert (Hp : Proxy.push (Proxy.flow_of i p) = Some (Proxy.mk_flow Proxy.Reading [c]
                 (Proxy.taken (Proxy.flow_of i p)) (Proxy.given (Proxy.flow_of i p)))).
  { unfold Proxy.push. rewrite E, Hq. done. }
  eapply (proxy_quiet (Proxy.APush i)); [cbn [Proxy.exec]; by rewrite Hp|done| | |].
  - apply joined_same; destruct i; done.
  - split; [by destruct i|]. split; [by destruct i|]. intros j. pose proof (Hr j). by destruct i, j.
  - intros c'. destruct i; cbn; done.
Qed.

(** The up-link's writer. *)
Lemma writer_goes_on :
  (∀ c, Proxy.writer p = Proxy.Writing c → c ≠ []) → link_shape l → joined p l →
  Backend.dialer l = Backend.DOpen → Backend.writing l = Backend.VIdle →
  Proxy.writer p = Proxy.Selecting ∧ Proxy.queue (Proxy.up p) = [] ∨ ∃ s', quiet (mk_session p l r u d) s'.
Proof using Hh.
  intros Hne (_ & _ & Hc) Hj Hd Hv. pose proof Hh as ((Hw & Hm & Hr) & (H1 & H2 & H3 & H4) & _). cbn in *.
  destruct (Proxy.writer p) as [|c|e|] eqn:E; [|right|done..].
  - destruct (Proxy.queue (Proxy.up p)) as [|c q] eqn:Eq; [by left|right].
    eapply (proxy_quiet Proxy.ATakeUp); [cbn [Proxy.exec]; unfold Proxy.take_chunk; rewrite E, Eq; reflexivity|done| | |done].
    + apply joined_same; [done..|]. by rewrite E.
    + split; [cbn; by case_match|]. split; [done|]. intros j. pose proof (Hr j). by destruct j.
  - destruct Hj as [Ht [[Ha _]|(c' & [= <-]%(eq_trans (eq_sym E)) & Ha)]].
    + apply (link_quiet (Backend.start_write c l)); [| |done].
      * split; [apply Backend.write_step; [done|done|by apply Hc|by apply Hne]|]. split; [differs_in Backend.writing|]. by auto.
      * split; [done|]. right. exists c. cbn. by rewrite Ha.
    + eapply (proxy_quiet Proxy.AWriteUp); [cbn [Proxy.exec]; rewrite E; reflexivity|done| | |done].
      * split; [done|]. by left.
      * split; [done|]. split; [done|]. intros j. pose proof (Hr j). by destruct j.
Qed.

(** [Proxy]'s own loop. *)
Lemma main_loop_goes_on : joined p l →
  Proxy.main p = Proxy.Selecting ∧ Proxy.queue (Proxy.down p) = [] ∨ ∃ s', quiet (mk_session p l r u d) s'.
Proof using Hh.
  intros Hj. pose proof Hh as ((Hw & Hm & Hr) & _). cbn in *.
  destruct (Proxy.main p) as [|c|e|] eqn:E; [|right|done..].
  - destruct (Proxy.queue (Proxy.down p)) as [|c q] eqn:Eq; [by left|right].
    eapply (proxy_quiet Proxy.ATakeDown); [cbn [Proxy.exec]; unfold Proxy.take_chunk; rewrite E, Eq; reflexivity|done| | |done].
    + by apply joined_same.
    + split; [done|]. split; [cbn; by case_match|]. intros j. pose proof (Hr j). by destruct j.
  - eapply (proxy_quiet Proxy.AWriteDown); [cbn [Proxy.exec]; rewrite E; reflexivity|done| | |done].
    + by apply joined_same.
    + split; [done|]. split; [done|]. intros j. pose proof (Hr j). by destruct j.
Qed.

Lemma read_quiet (c : bytes) (l' : Backend.link) :
  reads c l l' → (len c <= Conf.DEFAULT_BUFFER_SIZE)%Z → Proxy.rd (Proxy.down p) = Proxy.Reading →
  link_healthy l' → ∃ s', quiet (mk_session p l r u d) s'.
Proof using Hh.
  intros Hrd Hlen E Hl. destruct Hh as ((Hw & Hm & Hr) & _ & Hrr). cbn in *. eexists.
  split; [eapply (step_read connId c); [|exact Hrd]; cbn [Proxy.exec Proxy.flow_of]; by rewrite Proxy.read_chunk_small|].
  split; [|no_input]. split; [|done]. split; [done|]. split; [done|]. intros j. pose proof (Hr j). by destruct j.
Qed.

Lemma piece_small (k : nat) (c : bytes) : k ≤ read_size → (len (take k c) <= Conf.DEFAULT_BUFFER_SIZE)%Z.
Proof. intros Hk. unfold len. rewrite length_take. unfold read_size, Conf.DEFAULT_BUFFER_SIZE in *. lia. Qed.

(** What was received is read. *)
Lemma reader_goes_on : Backend.ordered l → link_shape l → joined p l →
  Backend.dialer l = Backend.DOpen → (∀ st, Backend.worker l ≠ Backend.WState st) →
  Proxy.rd (Proxy.down p) = Proxy.Reading →
  Backend.worker l = Backend.WRead ∧ Backend.left (Backend.buf l) = [] ∨ ∃ s', quiet (mk_session p l r u d) s'.
Proof using Hh.
  intros (_ & _ & Hw0 & _) (Hn & _ & Hc) Hj Hd Hst E. pose proof Hh as (_ & (H1 & H2 & H3 & H4) & _). cbn in *.
  destruct (decide (0 < Backend.lenBufRead (Backend.buf l))) as [Hp|Hz].
  { right. destruct (Backend.reader l) as [|n] eqn:Hr; [|by rewrite (Hw0 n eq_refl) in Hp; lia].
    eapply (read_quiet _ _ (reads_left l Hd Hr Hp)); [|done|done].
    unfold Backend.take_buffered. cbn [fst]. apply piece_small. case_decide; lia. }
  destruct (Backend.worker l) as [|st|c|] eqn:Hwk; [left|by destruct (Hst st)|right|done].
  { split; [done|]. unfold Backend.left. by replace (Backend.lenBufRead (Backend.buf l)) with 0 by lia. }
  destruct (Backend.reader l) as [|n] eqn:Hr.
  - apply (link_quiet (Backend.set_reader (Backend.RWait read_size) l)); [|done|].
    + split; [apply Backend.read_wait_step; [done|done|lia|by apply Hc]|]. split; [differs_in Backend.reader|].
      split; [by left|]. split; [done|]. split; [done|]. by right.
    + by split; [|split; cbn; [congruence|]].
  - pose proof (Hn n eq_refl) as ->. apply (read_quiet _ _ (reads_chunk l _ c Hr Hwk)); [by apply piece_small|done|done].
Qed.

Lemma queued {A} (q : list A) : q = [] ∨ ∃ x q', q = x :: q'.
Proof. destruct q; eauto. Qed.

(** Nothing is under way, or somebody can go on. *)
Lemma somebody_goes_on : session_ok connId (mk_session p l r u d) → shaped (mk_session p l r u d) →
  settled (mk_session p l r u d) ∨ ∃ s', quiet (mk_session p l r u d) s'.
Proof using Hh.
  intros [Hpo Hlo Hro Hj Hu Hd] [Sd Sl Sw Su]. cbn in *.
  destruct (dial_goes_on Sd Hj) as [[Hdl Hst]|?]; [|by right].
  destruct (relay_goes_on p l r u d Hh Su) as [(Rm & Rd & Ru)|?]; [|by right].
  destruct (queued u) as [Qu|(m & u' & E)]; [|right; rewrite E in Hh |- *; by apply fetch_goes_on].
  destruct (sender_goes_on Hdl Sl Hj) as [[Ls Lw]|?]; [|by right].
  destruct (writer_goes_on Sw Sl Hj Hdl Lw) as [[Pw Pqu]|?]; [|by right].
  destruct (main_loop_goes_on Hj) as [[Pm Pqd]|?]; [|by right].
  destruct (push_goes_on Proxy.Up Hj Pqu) as [Pru|?]; [|by right].
  destruct (push_goes_on Proxy.Down Hj Pqd) as [Prd|?]; [|by right].
  destruct (reader_goes_on Hlo Sl Hj Hdl Hst Prd) as [[Lk Ll]|?]; [|by right].
  destruct (queued d) as [Qd|(m & d' & E)]; [left|right; by apply (arrive_quiet m d' E)].
  pose proof Hh as (_ & (_ & _ & Hg & _) & _). destruct Sl as (_ & _ & Hreg). destruct (Hreg Hg) as [Hreg' _].
  unfold settled, Tunnel.pending_down, Tunnel.pending_up. cbn in *. rewrite Rm, Rd, Ru.
  do 2 (split; [done|]). split; [intros i; destruct i; cbn; by rewrite ?Pru, ?Prd|]. by auto 20.
Qed.
End client_side.

Lemma quiet_runs_stop (s : session) : session_ok connId s → sn quiet s.
Proof.
  induction s as [s IH] using (induction_ltof1 _ load). intros Hok. constructor. intros s' Hq.
  apply IH; [by apply quiet_decreases|]. by apply (step_ok connId s); [apply Hq|].
Qed.

Lemma quiet_run (s s' : session) : rtc quiet s s' →
  rtc (step connId) s s' ∧ (healthy s → healthy s') ∧
  sent_up (view s') = sent_up (view s) ∧ sent_down (view s') = sent_down (view s).
Proof.
  induction 1 as [s|s s1 s' Hq _ (Hr & Hh & E1 & E2)]; [done|]. destruct (quiet_sent s s1 Hq) as [F1 F2].
  rewrite E1, E2, F1, F2. destruct Hq as (Hst & Hh1 & _). split; [by eapply rtc_l|]. by auto.
Qed.
End connection.

(** ** Properties *)

(** C6: nothing stays in the pipe: from every reachable state of a proxied
    connection in which no goroutine has failed, the goroutines run only
    finitely long without new input and without a failure, whatever the order,
    and they stop only when everything that the application and the target
    have sent has been delivered to the other; there is no state in which they
    wait for each other. *)
Theorem pipeline_drains (connId : bytes) (s : session) :
  rtc (step connId) (start connId) s → healthy s →
  sn (quiet connId) s ∧
  ∀ s', rtc (quiet connId) s s' →
    (∃ s'', quiet connId s' s'') ∨
    settled s' ∧ got_up (view s') = sent_up (view s) ∧ got_down (view s') = sent_down (view s).
Proof.
  intros Hr Hh. split; [by apply quiet_runs_stop, reachable_session|]. intros s' Hq.
  destruct (quiet_run connId s s' Hq) as (Hst & Hh' & <- & <-).
  destruct (reachable_shaped connId s') as [Hok Hs]; [by etrans|].
  destruct s' as [p l r u d]. destruct (somebody_goes_on connId p l r u d (Hh' Hh) Hok Hs) as [Hset|?]; [right|by left].
  split; [done|]. by apply (settled_complete connId).
Qed.

(** The application has sent before the dial was answered. *)
Definition request_read : session :=
  mk_session (Proxy.mk_proxy (Proxy.mk_flow (Proxy.Sending (lit "GET")) [] (lit "GET") []) (Proxy.down Proxy.start)
    Proxy.Selecting Proxy.Selecting [] false) Backend.dialing Tunnel.start [] [Tunnel.open_reply (lit "c")].

Lemma pipeline_drains_witness :
  rtc (step (lit "c")) (start (lit "c")) request_read ∧ healthy request_read ∧ ¬ settled request_read ∧
  sn (quiet (lit "c")) request_read ∧ ∃ s', quiet (lit "c") request_read s'.
Proof.
  assert (Hr : rtc (step (lit "c")) (start (lit "c")) request_read).
  { eapply rtc_l; [|apply rtc_refl]. apply (step_proxy _ (Proxy.ARead Proxy.Up (lit "GET"))); [vm_compute; reflexivity|done|].
    split; [done|]. by left. }
  assert (Hh : healthy request_read) by (split; [by split; [|split; [|intros []]]|done]).
  assert (Hn : ¬ settled request_read) by (intros (_ & _ & Hq & _); by destruct (Hq Proxy.Up)).
  destruct (pipeline_drains (lit "c") request_read Hr Hh) as [Hsn Hgo].
  repeat (split; [assumption|]). destruct (Hgo request_read (rtc_refl _ _)) as [?|[? _]]; done.
Defined.
End Drain.
