(* ===== verification/Teardown.v ===== *)
(** The end of a proxied connection on the client's side: the SOCKS5 server's
    handler (src/socks/socks5/socks5.go, server.go), which waits for [Proxy]
    (src/utils/proxy.go) and then runs its deferred calls, over the virtual
    connection and its backend (src/socks/backend). *)
From S2P Require Import Prelude GoIO Conf Message Proxy Backend Tunnel Pipeline.

Module Teardown.
Import Pipeline.Pipeline.

(** [HandleRequest] and [handleConn] after the dial: in [utils.Proxy]; in the
    deferred [upConn.Close()], [linker.Close()] and [conn.Close()]; returned. *)
Inductive handling := HProxy | HUpConn | HLinker | HConn | HGone.

(** [txClosed]: the backend has closed its transport; [connClosed]: the
    application's connection is closed. *)
Record conn := mk_conn {
  px : Proxy.proxy;
  link : Backend.link;
  handler : handling;
  txClosed : bool;
  connClosed : bool;
}.

(** The dial has succeeded. *)
Definition opened : Backend.link := Backend.set_dialer Backend.DOpen Backend.GRun Backend.dialing.
Definition start : conn := mk_conn Proxy.start opened HProxy false false.

(** What the two connections make of the relay's calls: the application's,
    once closed, neither reads nor writes; a virtual connection fails only
    with [io.EOF] and only when it is closed, a read when nothing is left over
    and a write before anything is handed over. *)
Definition proxy_may (a : Proxy.action) (c : conn) : Prop :=
  match a with
  | Proxy.ARead Proxy.Up _ | Proxy.AWriteDown => connClosed c = false
  | Proxy.ARead Proxy.Down _ => False
  | Proxy.AReadFails Proxy.Down e =>
      e = EOF ∧ Backend.closed (link c) = true ∧ Backend.reader (link c) = Backend.RIdle ∧
      Backend.lenBufRead (Backend.buf (link c)) = 0
  | Proxy.AWriteUpFails k e =>
      e = EOF ∧ k = 0 ∧ Backend.closed (link c) = true ∧ Backend.accepted (link c) = Proxy.given (Proxy.up (px c)) ∧
      Backend.writing (link c) = Backend.VIdle
  | _ => True
  end.

(** A step of the virtual connection's goroutines: only the handler closes it,
    and nothing is sent on a closed transport. *)
Definition link_may (l l' : Backend.link) (tx : bool) : Prop :=
  internal l l' ∧ (Backend.closing l = Backend.CIdle → Backend.closing l' = Backend.CIdle) ∧
  (tx = true → Backend.sent l' = Backend.sent l).

Inductive step : conn → conn → Prop :=
  | step_proxy a p p' l h tx cc :
      Proxy.exec a p = Some p' → proxy_may a (mk_conn p l h tx cc) → joined p' l →
      step (mk_conn p l h tx cc) (mk_conn p' l h tx cc)
  | step_link p l l' h tx cc :
      link_may l l' tx → joined p l' → step (mk_conn p l h tx cc) (mk_conn p l' h tx cc)
  | step_read d p p' l l' h tx cc :
      Proxy.exec (Proxy.ARead Proxy.Down d) p = Some p' → reads d l l' →
      step (mk_conn p l h tx cc) (mk_conn p' l' h tx cc)
  | step_arrive m p l h tx cc :
      Backend.worker l = Backend.WRead → step (mk_conn p l h tx cc) (mk_conn p (arrive m l) h tx cc)
  | step_return p l tx cc :
      Proxy.main p = Proxy.WExited →
      step (mk_conn p l HProxy tx cc) (mk_conn p (Backend.set_closing Backend.CSend l) HUpConn tx cc)
  | step_closed p l tx cc :
      Backend.closing l = Backend.CDone → step (mk_conn p l HUpConn tx cc) (mk_conn p l HLinker tx cc)
  | step_linker p l tx cc : step (mk_conn p l HLinker tx cc) (mk_conn p l HConn true cc)
  | step_conn p l tx cc : step (mk_conn p l HConn tx cc) (mk_conn p l HGone tx true).

(** ** What every run keeps *)

(** Where the handler is, and what it has closed. *)
Definition stage_ok (c : conn) : Prop :=
  match handler c with
  | HProxy => Backend.closing (link c) = Backend.CIdle ∧ txClosed c = false ∧ connClosed c = false
  | HUpConn => Backend.closing (link c) ≠ Backend.CIdle ∧ txClosed c = false ∧ connClosed c = false
  | HLinker => Backend.closing (link c) = Backend.CDone ∧ txClosed c = false ∧ connClosed c = false
  | HConn => Backend.closing (link c) = Backend.CDone ∧ txClosed c = true ∧ connClosed c = false
  | HGone => Backend.closing (link c) = Backend.CDone ∧ txClosed c = true ∧ connClosed c = true
  end ∧ (handler c ≠ HProxy → Proxy.main (px c) = Proxy.WExited).

(** The dial stays done, and the sender is started once. *)
Definition link_open (l : Backend.link) : Prop :=
  Backend.dialer l = Backend.DOpen ∧ Backend.sender l ≠ Backend.GNone.

Record conn_ok (c : conn) : Prop := mk_ok {
  ok_proxy : Proxy.proxy_ok (px c);
  ok_main : ∀ e, Proxy.main (px c) ≠ Proxy.WFailing e;
  ok_link : link_open (link c);
  ok_joined : joined (px c) (link c);
  ok_stage : stage_ok c;
}.

Lemma main_kept (a : Proxy.action) (p p' : Proxy.proxy) : Proxy.exec a p = Some p' →
  (∀ e, Proxy.main p ≠ Proxy.WFailing e) →
  (∀ e, Proxy.main p' ≠ Proxy.WFailing e) ∧ (Proxy.main p = Proxy.WExited → Proxy.main p' = Proxy.WExited).
Proof.
  intros Hx Hm. destruct p as [[r1 q1 t1 g1] [r2 q2 t2 g2] w m es c]. destruct a as [[] d|[] e|[]|[]| | |k e| | | | | |k e];
    unfold Proxy.exec, Proxy.read_chunk, Proxy.read_fails, Proxy.push, Proxy.reader_exits, Proxy.take_chunk,
      mbind, option_bind in Hx; cbn in Hx; repeat (case_match; cbn in Hx; try done); simplify_eq; done.
Qed.

(** What a step of the connection's goroutines leaves as it is. *)
Lemma link_kept (l l' : Backend.link) (tx : bool) : link_may l l' tx → link_open l →
  link_open l' ∧ (Backend.closing l = Backend.CDone → Backend.closing l' = Backend.CDone) ∧
  (Backend.closing l ≠ Backend.CIdle → Backend.closing l' ≠ Backend.CIdle).
Proof.
  intros ((Hst & _) & Hc & _) [Hd Hs].
  destruct Hst; unfold link_open in *; cbn in *; try congruence; by repeat split; try congruence.
Qed.

Lemma reads_kept (d : bytes) (l l' : Backend.link) : reads d l l' → link_open l →
  link_open l' ∧ Backend.closing l' = Backend.closing l.
Proof. by intros [|]. Qed.

Lemma arrive_kept (m : Message) (l : Backend.link) : link_open l →
  link_open (arrive m l) ∧ Backend.closing (arrive m l) = Backend.closing l.
Proof. intros Ho. unfold arrive. by destruct (Backend.registered l); [destruct m|]. Qed.

Lemma arrive_joined (m : Message) (p : Proxy.proxy) (l : Backend.link) : joined p l → joined p (arrive m l).
Proof. destruct (arrive_same m l) as (E1 & E2 & E3 & _). unfold joined. by rewrite E1, E2, E3. Qed.

Lemma stage_link (p p' : Proxy.proxy) (l l' : Backend.link) (h : handling) (tx cc : bool) :
  stage_ok (mk_conn p l h tx cc) →
  (Backend.closing l = Backend.CIdle → Backend.closing l' = Backend.CIdle) →
  (Backend.closing l = Backend.CDone → Backend.closing l' = Backend.CDone) →
  (Backend.closing l ≠ Backend.CIdle → Backend.closing l' ≠ Backend.CIdle) →
  (Proxy.main p = Proxy.WExited → Proxy.main p' = Proxy.WExited) →
  stage_ok (mk_conn p' l' h tx cc).
Proof.
  unfold stage_ok. cbn. intros [Hs Hm] H1 H2 H3 H4. split; [|by auto].
  destruct h; destruct Hs as (? & ? & ?); auto.
Qed.

Lemma step_conn_ok (c c' : conn) : step c c' → conn_ok c → conn_ok c'.
Proof.
  intros Hst. destruct Hst as [a p p' l h tx cc Hx Hm Hj|p l l' h tx cc Hl Hj|d p p' l l' h tx cc Hx Hr|m p l h tx cc Hw
    |p l tx cc Hm|p l tx cc Hc|p l tx cc|p l tx cc]; intros [Op Om Ol Oj Os]; cbn in *.
  - destruct (main_kept a p p' Hx Om) as [Hm1 Hm2]. split; cbn; [by apply (Proxy.proxy_exec_ok a p)|done..|].
    by apply (stage_link p p' l l).
  - destruct (link_kept l l' tx Hl Ol) as (L1 & L2 & L3). split; cbn; [done..|]. apply (stage_link p p l l'); try done. apply Hl.
  - destruct (main_kept (Proxy.ARead Proxy.Down d) p p' Hx Om) as [Hm1 Hm2]. destruct (reads_kept d l l' Hr Ol) as [L1 L2].
    split; cbn; [by apply (Proxy.proxy_exec_ok (Proxy.ARead Proxy.Down d) p)|done|done|by apply (joined_read d p p' l)|].
    apply (stage_link p p' l l'); try done; by rewrite L2.
  - destruct (arrive_kept m l Ol) as [L1 L2]. split; cbn; [done|done|done|by apply arrive_joined|].
    apply (stage_link p p l _ h); try done; by rewrite L2.
  - split; cbn; try done. split; cbn; [by destruct Os as [(_ & ? & ?) _]|done].
  - split; cbn; try done. destruct Os as [(_ & ? & ?) Hm]. split; [done|]. intros _. by apply Hm.
  - split; cbn; try done. destruct Os as [(? & _ & ?) Hm]. split; [done|]. intros _. by apply Hm.
  - split; cbn; try done. destruct Os as [(? & ? & _) Hm]. split; [done|]. intros _. by apply Hm.
Qed.

Lemma start_conn_ok : conn_ok start.
Proof.
  split; cbn; [apply Proxy.proxy_start_ok|done|done| |done]. split; [done|]. by left.
Qed.

Lemma reachable_conn (c : conn) : rtc step start c → conn_ok c.
Proof. intros Hr. by apply (rtc_invariant step conn_ok step_conn_ok start), start_conn_ok. Qed.

(** ** The deferred calls come to an end *)

(** The sender still runs, or has taken the close already. *)
Definition sender_up (l : Backend.link) : Prop := Backend.sender l ≠ Backend.GExit ∨ Backend.closing l = Backend.CDone.

Lemma closed_finishes (p : Proxy.proxy) (l : Backend.link) (h : handling) (tx cc : bool) :
  Backend.closing l = Backend.CDone → stage_ok (mk_conn p l h tx cc) →
  rtc step (mk_conn p l h tx cc) (mk_conn p l HGone true true).
Proof.
  intros Hc [Hs _]. cbn in *. destruct h; destruct Hs as (H1 & H2 & H3); subst; [congruence|..].
  - eapply rtc_l; [by apply step_closed|]. eapply rtc_l; [apply step_linker|]. apply rtc_once, step_conn.
  - eapply rtc_l; [apply step_linker|]. apply rtc_once, step_conn.
  - apply rtc_once, step_conn.
  - apply rtc_refl.
Qed.

Ltac differs_in f := let E := fresh in intros E; apply (f_equal f) in E; cbn in E; congruence.

(** [Close] meets the sender between two sends. *)
Lemma close_meets (p : Proxy.proxy) (l : Backend.link) :
  joined p l → Backend.closing l = Backend.CSend → Backend.sender l = Backend.GRun →
  step (mk_conn p l HUpConn false false) (mk_conn p (Backend.set_closing Backend.CDone (Backend.sender_exit l)) HUpConn false false).
Proof.
  intros Hj Hc Hs. apply step_link; [|exact Hj]. split; [|by rewrite Hc].
  split; [by apply Backend.close_hand_step|]. split; [differs_in Backend.closing|]. by auto.
Qed.

Lemma send_finishes (p : Proxy.proxy) (l : Backend.link) (h : handling) (d : bytes) (cc : bool) :
  joined p l → Backend.sender l = Backend.GWrite d →
  step (mk_conn p l h false cc) (mk_conn p (Backend.send_done d l) h false cc).
Proof.
  intros Hj Hs. apply step_link; [|exact Hj]. split; [|done].
  split; [by apply Backend.send_step|]. split; [differs_in Backend.sender|]. by auto.
Qed.

Lemma close_finishes (p : Proxy.proxy) (l : Backend.link) :
  joined p l → link_open l → Backend.closing l = Backend.CSend → Backend.sender l ≠ Backend.GExit →
  ∃ l', rtc step (mk_conn p l HUpConn false false) (mk_conn p l' HUpConn false false) ∧ Backend.closing l' = Backend.CDone.
Proof.
  intros Hj [_ Hn] Hc Hg. destruct (Backend.sender l) as [| |d|] eqn:Hs; [done| | |done].
  - exists (Backend.set_closing Backend.CDone (Backend.sender_exit l)). split; [by apply rtc_once, close_meets|done].
  - exists (Backend.set_closing Backend.CDone (Backend.sender_exit (Backend.send_done d l))). split; [|reflexivity]. eapply rtc_l; [by apply (send_finishes p l HUpConn d false)|].
    apply rtc_once. by apply close_meets.
Qed.

Lemma returned_finishes (c : conn) : conn_ok c → Proxy.main (px c) = Proxy.WExited → sender_up (link c) →
  ∃ c', rtc step c c' ∧ handler c' = HGone ∧ connClosed c' = true.
Proof.
  destruct c as [p l h tx cc]. intros [Op Om Ol Oj Os] Hm Hup. cbn in *.
  destruct (Backend.closing l) eqn:Hc.
  - destruct Hup as [Hg|?]; [|congruence]. destruct h; destruct Os as [(H1 & H2 & H3) _]; cbn in *; subst; try congruence.
    destruct (close_finishes p (Backend.set_closing Backend.CSend l)) as (l' & Hr & Hl'); [done..|].
    eexists. split; [eapply rtc_l; [by apply step_return|]; etrans; [exact Hr|]; eapply closed_finishes; [exact Hl'|split; [cbn; by rewrite Hl'|done]]|done].
  - destruct Hup as [Hg|?]; [|congruence]. destruct h; destruct Os as [(H1 & H2 & H3) _]; cbn in *; subst; try congruence.
    destruct (close_finishes p l) as (l' & Hr & Hl'); [done..|].
    eexists. split; [etrans; [exact Hr|]; eapply closed_finishes; [exact Hl'|]|done]. split; [|done]. cbn. by rewrite Hl'.
  - eexists. split; [by apply closed_finishes|done].
Qed.

(** The application's reader has met the end: [Proxy] returns. *)
Lemma proxy_moves (a : Proxy.action) (p p' : Proxy.proxy) (l : Backend.link) (h : handling) (tx cc : bool) :
  Proxy.exec a p = Some p' → proxy_may a (mk_conn p l h tx cc) → joined p l →
  Proxy.taken (Proxy.down p') = Proxy.taken (Proxy.down p) → Proxy.up p' = Proxy.up p → Proxy.writer p' = Proxy.writer p →
  step (mk_conn p l h tx cc) (mk_conn p' l h tx cc).
Proof.
  intros Hx Hm [Ht Hj] E1 E2 E3. apply (step_proxy a); [done..|]. unfold joined. by rewrite E1, E2, E3.
Qed.

Lemma reader_reports (e : error) (p : Proxy.proxy) (l : Backend.link) (h : handling) (tx cc : bool) :
  conn_ok (mk_conn p l h tx cc) → Proxy.rd (Proxy.up p) = Proxy.RFailing e → Proxy.main p = Proxy.Selecting →
  ∃ p', rtc step (mk_conn p l h tx cc) (mk_conn p' l h tx cc) ∧ Proxy.main p' = Proxy.WExited.
Proof.
  intros [(Hu & Hd & He) _ _ [Ht Hj] _] Hr Hm. cbn in *. set (f := Proxy.mk_flow Proxy.RExited (Proxy.queue (Proxy.up p))
    (Proxy.taken (Proxy.up p)) (Proxy.given (Proxy.up p))).
  set (p1 := Proxy.send_err e (Proxy.set_up f p)).
  assert (H1 : Proxy.exec (Proxy.AReaderExits Proxy.Up) p = Some p1).
  { cbn [Proxy.exec Proxy.flow_of Proxy.put_flow]. unfold Proxy.reader_exits. rewrite Hr. cbn.
    unfold Proxy.has_room. rewrite bool_decide_eq_true_2; [done|]. unfold Proxy.errors_ok, Proxy.cap_chErr in *. cbn. lia. }
  assert (Hes : ∃ e' es, Proxy.chErr p1 = e' :: es) by (cbn; destruct (Proxy.chErr p); eauto). destruct Hes as (e' & es & Hes).
  set (p2 := Proxy.return_ (Proxy.mk_proxy (Proxy.up p1) (Proxy.down p1) (Proxy.writer p1) (Proxy.main p1) es (Proxy.cancelled p1))).
  assert (H2 : Proxy.exec Proxy.ATakeErr p1 = Some p2).
  { cbn [Proxy.exec]. rewrite Hes. cbn. by rewrite Hm. }
  exists p2. split; [|done]. eapply rtc_l; [apply (step_proxy _ p p1 l h tx cc H1); done|].
  apply rtc_once, (step_proxy _ p1 p2 l h tx cc H2); done.
Qed.

Lemma ended_returns (e : error) (p : Proxy.proxy) (l : Backend.link) (h : handling) (tx cc : bool) :
  conn_ok (mk_conn p l h tx cc) → Proxy.rd (Proxy.up p) = Proxy.RFailing e →
  ∃ p', rtc step (mk_conn p l h tx cc) (mk_conn p' l h tx cc) ∧ Proxy.main p' = Proxy.WExited.
Proof.
  intros Hok Hr. destruct (Proxy.main p) as [|d|e'|] eqn:Hm.
  - by apply (reader_reports e).
  - set (p1 := Proxy.set_main Proxy.Selecting (Proxy.set_down (Proxy.give d (Proxy.down p)) p)).
    assert (Hst : step (mk_conn p l h tx cc) (mk_conn p1 l h tx cc)).
    { apply (step_proxy Proxy.AWriteDown); [cbn [Proxy.exec]; by rewrite Hm| |apply Hok].
      destruct Hok as [_ _ _ _ [Hs Hret]]. cbn in *. destruct h; try (by destruct Hs as (_ & _ & ?));
        discriminate (eq_trans (eq_sym Hm) (Hret ltac:(done))). }
    destruct (reader_reports e p1 l h tx cc) as (p' & Hp' & Hm'); [by apply (step_conn_ok _ _ Hst)|done|done|].
    exists p'. split; [by eapply rtc_l|done].
  - by destruct (ok_main _ Hok e').
  - exists p. split; [apply rtc_refl|done].
Qed.

(** ** A sender that has ended on an error *)
Definition sender_dead (c : conn) : Prop :=
  Backend.dialer (link c) = Backend.DOpen ∧
  Backend.sender (link c) = Backend.GExit ∧ Backend.closing (link c) ≠ Backend.CDone ∧
  (handler c = HProxy ∨ handler c = HUpConn) ∧ connClosed c = false.

Lemma step_dead (c c' : conn) : step c c' → sender_dead c → sender_dead c'.
Proof.
  intros Hst. destruct Hst as [a p p' l h tx cc Hx Hm Hj|p l l' h tx cc Hl Hj|d p p' l l' h tx cc Hx Hr|m p l h tx cc Hw
    |p l tx cc Hm|p l tx cc Hc|p l tx cc|p l tx cc]; intros (Hd & Hs & Hc' & Hh & Hcc); unfold sender_dead in *; cbn in *.
  - done.
  - destruct Hl as ((Hst & _) & Hcl & _). destruct Hst; cbn in *; try congruence; done.
  - destruct Hr; cbn in *; done.
  - unfold arrive. by destruct (Backend.registered l); [destruct m|].
  - do 3 (split; [done|]). split; [by right|done].
  - done.
  - by destruct Hh.
  - by destruct Hh.
Qed.

(** ** The end of the target's stream *)

(** The uplink's worker has gone; the application has nothing under way. *)
Definition target_gone (c : conn) : Prop :=
  Backend.dialer (link c) = Backend.DOpen ∧ handler c = HProxy ∧ connClosed c = false ∧
  Proxy.rd (Proxy.up (px c)) = Proxy.Reading ∧ Proxy.queue (Proxy.up (px c)) = [] ∧ Proxy.writer (px c) = Proxy.Selecting ∧
  (∀ e, Proxy.rd (Proxy.down (px c)) ≠ Proxy.RFailing e) ∧ Proxy.main (px c) ≠ Proxy.WExited ∧
  Proxy.chErr (px c) = [] ∧ Proxy.cancelled (px c) = false ∧
  Backend.worker (link c) = Backend.WExit ∧ Backend.sender (link c) = Backend.GRun ∧
  Backend.writing (link c) = Backend.VIdle ∧ Backend.closing (link c) = Backend.CIdle ∧ Backend.closed (link c) = false.

(** The application sends nothing, does not close, and takes what it is given. *)
Definition application_waits (c c' : conn) : Prop :=
  step c c' ∧
  match Proxy.rd (Proxy.up (px c')) with Proxy.Reading => True | _ => False end ∧
  (∀ d, Proxy.main (px c) = Proxy.Writing d → Proxy.main (px c') ≠ Proxy.WExited).

Lemma waiting_proxy (a : Proxy.action) (p p' : Proxy.proxy) (l : Backend.link) (h : handling) (tx cc : bool) :
  Proxy.exec a p = Some p' → proxy_may a (mk_conn p l h tx cc) →
  match Proxy.rd (Proxy.up p') with Proxy.Reading => True | _ => False end →
  (∀ d, Proxy.main p = Proxy.Writing d → Proxy.main p' ≠ Proxy.WExited) →
  target_gone (mk_conn p l h tx cc) → target_gone (mk_conn p' l h tx cc).
Proof.
  intros Hx Hm Hr He (T0 & T1 & T2 & T3 & T4 & T5 & T6 & T7 & T8 & T9 & T10 & T11 & T12 & T13 & T14).
  unfold target_gone. cbn in *. destruct p as [[r1 q1 t1 g1] [r2 q2 t2 g2] w m es c]. cbn in *. subst.
  destruct a as [[] d|[] e|[]|[]| | |k e| | | | | |k e];
    unfold Proxy.exec, Proxy.read_chunk, Proxy.read_fails, Proxy.push, Proxy.reader_exits, Proxy.take_chunk,
      mbind, option_bind in Hx; cbn in Hx; repeat (case_match; cbn in Hx; try done); simplify_eq; cbn in *; try done;
    try (by destruct (T6 e)); try (by destruct Hm as (_ & Hm & _); rewrite T14 in Hm).
  by destruct (He chunk eq_refl).
Qed.

Lemma waiting_step (c c' : conn) : application_waits c c' → target_gone c → target_gone c'.
Proof.
  intros (Hst & Hr & He). destruct Hst as [a p p' l h tx cc Hx Hm Hj|p l l' h tx cc Hl Hj|d p p' l l' h tx cc Hx Hrd|m p l h tx cc Hw
    |p l tx cc Hm|p l tx cc Hc|p l tx cc|p l tx cc]; cbn in *.
  - by apply (waiting_proxy a).
  - intros (T0 & T1 & T2 & T3 & T4 & T5 & T6 & T7 & T8 & T9 & T10 & T11 & T12 & T13 & T14). unfold target_gone. cbn in *.
    destruct Hl as ((Hst & _ & _) & Hcl & _). destruct Hj as [_ Hj].
    specialize (Hcl T13). destruct Hst; cbn in *; try congruence; try (by repeat (split; [done|])).
    destruct Hj as [[_ ?]|(c & Hw & _)]; congruence.
  - apply read_down in Hx as (Hr0 & _ & ->).
    intros (T0 & T1 & T2 & T3 & T4 & T5 & T6 & T7 & T8 & T9 & T10 & T11 & T12 & T13 & T14). unfold target_gone. cbn in *.
    destruct Hrd; cbn in *; [|congruence]. by repeat (split; [done|]).
  - intros (_ & _ & _ & _ & _ & _ & _ & _ & _ & _ & T & _). cbn in *. congruence.
  - intros (_ & _ & _ & _ & _ & _ & _ & T & _). done.
  - by intros (_ & T & _).
  - by intros (_ & T & _).
  - by intros (_ & T & _).
Qed.

(** Nothing arrives any more. *)
Lemma waiting_received (c c' : conn) : application_waits c c' → target_gone c →
  Backend.received (link c') = Backend.received (link c).
Proof.
  intros (Hst & _) (_ & _ & _ & _ & _ & _ & _ & _ & _ & _ & Hw & _). destruct Hst; cbn in *; try done.
  - by apply internal_received; destruct H.
  - by apply reads_same in H0 as (_ & _ & _ & _ & _ & ? & _).
  - congruence.
Qed.

(** A read that waits when its connection is torn down. *)
Definition read_left (c : conn) : Prop :=
  Backend.registered (link c) = false ∧ (∃ n, Backend.reader (link c) = Backend.RWait n) ∧
  (∀ d, Backend.worker (link c) ≠ Backend.WData d) ∧ Proxy.rd (Proxy.down (px c)) = Proxy.Reading.

Lemma reader_left (a : Proxy.action) (p p' : Proxy.proxy) (l : Backend.link) (h : handling) (tx cc : bool) :
  Proxy.exec a p = Some p' → proxy_may a (mk_conn p l h tx cc) → (∃ n, Backend.reader l = Backend.RWait n) →
  Proxy.rd (Proxy.down p) = Proxy.Reading → Proxy.rd (Proxy.down p') = Proxy.Reading.
Proof.
  intros Hx Hm [n Hn] Hr. destruct p as [[r1 q1 t1 g1] [r2 q2 t2 g2] w m es c]. cbn in *. subst.
  destruct a as [[] d|[] e|[]|[]| | |k e| | | | | |k e];
    unfold Proxy.exec, Proxy.read_chunk, Proxy.read_fails, Proxy.push, Proxy.reader_exits, Proxy.take_chunk,
      mbind, option_bind in Hx; cbn in Hx; repeat (case_match; cbn in Hx; try done); simplify_eq; cbn in *; try done.
  destruct Hm as (_ & _ & ? & _). congruence.
Qed.

Lemma step_left (c c' : conn) : step c c' → read_left c → read_left c'.
Proof.
  intros Hst. destruct Hst as [a p p' l h tx cc Hx Hm Hj|p l l' h tx cc Hl Hj|d p p' l l' h tx cc Hx Hrd|m p l h tx cc Hw
    |p l tx cc Hm|p l tx cc Hc|p l tx cc|p l tx cc]; intros (Hg & Hn & Hw' & Hr); unfold read_left in *; cbn in *; try done.
  - split; [done|]. split; [done|]. split; [done|]. by apply (reader_left a p p' l h tx cc).
  - destruct Hl as ((Hst & _) & _). destruct Hn as [n Hn].
    destruct Hst; cbn in *; try congruence; try (split; [done|]; split; [by eauto|]; split; [done|done]).
    case_decide; cbn; (split; [done|]; split; [by eauto|]; split; [done|done]).
  - destruct Hn as [n Hn]. destruct Hrd as [l1 _ E _|l1 k c E1 E2]; cbn in *; [congruence|]. by destruct (Hw' c).
  - unfold arrive. by rewrite Hg.
Qed.

Lemma dead_of_exit (c : conn) : conn_ok c → Backend.sender (link c) = Backend.GExit →
  Backend.closing (link c) ≠ Backend.CDone → sender_dead c.
Proof.
  intros [_ _ [Ho _] _ [Hs _]] Hg Hc. split; [done|]. split; [done|]. split; [done|].
  destruct (handler c); [by split; [left|apply Hs]|by split; [right|apply Hs]|by destruct Hs..].
Qed.

(** ** Properties *)

(** C7: the deferred calls of a proxied connection, in every interleaving with
    its goroutines: the application's connection is closed only after [Proxy]
    has returned, the sender has taken the virtual connection's close and the
    backend has closed its transport; and this point can be reached whenever
    [Proxy] has returned, or the application has ended its connection, and
    the sender still runs. Once the sender has ended on a failed send, though,
    [upConn.Close()] never returns: whatever happens, the application's
    connection is never closed. *)
Theorem teardown (c : conn) : rtc step start c →
  (connClosed c = true → txClosed c = true ∧ Backend.closing (link c) = Backend.CDone ∧ Proxy.main (px c) = Proxy.WExited) ∧
  (Proxy.main (px c) = Proxy.WExited ∨ (∃ e, Proxy.rd (Proxy.up (px c)) = Proxy.RFailing e) →
   sender_up (link c) → ∃ c', rtc step c c' ∧ handler c' = HGone ∧ connClosed c' = true) ∧
  (¬ sender_up (link c) → ∀ c', rtc step c c' → (handler c' = HProxy ∨ handler c' = HUpConn) ∧ connClosed c' = false).
Proof.
  intros Hr. pose proof (reachable_conn c Hr) as Hok. split; [|split].
  - destruct Hok as [_ _ _ _ [Hs Hm]]. intros Hc. destruct (handler c); try (destruct Hs as (_ & _ & ?); congruence).
    destruct Hs as (? & ? & _). by auto.
  - intros [Hm|[e He]] Hup; [by apply returned_finishes|]. destruct c as [p l h tx cc].
    destruct (ended_returns e p l h tx cc Hok He) as (p' & Hp & Hm).
    destruct (returned_finishes (mk_conn p' l h tx cc)) as (c' & Hc & Hh); [|done|done|by exists c'; split; [etrans|]].
    apply reachable_conn. by etrans.
  - intros Hup c' Hr'. assert (Hd : sender_dead c).
    { apply dead_of_exit; [done|..]; [|intros E; apply Hup; by right].
      destruct (Backend.sender (link c)) eqn:E; [..|done]; destruct Hup; left; by rewrite E. }
    apply (rtc_invariant step sender_dead step_dead c c' Hr') in Hd. by destruct Hd as (_ & _ & _ & ? & ?).
Qed.

(** Moves at a state that is known. *)
Ltac link_differs := first [differs_in Backend.worker | differs_in Backend.reader | differs_in Backend.writing | differs_in Backend.sender].
Ltac joined_tac := split; [reflexivity|first [left; split; reflexivity | right; eexists; split; reflexivity]].
Tactic Notation "proxy_moves" uconstr(a) := eapply rtc_l; [eapply (step_proxy a); [vm_compute; reflexivity|done|joined_tac]|cbn].
Tactic Notation "link_moves" uconstr(t) := eapply rtc_l; [eapply step_link; [split; [split; [eapply t; reflexivity || done|split; [link_differs|
  split; [first [by left | by right]|split; [reflexivity|split; [reflexivity|first [by left | by right]]]]]]|by split]|joined_tac]|cbn].

(** The application ends a connection; and another one has written when the
    transport fails. *)
Lemma teardown_witness :
  (∃ c c', rtc step start c ∧ rtc step c c' ∧ connClosed c' = true) ∧
  (∃ c, rtc step start c ∧ Proxy.taken (Proxy.up (px c)) = lit "GET" ∧ ∀ c', rtc step c c' → connClosed c' = false).
Proof.
  split.
  - set (p := Proxy.set_up (Proxy.mk_flow (Proxy.RFailing EOF) [] [] []) Proxy.start).
    assert (Hr : rtc step start (mk_conn p opened HProxy false false)).
    { proxy_moves (Proxy.AReadFails Proxy.Up EOF). apply rtc_refl. }
    destruct (teardown _ Hr) as (_ & H & _). destruct H as (c' & Hc & _ & Hcl); [right; by exists EOF|by left|].
    by exists (mk_conn p opened HProxy false false), c'.
  - assert (Hr : ∃ c, rtc step start c ∧ Proxy.taken (Proxy.up (px c)) = lit "GET" ∧ ¬ sender_up (link c)).
    { eexists. split.
      - proxy_moves (Proxy.ARead Proxy.Up (lit "GET")). proxy_moves (Proxy.APush Proxy.Up). proxy_moves Proxy.ATakeUp.
        link_moves (Backend.write_step _ (lit "GET")). link_moves (Backend.hand_over_step _ (lit "GET")).
        link_moves (Backend.send_fails_step _ (lit "GET")). apply rtc_refl.
      - split; [reflexivity|]. by intros [?|?]. }
    destruct Hr as (c & Hr & Ht & Hd). destruct (teardown c Hr) as (_ & _ & H). exists c. split; [done|]. split; [done|].
    intros c' Hc. by apply (H Hd c').
Defined.

(** C8: the end of the target's stream is not passed on: when the uplink has
    ended and nothing of the application's is under way, then as long as the
    application neither sends nor closes, its connection stays open and
    [Proxy] does not return, although nothing can arrive any more. And a relay
    whose up-link reader waits when the connection is torn down leaves that
    goroutine behind for ever. *)
Theorem end_not_passed_on (c : conn) :
  (target_gone c → ∀ c', rtc application_waits c c' →
     handler c' = HProxy ∧ connClosed c' = false ∧ Proxy.main (px c') ≠ Proxy.WExited ∧
     Backend.received (link c') = Backend.received (link c)) ∧
  (read_left c → ∀ c', rtc step c c' → Proxy.rd (Proxy.down (px c')) = Proxy.Reading).
Proof.
  split.
  - intros Ht c' Hw. assert (Hi : target_gone c' ∧ Backend.received (link c') = Backend.received (link c)).
    { apply (rtc_invariant application_waits (λ c', target_gone c' ∧ Backend.received (link c') = Backend.received (link c)))
        with c; [|done|done].
      intros c1 c2 Hst [H1 H2]. split; [by apply (waiting_step c1)|]. rewrite <- H2. by apply waiting_received. }
    destruct Hi as [(T0 & T1 & T2 & _ & _ & _ & _ & T7 & _) ?]. done.
  - intros Hl c' Hw. apply (rtc_invariant step read_left step_left c c' Hw) in Hl. by destruct Hl as (_ & _ & _ & ?).
Qed.

(** The uplink ends after an answer that the application was given in full;
    and an application that closes first. *)
Lemma end_not_passed_on_witness :
  (∃ c, rtc step start c ∧ Proxy.given (Proxy.down (px c)) = lit "200" ∧ Backend.worker (link c) = Backend.WExit ∧
     ∀ c', rtc application_waits c c' → connClosed c' = false ∧ Proxy.main (px c') ≠ Proxy.WExited) ∧
  (∃ c, rtc step start c ∧ handler c = HGone ∧ ∀ c', rtc step c c' → Proxy.rd (Proxy.down (px c')) = Proxy.Reading).
Proof.
  split.
  - assert (Hr : ∃ c, rtc step start c ∧ Proxy.given (Proxy.down (px c)) = lit "200" ∧ Backend.worker (link c) = Backend.WExit ∧ target_gone c).
    { eexists. split.
      - link_moves (Backend.read_wait_step _ read_size).
        eapply rtc_l; [apply (step_arrive (Data (mk_Data 0 0 [] (lit "200")))); reflexivity|]. cbn.
        eapply rtc_l; [eapply (step_read (lit "200")); [vm_compute; reflexivity|eapply (reads_all read_size); [reflexivity|reflexivity|apply short_reads]]|cbn].
        proxy_moves (Proxy.APush Proxy.Down). proxy_moves Proxy.ATakeDown. proxy_moves Proxy.AWriteDown.
        link_moves Backend.recv_error_step. apply rtc_refl.
      - by repeat (split; [reflexivity || done|]). }
    destruct Hr as (c & Hr & Hg & Hw & Ht). exists c. split; [done|]. split; [done|]. split; [done|]. intros c' Hc.
    destruct (end_not_passed_on c) as [H _]. by destruct (H Ht c' Hc) as (_ & ? & ? & _).
  - assert (Hr : ∃ c, rtc step start c ∧ handler c = HGone ∧ read_left c).
    { eexists. split.
      - link_moves (Backend.read_wait_step _ read_size). proxy_moves (Proxy.AReadFails Proxy.Up EOF).
        proxy_moves (Proxy.AReaderExits Proxy.Up). proxy_moves Proxy.ATakeErr.
        eapply rtc_l; [apply step_return; reflexivity|]. cbn. link_moves Backend.close_hand_step.
        eapply rtc_l; [apply step_closed; reflexivity|]. eapply rtc_l; [apply step_linker|]. apply rtc_once, step_conn.
      - split; [reflexivity|]. split; [reflexivity|]. split; [by exists read_size|done]. }
    destruct Hr as (c & Hr & Hh & Hl). exists c. split; [done|]. split; [done|]. intros c' Hc.
    destruct (end_not_passed_on c) as [_ H]. by apply (H Hl).
Defined.
End Teardown.
