(* ===== verification/Session.v ===== *)
(** A whole h1 session, from [Connect] to the served dial request: the client's
    exchange with the server's handler (src/transport/h1/client.go, server.go),
    the framer both then hold (src/transport/framer/f1, src/transport/framer/ws),
    and the messages of the tunnel over it (src/message/codec/s1,
    src/socks/tunnel/server_handler.go, src/socks/backend/backend_secure.go). *)
From S2P Require Import Prelude GoIO Framing Base64 Conf Message CodecS1 Aes FramerF1 FramerWs Lru Http H1 Tunnel Backend Stack.
Import Conf Http H1.

Module Session.

(** ** The connection the framers offer

    [c.tx] and the [conn] of a handler are a framer, F1 or WebSocket, together
    with the randomness it draws. *)
Definition port (C : Type) : Type := framed C * rng.

Definition conn_of {C} (p : port C) : C := match p.1 with TxF1 f => F1.tx f | TxWs f => Ws.tx f end.

Definition map_outcome {A S T} (f : S → T) (r : outcome A * S) : outcome A * T := (r.1, f r.2).

Definition port_read {C} `{Reader C} (n : nat) : M (port C) bytes := λ p,
  match p.1 with
  | TxF1 f => map_outcome (λ f, (TxF1 f, p.2)) (F1.Read n f)
  | TxWs f => map_outcome (λ f, (TxWs f, p.2)) (Ws.Read n f)
  end.

Definition port_write {C} `{Writer C} (d : bytes) : M (port C) Z := λ p,
  match p.1 with
  | TxF1 f => map_outcome (λ s, (TxF1 s.1, s.2)) (F1.Write d (f, p.2))
  | TxWs f => map_outcome (λ s, (TxWs s.1, s.2)) (Ws.Write d (f, p.2))
  end.

#[global] Instance port_Reader {C} `{Reader C} : Reader (port C) :=
  { read := port_read; budget := λ p, match p.1 with TxF1 f => budget f | TxWs f => budget f end }.

#[global] Instance port_Writer {C} `{Writer C} : Writer (port C) := { write := port_write }.

(** [framer.Framer] is an [io.ReadWriteCloser]. *)
Class Framer (P : Type) := {
  framer_Reader : Reader P;
  framer_Writer : Writer P;
  framer_Closer : Closer P;
}.

Definition port_close {C} `{Closer C} : M (port C) unit := λ p,
  match p.1 with
  | TxF1 f => map_outcome (λ f, (TxF1 f, p.2)) (F1.Close f)
  | TxWs f => map_outcome (λ f, (TxWs f, p.2)) (Ws.Close (Some _) f)
  end.

#[global] Instance port_Closer {C} `{Closer C} : Closer (port C) := { close := port_close }.
#[global] Instance port_Framer {C} `{Reader C} `{Writer C} `{Closer C} : Framer (port C) :=
  {| framer_Reader := port_Reader; framer_Writer := port_Writer; framer_Closer := port_Closer |}.

(** Closing a framer closes the connection below, and nothing else: what a
    frame has left over can still be read. *)
Lemma port_close_conn {C} `{Closer C} (p : port C) :
  (close p).1 = (close (conn_of p)).1 ∧ conn_of (close p).2 = (close (conn_of p)).2 ∧
  match p.1, (close p).2.1 with
  | TxF1 f, TxF1 f' => F1.bufRead f' = F1.bufRead f ∧ F1.lenBufRead f' = F1.lenBufRead f ∧ F1.psk f' = F1.psk f
  | TxWs f, TxWs f' => Ws.bufRead f' = Ws.bufRead f ∧ Ws.lenBufRead f' = Ws.lenBufRead f ∧ Ws.psk f' = Ws.psk f
  | _, _ => False
  end.
Proof.
  destruct p as [[f|f] g]; cbn; unfold port_close, F1.Close, Ws.Close, F1.on_tx, Ws.on_tx, conn_of; cbn;
    by destruct (close _) as [r t].
Qed.

#[global] Program Instance port_laws {C} `{ReaderLaws C} : ReaderLaws (port C) :=
  { delivers := λ p bs, match p.1 with TxF1 f => delivers f bs | TxWs f => delivers f bs end }.
Next Obligation.
  intros C ?? [[f|f] g] bs n Hd Hn; cbn in *; pose proof (read_law f bs n Hd Hn) as Hr; unfold read_post in *;
    cbn in *; unfold port_read; cbn.
  - by destruct (F1.Read n f) as [[d|e| |] f'].
  - by destruct (Ws.Read n f) as [[d|e| |] f'].
Qed.

Definition port_emitted {C} `{WriterLaws C} (p p' : port C) (d : bytes) : Prop :=
  match p.1, p'.1 with
  | TxF1 f, TxF1 f' => emitted (f, p.2) (f', p'.2) d
  | TxWs f, TxWs f' => emitted (f, p.2) (f', p'.2) d
  | _, _ => False
  end.

#[global] Program Instance port_writer_laws {C} `{WriterLaws C} : WriterLaws (port C) :=
  { write_pre := λ p n, match p.1 with TxF1 f => write_pre (f, p.2) n | TxWs f => write_pre (f, p.2) n end;
    emitted := port_emitted }.
Next Obligation. intros C ?? [[f|f] g]; exact (emitted_nil (f, g)). Qed.
Next Obligation.
  intros C ?? [[f1|f1] g1] [[f2|f2] g2] [[f3|f3] g3] a b; cbn; try done; intros E1 E2; 
    exact (emitted_app (f1, g1) (f2, g2) (f3, g3) a b E1 E2).
Qed.
Next Obligation. intros C ?? [[f|f] g] m n; exact (write_pre_mono (f, g) m n). Qed.
Next Obligation.
  intros C ?? [[f|f] g] [[f'|f'] g'] d n; cbn; try done; exact (write_pre_emitted (f, g) (f', g') d n).
Qed.
Next Obligation.
  intros C ?? [[f|f] g] d Hp; destruct (write_law (f, g) d Hp) as (n & [f' g'] & Hw & He); cbn in Hw;
    cbn; unfold port_write; cbn; rewrite Hw; by eexists _, _.
Qed.

(** ** Reading and writing do not interfere *)
Section quiet.
Context {C : Type} `{TwoWay C}.

(** What reading keeps of a framer, and what writing keeps. *)
Definition f1_reads (f f' : F1.F1 C) : Prop := sends_nothing (F1.tx f) (F1.tx f') ∧ F1.psk f' = F1.psk f.
Definition ws_reads (f f' : Ws.Ws C) : Prop :=
  sends_nothing (Ws.tx f) (Ws.tx f') ∧ Ws.psk f' = Ws.psk f ∧ Ws.mask f' = Ws.mask f.
Definition f1_writes (s s' : F1.F1 C * rng) : Prop :=
  same_input (F1.tx s.1) (F1.tx s'.1) ∧ F1.psk s'.1 = F1.psk s.1 ∧
  F1.bufRead s'.1 = F1.bufRead s.1 ∧ F1.lenBufRead s'.1 = F1.lenBufRead s.1.
Definition ws_writes (s s' : Ws.Ws C * rng) : Prop :=
  same_input (Ws.tx s.1) (Ws.tx s'.1) ∧ Ws.psk s'.1 = Ws.psk s.1 ∧ Ws.mask s'.1 = Ws.mask s.1 ∧
  Ws.bufRead s'.1 = Ws.bufRead s.1 ∧ Ws.lenBufRead s'.1 = Ws.lenBufRead s.1.

#[local] Instance f1_reads_preorder : PreOrder f1_reads.
Proof.
  split; [intros f; by split|]. intros f1 f2 f3 [E1 P1] [E2 P2]. split; [by etrans|congruence].
Qed.
#[local] Instance ws_reads_preorder : PreOrder ws_reads.
Proof.
  split; [intros f; by split|]. intros f1 f2 f3 (E1 & P1 & M1) (E2 & P2 & M2). split; [by etrans|]. split; congruence.
Qed.
#[local] Instance f1_writes_preorder : PreOrder f1_writes.
Proof.
  split; [intros f; by split|]. intros f1 f2 f3 (E1 & ? & ? & ?) (E2 & ? & ? & ?). split; [by etrans|].
  repeat split; congruence.
Qed.
#[local] Instance ws_writes_preorder : PreOrder ws_writes.
Proof.
  split; [intros f; by split|]. intros f1 f2 f3 (E1 & ? & ? & ? & ?) (E2 & ? & ? & ? & ?). split; [by etrans|].
  repeat split; congruence.
Qed.

Lemma f1_on_tx {A} (m : M C A) : moves sends_nothing m → moves f1_reads (F1.on_tx m).
Proof. intros Hm f. specialize (Hm (F1.tx f)). unfold F1.on_tx. by destruct (m (F1.tx f)). Qed.
Lemma ws_on_tx {A} (m : M C A) : moves sends_nothing m → moves ws_reads (Ws.on_tx m).
Proof. intros Hm f. specialize (Hm (Ws.tx f)). unfold Ws.on_tx. by destruct (m (Ws.tx f)). Qed.
Lemma f1_keeps (d : bytes) : moves f1_reads (modify (F1.appendBuf d)).
Proof. intros f. cbn. unfold F1.appendBuf. by case_decide. Qed.
Lemma ws_keeps (d : bytes) : moves ws_reads (modify (Ws.appendBuf d)).
Proof. intros f. cbn. unfold Ws.appendBuf. by case_decide. Qed.
#[local] Hint Resolve f1_on_tx ws_on_tx f1_keeps ws_keeps : moves.

Lemma f1_read_moves (n : nat) : moves f1_reads (F1.Read n).
Proof.
  assert (Hm : moves f1_reads (chunk ← F1.read_frame; if decide (n < length chunk) then
    _ ← modify (F1.appendBuf (drop n chunk)); mret (take n chunk) else mret chunk)).
  { unfold F1.read_frame. solve_moves. }
  intros f. unfold F1.Read. case_decide; [by split|apply Hm].
Qed.

Lemma ws_read_moves (n : nat) : moves ws_reads (Ws.Read n).
Proof.
  assert (Hm : moves ws_reads (chunk ← Ws.read_frame; if decide (n < length chunk) then
    _ ← modify (Ws.appendBuf (drop n chunk)); mret (take n chunk) else mret chunk)).
  { unfold Ws.read_frame, Ws.read_size. solve_moves. }
  intros f. unfold Ws.Read. case_decide; [by split|apply Hm].
Qed.

Lemma f1_draws {A} (m : M rng A) : moves f1_writes (on_snd m).
Proof. by apply moves_snd. Qed.
Lemma ws_draws {A} (m : M rng A) : moves ws_writes (on_snd m).
Proof. by apply moves_snd. Qed.
Lemma f1_sends (d : bytes) : moves f1_writes (on_fst (F1.on_tx (write d))).
Proof.
  intros [f g]. pose proof (write_quiet d (F1.tx f)) as Hw. unfold on_fst, F1.on_tx. cbn. by destruct (write d (F1.tx f)).
Qed.
Lemma ws_sends (d : bytes) : moves ws_writes (on_fst (Ws.on_tx (write d))).
Proof.
  intros [f g]. pose proof (write_quiet d (Ws.tx f)) as Hw. unfold on_fst, Ws.on_tx. cbn. by destruct (write d (Ws.tx f)).
Qed.
#[local] Hint Resolve f1_draws ws_draws f1_sends ws_sends : moves.

Lemma f1_write_moves (d : bytes) : moves f1_writes (F1.Write d).
Proof. unfold F1.Write. solve_moves. Qed.
Lemma ws_write_moves (d : bytes) : moves ws_writes (Ws.Write d).
Proof. unfold Ws.Write. solve_moves. Qed.

Lemma f1_same_input (s s' : F1.F1 C * rng) : f1_writes s s' → same_input s.1 s'.1.
Proof.
  intros ([Hd Hb] & Hk & Hr & Hl). split; [|cbn; by rewrite Hr, Hl, Hb].
  intros bs (ps & w & Hf & Hw & Hs & ->). exists ps, w. cbn in *. rewrite Hk, Hr, Hl. auto.
Qed.
Lemma ws_same_input (s s' : Ws.Ws C * rng) : ws_writes s s' → same_input s.1 s'.1.
Proof.
  intros ([Hd Hb] & Hk & Hm & Hr & Hl). split; [|cbn; by rewrite Hr, Hl, Hb].
  intros bs (ps & w & Hf & Hw & Hs & ->). exists ps, w. cbn in *. rewrite Hk, Hm, Hr, Hl. auto.
Qed.

#[global] Instance port_two_way : TwoWay (port C).
Proof.
  split.
  - intros n [[f|f] g]; cbn; unfold port_read, sends_nothing; cbn.
    + destruct (f1_read_moves n f) as [He Hk]. exists [], []. split; [apply are_frames_nil|]. by split.
    + destruct (ws_read_moves n f) as (He & Hk & Hm). exists [], []. split; [apply are_frames_nil|]. by repeat split.
  - intros d [[f|f] g]; cbn; unfold port_write; cbn.
    + exact (f1_same_input (f, g) _ (f1_write_moves d (f, g))).
    + exact (ws_same_input (f, g) _ (ws_write_moves d (f, g))).
Qed.

(** Writing leaves a side what it is, but for its connection. *)
Definition same_side (p p' : port C) : Prop :=
  ∀ ws client key c, p.1 = side ws client key c → ∃ c', p'.1 = side ws client key c'.

#[global] Instance same_side_preorder : PreOrder same_side.
Proof.
  split; [intros p ws client key c E; by exists c|].
  intros p1 p2 p3 E1 E2 ws client key c Hp. destruct (E1 _ _ _ _ Hp) as [c' Hp']. by apply E2 in Hp'.
Qed.

Lemma port_write_side (d : bytes) : moves same_side (write (T := port C) d).
Proof.
  intros [[f|f] g] [] client key c; intros E; cbn in E; try discriminate E;
    injection E as E; cbn [write port_Writer]; unfold port_write, map_outcome; cbn [fst snd].
  - pose proof (f1_write_moves d (f, g)) as (_ & E1 & E2 & E3). subst f.
    destruct (F1.Write d _) as [o [[tx' k' b' l'] g']]. cbn in E1, E2, E3. subst. by eexists.
  - pose proof (ws_write_moves d (f, g)) as (_ & E1 & E2 & E3 & E4). subst f.
    destruct (Ws.Write d _) as [o [[tx' k' m' b' l'] g']]. cbn in E1, E2, E3, E4. subst. by eexists.
Qed.
End quiet.

(** What one side has sent, the other delivers, whatever the framer. *)
Lemma port_sealed {C D} `{WriterLaws C} `{ReaderLaws D} (ws client : bool) (key : bytes) (c : C) (g : rng) (p' : port C) (d : bytes) :
  emitted (side ws client key c, g) p' d →
  ∃ raw, emitted c (conn_of p') raw ∧
    ∀ (c2 : D) (g2 : rng), delivers c2 raw → delivers (side ws (negb client) key c2, g2) d.
Proof.
  destruct p' as [[f'|f'] g'], ws; cbn; try done; intros (ps & raw & Hf & -> & He & _); exists raw; (split; [exact He|]);
    intros c2 g2 Hd; cbn in *; eapply framed_fresh; try done; cbn; try lia.
  by rewrite negb_involutive.
Qed.

(** A fresh side takes what its connection takes with the frame around it. *)
Definition frame_room : nat := 300.

Lemma side_takes {C} `{WriterLaws C} (ws client : bool) (key : bytes) (c : C) (g : rng) (n : nat) :
  length key = 16 → (Z.of_nat n < 2 ^ 31)%Z → write_pre c (n + frame_room) → write_pre (side ws client key c, g) n.
Proof.
  intros Hk Hn Hc. assert (Hks : key_size_ok key = true) by (unfold key_size_ok; rewrite Hk; done).
  destruct ws; (split; [done|split; [|eapply write_pre_mono; [exact Hc|]]]).
  all: unfold Ws.max_overhead, F1.max_overhead, frame_room, max_alloc in *; lia.
Qed.

(** ** Messages over a port *)
Section messages.
Context {T : Type} `{TwoWay T}.

(** The requests of the backend, each a [Write] of its own. *)
Fixpoint send_messages (ms : list Message) : M (T * rng) unit :=
  match ms with
  | [] => mret tt
  | m :: ms => _ ← S1.Write m; send_messages ms
  end.

Lemma send_messages_run (ms : list Message) (s : T) (g : rng) :
  forallb Tunnel.no_ping ms = true → (∀ m, m ∈ ms → Tunnel.takes s m) →
  ∃ s' g', send_messages ms (s, g) = (Ok tt, (s', g')) ∧ emitted s s' (Tunnel.wires ms).
Proof.
  revert s g. induction ms as [|m ms IH]; intros s g Hnp Hp.
  { exists s, g. split; [done|]. apply emitted_nil. }
  cbn [forallb] in Hnp. apply andb_true_iff in Hnp as [Hm Hms].
  destruct (S1.Write_wire m s g) as (n & s1 & g1 & Hw & He).
  { specialize (Hp m ltac:(left)). unfold Tunnel.takes in Hp. rewrite (Tunnel.wire_no_ping m _ g Hm) in Hp.
    unfold S1.wire in Hp. by rewrite S1.length_frame in Hp. }
  destruct (IH s1 g1 Hms) as (s2 & g2 & Hr & He2).
  { intros m' Hm'. eapply Tunnel.takes_emitted; [exact He|]. apply Hp. by right. }
  exists s2, g2. split; [cbn [send_messages]; by run Hw|].
  rewrite (Tunnel.wire_no_ping m g (λ _, Byte.x00) Hm) in He. by eapply emitted_app.
Qed.

Lemma send_messages_moves (Rel : T → T → Prop) `{!PreOrder Rel} (ms : list Message) :
  (∀ d, moves Rel (write d)) → moves (S1.same_conn Rel) (send_messages ms).
Proof.
  intros Hw. induction ms as [|m ms IH]; [intros s; unfold S1.same_conn; reflexivity|].
  apply moves_bind; [by apply S1.same_conn_preorder|by apply S1.moves_Write|done].
Qed.

Lemma read_messages_run (ms : list Message) (s : T) (rest : bytes) :
  forallb Tunnel.request_ok ms = true → delivers s (Tunnel.wires ms ++ rest) →
  ∃ s', Stack.read_messages (length ms) s = (Ok ms, s') ∧ delivers s' rest.
Proof.
  revert s. induction ms as [|m ms IH]; intros s Hok Hd; [by exists s|].
  cbn [forallb] in Hok. apply andb_true_iff in Hok as [Hm Hms].
  unfold Tunnel.request_ok in Hm. rewrite !andb_true_iff in Hm. destruct Hm as [[Hm Hs] _].
  unfold Tunnel.wires in Hd. cbn [map concat] in Hd. rewrite <- app_assoc in Hd.
  destruct (S1.Read_wire m _ s _ Hm Hs Hd) as (s1 & Hr & Hd1).
  destruct (IH s1 Hms Hd1) as (s2 & Hr2 & Hd2). exists s2. split; [|done].
  cbn [length Stack.read_messages]. run Hr. by run Hr2.
Qed.

Lemma request_ok_no_ping (ms : list Message) : forallb Tunnel.request_ok ms = true → forallb Tunnel.no_ping ms = true.
Proof.
  rewrite !forallb_forall. intros Hok m Hm. specialize (Hok m Hm). unfold Tunnel.request_ok in Hok.
  by apply andb_true_iff in Hok as [_ ?].
Qed.
End messages.

(** Every message of the session fits in [room] bytes. *)
Definition fit (room : nat) (ms : list Message) : Prop :=
  ∀ m, m ∈ ms → length (S1.wire m (λ _, Byte.x00)) ≤ room.

Lemma side_takes_fit {C} `{WriterLaws C} (ws client : bool) (key : bytes) (c : C) (g : rng) (room : nat) (ms : list Message) (m : Message) :
  length key = 16 → (Z.of_nat room < 2 ^ 31)%Z → write_pre c (room + frame_room) → fit room ms → m ∈ ms →
  Tunnel.takes (side ws client key c, g) m.
Proof.
  intros Hk Hn Hc Hfit Hm. eapply write_pre_mono; [by apply (side_takes _ _ _ _ _ room)|by apply Hfit].
Qed.

(** Between the sides of an exchange that has succeeded. *)
Lemma framers_run {C D A : Type} `{TwoWay C} `{TwoWay D} (ws : bool) (key : bytes) (c1 : C) (gfc gfs gmc gms : rng)
    (LookupIP : bytes → outcome (list bytes)) (Dial : bytes → bytes → outcome A) (now : Z)
    (error_text : error → bytes) (reqs : list MessageRequestDNS) (d : MessageRequestDial)
    (t t' : Tunnel.cache) (target : bytes) (conn : A) (room : nat) :
  let requests := map RequestDNS reqs ++ [RequestDial d] in
  let replies := map (Tunnel.dns_reply LookupIP error_text) reqs ++ [Tunnel.open_reply (dial_ConnectionId d)] in
  length key = 16 → (Z.of_nat room < 2 ^ 31)%Z → fit room requests → fit room replies →
  forallb Tunnel.request_ok requests = true → forallb Tunnel.request_ok replies = true →
  (∀ m, m ∈ reqs → returns (LookupIP (rdns_DomainName m))) →
  Tunnel.resolve_target LookupIP now (dial_Address d) t = (Ok target, t') →
  Dial (dial_Network d) target = Ok conn →
  write_pre c1 (room + frame_room) →
  ∃ c1' gf' gm' up, send_messages requests ((side ws true key c1, gfc), gmc) = (Ok tt, ((side ws true key c1', gf'), gm')) ∧
    emitted c1 c1' up ∧
    ∀ c2 : D, delivers c2 up → write_pre c2 (room + frame_room) →
    ∃ p_s g'' down, Tunnel.handle LookupIP Dial now error_text ((side ws false key c2, gfs), gms, t) = (Ok conn, (p_s, g'', t')) ∧
      emitted c2 (conn_of p_s) down ∧ delivers p_s [] ∧
      ∀ c3 : C, delivers c3 down → ∃ p', Stack.read_messages (length replies) (side ws true key c3, gf') = (Ok replies, p') ∧ delivers p' [].
Proof.
  intros requests replies Hk Hroom Hfq Hfp Hreqs Hreps Hret Hres Hconn Hw.
  destruct (send_messages_run requests (side ws true key c1, gfc) gmc) as ([tx gf'] & gm' & Hsend & He).
  { by apply request_ok_no_ping. }
  { intros m Hm. by apply (side_takes_fit _ _ _ _ _ room requests). }
  assert (Hside : ∃ c1', tx = side ws true key c1').
  { pose proof (send_messages_moves same_side requests port_write_side ((side ws true key c1, gfc), gmc)) as Hs.
    unfold port in *. rewrite Hsend in Hs. exact (Hs ws true key c1 eq_refl). }
  destruct Hside as [c1' ->].
  destruct (port_sealed (D := D) ws true key c1 gfc _ _ He) as (up & Hup & Hopen).
  exists c1', gf', gm', up. split; [done|]. split; [by destruct ws|]. intros c2 Hc2 Hw2.
  assert (Hq : forallb (λ m, Tunnel.request_ok (RequestDNS m)) reqs = true ∧ Tunnel.request_ok (RequestDial d) = true).
  { unfold requests in Hreqs. rewrite forallb_app in Hreqs. apply andb_true_iff in Hreqs as [H1' H2'].
    cbn in H2'. rewrite andb_true_r in H2'. split; [|done]. rewrite forallb_forall in H1' |- *.
    intros m Hm. apply H1'. by apply in_map. }
  destruct Hq as [Hdns Hdial].
  destruct (Tunnel.handle_run LookupIP Dial now error_text reqs d (side ws false key c2, gfs) gms t t' [] target conn
              Hdns Hdial) as (p_s & g'' & Hh & Hes & Hds); try done.
  { intros m Hm. split; [by apply Hret|]. apply (side_takes_fit _ _ _ _ _ room replies); try done.
    apply elem_of_app. left. by apply list_elem_of_fmap_2. }
  { apply (side_takes_fit _ _ _ _ _ room replies); try done. apply elem_of_app. right. by left. }
  { rewrite app_nil_r. by apply (Hopen c2 gfs). }
  destruct (port_sealed (D := C) ws false key c2 gfs p_s _ Hes) as (down & Hdown & Hopen').
  exists p_s, g'', down. do 3 (split; [done|]). intros c3 Hc3.
  apply (read_messages_run replies _ []); [done|]. rewrite app_nil_r. by apply (Hopen' c3 gf').
Qed.

(** ** Properties *)

(** C4: a session from end to end: a client and a server that share the
    pre-shared key, with clocks at most two minutes apart, complete the
    exchange; over the framers it leaves them, F1 or WebSocket, every DNS
    request and the dial request the client sends is served, in order, and the
    client reads exactly the replies, each under its request's id, then the
    announcement that the connection is open; on both sides not a byte is lost
    between the HTTP exchange and the first frame, though the request and the
    response are read through buffers that are then dropped. What the server's
    session is sent is what the client's connection was given after the
    request, and [r'] is the client's connection once the server's frames have
    arrived on it. *)
Theorem h1_session {R W S V C : Type} `{ReaderLaws R} `{WriterLaws W} `{ReaderLaws S} `{WriterLaws V}
    (url_Parse ParseAbsolute : bytes → outcome URL) (iterate : header_map → list (bytes * bytes))
    (dial : bool → bytes → outcome unit) (nowc nows : Z) (gc gs gfc gfs gmc gms : rng)
    (c : Client) (options : ServerOptions) (pskb : bytes) (uri : URL)
    (LookupIP : bytes → outcome (list bytes)) (Dial : bytes → bytes → outcome C) (now : Z)
    (error_text : error → bytes) (reqs : list MessageRequestDNS) (d : MessageRequestDial)
    (t t' : Tunnel.cache) (target : bytes) (conn : C) (room : nat) :
  (∀ m, iterate m ≡ₚ map_to_list m) →
  (0 ≤ nowc < 2 ^ 62)%Z → (0 ≤ nows < 2 ^ 62)%Z → (-120 ≤ nowc - nows ≤ 120)%Z →
  closed c = false → Handler options = true →
  DecodeString (Conf.Get Conf.FRAMER_PSK (cfg c)) = Ok pskb →
  DecodeString (Conf.Get Conf.FRAMER_PSK (ProtocolParams options)) = Ok pskb → key_size_ok pskb = true →
  url_Parse (serverUrl c) = Ok uri → dial (useTLS (target_of uri)) (addr (target_of uri)) = Ok tt →
  URLHost uri ≠ [] → (Byte.x0d ∉ URLHost uri) → length (URLHost uri) ≤ 1000 →
  id c ≠ [] → length (id c) ≤ 1000 →
  let requests := map RequestDNS reqs ++ [RequestDial d] in
  let replies := map (Tunnel.dns_reply LookupIP error_text) reqs ++ [Tunnel.open_reply (dial_ConnectionId d)] in
  forallb Tunnel.request_ok requests = true → forallb Tunnel.request_ok replies = true →
  (14336 <= Z.of_nat room < 2 ^ 31)%Z → fit room requests → fit room replies →
  (∀ m, m ∈ reqs → returns (LookupIP (rdns_DomainName m))) →
  Tunnel.resolve_target LookupIP now (dial_Address d) t = (Ok target, t') →
  Dial (dial_Network d) target = Ok conn →
  ∃ req resp,
    ∀ (r : R) (w : W) (down : bytes), in_turn r resp down → write_pre w (room + frame_room) →
    ∃ c' tx conn1 gc', Connect url_Parse nowc iterate dial c (Duplex.mk_duplex r w, gc) = (Ok (c', tx), (conn1, gc')) ∧
      Connected c' = true ∧ delivers conn1 down ∧
    ∃ ws key conn2 gf' gm' up, send_messages requests ((tx, gfc), gmc) = (Ok tt, ((side ws true key conn2, gf'), gm')) ∧
      emitted w (Duplex.wx conn2) (req ++ up) ∧
    ∀ (s : S) (v : V), in_turn s req up → write_pre v (room + frame_room) →
    ∃ tx_s conn3 gs', handleServerConn ParseAbsolute nows options (Duplex.mk_duplex s v, gs)
        = (Ok (Some (id c, tx_s)), (conn3, gs')) ∧
    ∃ p_s g'' down', Tunnel.handle LookupIP Dial now error_text ((tx_s, gfs), gms, t) = (Ok conn, (p_s, g'', t')) ∧
      emitted v (Duplex.wx (conn_of p_s)) (resp ++ down') ∧ delivers p_s [] ∧
    ∀ r' : R, delivers r' down' →
    ∃ p', Stack.read_messages (length replies) (side ws true key (Duplex.mk_duplex r' (Duplex.wx conn2)), gf') = (Ok replies, p') ∧
      delivers p' [].
Proof.
  intros Hit Hnc Hns Hdiff Hcl Hh Hpc Hps Hks Huri Hdial Hhost Hcr Hhl Hid Hidl requests replies
    Hreqs Hreps Hroom Hfq Hfp Hret Hres Hconn.
  destruct (Connect_run (R := R) (W := W) url_Parse nowc iterate dial Hnc Hit c pskb uri gc
              Hcl Hpc Hks Huri Hdial Hhost Hcr Hhl Hidl)
    as (ab & ct & wsKey & gc' & Hab & Hts & Hct & Hdec & Hkey & Hrun).
  destruct (handleServerConn_run (S := S) (V := V) ParseAbsolute nows Hns options pskb uri (id c) (useWS (target_of uri)) wsKey ct ab nowc
              (iterate (request_values wsKey (EncodeToString ct))) gs
              Hps Hks Hh Hid Hidl Hhost Hcr Hhl Hab Hts Hct Hdec Hkey Hnc Hdiff (Hit _))
    as (raw & enc & wsAccept & gs' & Hraw & Hend & Hacc & Hal & Hsrv).
  set (ws := useWS (target_of uri)) in *. set (key := session_psk (shared_key raw ab) nowc) in *.
  assert (Hkl : length key = 16) by (by apply session_psk_length, shared_key_length).
  exists (WriteTo (request uri (id c) wsKey (EncodeToString ct)) (iterate (request_values wsKey (EncodeToString ct)))),
    (text (reply_lines ws wsAccept (EncodeToString enc))).
  intros r w down Hr Hw. rewrite <- (app_nil_r (text _)) in Hr.
  destruct (Hrun (λ r bs, in_turn r bs down) r w wsAccept enc raw [] (feeding_weaken _ (feeding_in_turn down)) Hr Hacc Hal Hend Hraw)
    as (r1 & w1 & [|? ?] & Hc & Hr1 & Hl & He1); [|  |cbn in Hl; lia]; [eapply write_pre_mono; [exact Hw|lia]|].
  apply in_turn_end in Hr1.
  do 4 eexists. split; [exact Hc|]. split; [unfold Connected; cbn; by rewrite Hcl|]. split; [exact Hr1|].
  destruct (framers_run (D := Duplex.duplex S V) ws key (Duplex.mk_duplex r1 w1) gfc gfs gmc gms LookupIP Dial now error_text
              reqs d t t' target conn room) as (conn2 & gf' & gm' & up & Hsend & Hup & Hrest); try first [done|lia|exact (write_pre_emitted _ _ _ _ Hw He1)].
  exists ws, key, conn2, gf', gm', up. split; [exact Hsend|]. split; [by eapply emitted_app|]. intros s v Hs Hv.
  rewrite <- (app_nil_r (WriteTo _ _)) in Hs.
  destruct (Hsrv (λ s bs, in_turn s bs up) s v [] (feeding_in_turn up) Hs) as (s1 & v1 & [|? ?] & Hsc & Hs1 & Hl1 & Hv1);
    [eapply write_pre_mono; [exact Hv|lia]| |cbn in Hl1; lia].
  apply in_turn_end in Hs1.
  do 3 eexists. split; [exact Hsc|].
  destruct (Hrest (Duplex.mk_duplex s1 v1) Hs1 (write_pre_emitted _ _ _ _ Hv Hv1)) as (p_s & g'' & down' & Hhd & Hdn & Hd & Hread).
  exists p_s, g'', down'. split; [exact Hhd|]. split; [by eapply emitted_app|]. split; [done|].
  intros r' Hr'. by apply Hread.
Qed.

(** A resolution and a connection through the sample server. *)
Definition sample_requests : list MessageRequestDNS := [mk_RequestDNS 7 (lit "ip") (lit "example.com")].
Definition sample_request_dial : MessageRequestDial := mk_RequestDial 0 (lit "tcp") (lit "example.com:80") (lit "c").
Definition sample_dial (network target : bytes) : outcome nat :=
  if bool_decide (target = lit "93.184.216.34:80") then Ok 5 else Err OpError.
Definition sample_replies : list Message :=
  [ResultDNS (mk_ResultDNS 0 7 [[byte_of 93; byte_of 184; byte_of 216; byte_of 34]] []); Tunnel.open_reply (lit "c")].

Definition arriving (d : bytes) : list (byte * bytes) := match d with [] => [] | b :: d => [(b, d)] end.
Lemma stream_arriving (d : bytes) : Net.stream (arriving d) = d.
Proof. destruct d; [done|]. cbn. by rewrite app_nil_r. Qed.

Lemma fit_check (n : Z) (ms : list Message) :
  forallb (λ m, len (S1.wire m (λ _, Byte.x00)) <=? n)%Z ms = true → fit (Z.to_nat n) ms.
Proof.
  rewrite forallb_forall. intros Hok m Hm. apply list_elem_of_In in Hm. apply Hok, Z.leb_le in Hm. unfold len in Hm. lia.
Qed.

Lemma h1_session_witness :
  ∃ (tx tx_s : framed (Duplex.duplex Net.conn Buf.buffer)) (p p' p_s : port (Duplex.duplex Net.conn Buf.buffer)) s v s' g g',
    send_messages (map RequestDNS sample_requests ++ [RequestDial sample_request_dial]) ((tx, F1.sample_bytes), F1.sample_bytes)
      = (Ok tt, (p, g)) ∧
    handleServerConn no_absolute 1700000100 sample_options (Duplex.mk_duplex s v, F1.sample_bytes)
      = (Ok (Some (lit "client 7", tx_s)), s') ∧
    Tunnel.handle Tunnel.sample_lookup sample_dial 0 (λ _, []) ((tx_s, F1.sample_bytes), F1.sample_bytes, Tunnel.dnsCache)
      = (Ok 5, (p_s, g', (Tunnel.resolve_target Tunnel.sample_lookup 0 (lit "example.com:80") Tunnel.dnsCache).2)) ∧
    (Stack.read_messages 2 p').1 = Ok sample_replies.
Proof.
  destruct (h1_session (R := Net.conn) (W := Buf.buffer) (S := Net.conn) (V := Buf.buffer)
     (λ _, Ok sample_uri) no_absolute map_to_list (λ _ _, Ok tt) 1700000000 1700000100
     F1.sample_bytes F1.sample_bytes F1.sample_bytes F1.sample_bytes F1.sample_bytes F1.sample_bytes
     sample_client sample_options F1.sample_key sample_uri
     Tunnel.sample_lookup sample_dial 0 (λ _, []) sample_requests sample_request_dial
     Tunnel.dnsCache (Tunnel.resolve_target Tunnel.sample_lookup 0 (lit "example.com:80") Tunnel.dnsCache).2
     (lit "93.184.216.34:80") 5 (Z.to_nat 16384)) as (req & resp & Hrun).
  1: done.
  1, 2, 3: lia.
  1, 2: reflexivity.
  1, 2, 3: by vm_compute.
  1, 2: reflexivity.
  1: done.
  1: refine (bool_decide_unpack _ _); by vm_compute.
  1: cbn; lia.
  1: done.
  1: cbn; lia.
  1, 2: by vm_compute.
  1: lia.
  1, 2: by apply fit_check; vm_compute.
  1: intros m _; unfold Tunnel.sample_lookup; by destruct (bool_decide _).
  1, 2: by vm_compute.
  destruct (Hrun (Net.mk_conn (arriving resp ++ [])) (Buf.mk_buffer []) []) as
      (c' & tx & conn1 & gc' & _ & _ & _ & ws & key & conn2 & gf' & gm' & up & Hsend & _ & Hsrv).
  { pose proof (net_in_turn (arriving resp) []) as Ht. by rewrite stream_arriving in Ht. }
  { exact I. }
  destruct (Hsrv (Net.mk_conn (arriving req ++ arriving up)) (Buf.mk_buffer [])) as
    (tx_s & conn3 & gs' & Hconn & p_s & g'' & down & Hh & _ & _ & Hread).
  { pose proof (net_in_turn (arriving req) (arriving up)) as Ht. by rewrite !stream_arriving in Ht. }
  { exact I. }
  destruct (Hread (Net.mk_conn (arriving down)) (stream_arriving down)) as (p' & Hr & _).
  do 10 eexists. split; [exact Hsend|]. split; [exact Hconn|]. split; [exact Hh|].
  replace (map _ _ ++ _) with sample_replies in Hr by (vm_compute; reflexivity).
  exact (f_equal fst Hr).
Defined.
End Session.
