(* ===== verification/Apps.v ===== *)
(** What is built on top of the tunnel: the transports' suits
    (src/transport/h1/init.go, h1pool/h1pool.go, d1/), the backends a SOCKS5
    server chooses from (src/socks/backend), the HTTP proxy (src/h2s/server.go)
    and the two programs' parameters (src/examples). *)
From S2P Require Import Prelude GoIO Strconv Conf Log Lru Http H1 Pool NetAddr Socks5.

(** ** The suits *)
Module Suits.

(** A connection of a suit: an h1 client, or a client of the pool. *)
Inductive transport := H1Transport (c : H1.Client) | PoolTransport (clientId : bytes).

(** [Server] of the three suits: the port is checked, then [serve] listens. *)
Definition suit_server (serve : Z → option error) (cfg : Conf.Values) : option error :=
  let port := Conf.GetInt Conf.PORT cfg in
  if (port <=? 0)%Z || (65535 <? port)%Z then Some (Errorf (lit "invalid serving port.") []) else serve port.

(** [CreateClient]: the client is returned at once; a goroutine connects it and
    relays its traffic. *)
Definition CreateClient (cfg : Conf.Values) (clientId : bytes) : outcome H1.Client := H1.NewClient cfg clientId.

Definition h1_client (cfg : Conf.Values) (clientId : bytes) : outcome transport :=
  c ← CreateClient cfg clientId; Ok (H1Transport c).

Definition d1_client (cfg : Conf.Values) (clientId : bytes) : outcome transport :=
  Err (Errorf (lit "not implemented.") []).

Section suits.
(** The state of the pool's package when a client is made: the prefix of its
    ids, the id drawn, the time, the divided clients and the shared ones. *)
Context (serve : Z → option error) (prefix fresh : bytes) (now : Z) (clients : Client.divided) (range : list Client.client).

Definition pool_client (cfg : Conf.Values) (clientId : bytes) : outcome transport :=
  r ← Client.getClient cfg prefix fresh clientId now clients range; Ok (PoolTransport clientId).

Definition h1_suit := Transport.mk_Suit (lit "h1") true (suit_server serve) h1_client.
Definition h1pool_suit := Transport.mk_Suit (lit "h1pool") true (suit_server serve) pool_client.
Definition d1_suit := Transport.mk_Suit (lit "d1") true (suit_server serve) d1_client.

(** The packages' [init] functions; Go runs them in the order of their imports. *)
Definition registered : Transport.registry transport :=
  foldl (λ r s, Transport.Register s r) ∅ [d1_suit; h1_suit; h1pool_suit].

(** [BackendSecure]: an unknown suit or a failing client is a panic. *)
Definition BackendSecure (suitName : bytes) (params : Conf.Values) (id : bytes) : outcome transport :=
  match Transport.GetSuit suitName registered with
  | None => Panic
  | Some protoSuit =>
      match Transport.Client protoSuit (Conf.Clone params) id with
      | Ok cl => Ok cl
      | _ => Panic
      end
  end.

(** [GetBackend]: [None] is the direct backend, which dials itself. *)
Definition GetBackend (suitName : bytes) (params : Conf.Values) (id : bytes) : outcome (option transport) :=
  if decide (0 < length suitName) then t ← BackendSecure suitName params id; Ok (Some t) else Ok None.
End suits.
End Suits.

(** ** The HTTP proxy (h2s/server.go) *)
Module H2s.
Import Http Socks5.

(** What [handleConn] uses of the request [http.ReadRequest] returns: its
    method and its URL. *)
Record Request := mk_Request { Method : bytes; rURL : URL }.

(** The address to connect to: [None] for an invalid port. *)
Definition target (req : Request) : option bytes :=
  let '(host, port) := H1.splitHostPort (URLHost (rURL req)) in
  let port := if decide (length port ≤ 0) then
                if decide (ToLower (Scheme (rURL req)) = lit "https") then lit "443" else lit "80"
              else port in
  if decide (length port ≤ 0) then None else Some (host ++ lit ":" ++ port).

Definition is_connect (req : Request) : bool := EqualFold (Method req) (lit "connect").
Definition ok_line : bytes := lit "HTTP/1.1 200 OK" ++ crlf ++ crlf.

(** Whether a call returned without an error; with one, [handleConn] returns. *)
Definition succeeds {S A} (m : M S A) : M S bool := try (_ ← m; mret true) (λ _, mret false).

Section serve.
Context {V U T : Type} `{Reader V} `{Writer U} `{Reader T} `{Writer T}.

(** [http.ReadRequest]; and what [req.Write] sends, for which it reads the
    request's body from the same reader. *)
Context (ReadRequest : M (Bufio.bufio V) Request) (RequestWrite : Request → M (Bufio.bufio V) bytes).

(** [handleConn] with its buffered reader over the client's connection [V],
    [U] to write to it, and the connection [T] to the SOCKS5 server: whether it
    relays the two in the end. *)
Definition serve_conn : M ((Bufio.bufio V * U) * T) bool :=
  req ← try (q ← on_fst (on_fst ReadRequest); mret (Some q)) (λ _, mret None);
  match req with
  | None => mret false
  | Some req =>
      match target req with
      | None => mret false
      | Some addr =>
          connected ← succeeds (on_snd (Socks5Connect addr));
          if (connected : bool) then
            if is_connect req then succeeds (on_fst (on_snd (write ok_line)))
            else succeeds (d ← on_fst (on_fst (RequestWrite req)); on_snd (write d))
          else mret false
      end
  end.

(** [handleConn]: [utils.Proxy] then relays the connections themselves; the
    buffered reader is dropped with what it has read ahead. *)
Definition handleConn : M ((V * U) * T) bool := λ s,
  let '((v, u), t) := s in
  let '(r, ((b, u), t)) := serve_conn ((Bufio.NewReader v, u), t) in
  (r, ((Bufio.rd b, u), t)).
End serve.

Record Conf := mk_Conf { Port : Z; ProxyAddr : bytes }.

(** [Server] serves only with a configured port. *)
Definition serves (cfg : option Conf) : bool := match cfg with Some c => (0 <? Port c)%Z | None => false end.
End H2s.

(** ** The programs (examples) *)
Module Examples.

(** examples/socks-server: the settings of the command line, completed by those
    of the configuration file. *)
Record Conf := mk_Conf { PortLocal : Z; ServerUrl : bytes; Psk : bytes; HttpConf : option H2s.Conf }.

Definition merge (cfg cfgBase : Conf) : Conf :=
  mk_Conf (if (PortLocal cfg <=? 0)%Z then PortLocal cfgBase else PortLocal cfg)
          (if decide (length (ServerUrl cfg) ≤ 0) then ServerUrl cfgBase else ServerUrl cfg)
          (if decide (length (Psk cfg) ≤ 0) then Psk cfgBase else Psk cfg)
          (HttpConf cfgBase).

(** [flags] have no [Http]; [file] is the decoded file, if there is one. *)
Definition settings (flags : Conf) (file : option Conf) : Conf :=
  match file with Some cfgBase => merge flags cfgBase | None => flags end.

Definition backend_params (cfg : Conf) : Conf.Values :=
  Conf.Set_ (lit "server_url") (ServerUrl cfg) (Conf.Set_ (lit "framer_psk") (Psk cfg) ∅).

(** The backend the SOCKS5 server opens for a connection. *)
Definition open_backend serve prefix fresh now clients range (cfg : Conf) (id : bytes) : outcome (option Suits.transport) :=
  Suits.GetBackend serve prefix fresh now clients range (lit "h1pool") (backend_params cfg) id.

(** [main] goes on only while the HTTP proxy's [Server] does. *)
Definition goes_on (cfg : Conf) : bool := H2s.serves (HttpConf cfg).

(** examples/transport-server: the port of the environment wins if it is a
    positive number; [None]: the program ends for want of a port. *)
Definition server_port (flag : Z) (env : bytes) : Z :=
  match Atoi env with Ok v => if (0 <? v)%Z then v else flag | _ => flag end.
Definition server_params (flag : Z) (psk : bytes) (useTLS : bool) (env : bytes) : option Conf.Values :=
  let port := server_port flag env in
  if (port <=? 0)%Z then None
  else Some (Conf.Set_ (lit "tls") (if useTLS then lit "yes" else [])
              (Conf.Set_ (lit "framer_psk") psk (Conf.Set_ (lit "port") (format_int port) ∅))).

(** The parsed command line of examples/socks-server. *)
Record Flags := mk_Flags { displayVersion : bool; debug : bool; cfgPath : bytes; cfg : Conf }.

Definition log_level (debug : bool) : Z := if debug then Log.DEBUG else Log.INFO.

(** The configuration file, if there is a readable one that decodes: [ReadFile]
    is [os.ReadFile], [Unmarshal] the decoding into a fresh [Conf]. *)
Definition load (ReadFile : bytes → outcome bytes) (Unmarshal : bytes → outcome Conf) (path : bytes) : option Conf :=
  if decide (0 < length path) then
    match ReadFile path with
    | Ok dat => match Unmarshal dat with Ok cfgBase => Some cfgBase | _ => None end
    | _ => None
    end
  else None.

(** What [main] starts: the HTTP proxy's server always, the SOCKS5 server if
    there is a port for it, with the parameters of its backends. *)
Inductive program := ShowVersion | Run (level : Z) (http : option H2s.Conf) (socks : option (Z * Conf.Values)).

Definition main ReadFile Unmarshal (flags : Flags) : program :=
  if displayVersion flags then ShowVersion else
  let cfg := settings (cfg flags) (load ReadFile Unmarshal (cfgPath flags)) in
  Run (log_level (debug flags)) (HttpConf cfg)
    (if (0 <? PortLocal cfg)%Z then Some (PortLocal cfg, backend_params cfg) else None).

(** Each of the two goroutines signals [chFatal] when its server returns; the
    process ends with the first signal, as the context is never cancelled. *)
Definition exits (p : program) (http_returns socks_returns : bool) : bool :=
  match p with
  | ShowVersion => true
  | Run _ _ socks => http_returns || (bool_decide (is_Some socks) && socks_returns)
  end.

(** examples/transport-server: the error [transport.GetSuit("h1pool").Server]
    returns is logged; [None]: nothing was started. *)
Record ServerFlags := mk_ServerFlags { sdisplayVersion : bool; sdebug : bool; useTLS : bool; port : Z; psk : bytes }.

Definition server_main (serve : Z → option error) (env : bytes) (flags : ServerFlags) : option (option error) :=
  if sdisplayVersion flags then None else
  match server_params (port flags) (psk flags) (useTLS flags) env with
  | None => None
  | Some params => Some (Suits.suit_server serve params)
  end.
End Examples.

(** ** Facts *)
Section target_spec.
Import Http NetAddr Socks5.

Lemma last_colon_none (s : bytes) : (Byte.x3a ∉ s) → H1.last_colon s = None.
Proof.
  induction s as [|b s IH]; [done|]. rewrite not_elem_of_cons. intros [Hb Hs]. cbn [H1.last_colon].
  rewrite IH by done. by rewrite decide_False.
Qed.

Lemma last_colon_app (h p : bytes) : (Byte.x3a ∉ p) → H1.last_colon (h ++ Byte.x3a :: p) = Some (h, p).
Proof.
  intros Hp. induction h as [|b h IH]; cbn [app H1.last_colon].
  - rewrite last_colon_none by done. by rewrite decide_True.
  - by rewrite IH.
Qed.

Lemma digits_all (s : bytes) (acc v : Z) : digits_val s acc = Some v → H1.all_digits s = true.
Proof.
  revert acc. induction s as [|b s IH]; intros acc; [done|]. unfold H1.all_digits. cbn [digits_val forallb].
  destruct (digit_val b); [|done]. intros Hs. rewrite bool_decide_eq_true_2 by done. by apply (IH _ Hs).
Qed.

Lemma unbracketed (host port : bytes) :
  (Byte.x5b ∉ host) →
  match host with
  | b :: t => if decide (b = Byte.x5b ∧ last t = Some Byte.x5d) then (take (length t - 1) t, port) else (host, port)
  | [] => (host, port)
  end = (host, port).
Proof. destruct host as [|b t]; [done|]. rewrite not_elem_of_cons. intros [Hb _]. rewrite decide_False; [done|]. by intros [-> _]. Qed.

Lemma split_join (host : bytes) (port : Z) :
  (Byte.x5b ∉ host) → (0 <= port)%Z → H1.splitHostPort (join_port host port) = (host, format_uint port).
Proof.
  intros Hh Hp. unfold join_port, format_int. destruct (Z.ltb_spec port 0); [lia|].
  change (lit ":" ++ ?x) with (Byte.x3a :: x). unfold H1.splitHostPort.
  rewrite last_colon_app by (by apply (plain_not_in _ Byte.x3a), eq_refl; apply NetAddr.format_uint_plain).
  rewrite (digits_all _ 0 port) by (by apply format_uint_val). by apply unbracketed.
Qed.

Lemma split_bare (host : bytes) :
  forallb plain host = true → H1.splitHostPort host = (host, []).
Proof.
  intros Hh. unfold H1.splitHostPort. rewrite last_colon_none by (by apply plain_not_in).
  apply unbracketed. by apply plain_not_in.
Qed.

(** The port used when the URL names none. *)
Definition default_port (scheme : bytes) : Z := if decide (ToLower scheme = lit "https") then 443 else 80.

Definition names (req : H2s.Request) (host : bytes) (port : Z) : Prop :=
  URLHost (H2s.rURL req) = join_port host port ∨
  URLHost (H2s.rURL req) = host ∧ port = default_port (Scheme (H2s.rURL req)).

Lemma target_ok (req : H2s.Request) (host : bytes) (port : Z) :
  forallb plain host = true → (0 <= port)%Z → names req host port → H2s.target req = Some (join_port host port).
Proof.
  intros Hh Hp [Hu|[Hu ->]]; unfold H2s.target; rewrite Hu.
  - rewrite split_join by (done || by apply plain_not_in).
    destruct (format_uint_cons port Hp) as (b & l & E & _). rewrite E.
  assert (Hn : ¬ length (b :: l) ≤ 0) by (cbn; lia). rewrite !(decide_False _ _ Hn).
    unfold join_port, format_int. destruct (Z.ltb_spec port 0); [lia|]. by rewrite E.
  - rewrite split_bare by done. rewrite (decide_True (P := length (@nil byte) ≤ 0) _ _ (le_n 0)).
    unfold default_port. by destruct (decide (ToLower _ = _)).
Qed.

(** A bracketed address loses its brackets. *)
Lemma target_brackets (req : H2s.Request) (v6 : bytes) (port : Z) :
  URLHost (H2s.rURL req) = lit "[" ++ v6 ++ lit "]" ++ lit ":" ++ format_uint port → (0 <= port)%Z →
  H2s.target req = Some (join_port v6 port).
Proof.
  intros Hu Hp. unfold H2s.target. rewrite Hu.
  assert (Hs : H1.splitHostPort (lit "[" ++ v6 ++ lit "]" ++ lit ":" ++ format_uint port) = (v6, format_uint port)).
  { change (lit "[" ++ v6 ++ lit "]" ++ lit ":" ++ format_uint port)
      with (Byte.x5b :: v6 ++ [Byte.x5d] ++ Byte.x3a :: format_uint port).
    unfold H1.splitHostPort. rewrite app_assoc, app_comm_cons.
    rewrite last_colon_app by (by apply (plain_not_in _ Byte.x3a), eq_refl; apply NetAddr.format_uint_plain).
    rewrite (digits_all _ 0 port) by (by apply format_uint_val).
    rewrite decide_True by (by rewrite last_snoc). rewrite length_app. cbn [length].
    replace (length v6 + 1 - 1) with (length v6) by lia. by rewrite take_app_length. }
  rewrite Hs. destruct (format_uint_cons port Hp) as (b & l & E & _). rewrite E.
  assert (Hn : ¬ length (b :: l) ≤ 0) by (cbn; lia). rewrite !(decide_False _ _ Hn).
  unfold join_port, format_int. destruct (Z.ltb_spec port 0); [lia|]. by rewrite E.
Qed.
End target_spec.

Lemma succeeds_ok {S A} (m : M S A) (s s' : S) (a : A) : m s = (Ok a, s') → H2s.succeeds m s = (Ok true, s').
Proof. intros Hm. unfold H2s.succeeds, try. by run Hm. Qed.

Lemma succeeds_err {S A} (m : M S A) (s s' : S) (e : error) : m s = (Err e, s') → H2s.succeeds m s = (Ok false, s').
Proof. intros Hm. unfold H2s.succeeds, try. by run Hm. Qed.

(** A suit's client for a configuration with a server. *)
Lemma pool_client_ok (serve : Z → option error) (prefix fresh : bytes) (now : Z) (clients : Client.divided) (cfg : Conf.Values) (id : bytes) :
  let open := Suits.GetBackend serve prefix fresh now clients [] (lit "h1pool") cfg id in
  (Conf.Get Conf.SERVER_URL cfg = [] → open = Panic) ∧
  (Conf.Get Conf.SERVER_URL cfg ≠ [] → open = Ok (Some (Suits.PoolTransport id))).
Proof.
  cbn zeta. unfold Suits.GetBackend. rewrite decide_True by (cbn; lia). unfold Suits.BackendSecure.
  assert (Hg : Transport.GetSuit (lit "h1pool") (Suits.registered serve prefix fresh now clients [])
               = Some (Suits.h1pool_suit serve prefix fresh now clients [])) by apply lookup_insert_eq.
  rewrite Hg. cbn [Transport.Client Suits.h1pool_suit]. rewrite Conf.Clone_eq.
  unfold Suits.pool_client, Client.getClient, Client.tryAddNewSharedClient. cbn [foldl].
  change ((0 <? 5)%Z && (0 =? 0)%Z) with true. cbn match. unfold H1.NewClient.
  rewrite decide_False by (rewrite !length_app; cbn; lia). split.
  - intros ->. reflexivity.
  - intros Hne. rewrite decide_False; [done|]. intros Hl. apply Hne. apply nil_length_inv. lia.
Qed.

(** ** Properties *)
Section properties.
Import Http NetAddr Socks5.

(** The request [req] is [head], and [body] if it has one: what is documented
    of [http.ReadRequest] and [req.Write], which read no further from the
    buffered reader, whatever it reads from; [raw] is what is sent for it. *)
Record is_request {V} `{Reader V} (ReadRequest : M (Bufio.bufio V) H2s.Request)
    (RequestWrite : H2s.Request → M (Bufio.bufio V) bytes) (req : H2s.Request) (head body raw : bytes) : Prop := {
  reads_head Q (b : Bufio.bufio V) rest : fills Q → buffered Q b (head ++ rest) →
    ∃ b', ReadRequest b = (Ok req, b') ∧ buffered Q b' rest;
  sends_body Q (b : Bufio.bufio V) rest : fills Q → buffered Q b (body ++ rest) →
    ∃ b', RequestWrite req b = (Ok raw, b') ∧ buffered Q b' rest;
}.

Section h2s.
Context {R W V U : Type} `{ReaderLaws R} `{WriterLaws W} `{Reader V} `{WriterLaws U}.
Context (ReadRequest : M (Bufio.bufio V) H2s.Request) (RequestWrite : H2s.Request → M (Bufio.bufio V) bytes).

(** What of the request's body is read, what is sent into the tunnel, and what
    is answered. *)
Definition taken_body (req : H2s.Request) (body : bytes) : bytes := if H2s.is_connect req then [] else body.
Definition sent_on (req : H2s.Request) (raw : bytes) : bytes := if H2s.is_connect req then [] else raw.
Definition answer_of (req : H2s.Request) : bytes := if H2s.is_connect req then H2s.ok_line else [].

(** The HTTP proxy's part, on a client's connection of any kind. *)
Lemma h2s_run (Q : V → bytes → Prop) (req : H2s.Request) (head body raw host : bytes) (port : Z)
    (v : V) (u : U) (r : R) (w : W) (rest more : bytes) :
  fills Q → is_request ReadRequest RequestWrite req head body raw →
  nameable host → (0 <= port < 65536)%Z → names req host port →
  Q v (head ++ taken_body req body ++ more) → delivers r (([byte_of 5; Byte.x00] ++ reply_ok) ++ rest) →
  write_pre w (262 + length (sent_on req raw)) → write_pre u 19 →
  ∃ b u' r' w', H2s.handleConn ReadRequest RequestWrite ((v, u), Duplex.mk_duplex r w)
                = (Ok true, ((Bufio.rd b, u'), Duplex.mk_duplex r' w')) ∧
    emitted w w' (client_bytes host port ++ sent_on req raw) ∧ emitted u u' (answer_of req) ∧
    delivers r' rest ∧ buffered Q b more.
Proof.
  intros HQ [Hread Hsend] Hh Hport Hn Hv Hr Hw Hu.
  destruct (Hread Q (Bufio.NewReader v) _ HQ (buffered_new Q v _ Hv)) as (b1 & R1 & B1).
  destruct (socks5_client host port r w rest Hh Hport Hr) as (r1 & w1 & Hrun & He & Hd1); [eapply write_pre_mono; [exact Hw|lia]|].
  assert (R1' : try (q ← on_fst (on_fst ReadRequest); mret (Some q)) (λ _, mret None)
      ((Bufio.NewReader v, u), Duplex.mk_duplex r w) = (Ok (Some req), ((b1, u), Duplex.mk_duplex r w))).
  { unfold try. by run (run_fst _ _ _ (Duplex.mk_duplex r w) _ (run_fst _ _ _ u _ R1)). }
  assert (Hc1 : on_snd (A := Bufio.bufio V * U) (Socks5Connect (join_port host port)) ((b1, u), Duplex.mk_duplex r w)
      = (Ok tt, ((b1, u), Duplex.mk_duplex r1 w1))) by (by apply run_snd).
  assert (Hserve : ∃ b' u' w', H2s.serve_conn ReadRequest RequestWrite ((Bufio.NewReader v, u), Duplex.mk_duplex r w)
      = (Ok true, ((b', u'), Duplex.mk_duplex r1 w')) ∧ emitted w w' (client_bytes host port ++ sent_on req raw) ∧
      emitted u u' (answer_of req) ∧ buffered Q b' more).
  { unfold H2s.serve_conn. run R1'. destruct Hh as [Hp _]. rewrite (target_ok req host port Hp) by (lia || done).
    run (succeeds_ok _ _ _ _ Hc1). unfold taken_body, sent_on, answer_of in *. destruct (H2s.is_connect req).
    - destruct (write_law u H2s.ok_line Hu) as (n & u1 & Hwu & Heu). exists b1, u1, w1.
      rewrite app_nil_r. split; [|done]. apply (succeeds_ok _ _ _ n). by apply run_fst, run_snd.
    - destruct (Hsend Q b1 more HQ B1) as (b2 & R2 & B2).
      destruct (write_law w1 raw) as (n & w2 & Hww & Hew).
      { eapply write_pre_emitted; [|exact He]. eapply write_pre_mono; [exact Hw|lia]. }
      exists b2, u, w2. split; [|split; [by eapply emitted_app|split; [apply emitted_nil|done]]].
      apply (succeeds_ok _ _ _ n). run (run_fst _ _ _ (Duplex.mk_duplex r1 w1) _ (run_fst _ _ _ u _ R2)).
      apply run_snd. by apply Duplex.duplex_write. }
  destruct Hserve as (b' & u' & w' & Hs & He' & Hu' & Hb'). exists b', u', r1, w'.
  split; [|done]. unfold H2s.handleConn. by rewrite Hs.
Qed.
End h2s.

(** C22: the HTTP proxy reaches what was asked for through the SOCKS5 server:
    for a request to a host name or IPv4 address, with a port or with its
    scheme's, the server dials exactly that address; then the client gets the
    answer to CONNECT, or its request is sent on into the tunnel.  Then the
    connections are relayed: what follows the server's replies is still to be
    read, and so is, at both servers, what the client sends in its turn after
    the request.  What it sends earlier may be lost, a part at the front: each
    of the two servers drops its buffered reader. *)
Theorem h2s_serves {R W T S V U C} `{ReaderLaws R} `{WriterLaws W} `{ReaderLaws T} `{WriterLaws S} `{ReaderLaws V} `{WriterLaws U}
    (ReadRequest : M (Bufio.bufio V) H2s.Request) (RequestWrite : H2s.Request → M (Bufio.bufio V) bytes)
    (dial : linker → bytes → outcome C) (options : Options) (req : H2s.Request) (head body raw host : bytes) (port : Z) (c : C) :
  is_request ReadRequest RequestWrite req head body raw →
  nameable host → (0 <= port < 65536)%Z → names req host port →
  dial (choose_linker options (is_local host)) (join_port host port) = Ok c →
  ∃ request replies,
    (∀ (v : V) (u : U) (r : R) (w : W) (rest more : bytes),
       delivers r (replies ++ rest) → write_pre w (262 + length (sent_on req raw)) → write_pre u 19 →
       (in_turn v (head ++ taken_body req body) more →
        ∃ v' u' r' w', H2s.handleConn ReadRequest RequestWrite ((v, u), Duplex.mk_duplex r w)
                       = (Ok true, ((v', u'), Duplex.mk_duplex r' w')) ∧
          emitted w w' (request ++ sent_on req raw) ∧ emitted u u' (answer_of req) ∧ delivers r' rest ∧ delivers v' more) ∧
       (delivers v (head ++ taken_body req body ++ more) →
        ∃ v' u' r' w' lost kept, H2s.handleConn ReadRequest RequestWrite ((v, u), Duplex.mk_duplex r w)
                       = (Ok true, ((v', u'), Duplex.mk_duplex r' w')) ∧
          emitted w w' (request ++ sent_on req raw) ∧ emitted u u' (answer_of req) ∧ delivers r' rest ∧
          more = lost ++ kept ∧ delivers v' kept)) ∧
    (∀ (s : T) (o : S) (more : bytes), in_turn s request more → write_pre o 10 →
     ∃ s' o', Socks5.handleConn dial options (s, o)
              = (Ok (Some (choose_linker options (is_local host), join_port host port, c)), (s', o')) ∧
       emitted o o' replies ∧ delivers s' more).
Proof.
  intros Hreq Hh Hport Hn Hdial. exists (client_bytes host port), ([byte_of 5; Byte.x00] ++ reply_ok). split.
  - intros v u r w rest more Hr Hw Hu. split.
    + intros Hv. rewrite <- (app_nil_r (taken_body req body)) in Hv.
      destruct (h2s_run ReadRequest RequestWrite _ req head body raw host port v u r w rest [] (fills_in_turn more))
        as (b & u' & r' & w' & E & Hw' & Hu' & Hr' & Hb); try done.
      exists (Bufio.rd b), u', r', w'. do 4 (split; [done|]). by apply buffered_in_turn.
    + intros Hv. destruct (h2s_run ReadRequest RequestWrite _ req head body raw host port v u r w rest more fills_delivers)
        as (b & u' & r' & w' & E & Hw' & Hu' & Hr' & Hb); try done.
      destruct (buffered_lost _ b more Hb) as (lost & kept & Em & Hk). by exists (Bufio.rd b), u', r', w', lost, kept.
  - intros s o more Hs Ho. rewrite <- (app_nil_r (client_bytes host port)) in Hs.
    destruct (socks5_server _ dial options host port c s o [] (fills_in_turn more) Hh Hport Hdial Hs Ho) as (b & o' & E & He & Hb).
    exists (Bufio.rd b), o'. split; [exact E|]. split; [done|]. by apply buffered_in_turn.
Qed.

(** A request read for the examples: a head of a known length, and no body. *)
Definition sample_head : bytes := lit "CONNECT example.com:443 HTTP/1.1" ++ crlf ++ crlf.
Definition sample_request : H2s.Request := H2s.mk_Request (lit "CONNECT") (mk_URL [] (lit "example.com:443") [] []).
Definition sample_read {V} `{Reader V} : M (Bufio.bufio V) H2s.Request := _ ← ReadFull (length sample_head); mret sample_request.
Definition sample_write {V} `{Reader V} (req : H2s.Request) : M (Bufio.bufio V) bytes := mret sample_head.

Lemma sample_is_request {V} `{Reader V} : is_request (V := V) sample_read sample_write sample_request sample_head [] sample_head.
Proof.
  split; intros Q b rest HQ Hb; [|by exists b].
  destruct (bufio_ReadFull Q HQ (length sample_head) b sample_head rest Hb eq_refl) as (b' & Hr & Hb').
  exists b'. split; [|done]. unfold sample_read. by run Hr.
Qed.

Lemma h2s_serves_witness :
  ∃ request replies,
    (∀ (r : Conn.conn) (rest : bytes) ps qs, delivers r (replies ++ rest) → Net.stream ps = sample_head →
     ∃ v' u' r' w', H2s.handleConn sample_read sample_write
                      ((Net.mk_conn (ps ++ qs), Buf.mk_buffer []), Duplex.mk_duplex r (Buf.mk_buffer []))
                    = (Ok true, ((v', u'), Duplex.mk_duplex r' w')) ∧
       Buf.buf_bytes w' = request ∧ Buf.buf_bytes u' = H2s.ok_line ∧ delivers r' rest ∧ delivers v' (Net.stream qs)) ∧
    (∀ ps qs, Net.stream ps = request →
     ∃ s' o', Socks5.handleConn (λ _ _, Ok tt) sample_options (Net.mk_conn (ps ++ qs), Buf.mk_buffer [])
              = (Ok (Some (choose_linker sample_options false, lit "example.com:443", tt)), (s', o')) ∧
       Buf.buf_bytes o' = replies ∧ delivers s' (Net.stream qs)).
Proof.
  destruct (h2s_serves (R := Conn.conn) (W := Buf.buffer) (T := Net.conn) (S := Buf.buffer) (V := Net.conn) (U := Buf.buffer)
              sample_read sample_write (λ _ _, Ok tt) sample_options sample_request sample_head [] sample_head
              (lit "example.com") 443 tt) as (request & replies & H1 & H2).
  - apply sample_is_request.
  - split; [reflexivity|]. left. split; [reflexivity|cbn; lia].
  - lia.
  - left. reflexivity.
  - reflexivity.
  - exists request, replies. split.
    + intros r rest ps qs Hr Hs.
      destruct (H1 (Net.mk_conn (ps ++ qs)) (Buf.mk_buffer []) r (Buf.mk_buffer []) rest (Net.stream qs) Hr I I) as [H3 _].
      destruct H3 as (v' & u' & r' & w' & E & E1 & E2 & E3 & E4).
      { change (taken_body sample_request []) with (@nil byte). rewrite app_nil_r, <- Hs. apply net_in_turn. }
      exists v', u', r', w'. split; [exact E|]. cbn in E1, E2. rewrite app_nil_r in E1. done.
    + intros ps qs Hs. subst request. exact (H2 (Net.mk_conn (ps ++ qs)) (Buf.mk_buffer []) (Net.stream qs) (net_in_turn ps qs) I).
Defined.

(** So a client that does not wait for the answer to its CONNECT loses what it
    sends with it: all in one segment, the relay starts with nothing to read. *)
Theorem h2s_early_data_lost {R W U} `{ReaderLaws R} `{WriterLaws W} `{WriterLaws U}
    (ReadRequest : M (Bufio.bufio Net.conn) H2s.Request) (RequestWrite : H2s.Request → M (Bufio.bufio Net.conn) bytes)
    (req : H2s.Request) (head body raw host : bytes) (port : Z) (v : Net.conn) (u : U) (r : R) (w : W) (rest more : bytes) :
  is_request ReadRequest RequestWrite req head body raw → H2s.is_connect req = true → 0 < length head →
  nameable host → (0 <= port < 65536)%Z → names req host port →
  one_segment v (head ++ more) → delivers r (([byte_of 5; Byte.x00] ++ reply_ok) ++ rest) → write_pre w 262 → write_pre u 19 →
  ∃ v' u' t', H2s.handleConn ReadRequest RequestWrite ((v, u), Duplex.mk_duplex r w) = (Ok true, ((v', u'), t')) ∧
    emitted u u' H2s.ok_line ∧ delivers v' [].
Proof.
  intros Hreq Hc Hl Hh Hport Hn Hv Hr Hw Hu. assert (Hb0 : taken_body req body = []) by (unfold taken_body; by rewrite Hc).
  destruct (h2s_run ReadRequest RequestWrite _ req head body raw host port v u r w rest more (fills_at_once v _ Hv) Hreq Hh Hport Hn)
    as (b & u' & r' & w' & E & _ & Hu' & _ & Hb); [rewrite Hb0; by left|done| |done|].
  { unfold sent_on. by rewrite Hc, Nat.add_0_r. }
  exists (Bufio.rd b), u', (Duplex.mk_duplex r' w'). split; [done|].
  split; [unfold answer_of in Hu'; by rewrite Hc in Hu'|].
  apply (buffered_at_once v (head ++ more) more b Hb). rewrite length_app. lia.
Qed.

Lemma h2s_early_data_lost_witness :
  ∃ v' u' t', H2s.handleConn sample_read sample_write
      ((Net.mk_conn [(Byte.x43, drop 1 sample_head ++ lit "hello")], Buf.mk_buffer []),
       Duplex.mk_duplex (Buf.mk_reader (([byte_of 5; Byte.x00] ++ reply_ok) ++ [])) (Buf.mk_buffer []))
      = (Ok true, ((v', u'), t')) ∧ emitted (Buf.mk_buffer []) u' H2s.ok_line ∧ delivers v' [].
Proof.
  apply (h2s_early_data_lost sample_read sample_write sample_request sample_head [] sample_head (lit "example.com") 443
           (Net.mk_conn [(Byte.x43, drop 1 sample_head ++ lit "hello")]) (Buf.mk_buffer [])
           (Buf.mk_reader (([byte_of 5; Byte.x00] ++ reply_ok) ++ [])) (Buf.mk_buffer []) [] (lit "hello")).
  - apply sample_is_request.
  - reflexivity.
  - cbn. lia.
  - split; [reflexivity|]. left. split; [reflexivity|cbn; lia].
  - lia.
  - left. reflexivity.
  - split; [vm_compute; reflexivity|]. split; [cbn; lia|]. unfold Bufio.bufio_size. apply Nat2Z.inj_le.
    rewrite Z2Nat.id by lia. vm_compute. discriminate.
  - reflexivity.
  - exact I.
  - exact I.
Defined.

(** IPv6 destinations cannot be reached through the HTTP proxy either: the
    URL's brackets are lost on the way to [Socks5Connect], which refuses the
    address before it has written a byte; the client's connection is closed
    without an answer. *)
Theorem h2s_ipv6_refused {V U T} `{ReaderLaws V} `{Writer U} `{Reader T} `{Writer T}
    (ReadRequest : M (Bufio.bufio V) H2s.Request) (RequestWrite : H2s.Request → M (Bufio.bufio V) bytes)
    (req : H2s.Request) (head body raw v6 rest : bytes) (port : Z) (v : V) (u : U) (t : T) :
  is_request ReadRequest RequestWrite req head body raw → delivers v (head ++ rest) →
  URLHost (H2s.rURL req) = lit "[" ++ v6 ++ lit "]" ++ lit ":" ++ format_uint port →
  (0 <= port)%Z → (Byte.x3a ∈ v6) → v6 !! 0 ≠ Some Byte.x5b →
  H2s.target req = Some (join_port v6 port) ∧
  ∃ v', H2s.handleConn ReadRequest RequestWrite ((v, u), t) = (Ok false, ((v', u), t)).
Proof.
  intros [Hread _] Hv Hu Hp Hc Hb. pose proof (target_brackets req v6 port Hu Hp) as Ht. split; [done|].
  destruct (Hread _ (Bufio.NewReader v) _ fills_delivers (buffered_new _ v _ Hv)) as (b1 & R1 & _). exists (Bufio.rd b1).
  assert (R1' : try (q ← on_fst (on_fst ReadRequest); mret (Some q)) (λ _, mret None)
      ((Bufio.NewReader v, u), t) = (Ok (Some req), ((b1, u), t))).
  { unfold try. by run (run_fst _ _ _ t _ (run_fst _ _ _ u _ R1)). }
  assert (He : on_snd (A := Bufio.bufio V * U) (Socks5Connect (join_port v6 port)) ((b1, u), t) = (Err addr_error, ((b1, u), t))).
  { apply run_snd. unfold Socks5Connect. rewrite SplitHostPort_colon by done. reflexivity. }
  assert (Hs : H2s.serve_conn ReadRequest RequestWrite ((Bufio.NewReader v, u), t) = (Ok false, ((b1, u), t))).
  { unfold H2s.serve_conn. run R1'. rewrite Ht. by run (succeeds_err _ _ _ _ He). }
  unfold H2s.handleConn. by rewrite Hs.
Qed.

Definition v6_head : bytes := lit "CONNECT [2001:db8::1]:8080 HTTP/1.1" ++ crlf ++ crlf.
Definition v6_request : H2s.Request := H2s.mk_Request (lit "CONNECT") (mk_URL [] (lit "[2001:db8::1]:8080") [] []).

Lemma h2s_ipv6_refused_witness :
  ∃ v', H2s.handleConn (_ ← ReadFull (length v6_head); mret v6_request) sample_write
      ((Conn.mk_conn [v6_head], Buf.mk_buffer []), Duplex.mk_duplex (Buf.mk_reader []) (Buf.mk_buffer []))
    = (Ok false, ((v', Buf.mk_buffer []), Duplex.mk_duplex (Buf.mk_reader []) (Buf.mk_buffer []))).
Proof.
  apply (h2s_ipv6_refused (_ ← ReadFull (length v6_head); mret v6_request) sample_write v6_request v6_head [] sample_head
           (lit "2001:db8::1") [] 8080); [|by rewrite app_nil_r|reflexivity|lia|cbn; repeat (left || right)|discriminate].
  split; intros Q b rest HQ Hb; [|by exists b].
  destruct (bufio_ReadFull Q HQ (length v6_head) b v6_head rest Hb eq_refl) as (b' & Hr & Hb').
  exists b'. split; [by run Hr|done].
Defined.
End properties.

(** Without an HTTP section the client program ends as soon as it has started,
    whatever its SOCKS5 server does; with one, the SOCKS5 server's return ends
    it. *)
Lemma main_goes_on ReadFile Unmarshal (flags : Examples.Flags) (socks_returns : bool) :
  Examples.displayVersion flags = false →
  let cfg := Examples.settings (Examples.cfg flags) (Examples.load ReadFile Unmarshal (Examples.cfgPath flags)) in
  Examples.exits (Examples.main ReadFile Unmarshal flags) (negb (Examples.goes_on cfg)) socks_returns
  = negb (Examples.goes_on cfg) || ((0 <? Examples.PortLocal cfg)%Z && socks_returns).
Proof.
  intros Hv cfg. unfold Examples.main. rewrite Hv. fold cfg. cbn [Examples.exits].
  by destruct (0 <? Examples.PortLocal cfg)%Z.
Qed.

(** The settings decide whether the programs work: a command-line setting
    wins over the file's; without a server URL in either the first SOCKS5
    connection panics, with one it gets a client of the pool; and the transport
    server listens on the environment's port if that is a positive number, on
    the flag's otherwise, and only if it is a legal one. *)
Theorem settings_effect (serve : Z → option error) (prefix fresh : bytes) (now : Z) (clients : Client.divided)
    (flags base : Examples.Conf) (id psk env : bytes) (tls : bool) (flag : Z) :
  let cfg := Examples.settings flags (Some base) in
  let url := if decide (Examples.ServerUrl flags = []) then Examples.ServerUrl base else Examples.ServerUrl flags in
  let open := Examples.open_backend serve prefix fresh now clients [] cfg id in
  Examples.ServerUrl cfg = url ∧
  open = (if decide (url = []) then Panic else Ok (Some (Suits.PoolTransport id))) ∧
  match Examples.server_params flag psk tls env with
  | None => (Examples.server_port flag env <= 0)%Z
  | Some params => (Examples.server_port flag env < 2 ^ 63)%Z →
      Suits.suit_server serve params =
      if (Examples.server_port flag env <=? 65535)%Z then serve (Examples.server_port flag env)
      else Some (Errorf (lit "invalid serving port.") [])
  end.
Proof.
  cbn zeta. set (url := if decide (Examples.ServerUrl flags = []) then _ else _).
  assert (Hurl : Examples.ServerUrl (Examples.settings flags (Some base)) = url).
  { unfold url. cbn [Examples.settings Examples.merge Examples.ServerUrl].
    destruct (Examples.ServerUrl flags); [by rewrite !decide_True|]. by rewrite !decide_False by (cbn; lia || done). }
  split; [exact Hurl|]. split.
  - destruct (pool_client_ok serve prefix fresh now clients
      (Examples.backend_params (Examples.settings flags (Some base))) id) as [H1 H2].
    assert (Hget : Conf.Get Conf.SERVER_URL (Examples.backend_params (Examples.settings flags (Some base))) = url).
    { unfold Examples.backend_params. rewrite Conf.Get_Set. exact Hurl. }
    rewrite Hget in H1, H2. unfold Examples.open_backend. destruct (decide (url = [])); auto.
  - unfold Examples.server_params. set (port := Examples.server_port flag env).
    destruct (Z.leb_spec port 0) as [|Hp]; [done|]. intros Hmax. unfold Suits.suit_server.
    assert (Hget : Conf.GetInt Conf.PORT (Conf.Set_ (lit "tls") (if tls then lit "yes" else [])
        (Conf.Set_ (lit "framer_psk") psk (Conf.Set_ (lit "port") (format_int port) ∅))) = port).
    { unfold Conf.GetInt, Conf.Set_. rewrite !lookup_insert_ne by done.
      change Conf.PORT with (lit "port"). rewrite lookup_insert_eq. unfold Atoi. by rewrite ParseInt_format by lia. }
    rewrite Hget. destruct (Z.leb_spec port 0); [lia|]. cbn [orb].
    destruct (Z.ltb_spec 65535 port); destruct (Z.leb_spec port 65535); (lia || done).
Qed.
